(* ===== verification/_CoqProject ===== *)
-Q . S2P
Prelude.v
Hdlc.v
Common.v
Subscriber.v
SyncQueue.v
BoostLog.v
LogTests.v
MuxMessage.v
BasePicard.v
PicardLink.v
SerialRead.v
SerialRestart.v
BoostClient.v
Options.v
LinkSetup.v
ClientManager.v
ManagerSpec.v
CommandOrder.v
ClientStream.v
SerialMux.v
EndToEnd.v
Main.v
NtService.v
ServiceDemo.v
SocketErrors.v
Locks.v
Threads.v
ClrUtils.v
PicardClr.v
ClrClients.v
ClrMain.v
