(* ===== verification/Prelude.v ===== *)
(** * The Serial API Multiplexer: a verification library

    The program under [src/] lets several TCP clients share one serial
    connection to a network manager ("Picard").  This library models it and proves
    what makes it correct, and where the code does not do what it means to.

    ** The program

    - Bytes from the serial port are HDLC frames ([HDLC.cpp]); their payloads are
      Serial API frames ([BasePicard.cpp]), which the read loop of the Picard
      thread acknowledges and hands to the client manager.
    - Bytes from a client are mux messages ([MuxMessageParser.cpp]).  The first
      must be a hello with the authentication token ([BoostClient.cpp]); later ones
      are queued ([SyncQueue.h]) for the command thread of the manager.
    - The manager ([BoostClientManager.cpp]) sends one command at a time, with
      retries, gives the response to the client that asked, sends notifications to
      the subscribed clients ([Subscriber.cpp]), and subscribes at Picard to the
      union of the clients' filters.
    - [serial_mux.cpp] creates and connects these, listens for clients
      ([BoostClientListener.cpp]) once Picard has answered, and takes everything
      down and starts again when the connection is reset.  It runs from the
      console or as a Windows service ([ext-tools/NTService]).
    - Beside it: the options ([SerialMuxOptions.cpp]) and the log
      ([ext-tools/LogUtilities]).

    ** The files

    - [Prelude] (this file): undefined behaviour as a value ([outcome], [ub_kind]),
      the error monad, runs of step functions and relations ([foldM], [steps]),
      machine words ([u8], [u16], [u32], [i32]), [std::vector] ([vat], [vset]),
      hint and rewrite databases.
    - [Hdlc] ([HDLC.h], [HDLC.cpp]): modules [Fcs], [Encoder], [Receiver] and
      [Delivery], the theorems that join them; class [IHDLCParser].
    - [Common] ([Common.h], [Common.cpp], [Version.h], [Version.cpp], [Build.h]),
      [Subscriber] ([Subscriber.h], [Subscriber.cpp]; class [ISubscriber] and its
      laws [SubscriberLaws]), [SyncQueue] ([SyncQueue.h]), [BoostLog] ([BoostLog.h],
      [BoostLog.cpp]; its unit tests, [unit_test/log_tests.cpp], are
      [LogTests]), [MuxMessage] ([MuxMessageParser.h], [MuxMessageParser.cpp];
      class [ICommandCallback]), [Options] ([SerialMuxOptions.h],
      [SerialMuxOptions.cpp]).
    - [BasePicard] ([PicardInterfaces.h], [BasePicard.h], [BasePicard.cpp]):
      [CBasePicardIO] against the classes [IPicardCallback], [IPicardLink],
      [IPicardRead] and [IConnectionReset].  [PicardLink] ([PicardBoost.cpp])
      implements the two links, and in [PicardDevice] either; [SerialRead] (also
      [PicardBoost.cpp]) opens up the one step [serial_read] into the asynchronous
      read behind it, and [SerialRestart] follows that read past the deletion of its
      link; [LinkSetup] holds the constructors of both links.
    - [BoostClient] ([BoostClient.h], [BoostClient.cpp]) against the class
      [ISimpleClientList]; [ClientManager] ([BoostClientManager.h],
      [BoostClientManager.cpp]) implements that class and [IPicardCallback] on a
      store of shared clients and uses [IPicardIO]; [ManagerSpec] holds what it
      promises, [CommandOrder] and [ClientStream] the order of commands, from a
      client's bytes to Picard.
    - [SerialMux] ([BoostClientListener.h], [BoostClientListener.cpp] and the
      components of [serial_mux.cpp]) composes all of them over either link, and
      [EndToEnd] follows a command through it;
      [Main] ([serial_mux_loop], [serial_mux_stop], [main]) is the process around
      it; [NtService] ([nt_service.h], [nt_service.cpp], [bitmask.h]) the service
      around the process, and [ServiceDemo] ([NTService/main.cpp]) another program
      in the same wrapper; [SocketErrors] does the operations that call [shutdown]
      and [remote_endpoint] again, with the exceptions these throw.
    - [Locks] (programs of lock operations, joins and accesses, their
      interleavings) and [Threads] (every function that runs while the components
      exist, as such a program, named [f_sync], and the main loop from one start of
      its threads to the next): the locks and the shared members of the process.
    - [ClrUtils] ([CLRUtils.h], [CLRUtils.cpp]: the monad [clr] of managed code with
      its exceptions), [PicardClr] ([PicardCLR.h], [PicardCLR.cpp]) and [ClrClients]
      ([ClientListener.cpp], [ClientManager.cpp]): the C++/CLI predecessors of the
      links, the listener and the manager, compared with those; [ClrMain], the main
      loop of [serial_mux.cpp] as it is built on the managed links, with the threads
      and handlers of the components as arbitrary changes between its steps.

    A C++ method [m] of a class is a definition [m], or [class_m] where the name
    alone would be ambiguous ([picard_reset], [mgr_removeClient], [client_close]);
    [new_C] is the constructor of [C], and the fields of a record are the members
    of the class.  Other fields stand for the surroundings (what a socket was sent,
    what the service reported) and for program counters, as their comments say.

    ** Steps and interleaving

    A method that neither blocks nor gives up a lock is a function.  A thread that
    blocks is cut where it does: [CSyncQueue] at its critical sections; the command
    thread ([command_thread], program counter [loop_pc]) at its pop, before each
    send and in each wait; the read loop at each pass; [listen_thread] around
    [waitForHello]; the asynchronous read at its lock, its wait and each byte; the
    main thread and [serial_mux_stop] at every join, wait and component.  A run is
    a list of events, each naming the thread that steps and what the surroundings
    give it (bytes, a timeout, a spurious wake-up, a failure); theorems about runs
    quantify over all lists.  [io_service.run()] is the interleaving of the handlers
    of the sockets, timers and the acceptor, enabled only while it runs.

    ** What is proved

    - Encoding: [computeFCS16] is CRC-16/X-25; HDLC, mux messages and the
      subscription filter survive their round trips; receivers do not depend on how
      bytes are cut and resynchronise after noise; the receiver refines an abstract
      decoder; one wrong byte is never delivered.
    - The Picard connection: the handshake, notifications and acknowledgements,
      hello timing, and the type of its state ([picard_state_invariant]).
    - The serial link: the asynchronous read refines the read the system uses when
      handlers are prompt ([serial_read_refined]), always ends, what happens
      when a handler is late, and when it outlives its link ([reset_leaves_read]).
    - A client session: authentication, then forwarding in order, for every
      event sequence.
    - The manager: its invariant; the exact conditions of undefined behaviour over
      all interleavings ([manager_safety]); what is sent to Picard, in which order
      and how often ([commands_from_bytes], [commands_to_picard]); where responses,
      notifications and timeouts go; the subscription union.
    - The whole system: it refines the manager ([system_refines_manager]), so the
      manager's theorems hold of it; a notification goes from the bytes of either
      link to the subscribed sockets ([notification_end_to_end]), and a command from a
      client's bytes to the link and its response back to that client
      ([command_end_to_end]).
    - The process and the service: shutdown completes ([shutdown_completes],
      [service_stops]), and the races in which it does not; a reset that a broken
      connection interrupts, and when the next one gets through
      ([reset_interrupted]).
    - The threads: their locks and joins never deadlock ([locks_never_deadlock]), and
      exactly which members have a data race, the pointers to the components among
      them ([data_races]).
    - The managed predecessors: their links do what the Boost links do
      ([clr_links_equivalent]), the main loop built on them does nothing that the
      loop built on Boost does not, whatever the threads and handlers do, exceptions
      of [Close] apart, and accounts for every connection it opens
      ([managed_build_refines]), their listener accepts the same hellos
      ([clr_hello_agrees]), and their manager uses no client after it is deleted
      ([clr_clients_safety]).
    - Options and log: [parseConfiguration] with exactly the inputs it refuses and
      what it makes of the others ([configuration_outcome]), [hexToBin] against a
      reference decoder on every string ([hexToBin_decodes]), and what the log and
      each of its backups hold in the end ([log_complete]); the unit tests of the
      log pass under every schedule of its thread.

    ** Fuel, bounds and integers

    [parse_loop] has the fuel [S (length input)]: each iteration that goes on
    removes at least one byte, and [parse_loop_terminates] shows that more fuel
    changes nothing.  [hex_loop] and [dump_text] recurse on their input,
    [rotate_from] on the number of backups.  Everything that waits is a step
    function, and theorems that something ends give the number of rounds.  Bytes,
    sequence numbers and lengths are [Z] at their width, [int] and [uint32_t]
    conversions are written out ([i32], [u32]); [size_t] is [nat].

    ** Assumptions

    - The devices ([SerialPort], [UdpSocket]), what [boost::program_options] makes of
      its inputs ([option_parser], [host]), the refusals of the operating system
      (log files, ports, the service manager) and the values of the Windows
      constants are parameters or events.
    - A socket is a flag whether it is open and the list of the buffers written; a
      write to a socket that is open succeeds.  [shutdown] and [remote_endpoint]
      succeed but in [SocketErrors], where the broken connections are a parameter;
      with none of them broken its operations are those of the other files.  A
      [deadline_timer] follows its documentation: [cancel] does not recall a handler
      already queued.
    - In [Threads] a wait for a condition ends, if only spuriously.
    - A client is destroyed when no list, command or handler refers to it
      ([referenced]); other memory is freed where the source frees it.
    - Locks that protect one short critical section are implicit in the steps.  The
      steps are atomic also where the code takes no lock: a C++ program with the
      races [data_races] lists has no defined behaviour, and the other theorems are
      about its sequentially consistent executions between the points above.
      The components are created in one step of the main thread, and the second
      [io_service.reset()], which nothing observes, is left out.

    ** Not modelled

    - Log lines other than the log itself; the retransmission statistics.
    - The hardware flow control of the Boost link, which [#if 0] switches off; the
      retry delay.
    - The client of the managed manager, whose header [ClientIO.h] is missing: it is
      the parameter [IMuxClient] of [ClrClients].
    - The service's log stream; assembly information, resources and precompiled
      headers. *)

From Stdlib Require Import ZArith Lia.
From stdpp Require Export base list strings gmap.
#[global] Open Scope Z_scope.

(** ** Undefined behaviour as a value

    The C++ source reaches behaviour the language leaves undefined on some
    inputs.  A computation that can do so returns an [outcome]. *)

Inductive ub_kind :=
  | OutOfBounds   (* [v[i]] with [i >= v.size()] *)
  | BadShift      (* [1 << n] with [n] outside the width of [int] *)
  | NullDeref     (* [p->m()] with [p] a null pointer *)
  | BadRange      (* a vector built from an iterator range [first > last] *)
  | BadCtype      (* [isspace(c)] and the like on a negative [char] *)
  | BadConversion (* [atoi] on a number that is not an [int] *)
  | UseAfterFree  (* an object used after its destruction *)
  | Uninitialised (* a member read before it is written *)
  .

#[export] Instance ub_kind_eq_dec : EqDecision ub_kind.
Proof. solve_decision. Defined.

Inductive outcome (A : Type) :=
  | Ok (a : A)
  | Undefined (why : ub_kind).
Arguments Ok {A} a.
Arguments Undefined {A} why.

#[export] Instance outcome_ret : MRet outcome := @Ok.
#[export] Instance outcome_bind : MBind outcome := fun A B f m =>
  match m with
  | Ok a => f a
  | Undefined why => Undefined why
  end.
#[export] Instance outcome_eq_dec `{EqDecision A} : EqDecision (outcome A).
Proof. solve_decision. Defined.

(** The predicate "does not run into undefined behaviour". *)
Definition defined {A} (m : outcome A) : bool :=
  match m with Ok _ => true | Undefined _ => false end.

Lemma bind_Ok {A B} (a : A) (f : A -> outcome B) : (Ok a ≫= f) = f a.
Proof. done. Qed.

Lemma bind_Ok_inv {A B} (m : outcome A) (f : A -> outcome B) b :
  m ≫= f = Ok b -> exists a, m = Ok a /\ f a = Ok b.
Proof. destruct m as [a|why]; [by exists a | done]. Qed.

Lemma bind_assoc {A B C} (m : outcome A) (f : A -> outcome B) (g : B -> outcome C) :
  (m ≫= f) ≫= g = m ≫= (fun a => f a ≫= g).
Proof. by destruct m. Qed.

Lemma bind_ret {A} (m : outcome A) : m ≫= (fun a => Ok a) = m.
Proof. by destruct m. Qed.

Lemma Ok_sat {A} (m : outcome A) (Q : A -> Prop) :
  match m with Ok a => Q a | Undefined _ => False end -> exists a, m = Ok a /\ Q a.
Proof. destruct m as [a|]; [by exists a | done]. Qed.

(** Folding a fallible step over a list: the model of a [for] loop whose body
    can be undefined. *)
Fixpoint foldM {A S} (f : S -> A -> outcome S) (s : S) (l : list A) : outcome S :=
  match l with
  | [] => Ok s
  | x :: l => s ← f s x; foldM f s l
  end.

Lemma foldM_app {A S} (f : S -> A -> outcome S) s l1 l2 :
  foldM f s (l1 ++ l2) = (s ← foldM f s l1; foldM f s l2).
Proof.
  revert s; induction l1 as [|x l1 IH]; intros s; [done|].
  cbn. destruct (f s x) as [s'|why]; [apply IH | done].
Qed.

(** ** Machine words *)

Definition u8 (z : Z) : Z := z mod 2 ^ 8.
Definition u16 (z : Z) : Z := z mod 2 ^ 16.
Definition u32 (z : Z) : Z := z mod 2 ^ 32.
Definition i32 (z : Z) : Z := (z + 2 ^ 31) mod 2 ^ 32 - 2 ^ 31.

Definition is_u8 (z : Z) : Prop := 0 <= z < 256.
Definition is_u16 (z : Z) : Prop := 0 <= z < 65536.
Definition is_i32 (z : Z) : Prop := - 2 ^ 31 <= z < 2 ^ 31.
Abbreviation bytes_ok := (Forall is_u8).

#[export] Instance is_u8_dec z : Decision (is_u8 z).
Proof. unfold is_u8; apply _. Defined.
#[export] Instance is_u16_dec z : Decision (is_u16 z).
Proof. unfold is_u16; apply _. Defined.
#[export] Instance is_i32_dec z : Decision (is_i32 z).
Proof. unfold is_i32; apply _. Defined.

Create HintDb serialmux.
Create Rewrite HintDb serialmux.

(** Close a range goal on concrete words. *)
Ltac word_range := unfold is_u8, is_u16, is_i32, u8, u16, u32, i32 in *; lia.

Lemma u8_range z : is_u8 (u8 z).
Proof. unfold is_u8, u8. pose proof (Z.mod_pos_bound z (2 ^ 8)). lia. Qed.

Lemma u8_small z : is_u8 z -> u8 z = z.
Proof. intros ?; unfold u8; apply Z.mod_small; word_range. Qed.

Lemma u16_range z : is_u16 (u16 z).
Proof. unfold is_u16, u16. pose proof (Z.mod_pos_bound z (2 ^ 16)). lia. Qed.

Lemma u16_small z : is_u16 z -> u16 z = z.
Proof. intros ?; unfold u16; apply Z.mod_small; word_range. Qed.

Lemma i32_small z : is_i32 z -> i32 z = z.
Proof. intros ?; unfold i32. rewrite Z.mod_small; word_range. Qed.

Lemma i32_range z : is_i32 (i32 z).
Proof.
  unfold is_i32, i32. pose proof (Z.mod_pos_bound (z + 2 ^ 31) (2 ^ 32)). lia.
Qed.

(** Adding one to a byte never gives the byte back, wrap-around included. *)
Lemma u8_succ_ne z : is_u8 z -> u8 (z + 1) <> z.
Proof.
  unfold is_u8, u8; intros ?. destruct (decide (z = 255)) as [->|]; [done|].
  rewrite Z.mod_small; lia.
Qed.

Lemma land_255 z : Z.land z 255 = u8 z.
Proof. exact (Z.land_ones z 8 ltac:(lia)). Qed.

Lemma land_65535 z : Z.land z 65535 = u16 z.
Proof. exact (Z.land_ones z 16 ltac:(lia)). Qed.

(** Bits above the width of a word are clear, and conversely. *)
Lemma word_bits_high n z i : 0 <= z < 2 ^ n -> n <= i -> Z.testbit z i = false.
Proof.
  intros Hz Hi. destruct (decide (0 <= n)) as [Hn|Hn].
  - rewrite <- (Z.mod_small z (2 ^ n)) by lia. by apply Z.mod_pow2_bits_high.
  - rewrite Z.pow_neg_r in Hz by lia. lia.
Qed.

Lemma word_range_bits n z :
  0 <= n -> (forall i, n <= i -> Z.testbit z i = false) -> 0 <= z < 2 ^ n.
Proof.
  intros Hn Hbits. replace z with (z mod 2 ^ n).
  - apply Z.mod_pos_bound. lia.
  - apply Z.bits_inj'. intros i Hi. destruct (decide (i < n)).
    + by apply Z.mod_pow2_bits_low.
    + rewrite Z.mod_pow2_bits_high by lia. symmetry. apply Hbits. lia.
Qed.

Lemma lxor_range n a b :
  0 <= n -> 0 <= a < 2 ^ n -> 0 <= b < 2 ^ n -> 0 <= Z.lxor a b < 2 ^ n.
Proof.
  intros Hn Ha Hb. apply word_range_bits; [done|]. intros i Hi.
  by rewrite Z.lxor_spec, !(word_bits_high n) by done.
Qed.

Lemma lor_range n a b :
  0 <= n -> 0 <= a < 2 ^ n -> 0 <= b < 2 ^ n -> 0 <= Z.lor a b < 2 ^ n.
Proof.
  intros Hn Ha Hb. apply word_range_bits; [done|]. intros i Hi.
  by rewrite Z.lor_spec, !(word_bits_high n) by done.
Qed.

Lemma lxor_u8 a b : is_u8 a -> is_u8 b -> is_u8 (Z.lxor a b).
Proof. apply (lxor_range 8); lia. Qed.

Lemma lxor_u16 a b : is_u16 a -> is_u16 b -> is_u16 (Z.lxor a b).
Proof. apply (lxor_range 16); lia. Qed.

Lemma shiftr8_u8 z : is_u16 z -> is_u8 (Z.shiftr z 8).
Proof.
  unfold is_u16, is_u8; intros ?. rewrite Z.shiftr_div_pow2 by lia.
  split; [apply Z.div_pos; lia | apply Z.div_lt_upper_bound; lia].
Qed.

Lemma lxor_cancel_l a b : Z.lxor a (Z.lxor a b) = b.
Proof. by rewrite <- Z.lxor_assoc, Z.lxor_nilpotent, Z.lxor_0_l. Qed.

Lemma lxor_cancel_r a b : Z.lxor (Z.lxor a b) b = a.
Proof. by rewrite Z.lxor_assoc, Z.lxor_nilpotent, Z.lxor_0_r. Qed.

Lemma lxor_inj_l a b c : Z.lxor a b = Z.lxor a c -> b = c.
Proof. intros H. by rewrite <- (lxor_cancel_l a b), H, lxor_cancel_l. Qed.

#[export] Hint Resolve u8_range u16_range i32_range lxor_u8 lxor_u16 shiftr8_u8
  : serialmux.
#[export] Hint Rewrite @bind_Ok land_255 land_65535 lxor_cancel_l lxor_cancel_r
  : serialmux.

(** Check a property of every byte by evaluation. *)
Definition all_bytes (f : Z -> bool) : bool := forallb f (seqZ 0 256).

Lemma all_bytes_spec f : all_bytes f = true -> forall b, is_u8 b -> f b = true.
Proof.
  unfold all_bytes. intros Hf b Hb. rewrite forallb_forall in Hf.
  apply Hf. rewrite <- list_elem_of_In. apply elem_of_seqZ. word_range.
Qed.

(** ** [std::vector] operations *)

Section vector.
Context {A : Type}.

Definition push_back (v : list A) (x : A) : list A := v ++ [x].
Definition pop_back (v : list A) : list A := take (length v - 1) v.

(** [v[i]] read and written; both are undefined out of range. *)
Definition vat (v : list A) (i : nat) : outcome A :=
  match v !! i with Some x => Ok x | None => Undefined OutOfBounds end.
Definition vset (v : list A) (i : nat) (x : A) : outcome (list A) :=
  if decide (i < length v)%nat then Ok (<[i := x]> v) else Undefined OutOfBounds.

Lemma vat_Ok v i x : v !! i = Some x -> vat v i = Ok x.
Proof. unfold vat. by intros ->. Qed.

Lemma vat_oob v i : (length v <= i)%nat -> vat v i = Undefined OutOfBounds.
Proof. intros ?. unfold vat. by rewrite lookup_ge_None_2. Qed.

Lemma vset_Ok v i x : (i < length v)%nat -> vset v i x = Ok (<[i := x]> v).
Proof. intros ?. unfold vset. by rewrite decide_True. Qed.

Lemma vset_oob v i x : (length v <= i)%nat -> vset v i x = Undefined OutOfBounds.
Proof. intros ?. unfold vset. rewrite decide_False; [done|lia]. Qed.

Lemma pop_back_snoc v x : pop_back (v ++ [x]) = v.
Proof.
  unfold pop_back. rewrite length_app. cbn.
  rewrite Nat.add_sub. by rewrite take_app_length.
Qed.

Lemma vat_app_r v w i :
  vat (v ++ w) (length v + i) = vat w i.
Proof.
  unfold vat. rewrite lookup_app_r by lia.
  by replace (length v + i - length v)%nat with i by lia.
Qed.

(** The element after a known prefix, read and written. *)
Lemma vat_mid v x w : vat (v ++ x :: w) (length v) = Ok x.
Proof. apply vat_Ok. rewrite lookup_app_r, Nat.sub_diag by lia. done. Qed.

Lemma vset_mid v x w y : vset (v ++ x :: w) (length v) y = Ok (v ++ y :: w).
Proof.
  rewrite vset_Ok by (rewrite length_app; cbn; lia).
  by rewrite insert_app_r_alt, Nat.sub_diag by lia.
Qed.

(** The last two elements of a vector, as index reads and as pops. *)
Lemma tail2 v :
  (2 <= length v)%nat ->
  exists s a b, v = s ++ [a; b] /\
    vat v (length v - 2) = Ok a /\ vat v (length v - 1) = Ok b /\
    pop_back (pop_back v) = s /\ take (length v - 2) v = s.
Proof.
  intros Hlen. destruct v as [|b v _] using rev_ind; [cbn in Hlen; lia|].
  destruct v as [|a s _] using rev_ind; [cbn in Hlen; lia|].
  exists s, a, b. rewrite !pop_back_snoc, <- (assoc_L app), length_app. cbn [app length].
  replace (length s + 2 - 2)%nat with (length s + 0)%nat by lia.
  replace (length s + 2 - 1)%nat with (length s + 1)%nat by lia.
  rewrite !vat_app_r. rewrite Nat.add_0_r, take_app_length. done.
Qed.
End vector.

(** ** Transition sequences *)

Section steps.
Context {S : Type} (step : S -> S -> Prop).

Inductive steps : S -> S -> Prop :=
  | steps_refl s : steps s s
  | steps_cons s1 s2 s3 : step s1 s2 -> steps s2 s3 -> steps s1 s3.

Lemma steps_one s1 s2 : step s1 s2 -> steps s1 s2.
Proof. eauto using steps. Qed.

Lemma steps_trans s1 s2 s3 : steps s1 s2 -> steps s2 s3 -> steps s1 s3.
Proof. induction 1; eauto using steps. Qed.

(** Invariants by rule induction. *)
Lemma steps_invariant (I : S -> Prop) :
  (forall s1 s2, I s1 -> step s1 s2 -> I s2) ->
  forall s1 s2, steps s1 s2 -> I s1 -> I s2.
Proof. intros Hstep. induction 1; eauto. Qed.
End steps.

(** ** Tactics *)

(** Expose the result of a monadic hypothesis [m ≫= f = Ok b]. *)
Ltac inv_bind :=
  repeat match goal with
  | H : (?m ≫= ?f) = Ok ?b |- _ =>
      let a := fresh "r" in let H1 := fresh "Hr" in
      apply bind_Ok_inv in H as (a & H1 & H)
  | H : Ok _ = Ok _ |- _ => injection H as H; try subst
  | H : mret _ = Ok _ |- _ => injection H as H; try subst
  | H : Undefined _ = Ok _ |- _ => discriminate H
  end.

(** Reduce the binds of the goal. *)
Ltac step_bind := cbn [mbind mret outcome_bind outcome_ret foldM].

(** Case on the innermost [if]/[match] scrutinee of the goal. *)
Ltac case_scrutinee :=
  match goal with
  | |- context [if ?b then _ else _] => destruct b eqn:?
  | |- context [match ?x with _ => _ end] => destruct x eqn:?
  end.

(** Prove a decidable closed goal by evaluating its decision procedure. *)
Ltac vm_decide := refine (bool_decide_eq_true_1 _ _); vm_compute; reflexivity.
