(* ===== verification/Hdlc.v ===== *)
(** * HDLC framing ([serial_mux/HDLC.h], [serial_mux/HDLC.cpp])

    Frame check sequence ([Fcs]), frame generator ([Encoder]) and the byte-wise
    receiver [CHDLC] ([Receiver]).  The receiver reports frames through the
    [IHDLCParser] interface; [FrameLog] is the handler that records them, and
    the delivery theorems are stated with it. *)

From Stdlib Require Import ZArith Lia.
From stdpp Require Import base list.
From S2P Require Import Prelude.
#[local] Open Scope Z_scope.

Definition HDLC_PADDING : Z := 0x7E.
Definition HDLC_ESCCHAR : Z := 0x7D.
Definition HDLC_XORBYTE : Z := 0x20.

(** ** Frame check sequence *)
Module Fcs.
Definition _fcstab : list Z := [
  0x0000; 0x1189; 0x2312; 0x329b; 0x4624; 0x57ad; 0x6536; 0x74bf;
  0x8c48; 0x9dc1; 0xaf5a; 0xbed3; 0xca6c; 0xdbe5; 0xe97e; 0xf8f7;
  0x1081; 0x0108; 0x3393; 0x221a; 0x56a5; 0x472c; 0x75b7; 0x643e;
  0x9cc9; 0x8d40; 0xbfdb; 0xae52; 0xdaed; 0xcb64; 0xf9ff; 0xe876;
  0x2102; 0x308b; 0x0210; 0x1399; 0x6726; 0x76af; 0x4434; 0x55bd;
  0xad4a; 0xbcc3; 0x8e58; 0x9fd1; 0xeb6e; 0xfae7; 0xc87c; 0xd9f5;
  0x3183; 0x200a; 0x1291; 0x0318; 0x77a7; 0x662e; 0x54b5; 0x453c;
  0xbdcb; 0xac42; 0x9ed9; 0x8f50; 0xfbef; 0xea66; 0xd8fd; 0xc974;
  0x4204; 0x538d; 0x6116; 0x709f; 0x0420; 0x15a9; 0x2732; 0x36bb;
  0xce4c; 0xdfc5; 0xed5e; 0xfcd7; 0x8868; 0x99e1; 0xab7a; 0xbaf3;
  0x5285; 0x430c; 0x7197; 0x601e; 0x14a1; 0x0528; 0x37b3; 0x263a;
  0xdecd; 0xcf44; 0xfddf; 0xec56; 0x98e9; 0x8960; 0xbbfb; 0xaa72;
  0x6306; 0x728f; 0x4014; 0x519d; 0x2522; 0x34ab; 0x0630; 0x17b9;
  0xef4e; 0xfec7; 0xcc5c; 0xddd5; 0xa96a; 0xb8e3; 0x8a78; 0x9bf1;
  0x7387; 0x620e; 0x5095; 0x411c; 0x35a3; 0x242a; 0x16b1; 0x0738;
  0xffcf; 0xee46; 0xdcdd; 0xcd54; 0xb9eb; 0xa862; 0x9af9; 0x8b70;
  0x8408; 0x9581; 0xa71a; 0xb693; 0xc22c; 0xd3a5; 0xe13e; 0xf0b7;
  0x0840; 0x19c9; 0x2b52; 0x3adb; 0x4e64; 0x5fed; 0x6d76; 0x7cff;
  0x9489; 0x8500; 0xb79b; 0xa612; 0xd2ad; 0xc324; 0xf1bf; 0xe036;
  0x18c1; 0x0948; 0x3bd3; 0x2a5a; 0x5ee5; 0x4f6c; 0x7df7; 0x6c7e;
  0xa50a; 0xb483; 0x8618; 0x9791; 0xe32e; 0xf2a7; 0xc03c; 0xd1b5;
  0x2942; 0x38cb; 0x0a50; 0x1bd9; 0x6f66; 0x7eef; 0x4c74; 0x5dfd;
  0xb58b; 0xa402; 0x9699; 0x8710; 0xf3af; 0xe226; 0xd0bd; 0xc134;
  0x39c3; 0x284a; 0x1ad1; 0x0b58; 0x7fe7; 0x6e6e; 0x5cf5; 0x4d7c;
  0xc60c; 0xd785; 0xe51e; 0xf497; 0x8028; 0x91a1; 0xa33a; 0xb2b3;
  0x4a44; 0x5bcd; 0x6956; 0x78df; 0x0c60; 0x1de9; 0x2f72; 0x3efb;
  0xd68d; 0xc704; 0xf59f; 0xe416; 0x90a9; 0x8120; 0xb3bb; 0xa232;
  0x5ac5; 0x4b4c; 0x79d7; 0x685e; 0x1ce1; 0x0d68; 0x3ff3; 0x2e7a;
  0xe70e; 0xf687; 0xc41c; 0xd595; 0xa12a; 0xb0a3; 0x8238; 0x93b1;
  0x6b46; 0x7acf; 0x4854; 0x59dd; 0x2d62; 0x3ceb; 0x0e70; 0x1ff9;
  0xf78f; 0xe606; 0xd49d; 0xc514; 0xb1ab; 0xa022; 0x92b9; 0x8330;
  0x7bc7; 0x6a4e; 0x58d5; 0x495c; 0x3de3; 0x2c6a; 0x1ef1; 0x0f78
].

(** [_fcstab[i]] of a masked index. *)
Definition fcstab_at (i : Z) : Z := nth (Z.to_nat i) _fcstab 0.

Definition initFcs16 : Z := 0xffff.

Definition addOneByteToFcs16 (fcs byte : Z) : Z :=
  Z.lxor (Z.shiftr (Z.land fcs 0xffff) 8) (fcstab_at (Z.land (Z.lxor fcs byte) 0xff)).

Definition closeFcs16 (fcs : Z) : Z := Z.land (Z.lxor fcs 0xffff) 0xffff.

Definition computeFCS16 (data : list Z) : Z :=
  closeFcs16 (foldl addOneByteToFcs16 initFcs16 data).

(** *** Reference: the bitwise CRC-16/X-25 (reflected polynomial 0x8408) *)

Definition crc_bit (c : Z) : Z :=
  if Z.odd c then Z.lxor (Z.shiftr c 1) 0x8408 else Z.shiftr c 1.
Definition crc_byte (c b : Z) : Z := Nat.iter 8 crc_bit (Z.lxor c b).
Definition crc_x25 (data : list Z) : Z :=
  Z.lxor (foldl crc_byte 0xffff data) 0xffff.

(** *** The table *)

Lemma fcstab_crc : forall b, is_u8 b -> fcstab_at b = Nat.iter 8 crc_bit b.
Proof.
  intros b Hb. apply Z.eqb_eq.
  by apply (all_bytes_spec (fun b => fcstab_at b =? Nat.iter 8 crc_bit b)).
Qed.

Lemma fcstab_range b : is_u8 b -> is_u16 (fcstab_at b).
Proof.
  intros Hb.
  assert (Hf : all_bytes (fun b => bool_decide (is_u16 (fcstab_at b))) = true)
    by (vm_compute; reflexivity).
  exact (proj1 (bool_decide_eq_true _) (all_bytes_spec _ Hf b Hb)).
Qed.

Lemma fcstab_hi_inj a b :
  is_u8 a -> is_u8 b ->
  Z.shiftr (fcstab_at a) 8 = Z.shiftr (fcstab_at b) 8 -> a = b.
Proof.
  intros Ha Hb Heq.
  assert (Hf : all_bytes (fun a => all_bytes (fun b =>
      implb (Z.shiftr (fcstab_at a) 8 =? Z.shiftr (fcstab_at b) 8) (a =? b)))
    = true) by (vm_compute; reflexivity).
  pose proof (all_bytes_spec _ (all_bytes_spec _ Hf a Ha) b Hb) as H.
  cbn beta in H. rewrite Heq, Z.eqb_refl in H. cbn in H. by apply Z.eqb_eq.
Qed.

(** *** Linearity of the bit step *)

Lemma odd_lxor a b : Z.odd (Z.lxor a b) = xorb (Z.odd a) (Z.odd b).
Proof. by rewrite <- !Z.bit0_odd, Z.lxor_spec. Qed.

Lemma crc_bit_lxor a b : crc_bit (Z.lxor a b) = Z.lxor (crc_bit a) (crc_bit b).
Proof.
  unfold crc_bit. rewrite odd_lxor, Z.shiftr_lxor.
  set (x := Z.shiftr a 1). set (y := Z.shiftr b 1).
  destruct (Z.odd a), (Z.odd b); cbn [xorb]; apply Z.bits_inj'; intros i Hi;
    rewrite !Z.lxor_spec; by destruct (Z.testbit x i), (Z.testbit y i),
    (Z.testbit 0x8408 i).
Qed.

Lemma crc_bits_lxor n a b :
  Nat.iter n crc_bit (Z.lxor a b) = Z.lxor (Nat.iter n crc_bit a) (Nat.iter n crc_bit b).
Proof. induction n as [|n IH]; [done|]. by rewrite !Nat.iter_succ, IH, crc_bit_lxor. Qed.

Lemma crc_bit_double z : crc_bit (Z.shiftl z 1) = z.
Proof.
  unfold crc_bit. rewrite <- Z.bit0_odd, Z.shiftl_spec_low by lia.
  rewrite Z.shiftr_shiftl_l by lia. by rewrite Z.shiftl_0_r.
Qed.

Lemma crc_bits_shiftl n z : Nat.iter n crc_bit (Z.shiftl z (Z.of_nat n)) = z.
Proof.
  revert z; induction n as [|n IH]; intros z; [by rewrite Z.shiftl_0_r|].
  rewrite Nat.iter_succ_r, Nat2Z.inj_succ, <- Z.add_1_r.
  by rewrite <- Z.shiftl_shiftl, crc_bit_double, IH by lia.
Qed.

(** A word is its high byte, shifted, xor its low byte. *)
Lemma split_hi_lo z : z = Z.lxor (Z.shiftl (Z.shiftr z 8) 8) (Z.land z 255).
Proof.
  apply Z.bits_inj'. intros i Hi. rewrite Z.lxor_spec.
  destruct (decide (i < 8)).
  - rewrite Z.shiftl_spec_low, land_255 by lia. unfold u8.
    by rewrite Z.mod_pow2_bits_low by lia.
  - rewrite Z.shiftl_spec, Z.shiftr_spec, land_255 by lia. unfold u8.
    rewrite Z.mod_pow2_bits_high by lia. rewrite xorb_false_r. f_equal. lia.
Qed.

Lemma step_crc c b :
  is_u16 c -> is_u8 b -> addOneByteToFcs16 c b = crc_byte c b.
Proof.
  intros Hc Hb. unfold addOneByteToFcs16, crc_byte.
  rewrite land_65535, u16_small by done.
  rewrite (split_hi_lo (Z.lxor c b)) at 2.
  rewrite crc_bits_lxor, (crc_bits_shiftl 8), Z.shiftr_lxor.
  replace (Z.shiftr b 8) with 0.
  - rewrite Z.lxor_0_r, fcstab_crc; [done|]. rewrite land_255. apply u8_range.
  - rewrite Z.shiftr_div_pow2 by lia. symmetry. apply Z.div_small. word_range.
Qed.

Lemma step_range c b : is_u16 c -> is_u16 (addOneByteToFcs16 c b).
Proof.
  intros Hc. unfold addOneByteToFcs16. rewrite land_65535, u16_small by done.
  apply lxor_u16; [|apply fcstab_range; rewrite land_255; apply u8_range].
  pose proof (shiftr8_u8 c Hc). word_range.
Qed.
#[export] Hint Resolve step_range : serialmux.

Lemma run_range c data : is_u16 c -> is_u16 (foldl addOneByteToFcs16 c data).
Proof. revert c; induction data; cbn; auto with serialmux. Qed.

Lemma init_range : is_u16 initFcs16.
Proof. done. Qed.

Lemma run_crc c data :
  is_u16 c -> bytes_ok data ->
  foldl addOneByteToFcs16 c data = foldl crc_byte c data.
Proof.
  intros Hc Hd. revert c Hc. induction Hd as [|b data Hb _ IH]; intros c Hc; [done|].
  cbn. rewrite IH by auto with serialmux. by rewrite step_crc.
Qed.

Lemma close_u16 c : is_u16 c -> closeFcs16 c = Z.lxor c 0xffff.
Proof.
  intros Hc. unfold closeFcs16. rewrite land_65535. apply u16_small.
  by apply lxor_u16.
Qed.

(** The table-driven sum is the CRC-16/X-25 of the data. *)
Lemma computeFCS16_crc data : bytes_ok data -> computeFCS16 data = crc_x25 data.
Proof.
  intros Hd. unfold computeFCS16, crc_x25.
  rewrite close_u16 by (apply run_range, init_range). by rewrite run_crc.
Qed.

Lemma computeFCS16_range data : is_u16 (computeFCS16 data).
Proof. unfold computeFCS16, closeFcs16. rewrite land_65535. apply u16_range. Qed.

(** *** The residue: a sum followed by its two bytes, low byte first *)

Lemma residue_step c :
  is_u16 c ->
  let f := closeFcs16 c in
  addOneByteToFcs16 (addOneByteToFcs16 c (Z.land f 255)) (Z.land (Z.shiftr f 8) 255)
  = 0xf0b8.
Proof.
  intros Hc f. assert (Hf : is_u16 f).
  { unfold f. rewrite close_u16 by done. by apply lxor_u16. }
  assert (Hlo : Z.land (Z.lxor c (Z.land f 255)) 255 = 255).
  { unfold f. rewrite close_u16 by done. apply Z.bits_inj'. intros i Hi.
    rewrite !Z.land_spec, !Z.lxor_spec, !Z.land_spec, Z.lxor_spec.
    destruct (decide (i < 8)).
    - assert (i = 0 \/ i = 1 \/ i = 2 \/ i = 3 \/ i = 4 \/ i = 5 \/ i = 6 \/ i = 7)
        as Hi8 by lia.
      by destruct Hi8 as [-> | [-> | [-> | [-> | [-> | [-> | [-> | ->]]]]]]];
        destruct (Z.testbit c _).
    - rewrite (word_bits_high 8 255 i) by lia. by rewrite !andb_false_r. }
  unfold addOneByteToFcs16 at 2. rewrite Hlo, land_65535, u16_small by done.
  assert (Hs : 0 <= Z.shiftr c 8 < 256) by (by apply shiftr8_u8).
  assert (Hfs : Z.shiftr f 8 = Z.lxor (Z.shiftr c 8) 255).
  { unfold f. by rewrite close_u16, Z.shiftr_lxor by done. }
  rewrite Hfs, land_255. rewrite u8_small by (by apply lxor_u8).
  generalize dependent (Z.shiftr c 8). intros s Hs _. apply Z.eqb_eq.
  apply (all_bytes_spec (fun s => addOneByteToFcs16 (Z.lxor s (fcstab_at 255))
    (Z.lxor s 255) =? 0xf0b8)); [by vm_compute | done].
Qed.

(** *** Error detection: the step is injective in the sum and in the byte *)

(** The high byte of a sum is that of the table entry used. *)
Lemma step_hi c b :
  is_u16 c ->
  Z.shiftr (addOneByteToFcs16 c b) 8 = Z.shiftr (fcstab_at (u8 (Z.lxor c b))) 8.
Proof.
  intros Hc. unfold addOneByteToFcs16.
  rewrite land_65535, u16_small, land_255, Z.shiftr_lxor, Z.shiftr_shiftr by done.
  rewrite (Z.shiftr_div_pow2 c) by lia. cbn.
  by rewrite (Z.div_small c) by word_range.
Qed.

Lemma step_index_inj c1 c2 b1 b2 :
  is_u16 c1 -> is_u16 c2 ->
  addOneByteToFcs16 c1 b1 = addOneByteToFcs16 c2 b2 ->
  u8 (Z.lxor c1 b1) = u8 (Z.lxor c2 b2) /\ Z.shiftr c1 8 = Z.shiftr c2 8.
Proof.
  intros H1 H2 Heq.
  assert (Hidx : u8 (Z.lxor c1 b1) = u8 (Z.lxor c2 b2)).
  { apply fcstab_hi_inj; [apply u8_range..|]. by rewrite <- !step_hi, Heq. }
  split; [done|]. unfold addOneByteToFcs16 in Heq.
  rewrite !land_65535, !u16_small, !land_255, Hidx in Heq by done.
  rewrite !(Z.lxor_comm _ (fcstab_at _)) in Heq. by eapply lxor_inj_l.
Qed.

(** Compare two equalities of masked words bit by bit. *)
Ltac mask_bits H :=
  rewrite <- !land_255 in H; apply Z.bits_inj'; intros ?i ?Hi;
  apply (f_equal (fun z => Z.testbit z i)) in H; revert H;
  rewrite ?land_255, <- ?land_255, ?Z.lxor_spec, ?Z.land_spec, ?Z.lxor_spec.

Lemma lxor_u8_inj c b1 b2 :
  is_u8 b1 -> is_u8 b2 -> u8 (Z.lxor c b1) = u8 (Z.lxor c b2) -> b1 = b2.
Proof.
  intros H1 H2 Heq. rewrite <- (u8_small b1), <- (u8_small b2), <- !land_255 by done.
  mask_bits Heq.
  by destruct (Z.testbit c i), (Z.testbit b1 i), (Z.testbit b2 i), (Z.testbit 255 i).
Qed.

Lemma step_inj_sum c1 c2 b :
  is_u16 c1 -> is_u16 c2 ->
  addOneByteToFcs16 c1 b = addOneByteToFcs16 c2 b -> c1 = c2.
Proof.
  intros H1 H2 Heq. destruct (step_index_inj _ _ _ _ H1 H2 Heq) as [Hlo Hhi].
  rewrite (split_hi_lo c1), (split_hi_lo c2), Hhi. f_equal. mask_bits Hlo.
  by destruct (Z.testbit c1 i), (Z.testbit c2 i), (Z.testbit b i), (Z.testbit 255 i).
Qed.

Lemma step_inj_byte c b1 b2 :
  is_u16 c -> is_u8 b1 -> is_u8 b2 ->
  addOneByteToFcs16 c b1 = addOneByteToFcs16 c b2 -> b1 = b2.
Proof.
  intros Hc H1 H2 Heq. destruct (step_index_inj _ _ _ _ Hc Hc Heq) as [Hlo _].
  by eapply lxor_u8_inj.
Qed.

(** The sum over two bytes determines both of them. *)
Lemma step2_inj c a b a' b' :
  is_u16 c -> is_u8 a -> is_u8 b -> is_u8 a' -> is_u8 b' ->
  addOneByteToFcs16 (addOneByteToFcs16 c a) b
  = addOneByteToFcs16 (addOneByteToFcs16 c a') b' -> a = a' /\ b = b'.
Proof.
  intros Hc Ha Hb Ha' Hb' Heq.
  destruct (step_index_inj _ _ _ _ (step_range c a Hc) (step_range c a' Hc) Heq)
    as [_ Hhi].
  rewrite !step_hi in Hhi by done.
  apply fcstab_hi_inj, lxor_u8_inj in Hhi; [|auto using u8_range..]. subst a'.
  split; [done|]. eapply step_inj_byte; [|done..|done]. by apply step_range.
Qed.

Lemma run_inj c1 c2 data :
  is_u16 c1 -> is_u16 c2 ->
  foldl addOneByteToFcs16 c1 data = foldl addOneByteToFcs16 c2 data -> c1 = c2.
Proof.
  revert c1 c2; induction data as [|b data IH]; intros c1 c2 H1 H2; [done|].
  cbn. intros Heq. eapply step_inj_sum; [done..|]. apply IH in Heq; eauto with serialmux.
Qed.

(** Two strings that differ in exactly one byte have different sums. *)
Lemma run_one_byte pre post c b1 b2 :
  is_u16 c -> is_u8 b1 -> is_u8 b2 -> b1 <> b2 ->
  foldl addOneByteToFcs16 c (pre ++ b1 :: post)
  <> foldl addOneByteToFcs16 c (pre ++ b2 :: post).
Proof.
  intros Hc H1 H2 Hne Heq. apply Hne. rewrite !foldl_app in Heq. cbn in Heq.
  pose proof (run_range c pre Hc).
  eapply step_inj_byte; [|done..|]; [done|].
  eapply run_inj in Heq; eauto with serialmux.
Qed.

(** C26: the table-driven frame check sequence is the CRC-16/X-25 of the data:
    the 256-entry table and the byte-wise loop compute the bitwise reference
    for every byte string. *)
Theorem computeFCS16_is_crc_x25 data : bytes_ok data -> computeFCS16 data = crc_x25 data.
Proof. exact (computeFCS16_crc data). Qed.

Lemma computeFCS16_is_crc_x25_witness :
  bytes_ok [0x31; 0x32; 0x33; 0x34; 0x35; 0x36; 0x37; 0x38; 0x39] /\
  computeFCS16 [0x31; 0x32; 0x33; 0x34; 0x35; 0x36; 0x37; 0x38; 0x39]
  = crc_x25 [0x31; 0x32; 0x33; 0x34; 0x35; 0x36; 0x37; 0x38; 0x39] /\
  crc_x25 [0x31; 0x32; 0x33; 0x34; 0x35; 0x36; 0x37; 0x38; 0x39] = 0x906E.
Proof.
  assert (H : bytes_ok [0x31; 0x32; 0x33; 0x34; 0x35; 0x36; 0x37; 0x38; 0x39])
    by (repeat constructor; discriminate).
  split; [exact H|]. split; [exact (computeFCS16_is_crc_x25 _ H) | reflexivity].
Defined.
End Fcs.

(** ** Frame generator *)
Module Encoder.
Import Fcs.

Definition is_special (b : Z) : bool := (b =? HDLC_PADDING) || (b =? HDLC_ESCCHAR).

Definition appendHDLC (dst src : list Z) : list Z :=
  foldl (fun dst b =>
    if is_special b
    then push_back (push_back dst HDLC_ESCCHAR) (Z.lxor b HDLC_XORBYTE)
    else push_back dst b) dst src.

Definition encodeHDLC (src : list Z) : list Z :=
  let fcs := computeFCS16 src in
  let fcsbuf := [Z.land fcs 0xFF; Z.land (Z.shiftr fcs 8) 0xFF] in
  let result := push_back [] HDLC_PADDING in
  let result := appendHDLC result src in
  let result := appendHDLC result fcsbuf in
  push_back result HDLC_PADDING.

(** *** The escaped form as a list function *)

Definition escape (b : Z) : list Z :=
  if is_special b then [HDLC_ESCCHAR; Z.lxor b HDLC_XORBYTE] else [b].
Definition escaped (src : list Z) : list Z := src ≫= escape.

Lemma appendHDLC_escaped dst src : appendHDLC dst src = dst ++ escaped src.
Proof.
  unfold escaped. revert dst; induction src as [|b src IH]; intros dst; cbn.
  - by rewrite app_nil_r.
  - fold appendHDLC. unfold appendHDLC in IH. rewrite IH. unfold escape, push_back.
    destruct (is_special b); by rewrite <- ?(assoc_L app).
Qed.

(** The unescaped content of a frame: the payload and its check bytes. *)
Definition content (src : list Z) : list Z :=
  src ++ [Z.land (computeFCS16 src) 0xFF; Z.land (Z.shiftr (computeFCS16 src) 8) 0xFF].

Lemma escaped_app l1 l2 : escaped (l1 ++ l2) = escaped l1 ++ escaped l2.
Proof. apply bind_app. Qed.

Lemma encodeHDLC_content src :
  encodeHDLC src = HDLC_PADDING :: escaped (content src) ++ [HDLC_PADDING].
Proof.
  unfold encodeHDLC, content. rewrite !appendHDLC_escaped, escaped_app.
  unfold push_back. by cbn [app].
Qed.

Lemma content_bytes src : bytes_ok src -> bytes_ok (content src).
Proof.
  intros Hs. unfold content. rewrite Forall_app. split; [done|].
  rewrite !land_255. repeat constructor; apply u8_range.
Qed.

Lemma content_residue src :
  foldl addOneByteToFcs16 initFcs16 (content src) = 0xf0b8.
Proof.
  unfold content. rewrite foldl_app. cbn [foldl].
  apply residue_step. apply run_range, init_range.
Qed.

Lemma escape_no_flag b : Forall (fun c => c <> HDLC_PADDING) (escape b).
Proof.
  unfold escape, is_special.
  destruct (b =? HDLC_PADDING) eqn:Hp; cbn [orb].
  - apply Z.eqb_eq in Hp as ->. by repeat constructor.
  - destruct (b =? HDLC_ESCCHAR) eqn:He.
    + apply Z.eqb_eq in He as ->. by repeat constructor.
    + apply Z.eqb_neq in Hp. by repeat constructor.
Qed.

Lemma escaped_no_flag l : Forall (fun c => c <> HDLC_PADDING) (escaped l).
Proof.
  unfold escaped. induction l as [|b l IH]; [constructor|]. cbn.
  apply Forall_app; split; [apply escape_no_flag | done].
Qed.
End Encoder.

(** ** The receiver *)

(** [IHDLCParser]: what the receiver calls when a frame is complete. *)
Class IHDLCParser (H : Type) := frameComplete : H -> list Z -> outcome H.

Module Receiver.
Import Fcs.

Inductive ParseState := HDLC_PACKET_COMPLETE | HDLC_DATA | HDLC_ESCAPE.

#[export] Instance ParseState_eq_dec : EqDecision ParseState.
Proof. solve_decision. Defined.

(** [m_handler] says whether the handler pointer is set; the handler object
    itself is the state threaded through [addByte]. *)
Record CHDLC := {
  m_handler : bool;
  m_state : ParseState;
  m_buffer : list Z;
  m_runningFCS : Z;
}.

Definition set_state (s : ParseState) (p : CHDLC) : CHDLC :=
  {| m_handler := m_handler p; m_state := s;
     m_buffer := m_buffer p; m_runningFCS := m_runningFCS p |}.
Definition set_buffer (v : list Z) (p : CHDLC) : CHDLC :=
  {| m_handler := m_handler p; m_state := m_state p;
     m_buffer := v; m_runningFCS := m_runningFCS p |}.

Definition CHDLC_reset (p : CHDLC) : CHDLC :=
  {| m_handler := m_handler p; m_state := HDLC_PACKET_COMPLETE;
     m_buffer := []; m_runningFCS := initFcs16 |}.

(** The constructor: a buffer of [inputLength] zeros, then [reset()]. *)
Definition new_CHDLC (inputLength : nat) (handler : bool) : CHDLC :=
  CHDLC_reset {| m_handler := handler; m_state := HDLC_PACKET_COMPLETE;
           m_buffer := replicate inputLength 0; m_runningFCS := 0 |}.

Definition append (byte : Z) (p : CHDLC) : CHDLC :=
  {| m_handler := m_handler p; m_state := m_state p;
     m_buffer := push_back (m_buffer p) byte;
     m_runningFCS := addOneByteToFcs16 (m_runningFCS p) byte |}.

(** The check value read from the frame is passed and not used. *)
Definition validateChecksum (p : CHDLC) (frameFcs : Z) : bool :=
  closeFcs16 (m_runningFCS p) =? 0xf47.

Section handler.
Context {H : Type} `{IHDLCParser H}.

Definition CHDLC_callback (p : CHDLC) (h : H) : outcome H :=
  if m_handler p && (0 <? length (m_buffer p))%nat
  then frameComplete h (m_buffer p) else Ok h.

Definition addByte (s : CHDLC * H) (b : Z) : outcome (CHDLC * H) :=
  let '(p, h) := s in
  match m_state p with
  | HDLC_ESCAPE =>
      let translated := u8 (Z.lxor b HDLC_XORBYTE) in
      Ok (set_state HDLC_DATA (append translated p), h)
  | _ =>
      if b =? HDLC_ESCCHAR then Ok (set_state HDLC_ESCAPE p, h)
      else if b =? HDLC_PADDING then
        let len := length (m_buffer p) in
        h ← (if (2 <? len)%nat then
               b2 ← vat (m_buffer p) (len - 2);
               b1 ← vat (m_buffer p) (len - 1);
               let fcs := u16 (b2 * 256 + b1) in
               let p := set_buffer (pop_back (pop_back (m_buffer p))) p in
               if validateChecksum p fcs then CHDLC_callback p h else Ok h
             else Ok h);
        Ok (CHDLC_reset p, h)
      else Ok (append b p, h)
  end.

Definition feed (s : CHDLC * H) (bs : list Z) : outcome (CHDLC * H) :=
  foldM addByte s bs.
End handler.
End Receiver.

(** ** Delivery *)
Module Delivery.
Import Fcs Encoder Receiver.

(** *** Abstract specification of the receiver

    The stream is cut at the flags, escapes are undone, and a segment is a
    frame when it is a non-empty payload followed by the CRC-16/X-25 of that
    payload, low byte first. *)

Fixpoint segments (esc : bool) (cur : list Z) (bs : list Z) : list (list Z) :=
  match bs with
  | [] => []
  | b :: bs =>
      if esc then segments false (cur ++ [Z.lxor b HDLC_XORBYTE]) bs
      else if b =? HDLC_ESCCHAR then segments true cur bs
      else if b =? HDLC_PADDING then cur :: segments false [] bs
      else segments false (cur ++ [b]) bs
  end.

Definition check_bytes (payload : list Z) : list Z :=
  [u8 (crc_x25 payload); u8 (Z.shiftr (crc_x25 payload) 8)].

Definition payload_of (seg : list Z) : option (list Z) :=
  let payload := take (length seg - 2) seg in
  if bool_decide (payload <> [] /\ seg = payload ++ check_bytes payload)
  then Some payload else None.

Definition decode (bs : list Z) : list (list Z) := omap payload_of (segments false [] bs).

(** The recording handler. *)
Record FrameLog := { frames : list (list Z) }.
#[export] Instance FrameLog_parser : IHDLCParser FrameLog :=
  fun log frame => Ok {| frames := frames log ++ [frame] |}.

(** *** Receiver invariant *)

Definition ready (p : CHDLC) : Prop := m_state p <> HDLC_ESCAPE.

Record wf (p : CHDLC) : Prop := {
  wf_handler : m_handler p = true;
  wf_bytes : bytes_ok (m_buffer p);
  wf_fcs : m_runningFCS p = foldl addOneByteToFcs16 initFcs16 (m_buffer p);
}.

Lemma new_wf n : wf (new_CHDLC n true).
Proof. by split; [|constructor|]. Qed.

Lemma reset_wf p : m_handler p = true -> wf (CHDLC_reset p).
Proof. by split; [|constructor|]. Qed.

Lemma append_wf b p : wf p -> is_u8 b -> wf (append b p).
Proof.
  intros [Hh Hb Hf] Hu. split; cbn; [done| |].
  - apply Forall_app_2; [done|]. by constructor.
  - unfold push_back. by rewrite foldl_app, <- Hf.
Qed.

Lemma set_state_wf s p : wf p -> wf (set_state s p).
Proof. by intros [? ? ?]; split. Qed.

Lemma reset_new p n : m_handler p = true -> CHDLC_reset p = new_CHDLC n true.
Proof. intros H. unfold new_CHDLC, CHDLC_reset. cbn. by rewrite H. Qed.

Lemma reset_ready p : ready (CHDLC_reset p).
Proof. done. Qed.

Lemma padding_u8 : is_u8 HDLC_PADDING.
Proof. done. Qed.

#[export] Hint Resolve padding_u8 reset_ready content_bytes new_wf reset_wf append_wf set_state_wf wf_handler : serialmux.

Lemma xor20_u8 b : is_u8 b -> is_u8 (Z.lxor b HDLC_XORBYTE).
Proof. intros. by apply lxor_u8. Qed.

Lemma content_check src : bytes_ok src -> content src = src ++ check_bytes src.
Proof.
  intros Hs. unfold content, check_bytes.
  by rewrite <- computeFCS16_crc, !land_255 by done.
Qed.

(** The residue test accepts exactly the buffers that end in their own check
    bytes. *)
Lemma residue_iff s a b :
  bytes_ok (s ++ [a; b]) ->
  (closeFcs16 (foldl addOneByteToFcs16 initFcs16 (s ++ [a; b])) =? 0xf47) = true
  <-> [a; b] = check_bytes s.
Proof.
  intros Hb. apply Forall_app in Hb as [Hs Hab]. inversion_clear Hab as [|? ? Ha Hb].
  inversion_clear Hb as [|? ? Hb' _]. pose proof (run_range _ s init_range) as Hr.
  rewrite close_u16 by (apply run_range, init_range). rewrite Z.eqb_eq.
  pose proof (content_residue s) as Hc. rewrite content_check in Hc by done. split.
  - intros Heq. assert (Hres : foldl addOneByteToFcs16 initFcs16 (s ++ [a; b]) = 0xf0b8).
    { rewrite <- (lxor_cancel_r (foldl _ _ _) 0xffff), Heq. done. }
    rewrite <- Hc, !foldl_app in Hres. cbn in Hres.
    apply step2_inj in Hres as [-> ->]; auto using u8_range.
  - intros ->. by rewrite Hc.
Qed.

(** *** What one byte does *)
Section handler.
Context {H : Type} `{IHDLCParser H}.
Implicit Types (p : CHDLC) (h : H).

(** The effect of a closing flag on the handler. *)
Definition on_flag (h : H) (buffer : list Z) : outcome H :=
  match payload_of buffer with Some f => frameComplete h f | None => Ok h end.

Lemma addByte_escaped p h b :
  m_state p = HDLC_ESCAPE -> is_u8 b ->
  addByte (p, h) b = Ok (set_state HDLC_DATA (append (Z.lxor b HDLC_XORBYTE) p), h).
Proof.
  intros Hs Hb. unfold addByte. rewrite Hs. cbn.
  by rewrite u8_small by (by apply xor20_u8).
Qed.

Lemma addByte_esc p h :
  ready p -> addByte (p, h) HDLC_ESCCHAR = Ok (set_state HDLC_ESCAPE p, h).
Proof. unfold ready, addByte. by destruct (m_state p). Qed.

Lemma addByte_data p h b :
  ready p -> (b =? HDLC_ESCCHAR) = false -> (b =? HDLC_PADDING) = false ->
  addByte (p, h) b = Ok (append b p, h).
Proof. unfold ready, addByte. intros Hr -> ->. by destruct (m_state p). Qed.

(** Evaluation of a flag outside an escape, before any reasoning. *)
Lemma addByte_flag_eq p h :
  ready p ->
  addByte (p, h) HDLC_PADDING =
    (h ← (if (2 <? length (m_buffer p))%nat then
            b2 ← vat (m_buffer p) (length (m_buffer p) - 2);
            b1 ← vat (m_buffer p) (length (m_buffer p) - 1);
            let p' := set_buffer (pop_back (pop_back (m_buffer p))) p in
            if validateChecksum p' (u16 (b2 * 256 + b1)) then CHDLC_callback p' h else Ok h
          else Ok h);
     Ok (CHDLC_reset p, h)).
Proof. unfold ready, addByte. by destruct (m_state p). Qed.

Lemma addByte_flag p h :
  ready p -> wf p ->
  addByte (p, h) HDLC_PADDING = (h ← on_flag h (m_buffer p); Ok (CHDLC_reset p, h)).
Proof.
  intros Hr [Hh Hb Hf]. rewrite addByte_flag_eq by done.
  unfold on_flag, payload_of, validateChecksum, CHDLC_callback.
  cbn [set_buffer m_buffer m_handler m_runningFCS]. rewrite Hf, Hh.
  destruct (Nat.ltb_spec 2 (length (m_buffer p))) as [Hlen|Hlen].
  - destruct (tail2 (m_buffer p)) as (s & a & b & Hv & -> & -> & -> & ->); [lia|].
    step_bind. rewrite Hv in Hb, Hlen |- *. rewrite length_app in Hlen. cbn in Hlen.
    assert (Hs : s <> []) by (intros ->; cbn in Hlen; lia).
    destruct (Nat.ltb_spec 0 (length s)) as [_|Hz]; [|lia]. cbn [andb].
    destruct (closeFcs16 _ =? 0xf47) eqn:Hres.
    + apply residue_iff in Hres; [|done].
      by rewrite bool_decide_eq_true_2 by (split; [done | by rewrite Hres]).
    + rewrite bool_decide_eq_false_2; [done|]. intros [_ Heq].
      apply app_inv_head in Heq. apply residue_iff in Heq; [congruence|done].
  - rewrite bool_decide_eq_false_2; [done|]. intros [Hne _]. apply Hne.
    by replace (length (m_buffer p) - 2)%nat with 0%nat by lia.
Qed.

(** *** Refinement: feeding a stream is decoding it *)

Lemma feed_segments bs p h :
  wf p -> bytes_ok bs ->
  exists p', m_handler p' = true /\
    feed (p, h) bs =
      (h ← foldM frameComplete h
             (omap payload_of
                (segments (bool_decide (m_state p = HDLC_ESCAPE)) (m_buffer p) bs));
       Ok (p', h)).
Proof.
  intros Hp Hbs. revert p h Hp. induction Hbs as [|b bs Hb Hbs IH]; intros p h Hp.
  { exists p. split; [by apply wf_handler | done]. }
  unfold feed. cbn [foldM segments]. case_bool_decide as Hst.
  - rewrite addByte_escaped by done. step_bind.
    destruct (IH (set_state HDLC_DATA (append (Z.lxor b HDLC_XORBYTE) p)) h)
      as (p' & Hp' & Heq); [auto using xor20_u8 with serialmux|].
    by exists p'.
  - destruct (b =? HDLC_ESCCHAR) eqn:He; [apply Z.eqb_eq in He as ->|].
    + rewrite addByte_esc by done. step_bind.
      destruct (IH (set_state HDLC_ESCAPE p) h) as (p' & Hp' & Heq);
        [auto with serialmux|]. by exists p'.
    + destruct (b =? HDLC_PADDING) eqn:Hf; [apply Z.eqb_eq in Hf as ->|].
      * rewrite addByte_flag by done. cbn [omap list_omap]. unfold on_flag.
        destruct (payload_of (m_buffer p)) as [f|]; step_bind.
        -- destruct (frameComplete h f) as [h'|why]; step_bind.
           2: { exists p. split; [by apply wf_handler | done]. }
           apply (IH (CHDLC_reset p) h'); auto with serialmux.
        -- apply (IH (CHDLC_reset p) h); auto with serialmux.
      * rewrite addByte_data by done. step_bind.
        destruct (IH (append b p) h) as (p' & Hp' & Heq); [auto with serialmux|].
        exists p'. split; [done|]. cbn in Heq. rewrite bool_decide_eq_false_2 in Heq by done.
        done.
Qed.

(** *** Feeding an encoded frame *)

Lemma addByte_wf p h b p' h' :
  wf p -> is_u8 b -> addByte (p, h) b = Ok (p', h') -> wf p'.
Proof.
  intros Hp Hb. destruct (decide (m_state p = HDLC_ESCAPE)) as [Hs|Hs].
  { rewrite addByte_escaped by done. intros [= <- <-]. auto using xor20_u8 with serialmux. }
  destruct (b =? HDLC_ESCCHAR) eqn:He; [apply Z.eqb_eq in He as ->|].
  { rewrite addByte_esc by done. intros [= <- <-]. auto with serialmux. }
  destruct (b =? HDLC_PADDING) eqn:Hf; [apply Z.eqb_eq in Hf as ->|].
  - rewrite addByte_flag by done. intros ?; inv_bind. auto with serialmux.
  - rewrite addByte_data by done. intros [= <- <-]. auto with serialmux.
Qed.

Lemma feed_wf p h bs p' h' :
  wf p -> bytes_ok bs -> feed (p, h) bs = Ok (p', h') -> wf p'.
Proof.
  intros Hp Hbs. revert p h Hp. induction Hbs as [|b bs Hb _ IH]; intros p h Hp.
  - by intros [= <- <-].
  - unfold feed; cbn. intros Heq. inv_bind. destruct r as [p1 h1].
    eapply IH; [|done]. by eapply addByte_wf.
Qed.

Definition extend (st : ParseState) (l : list Z) (p : CHDLC) : CHDLC :=
  {| m_handler := m_handler p; m_state := st; m_buffer := m_buffer p ++ l;
     m_runningFCS := foldl addOneByteToFcs16 (m_runningFCS p) l |}.

Lemma extend_wf st l p : wf p -> bytes_ok l -> wf (extend st l p).
Proof.
  intros [Hh Hb Hf] Hl. split; cbn; [done|by apply Forall_app_2|].
  by rewrite foldl_app, <- Hf.
Qed.

Lemma feed_escape b p h :
  ready p -> is_u8 b ->
  exists st, st <> HDLC_ESCAPE /\ feed (p, h) (escape b) = Ok (extend st [b] p, h).
Proof.
  intros Hr Hb. unfold escape, is_special. destruct (b =? HDLC_PADDING) eqn:Hf;
    [|destruct (b =? HDLC_ESCCHAR) eqn:He]; cbn [orb].
  1,2: exists HDLC_DATA; split; [done|]; unfold feed; cbn [foldM];
    rewrite addByte_esc by done; step_bind;
    rewrite addByte_escaped by (done || by apply xor20_u8); step_bind;
    by rewrite lxor_cancel_r.
  exists (m_state p). split; [done|]. unfold feed. cbn [foldM].
  by rewrite addByte_data by done.
Qed.

Lemma feed_escaped l p h :
  ready p -> bytes_ok l ->
  exists st, st <> HDLC_ESCAPE /\ feed (p, h) (escaped l) = Ok (extend st l p, h).
Proof.
  intros Hr Hl. revert p h Hr. induction Hl as [|b l Hb _ IH]; intros p h Hr.
  { exists (m_state p). split; [done|]. unfold extend. rewrite app_nil_r.
    by destruct p. }
  destruct (feed_escape b p h Hr Hb) as (st & Hst & Heq).
  destruct (IH (extend st [b] p) h Hst) as (st' & Hst' & Heq').
  exists st'. split; [done|]. unfold escaped in *. cbn. unfold feed in *.
  rewrite foldM_app, Heq. step_bind. rewrite Heq'. unfold extend. cbn.
  by rewrite <- (assoc_L app).
Qed.

(** From the content of a frame to its closing flag. *)
Lemma feed_body l p h :
  ready p -> wf p -> bytes_ok l ->
  feed (p, h) (escaped l ++ [HDLC_PADDING])
  = (h ← on_flag h (m_buffer p ++ l); Ok (CHDLC_reset p, h)).
Proof.
  intros Hr Hp Hl. destruct (feed_escaped l p h Hr Hl) as (st & Hst & Heq).
  unfold feed in *. rewrite foldM_app, Heq. step_bind.
  rewrite addByte_flag by (done || by apply extend_wf). cbn.
  by destruct (on_flag h _).
Qed.

Lemma feed_encode src p h :
  ready p -> wf p -> bytes_ok src ->
  feed (p, h) (encodeHDLC src)
  = (h ← on_flag h (m_buffer p); h ← on_flag h (content src); Ok (CHDLC_reset p, h)).
Proof.
  intros Hr Hp Hs. rewrite encodeHDLC_content. unfold feed. cbn [foldM].
  rewrite addByte_flag by done. rewrite bind_assoc.
  destruct (on_flag h (m_buffer p)) as [h'|why]; [|done]. step_bind.
  pose proof (feed_body (content src) (CHDLC_reset p) h') as Hb. unfold feed in Hb.
  by rewrite Hb by auto with serialmux.
Qed.

(** In the middle of an escape the opening flag is taken as data. *)
Lemma feed_encode_escape src p h :
  m_state p = HDLC_ESCAPE -> wf p -> bytes_ok src ->
  exists seg, feed (p, h) (encodeHDLC src) = (h ← on_flag h seg; Ok (CHDLC_reset p, h)).
Proof.
  intros Hst Hp Hs. rewrite encodeHDLC_content. unfold feed. cbn [foldM].
  rewrite addByte_escaped by done. step_bind.
  pose proof (feed_body (content src)
    (set_state HDLC_DATA (append (Z.lxor HDLC_PADDING HDLC_XORBYTE) p)) h) as Hb.
  unfold feed in Hb.
  rewrite Hb; [by eexists | done | auto using xor20_u8 with serialmux..].
Qed.

Lemma payload_of_nil : payload_of [] = None.
Proof. done. Qed.

Lemma payload_of_content src :
  bytes_ok src -> payload_of (content src) = if decide (src = []) then None else Some src.
Proof.
  intros Hs. unfold payload_of. rewrite content_check by done.
  rewrite length_app. cbn [check_bytes length]. rewrite Nat.add_sub, take_app_length.
  case_decide as Hnil.
  - by rewrite bool_decide_eq_false_2 by (by intros [? _]).
  - by rewrite bool_decide_eq_true_2 by done.
Qed.

(** Frames with an empty payload are dropped. *)
Lemma feed_encode_list srcs p h :
  ready p -> wf p -> m_buffer p = [] -> Forall bytes_ok srcs ->
  feed (p, h) (concat (encodeHDLC <$> srcs))
  = (h ← foldM frameComplete h (filter (fun s => s <> []) srcs);
     Ok (if decide (srcs = []) then p else CHDLC_reset p, h)).
Proof.
  intros Hr Hp Hbuf Hsrcs. revert p h Hr Hp Hbuf.
  induction Hsrcs as [|src srcs Hs _ IH]; intros p h Hr Hp Hbuf; [done|].
  cbn [fmap list_fmap concat]. unfold feed in *. rewrite foldM_app.
  pose proof (feed_encode src p h Hr Hp Hs) as He. unfold feed in He. rewrite He, Hbuf.
  unfold on_flag. rewrite payload_of_nil, payload_of_content by done. step_bind.
  rewrite (filter_cons _ src srcs), (decide_False (P := src :: srcs = [])) by done.
  destruct (decide (src = [])) as [Hnil|Hne];
    [rewrite decide_False by tauto | rewrite decide_True by done]; step_bind.
  - rewrite IH by auto with serialmux. by destruct (decide (srcs = [])).
  - destruct (frameComplete h src) as [h'|why]; [|done]. step_bind.
    rewrite IH by auto with serialmux. by destruct (decide (srcs = [])).
Qed.
End handler.

(** *** With the recording handler nothing is undefined *)

Lemma log_frames l log :
  foldM frameComplete log l = Ok {| frames := frames log ++ l |}.
Proof.
  revert log; induction l as [|f l IH]; intros log; cbn.
  - rewrite app_nil_r. by destruct log.
  - rewrite IH. cbn. by rewrite <- (assoc_L app).
Qed.

Lemma log_on_flag seg log :
  exists lost, on_flag log seg = Ok {| frames := frames log ++ lost |}.
Proof.
  unfold on_flag. destruct (payload_of seg) as [f|].
  - by exists [f].
  - exists []. rewrite app_nil_r. by destruct log.
Qed.

(** One encoded frame brings any receiver back in step. *)
Lemma feed_encode_resync src p log :
  wf p -> bytes_ok src ->
  exists lost, feed (p, log) (encodeHDLC src) = Ok (CHDLC_reset p, {| frames := frames log ++ lost |}).
Proof.
  intros Hp Hs. destruct (decide (m_state p = HDLC_ESCAPE)) as [Hst|Hst].
  - destruct (feed_encode_escape src p log Hst Hp Hs) as [seg Heq].
    destruct (log_on_flag seg log) as [lost Hl]. exists lost. by rewrite Heq, Hl.
  - rewrite feed_encode by done.
    destruct (log_on_flag (m_buffer p) log) as [l1 ->]. step_bind.
    destruct (log_on_flag (content src) {| frames := frames log ++ l1 |}) as [l2 ->].
    step_bind. exists (l1 ++ l2). cbn. by rewrite (assoc_L app).
Qed.

Lemma encodeHDLC_bytes src : bytes_ok src -> bytes_ok (encodeHDLC src).
Proof.
  intros Hs. rewrite encodeHDLC_content. constructor; [done|].
  apply Forall_app_2; [|by repeat constructor]. apply content_bytes in Hs.
  unfold escaped. induction Hs as [|b l Hb _ IH]; [constructor|]. cbn.
  apply Forall_app_2; [|done]. unfold escape.
  destruct (is_special b); [|by constructor].
  constructor; [done|]. constructor; [by apply xor20_u8 | constructor].
Qed.

(** ** Properties *)

(** C10: the receiver refines the decoder specification.  For every handler
    and every byte stream, feeding the stream to a new [CHDLC] calls the
    handler with exactly the frames of [decode], in order: the running sum
    and its residue test accept a segment if and only if it is a non-empty
    payload followed by the CRC-16/X-25 of the payload. *)
Theorem receiver_refines_decode {H} `{IHDLCParser H} n (h : H) bs :
  bytes_ok bs ->
  exists p', feed (new_CHDLC n true, h) bs
    = (h' ← foldM frameComplete h (decode bs); Ok (p', h')).
Proof.
  intros Hbs. destruct (feed_segments bs (new_CHDLC n true) h) as (p' & _ & Heq);
    [auto with serialmux | done |]. by exists p'.
Qed.

(** C4: encode/decode round trip on a stream.  The frames of a list of
    payloads, sent back to back, reach the handler in order, each once, and
    leave the receiver as new; only empty payloads are dropped. *)
Theorem stream_delivery {H} `{IHDLCParser H} n (h : H) (srcs : list (list Z)) :
  Forall bytes_ok srcs ->
  feed (new_CHDLC n true, h) (concat (encodeHDLC <$> srcs))
  = (h' ← foldM frameComplete h (filter (fun s => s <> []) srcs);
     Ok (new_CHDLC n true, h')).
Proof.
  intros Hs. rewrite feed_encode_list by (done || apply new_wf).
  by destruct (decide (srcs = [])).
Qed.

(** C24: resynchronisation.  After any noise, at most the first encoded frame
    is lost or damaged: the frames after it are all delivered, whatever state
    the noise left the receiver in. *)
Theorem resynchronisation n noise src srcs :
  bytes_ok noise -> bytes_ok src -> Forall bytes_ok srcs ->
  exists lost,
    feed (new_CHDLC n true, {| frames := [] |})
      (noise ++ encodeHDLC src ++ concat (encodeHDLC <$> srcs))
    = Ok (new_CHDLC n true, {| frames := lost ++ filter (fun s => s <> []) srcs |}).
Proof.
  intros Hn Hs Hss.
  destruct (feed_segments noise (new_CHDLC n true) {| frames := [] |}) as (p1 & Hp1 & Hf);
    [auto with serialmux | done |].
  rewrite log_frames in Hf. step_bind. cbn [mbind outcome_bind] in Hf.
  assert (Hwf : wf p1) by (eapply feed_wf; [apply (new_wf n) | exact Hn | exact Hf]).
  match type of Hf with
  | _ = Ok (_, ?log) => destruct (feed_encode_resync src p1 log Hwf Hs) as [l Hl]
  end.
  unfold feed in *. rewrite (foldM_app _ _ noise), Hf. step_bind.
  rewrite (foldM_app _ _ (encodeHDLC src)), Hl. step_bind.
  pose proof (feed_encode_list srcs (CHDLC_reset p1)) as He. unfold feed in He.
  rewrite He, log_frames by (done || auto with serialmux). step_bind. eexists.
  rewrite (reset_new p1 n), (reset_new (new_CHDLC n true) n) by done.
  by destruct (decide (srcs = [])).
Qed.

(** C25: error detection.  A frame in which exactly one byte of the content
    (payload or check bytes, before escaping) was changed is never delivered
    and leaves the receiver as new. *)
Theorem corrupted_byte_rejected {H} `{IHDLCParser H} n (h : H) src pre b1 b2 post :
  bytes_ok src -> content src = pre ++ b1 :: post -> is_u8 b2 -> b1 <> b2 ->
  feed (new_CHDLC n true, h)
    (HDLC_PADDING :: escaped (pre ++ b2 :: post) ++ [HDLC_PADDING])
  = Ok (new_CHDLC n true, h).
Proof.
  intros Hs Hc Hb2 Hne. pose proof (content_bytes src Hs) as Hcb.
  rewrite Hc in Hcb. apply Forall_app in Hcb as [Hpre Hpost].
  inversion_clear Hpost as [|? ? Hb1 Hpost'].
  assert (Hl : bytes_ok (pre ++ b2 :: post)) by (apply Forall_app_2; [done|by constructor]).
  unfold feed. cbn [foldM]. rewrite addByte_flag by (done || apply new_wf).
  change (on_flag h (m_buffer (new_CHDLC n true))) with (Ok h). step_bind.
  pose proof (feed_body (pre ++ b2 :: post) (CHDLC_reset (new_CHDLC n true)) h) as Hb.
  unfold feed in Hb. rewrite Hb by (done || auto with serialmux).
  unfold on_flag. cbn [CHDLC_reset m_buffer app].
  replace (payload_of (pre ++ b2 :: post)) with (@None (list Z)); [done|].
  unfold payload_of. rewrite bool_decide_eq_false_2; [done|]. intros [_ Heq].
  apply (run_one_byte pre post initFcs16 b1 b2 init_range Hb1 Hb2 Hne).
  rewrite <- Hc, content_residue, Heq, <- content_check, content_residue; [done|].
  rewrite Heq in Hl. by apply Forall_app in Hl as [? _].
Qed.

(** *** Concrete runs *)

Definition hello : list Z := [0; 0x7E; 0x7D; 3; 255].

Lemma receiver_refines_decode_witness :
  bytes_ok (encodeHDLC hello ++ encodeHDLC [9]) /\
  exists p', feed (new_CHDLC 4 true, {| frames := [] |}) (encodeHDLC hello ++ encodeHDLC [9])
    = (h' ← foldM frameComplete {| frames := [] |}
              (decode (encodeHDLC hello ++ encodeHDLC [9])); Ok (p', h')).
Proof.
  assert (Hb : bytes_ok (encodeHDLC hello ++ encodeHDLC [9])).
  { vm_compute. repeat constructor; discriminate. }
  split; [exact Hb | apply (receiver_refines_decode 4 {| frames := [] |} _ Hb)].
Defined.

Lemma stream_delivery_witness :
  feed (new_CHDLC 4 true, {| frames := [] |}) (concat (encodeHDLC <$> [hello; []; [9]]))
  = (h' ← foldM frameComplete {| frames := [] |} [hello; [9]]; Ok (new_CHDLC 4 true, h')).
Proof.
  apply (stream_delivery 4 {| frames := [] |} [hello; []; [9]]).
  repeat constructor; discriminate.
Defined.

Lemma resynchronisation_witness :
  exists lost,
    feed (new_CHDLC 4 true, {| frames := [] |})
      ([1; 0x7D] ++ encodeHDLC hello ++ concat (encodeHDLC <$> [[9]; hello]))
    = Ok (new_CHDLC 4 true, {| frames := lost ++ [[9]; hello] |}).
Proof.
  apply (resynchronisation 4 [1; 0x7D] hello [[9]; hello]);
    repeat constructor; discriminate.
Defined.

Lemma corrupted_byte_rejected_witness :
  feed (new_CHDLC 4 true, {| frames := [] |})
    (HDLC_PADDING :: escaped ([0; 0x7E] ++ 0 :: drop 3 (content hello)) ++ [HDLC_PADDING])
  = Ok (new_CHDLC 4 true, {| frames := [] |}).
Proof.
  apply (corrupted_byte_rejected 4 {| frames := [] |} hello [0; 0x7E] 0x7D 0
    (drop 3 (content hello))).
  - repeat constructor; discriminate.
  - vm_compute. reflexivity.
  - split; [discriminate | reflexivity].
  - discriminate.
Defined.
End Delivery.
