(* ===== verification/Common.v ===== *)
(** * Common definitions ([serial_mux/Common.h], [Common.cpp], [Version.h],
    [Version.cpp], [Build.h])

    Command and error codes, the version record, the mux info payload, and the
    subscription filter with its wire form. *)

From Stdlib Require Import ZArith Lia.
From stdpp Require Import base list strings pretty.
From S2P Require Import Prelude.
#[local] Open Scope Z_scope.

(** ** Codes *)

(** [enum ECommands] *)
Definition NULL_COMMAND : Z := 0.
Definition HELLO : Z := 1.
Definition HELLO_RESPONSE : Z := 2.
Definition MGR_HELLO : Z := 3.
Definition NOTIFICATION : Z := 20.
Definition SUBSCRIBE : Z := 22.

(** [enum EMuxCommands] *)
Definition MUX_HELLO : Z := 1.
Definition MUX_INFO : Z := 2.

(** [enum ErrorCode]; the first is spelled [ERR_OK] here because [Ok] is the
    constructor of [outcome]. *)
Definition ERR_OK : Z := 0.
Definition ERR_INVALID_CMD : Z := 1.
Definition ERR_INVALID_ARG : Z := 2.
Definition ERR_INVALID_AUTH : Z := 3.
Definition ERR_UNSUPPORTED_VERSION : Z := 4.
Definition ERR_COMMAND_TIMEOUT : Z := 5.

Definition isPicardApiCommand (type : Z) : bool := NOTIFICATION <? type.

(** ** Version *)

Record SMuxVersion := {
  major : Z;    (* uint8_t *)
  minor : Z;    (* uint8_t *)
  release : Z;  (* uint8_t *)
  build : Z;    (* uint16_t *)
}.

Definition VER_MAJOR : Z := 1.
Definition VER_MINOR : Z := 1.
Definition VER_PATCH : Z := 2.
Definition VER_BUILD : Z := 17.

Definition getVersion : SMuxVersion :=
  {| major := u8 VER_MAJOR; minor := u8 VER_MINOR; release := u8 VER_PATCH;
     build := u16 VER_BUILD |}.

(** [snprintf] into a 64 byte buffer: at most 63 characters are kept. *)
Definition version_buffer_len : nat := 64.

Definition getVersionString : string :=
  let v := getVersion in
  String.substring 0 (version_buffer_len - 1)
    ("Serial Mux v" +:+ pretty (major v) +:+ "." +:+ pretty (minor v) +:+ "."
     +:+ pretty (release v) +:+ " (build " +:+ pretty (build v) +:+ ")").

Definition muxInfoPayload (protocolVersion : Z) : list Z :=
  let v := getVersion in
  [ protocolVersion; major v; minor v; release v;
    Z.land (Z.shiftr (build v) 8) 0xFF; Z.land (build v) 0xFF ].

(** ** Subscription filter *)

Record SubscriptionParams := { filter : Z; unreliable : Z }.  (* both [int] *)

Definition default_params : SubscriptionParams := {| filter := 0; unreliable := 0 |}.

#[export] Instance SubscriptionParams_eq_dec : EqDecision SubscriptionParams.
Proof. solve_decision. Defined.

Definition SUBSCRIBE_PARAMS_LENGTH : nat := 8.

(** [data.reserve(8)] changes the capacity and not the size, so each
    [data[i] =] is undefined when [data] is shorter than [i + 1]. *)
Definition filterToVector (params : SubscriptionParams) (data : list Z)
  : outcome (list Z) :=
  data ← vset data 0 (Z.land (Z.shiftr (filter params) 24) 0xFF);
  data ← vset data 1 (Z.land (Z.shiftr (filter params) 16) 0xFF);
  data ← vset data 2 (Z.land (Z.shiftr (filter params) 8) 0xFF);
  data ← vset data 3 (Z.land (filter params) 0xFF);
  data ← vset data 4 (Z.land (Z.shiftr (unreliable params) 24) 0xFF);
  data ← vset data 5 (Z.land (Z.shiftr (unreliable params) 16) 0xFF);
  data ← vset data 6 (Z.land (Z.shiftr (unreliable params) 8) 0xFF);
  vset data 7 (Z.land (unreliable params) 0xFF).

(** Four bytes read at [data[i]], most significant first, converted to [int]. *)
Definition read_be32 (data : list Z) (i : nat) : outcome Z :=
  b0 ← vat data i;
  b1 ← vat data (i + 1);
  b2 ← vat data (i + 2);
  b3 ← vat data (i + 3);
  Ok (i32 (Z.lor (Z.lor (Z.lor (Z.land (Z.shiftl b0 24) 0xFF000000)
                               (Z.land (Z.shiftl b1 16) 0xFF0000))
                        (Z.land (Z.shiftl b2 8) 0xFF00))
                 (Z.land b3 0xFF))).

Definition vectorToFilter (data : list Z) : outcome SubscriptionParams :=
  f ← read_be32 data 0;
  if (8 <=? length data)%nat
  then u ← read_be32 data 4; Ok {| filter := f; unreliable := u |}
  else Ok {| filter := f; unreliable := 0 |}.

(** [(params.filter & (1<<notifType)) != 0]; the shift of an [int] is defined
    for [0 <= notifType < 32]. *)
Definition subscribeFilterMatch (params : SubscriptionParams) (notifType : Z)
  : outcome bool :=
  if (0 <=? notifType) && (notifType <? 32)
  then Ok (negb (Z.land (filter params) (i32 (Z.shiftl 1 notifType)) =? 0))
  else Undefined BadShift.

(** The bitwise union of two filters, [|=] on both fields. *)
Definition params_union (a b : SubscriptionParams) : SubscriptionParams :=
  {| filter := Z.lor (filter a) (filter b);
     unreliable := Z.lor (unreliable a) (unreliable b) |}.

Definition params_ok (p : SubscriptionParams) : Prop :=
  is_i32 (filter p) /\ is_i32 (unreliable p).

(** ** Lemmas *)

(** A word is an [int] exactly when its bits from 31 up are all its sign. *)
Lemma is_i32_shiftr z : is_i32 z <-> Z.shiftr z 31 = 0 \/ Z.shiftr z 31 = -1.
Proof.
  rewrite Z.shiftr_div_pow2 by lia. unfold is_i32. change (2 ^ 31) with 2147483648.
  pose proof (Z.div_mod z 2147483648 ltac:(lia)) as Hdm.
  pose proof (Z.mod_pos_bound z 2147483648 ltac:(lia)) as Hb. lia.
Qed.

Lemma lor_i32 a b : is_i32 a -> is_i32 b -> is_i32 (Z.lor a b).
Proof.
  rewrite !is_i32_shiftr, Z.shiftr_lor.
  by intros [-> | ->] [-> | ->]; auto.
Qed.

Lemma params_union_ok a b : params_ok a -> params_ok b -> params_ok (params_union a b).
Proof. intros [? ?] [? ?]. by split; apply lor_i32. Qed.

Lemma default_params_ok : params_ok default_params.
Proof. done. Qed.

#[export] Hint Resolve lor_i32 params_union_ok default_params_ok : serialmux.

Lemma params_union_default_l p : params_union default_params p = p.
Proof. by destruct p. Qed.

(** Two words of 32 bits are equal when their 32 bits are. *)
Lemma bits32_eq a b :
  (forall i, 0 <= i < 32 -> Z.testbit a i = Z.testbit b i) -> u32 a = u32 b.
Proof.
  intros H. apply Z.bits_inj'. intros i Hi. unfold u32.
  destruct (decide (i < 32)).
  - by rewrite !Z.mod_pow2_bits_low, H by lia.
  - by rewrite !Z.mod_pow2_bits_high by lia.
Qed.

Lemma i32_u32 z : i32 (u32 z) = i32 z.
Proof.
  unfold i32, u32. by rewrite Zplus_mod_idemp_l.
Qed.

(** Masks at a bit position: the bits [lo .. lo+7]. *)
Lemma mask_bit lo i : 0 <= lo -> 0 <= i ->
  Z.testbit (Z.shiftl 255 lo) i = bool_decide (lo <= i < lo + 8).
Proof.
  intros Hlo Hi. destruct (decide (i < lo)).
  - rewrite Z.shiftl_spec_low by lia. symmetry. apply bool_decide_eq_false_2. lia.
  - rewrite Z.shiftl_spec by lia. change 255 with (Z.ones 8).
    destruct (decide (i < lo + 8)).
    + rewrite Z.ones_spec_low by lia. symmetry. apply bool_decide_eq_true_2. lia.
    + rewrite Z.ones_spec_high by lia. symmetry. apply bool_decide_eq_false_2. lia.
Qed.

(** Reading back the four bytes of an [int] gives the [int]. *)
Lemma be32_roundtrip z :
  is_i32 z ->
  i32 (Z.lor (Z.lor (Z.lor (Z.land (Z.shiftl (Z.land (Z.shiftr z 24) 0xFF) 24) 0xFF000000)
                           (Z.land (Z.shiftl (Z.land (Z.shiftr z 16) 0xFF) 16) 0xFF0000))
                    (Z.land (Z.shiftl (Z.land (Z.shiftr z 8) 0xFF) 8) 0xFF00))
             (Z.land (Z.land z 0xFF) 0xFF)) = z.
Proof.
  intros Hz. rewrite <- (i32_small z) at 5 by done. rewrite <- i32_u32, <- (i32_u32 z).
  f_equal. apply bits32_eq. intros i Hi.
  change 0xFF000000 with (Z.shiftl 255 24). change 0xFF0000 with (Z.shiftl 255 16).
  change 0xFF00 with (Z.shiftl 255 8). change 0xFF with (Z.shiftl 255 0).
  rewrite !Z.lor_spec, !Z.land_spec, !mask_bit by lia.
  rewrite !Z.shiftl_spec, !Z.land_spec by lia.
  repeat case_bool_decide; try lia; rewrite ?andb_true_r, ?andb_false_r, ?orb_false_r;
    cbn [orb]; rewrite ?mask_bit by lia.
  all: rewrite ?bool_decide_eq_true_2 by lia; rewrite ?andb_true_r, ?Z.shiftr_spec by lia.
  all: try (f_equal; lia); done.
Qed.

Lemma read_be32_Ok data i b0 b1 b2 b3 :
  data !! i = Some b0 -> data !! (i + 1)%nat = Some b1 ->
  data !! (i + 2)%nat = Some b2 -> data !! (i + 3)%nat = Some b3 ->
  read_be32 data i =
    Ok (i32 (Z.lor (Z.lor (Z.lor (Z.land (Z.shiftl b0 24) 0xFF000000)
                                 (Z.land (Z.shiftl b1 16) 0xFF0000))
                          (Z.land (Z.shiftl b2 8) 0xFF00))
                   (Z.land b3 0xFF))).
Proof. intros H0 H1 H2 H3. unfold read_be32, vat. by rewrite H0, H1, H2, H3. Qed.

Lemma read_be32_defined data i : defined (read_be32 data i) = (i + 4 <=? length data)%nat.
Proof.
  destruct (Nat.leb_spec (i + 4) (length data)) as [Hlen|Hlen].
  - destruct (lookup_lt_is_Some_2 data i ltac:(lia)) as [b0 H0].
    destruct (lookup_lt_is_Some_2 data (i + 1) ltac:(lia)) as [b1 H1].
    destruct (lookup_lt_is_Some_2 data (i + 2) ltac:(lia)) as [b2 H2].
    destruct (lookup_lt_is_Some_2 data (i + 3) ltac:(lia)) as [b3 H3].
    by erewrite read_be32_Ok.
  - unfold read_be32. destruct (vat data i), (vat data (i + 1)), (vat data (i + 2));
      step_bind; try done. by rewrite vat_oob by lia.
Qed.

Lemma read_be32_range data i z : read_be32 data i = Ok z -> is_i32 z.
Proof. unfold read_be32. intros H. inv_bind. apply i32_range. Qed.

Lemma vectorToFilter_ok data p : vectorToFilter data = Ok p -> params_ok p.
Proof.
  unfold vectorToFilter. intros H. inv_bind. destruct (8 <=? length data)%nat; inv_bind;
    split; cbn; eauto using read_be32_range. done.
Qed.
#[export] Hint Resolve vectorToFilter_ok : serialmux.

(** The eight bytes of the wire form. *)
Definition filter_bytes (p : SubscriptionParams) : list Z :=
  [ Z.land (Z.shiftr (filter p) 24) 0xFF; Z.land (Z.shiftr (filter p) 16) 0xFF;
    Z.land (Z.shiftr (filter p) 8) 0xFF; Z.land (filter p) 0xFF;
    Z.land (Z.shiftr (unreliable p) 24) 0xFF; Z.land (Z.shiftr (unreliable p) 16) 0xFF;
    Z.land (Z.shiftr (unreliable p) 8) 0xFF; Z.land (unreliable p) 0xFF ].

Lemma vectorToFilter_defined data : defined (vectorToFilter data) = (4 <=? length data)%nat.
Proof.
  unfold vectorToFilter. pose proof (read_be32_defined data 0) as H0.
  destruct (read_be32 data 0) as [f|why]; [|done]. step_bind.
  destruct (Nat.leb_spec 8 (length data)) as [Hl|Hl]; [|done].
  pose proof (read_be32_defined data 4) as H4.
  destruct (read_be32 data 4) as [u|why]; [done|].
  symmetry in H4. apply Nat.leb_gt in H4. lia.
Qed.

Lemma filter_bytes_length p : length (filter_bytes p) = SUBSCRIBE_PARAMS_LENGTH.
Proof. done. Qed.

Lemma filter_bytes_ok p : bytes_ok (filter_bytes p).
Proof. unfold filter_bytes. rewrite !land_255. repeat constructor; apply u8_range. Qed.
#[export] Hint Resolve filter_bytes_ok : serialmux.

Lemma filterToVector_Ok p d0 d1 d2 d3 d4 d5 d6 d7 rest :
  filterToVector p (d0 :: d1 :: d2 :: d3 :: d4 :: d5 :: d6 :: d7 :: rest)
  = Ok (filter_bytes p ++ rest).
Proof. done. Qed.

Lemma filterToVector_long p data :
  (8 <= length data)%nat -> filterToVector p data = Ok (filter_bytes p ++ drop 8 data).
Proof.
  intros Hlen. do 8 (destruct data as [|? data]; [cbn in Hlen; lia|]).
  by rewrite filterToVector_Ok.
Qed.

Lemma filterToVector_short p data :
  (length data < 8)%nat -> filterToVector p data = Undefined OutOfBounds.
Proof. intros Hlen. by do 8 (destruct data as [|? data]; [done|]); cbn in Hlen; lia. Qed.

Lemma vectorToFilter_bytes p rest :
  params_ok p -> vectorToFilter (filter_bytes p ++ rest) = Ok p.
Proof.
  intros [Hf Hu]. unfold vectorToFilter.
  erewrite (read_be32_Ok _ 0), (read_be32_Ok _ 4) by done. step_bind.
  rewrite length_app, filter_bytes_length. cbn -[Z.shiftr Z.shiftl Z.land Z.lor i32].
  rewrite !be32_roundtrip by done. by destruct p.
Qed.

Lemma land_single_bit z n :
  0 <= n -> negb (Z.land z (Z.shiftl 1 n) =? 0) = Z.testbit z n.
Proof.
  intros Hn. assert (Hbit : forall i, 0 <= i -> Z.testbit (Z.shiftl 1 n) i = bool_decide (i = n)).
  { intros i Hi. destruct (decide (i < n)).
    - rewrite Z.shiftl_spec_low by lia. symmetry. apply bool_decide_eq_false_2. lia.
    - rewrite Z.shiftl_spec by lia. case_bool_decide as Heq.
      + subst. by rewrite Z.sub_diag.
      + apply (word_bits_high 1); lia. }
  destruct (Z.eqb_spec (Z.land z (Z.shiftl 1 n)) 0) as [Heq|Hne].
  - apply (f_equal (fun x => Z.testbit x n)) in Heq.
    rewrite Z.land_spec, Hbit, bool_decide_eq_true_2, andb_true_r, Z.testbit_0_l in Heq by lia.
    by rewrite Heq.
  - destruct (Z.testbit z n) eqn:Ht; [done|]. exfalso. apply Hne.
    apply Z.bits_inj'. intros i Hi. rewrite Z.land_spec, Hbit, Z.testbit_0_l by lia.
    case_bool_decide; subst; by rewrite ?Ht, ?andb_false_r.
Qed.

Lemma land_sign_bit z :
  is_i32 z -> negb (Z.land z (- 2 ^ 31) =? 0) = Z.testbit z 31.
Proof.
  intros Hz. change (- 2 ^ 31) with (Z.shiftl (-1) 31).
  rewrite <- (Z.shiftl_0_l 31), <- (Z.shiftl_0_l 31).
  assert (Hl : Z.land z (Z.shiftl (-1) 31) = Z.shiftl (Z.shiftr z 31) 31).
  { apply Z.bits_inj'. intros i Hi. rewrite Z.land_spec. destruct (decide (i < 31)).
    - rewrite !Z.shiftl_spec_low by lia. by rewrite andb_false_r.
    - rewrite !Z.shiftl_spec, Z.bits_m1, andb_true_r, Z.shiftr_spec by lia.
      f_equal; lia. }
  rewrite Hl. assert (Ht : Z.testbit z 31 = Z.testbit (Z.shiftr z 31) 0)
    by (by rewrite Z.shiftr_spec by lia).
  rewrite Ht. apply is_i32_shiftr in Hz. by destruct Hz as [-> | ->].
Qed.

Lemma subscribeFilterMatch_testbit p n :
  is_i32 (filter p) -> 0 <= n < 32 ->
  subscribeFilterMatch p n = Ok (Z.testbit (filter p) n).
Proof.
  intros Hp Hn. unfold subscribeFilterMatch.
  rewrite (proj2 (Z.leb_le 0 n)), (proj2 (Z.ltb_lt n 32)) by lia. cbn [andb]. f_equal.
  destruct (decide (n = 31)) as [->|Hne].
  - change (i32 (Z.shiftl 1 31)) with (- 2 ^ 31). by apply land_sign_bit.
  - rewrite i32_small; [apply land_single_bit; lia|]. rewrite Z.shiftl_mul_pow2 by lia.
    unfold is_i32. pose proof (Z.pow_pos_nonneg 2 n). 
    assert (2 ^ n < 2 ^ 31) by (apply Z.pow_lt_mono_r; lia). lia.
Qed.

Lemma subscribeFilterMatch_undefined p n :
  n < 0 \/ 32 <= n -> subscribeFilterMatch p n = Undefined BadShift.
Proof.
  intros Hn. unfold subscribeFilterMatch.
  by destruct (Z.leb_spec 0 n), (Z.ltb_spec n 32); try lia.
Qed.

(** ** Properties *)

(** The subscription filter survives its wire form: writing any pair of
    [int] filters into a vector of at least eight bytes succeeds, changes only
    the first eight bytes, and reading the vector gives the pair back. *)
Lemma filter_roundtrip p data :
  params_ok p -> (8 <= length data)%nat ->
  exists data', filterToVector p data = Ok data' /\
    length data' = length data /\ drop 8 data' = drop 8 data /\
    vectorToFilter data' = Ok p.
Proof.
  intros Hp Hlen. exists (filter_bytes p ++ drop 8 data). split_and!.
  - by apply filterToVector_long.
  - rewrite length_app, length_drop. cbn. lia.
  - done.
  - by apply vectorToFilter_bytes.
Qed.

Lemma filter_roundtrip_witness :
  exists data', filterToVector {| filter := -2; unreliable := 0x12345678 |} (repeat 7 9)
    = Ok data' /\ length data' = 9%nat /\ drop 8 data' = [7] /\
    vectorToFilter data' = Ok {| filter := -2; unreliable := 0x12345678 |}.
Proof.
  apply (filter_roundtrip {| filter := -2; unreliable := 0x12345678 |} (repeat 7 9)).
  - repeat split; discriminate.
  - cbn. lia.
Defined.

(** Both conversions index the vector without a length check.  Reading is
    defined exactly for four or more bytes, writing exactly for eight or more:
    the [reserve] in [filterToVector] does not make a shorter vector safe. *)
Lemma filter_vector_bounds p data :
  defined (vectorToFilter data) = (4 <=? length data)%nat /\
  defined (filterToVector p data) = (8 <=? length data)%nat.
Proof.
  split; [apply vectorToFilter_defined|].
  destruct (Nat.leb_spec 8 (length data)) as [Hl|Hl].
  - by rewrite filterToVector_long.
  - by rewrite filterToVector_short.
Qed.

(** A notification of type [n] passes a filter when bit [n] of the filter
    is set, the sign bit included; for the types 32 to 255 that a notification
    byte can also carry, the shift is undefined. *)
Theorem subscribeFilterMatch_spec p n :
  is_i32 (filter p) -> is_u8 n ->
  subscribeFilterMatch p n =
    if decide (n < 32) then Ok (Z.testbit (filter p) n) else Undefined BadShift.
Proof.
  intros Hp Hn. case_decide.
  - apply subscribeFilterMatch_testbit; [done|word_range].
  - apply subscribeFilterMatch_undefined. lia.
Qed.

Lemma subscribeFilterMatch_spec_witness :
  subscribeFilterMatch {| filter := -1; unreliable := 0 |} 31 = Ok true /\
  subscribeFilterMatch {| filter := -1; unreliable := 0 |} 40 = Undefined BadShift.
Proof.
  split.
  - apply (subscribeFilterMatch_spec {| filter := -1; unreliable := 0 |} 31);
      split; discriminate || reflexivity.
  - apply (subscribeFilterMatch_spec {| filter := -1; unreliable := 0 |} 40);
      split; discriminate || reflexivity.
Defined.

(** The version string is not cut by its buffer. *)
Example getVersionString_value : getVersionString = "Serial Mux v1.1.2 (build 17)".
Proof. vm_compute. reflexivity. Qed.

Example muxInfoPayload_value v : muxInfoPayload v = [v; 1; 1; 2; 0; 17].
Proof. reflexivity. Qed.
