(* ===== verification/Subscriber.v ===== *)
(** * Subscriptions ([serial_mux/Subscriber.h], [Subscriber.cpp])

    [ISubscriber] is the interface the client manager uses; [CSubscriber] keeps
    the filter in force and the filter of the open transaction.  The laws of the
    interface are those the manager's theorems rely on. *)

From Stdlib Require Import ZArith Lia.
From stdpp Require Import base list.
From S2P Require Import Prelude Common.
#[local] Open Scope Z_scope.

(** [ISubscriber], with [getUnreliable] of [CSubscriber]. *)
Class ISubscriber (S : Type) := {
  getSubscription : S -> Z;
  getUnreliable : S -> Z;
  setSubscription : SubscriptionParams -> S -> S;
  isSubscribed : S -> Z -> outcome bool;
  resetFilter : S -> S;
  commitFilter : S -> S;
}.

(** What a subscriber promises: the filter in force changes only on commit, and
    the reported filter is the one of the open transaction. *)
Class SubscriberLaws (S : Type) `{ISubscriber S} := {
  sub_set_reported p s :
    getSubscription (setSubscription p s) = filter p /\
    getUnreliable (setSubscription p s) = unreliable p;
  sub_set_active p s n : isSubscribed (setSubscription p s) n = isSubscribed s n;
  sub_reset_active s n : isSubscribed (resetFilter s) n = isSubscribed s n;
  sub_commit_reported s :
    getSubscription (commitFilter s) = getSubscription s /\
    getUnreliable (commitFilter s) = getUnreliable s;
  sub_commit_active p s n :
    isSubscribed (commitFilter (setSubscription p s)) n = subscribeFilterMatch p n;
}.

Record CSubscriber := {
  m_params : SubscriptionParams;
  m_inTransaction : bool;
  m_newParams : SubscriptionParams;
}.

Definition new_CSubscriber : CSubscriber :=
  {| m_params := default_params; m_inTransaction := false; m_newParams := default_params |}.

Definition CSubscriber_getSubscription (s : CSubscriber) : Z := filter (m_newParams s).

Definition CSubscriber_getUnreliable (s : CSubscriber) : Z := unreliable (m_newParams s).

Definition CSubscriber_setSubscription (params : SubscriptionParams) (s : CSubscriber)
  : CSubscriber :=
  {| m_params := m_params s; m_inTransaction := true; m_newParams := params |}.

Definition CSubscriber_isSubscribed (s : CSubscriber) (notifType : Z) : outcome bool :=
  subscribeFilterMatch (m_params s) notifType.

Definition CSubscriber_resetFilter (s : CSubscriber) : CSubscriber :=
  {| m_params := m_params s; m_inTransaction := false; m_newParams := m_params s |}.

Definition CSubscriber_commitFilter (s : CSubscriber) : CSubscriber :=
  {| m_params := m_newParams s; m_inTransaction := false; m_newParams := m_newParams s |}.

#[export] Instance CSubscriber_ISubscriber : ISubscriber CSubscriber := {
  getSubscription := CSubscriber_getSubscription;
  getUnreliable := CSubscriber_getUnreliable;
  setSubscription := CSubscriber_setSubscription;
  isSubscribed := CSubscriber_isSubscribed;
  resetFilter := CSubscriber_resetFilter;
  commitFilter := CSubscriber_commitFilter;
}.

#[export] Instance CSubscriber_laws : SubscriberLaws CSubscriber.
Proof. by split. Qed.

#[export] Instance CSubscriber_eq_dec : EqDecision CSubscriber.
Proof. solve_decision. Defined.

(** The operations that change a subscriber. *)
Inductive subscriber_step : CSubscriber -> CSubscriber -> Prop :=
  | step_set p s : subscriber_step s (setSubscription p s)
  | step_reset s : subscriber_step s (resetFilter s)
  | step_commit s : subscriber_step s (commitFilter s).

Definition subscriber_inv (s : CSubscriber) : Prop :=
  m_inTransaction s = false -> m_newParams s = m_params s.

Lemma subscriber_inv_step s s' : subscriber_inv s -> subscriber_step s s' -> subscriber_inv s'.
Proof. intros _ Hstep. by destruct Hstep. Qed.

(** ** Properties *)

(** Subscription transactions.  From a new subscriber, after any sequence
    of operations: outside a transaction the reported and the active filter
    agree; opening a transaction and abandoning it leaves both filters as they
    were before it; and only a commit makes the new filter decide which
    notifications pass. *)
Lemma subscriber_transactions s p n :
  steps subscriber_step new_CSubscriber s ->
  (m_inTransaction s = false -> m_newParams s = m_params s) /\
  isSubscribed (setSubscription p s) n = isSubscribed s n /\
  (m_inTransaction s = false -> resetFilter (setSubscription p s) = s) /\
  isSubscribed (commitFilter (setSubscription p s)) n = subscribeFilterMatch p n.
Proof.
  intros Hs. assert (Hinv : subscriber_inv s).
  { eapply steps_invariant; [exact subscriber_inv_step | exact Hs | done]. }
  split_and!; [done | apply sub_set_active | | apply sub_commit_active].
  intros Ht. specialize (Hinv Ht). destruct s as [a t b]; cbn in *. by subst.
Qed.

Lemma subscriber_transactions_witness :
  let p1 := {| filter := 6; unreliable := 0 |} in
  let p2 := {| filter := 8; unreliable := 0 |} in
  let s := commitFilter (setSubscription p1 new_CSubscriber) in
  steps subscriber_step new_CSubscriber s /\
  resetFilter (setSubscription p2 s) = s /\
  isSubscribed (commitFilter (setSubscription p2 s)) 3 = Ok true.
Proof.
  intros p1 p2 s. assert (Hs : steps subscriber_step new_CSubscriber s).
  { eapply steps_cons; [apply step_set|]. eapply steps_cons; [apply step_commit|].
    apply steps_refl. }
  split; [exact Hs|].
  destruct (subscriber_transactions s p2 3 Hs) as (_ & _ & Hr & Hc).
  split; [apply Hr; reflexivity | rewrite Hc; reflexivity].
Defined.
