(* ===== verification/SyncQueue.v ===== *)
(** * The synchronised queue ([ext-tools/LogUtilities/SyncQueue.h])

    [CSyncQueue] as a monitor: the queue under its mutex, the threads asleep in
    [m_cond.timed_wait] and the threads that have been woken (by a notification,
    the timeout or spuriously) and have not yet taken the mutex again.  Each
    operation is one critical section; [timedPop] has two, before and after the
    wait. *)

From Stdlib Require Import ZArith Lia.
From stdpp Require Import base list.
From S2P Require Import Prelude.
#[local] Open Scope nat_scope.

Section queue.
Context {E : Type}.

Record CSyncQueue := {
  m_queue : list E;
  asleep : list nat;  (* threads waiting on m_cond *)
  awake : list nat;   (* threads that left the wait and want the mutex *)
}.

Definition new_CSyncQueue : CSyncQueue := {| m_queue := []; asleep := []; awake := [] |}.

Definition notify_all (q : CSyncQueue) : CSyncQueue :=
  {| m_queue := m_queue q; asleep := []; awake := awake q ++ asleep q |}.

Definition notify_one (q : CSyncQueue) : CSyncQueue :=
  match asleep q with
  | [] => q
  | t :: ts => {| m_queue := m_queue q; asleep := ts; awake := awake q ++ [t] |}
  end.

Definition queue_clear (q : CSyncQueue) : CSyncQueue :=
  notify_all {| m_queue := []; asleep := asleep q; awake := awake q |}.

Definition queue_push (el : E) (q : CSyncQueue) : CSyncQueue :=
  let wasEmpty := match m_queue q with [] => true | _ => false end in
  let q' := {| m_queue := m_queue q ++ [el]; asleep := asleep q; awake := awake q |} in
  if wasEmpty then notify_one q' else q'.

Definition queue_empty (q : CSyncQueue) : bool :=
  match m_queue q with [] => true | _ => false end.

(** The second half of [timedPop]: the element popped, or [None] for [false]. *)
Definition pop_front (q : CSyncQueue) : option E * CSyncQueue :=
  match m_queue q with
  | [] => (None, q)
  | el :: rest => (Some el, {| m_queue := rest; asleep := asleep q; awake := awake q |})
  end.

(** [timedPop] by thread [t] up to the wait: it sleeps on an empty queue
    ([None]), else returns at once. *)
Definition timedPop_enter (t : nat) (q : CSyncQueue) : option (option E) * CSyncQueue :=
  if queue_empty q
  then (None, {| m_queue := m_queue q; asleep := asleep q ++ [t]; awake := awake q |})
  else let '(r, q') := pop_front q in (Some r, q').

(** [timedPop] by thread [t] after the wait. *)
Definition timedPop_resume (t : nat) (q : CSyncQueue) : option E * CSyncQueue :=
  pop_front {| m_queue := m_queue q; asleep := asleep q;
               awake := List.remove Nat.eq_dec t (awake q) |}.

(** ** Executions: the state, what was pushed, what [timedPop] returned, and
    whether [clear] was called *)

Record run := {
  qst : CSyncQueue;
  pushed : list E;
  popped : list (nat * E);
  cleared : bool;
}.

Definition new_run : run :=
  {| qst := new_CSyncQueue; pushed := []; popped := []; cleared := false |}.

Definition record_pop (t : nat) (r : option E) (l : list (nat * E)) : list (nat * E) :=
  match r with Some el => l ++ [(t, el)] | None => l end.

(** The steps of any number of producers and of the consumers [consumer]. *)
Inductive queue_step (consumer : nat -> Prop) : run -> run -> Prop :=
  | qs_push el r :
      queue_step consumer r
        {| qst := queue_push el (qst r); pushed := pushed r ++ [el];
           popped := popped r; cleared := cleared r |}
  | qs_clear r :
      queue_step consumer r
        {| qst := queue_clear (qst r); pushed := pushed r; popped := popped r;
           cleared := true |}
  | qs_enter t r res q :
      consumer t -> t ∉ asleep (qst r) -> t ∉ awake (qst r) ->
      timedPop_enter t (qst r) = (res, q) ->
      queue_step consumer r
        {| qst := q; pushed := pushed r;
           popped := match res with Some o => record_pop t o (popped r)
                                  | None => popped r end;
           cleared := cleared r |}
  | qs_wake l1 t l2 r :   (* timeout or spurious wake-up *)
      asleep (qst r) = l1 ++ t :: l2 ->
      queue_step consumer r
        {| qst := {| m_queue := m_queue (qst r); asleep := l1 ++ l2;
                     awake := awake (qst r) ++ [t] |};
           pushed := pushed r; popped := popped r; cleared := cleared r |}
  | qs_resume t r o q :
      t ∈ awake (qst r) -> timedPop_resume t (qst r) = (o, q) ->
      queue_step consumer r
        {| qst := q; pushed := pushed r; popped := record_pop t o (popped r);
           cleared := cleared r |}.

(** ** Order *)

Lemma pop_front_queue q o q' :
  pop_front q = (o, q') ->
  m_queue q = match o with Some el => el :: m_queue q' | None => [] end /\
  (o = None -> m_queue q' = []) /\ asleep q' = asleep q /\ awake q' = awake q.
Proof.
  unfold pop_front. destruct (m_queue q) as [|el rest] eqn:Hq; intros [= <- <-]; by rewrite ?Hq.
Qed.

Lemma push_queue el q : m_queue (queue_push el q) = m_queue q ++ [el].
Proof.
  unfold queue_push, notify_one. destruct (m_queue q) as [|x l] eqn:Hq; [|done]. cbn.
  by destruct (asleep q).
Qed.

(** What was taken out, in order, followed by what is still queued. *)
Definition out (r : run) : list E := (snd <$> popped r) ++ m_queue (qst r).

Definition fifo_inv (r : run) : Prop :=
  sublist (out r) (pushed r) /\ (cleared r = false -> out r = pushed r).

Lemma record_pop_app t (o : option E) (l : list (nat * E)) (q : list E) :
  (snd <$> record_pop t o l) ++ q
  = (snd <$> l) ++ match o with Some el => el :: q | None => q end.
Proof.
  destruct o as [el|]; cbn; [|done]. rewrite fmap_app. cbn. by rewrite <- (assoc_L app).
Qed.

Lemma enter_queue t q res q' :
  timedPop_enter t q = (res, q') ->
  m_queue q = match res with Some (Some el) => el :: m_queue q' | _ => m_queue q' end.
Proof.
  unfold timedPop_enter, queue_empty, pop_front.
  destruct (m_queue q) as [|x l] eqn:Hq; intros [= <- <-]; cbn; by rewrite ?Hq.
Qed.

Lemma resume_queue t q o q' :
  timedPop_resume t q = (o, q') ->
  m_queue q = match o with Some el => el :: m_queue q' | None => m_queue q' end.
Proof.
  intros Heq. apply pop_front_queue in Heq as (Hq & Hnone & _). cbn in Hq. rewrite Hq.
  destruct o; [done|]. symmetry. by apply Hnone.
Qed.

(** A step other than [clear] moves elements from the queue to the output. *)
Lemma out_step consumer r r' :
  queue_step consumer r r' ->
  (exists el, pushed r' = pushed r ++ [el] /\ out r' = out r ++ [el] /\ cleared r' = cleared r) \/
  (pushed r' = pushed r /\ out r' = out r /\ cleared r' = cleared r) \/
  (pushed r' = pushed r /\ sublist (out r') (out r) /\ cleared r' = true).
Proof.
  unfold out. intros Hstep.
  destruct Hstep as [el r|r|t r res q _ _ _ Heq|l1 t l2 r Hsl|t r o q _ Heq]; cbn.
  - left. exists el. by rewrite push_queue, (assoc_L app).
  - right; right. split_and!; [done| |done].
    apply sublist_app; [done|apply sublist_nil_l].
  - right; left. apply enter_queue in Heq as ->.
    by destruct res as [[el|]|]; rewrite ?record_pop_app.
  - by right; left.
  - right; left. apply resume_queue in Heq as ->. by rewrite record_pop_app.
Qed.

Lemma fifo_inv_step consumer r r' : fifo_inv r -> queue_step consumer r r' -> fifo_inv r'.
Proof.
  intros [Hsub Heq] Hstep. unfold fifo_inv.
  destruct (out_step _ _ _ Hstep) as [(el & -> & -> & ->)|[(-> & -> & ->)|(-> & Ho & ->)]].
  - split; [by apply sublist_app|]. intros Hc. by rewrite Heq.
  - done.
  - split; [by etrans|done].
Qed.

(** ** Wake-ups with a single consumer *)

Definition consumer_inv (c : nat) (r : run) : Prop :=
  ((asleep (qst r) = [] /\ awake (qst r) = []) \/
   (asleep (qst r) = [c] /\ awake (qst r) = []) \/
   (asleep (qst r) = [] /\ awake (qst r) = [c])) /\
  (m_queue (qst r) <> [] -> asleep (qst r) = []).

Lemma consumer_inv_step c r r' :
  consumer_inv c r -> queue_step (eq c) r r' -> consumer_inv c r'.
Proof.
  unfold consumer_inv. intros [Hcases Hne] Hstep.
  destruct Hstep as [el r|r|t r res q <- Hs Hw Heq|l1 t l2 r Hsl|t r o q Ht Heq]; cbn.
  - unfold queue_push, notify_one. destruct (m_queue (qst r)) as [|x l] eqn:Hq; cbn.
    + destruct Hcases as [[-> ->]|[[-> ->]|[-> ->]]]; cbn; intuition congruence.
    + rewrite Hne by done. intuition congruence.
  - destruct Hcases as [[-> ->]|[[-> ->]|[-> ->]]]; cbn; intuition congruence.
  - assert (Hno : asleep (qst r) = [] /\ awake (qst r) = []).
    { destruct Hcases as [?|[[Ha _]|[_ Ha]]]; [done|rewrite Ha in *; set_solver..]. }
    destruct Hno as [Ha Hb]. revert Heq. unfold timedPop_enter, queue_empty, pop_front.
    destruct (m_queue (qst r)) as [|x l]; intros [= <- <-]; cbn; rewrite Ha, Hb; cbn; intuition congruence.
  - destruct Hcases as [[Ha Hb]|[[Ha Hb]|[Ha Hb]]]; rewrite Ha in Hsl.
    1,3: by destruct l1.
    destruct l1 as [|? [|]]; try done. injection Hsl as -> <-. rewrite Hb. cbn. intuition congruence.
  - apply pop_front_queue in Heq as (_ & _ & -> & ->). cbn.
    destruct Hcases as [[Ha Hb]|[[Ha Hb]|[Ha Hb]]]; rewrite Hb in Ht |- *; [set_solver..|].
    apply list_elem_of_singleton in Ht as ->. rewrite Ha. cbn.
    destruct (Nat.eq_dec c c); [|done]. intuition congruence.
Qed.
End queue.
Arguments CSyncQueue : clear implicits.
Arguments run : clear implicits.

(** ** Properties *)

(** C35: the queue is first-in first-out for any number of producers and
    consumers: what [timedPop] has returned, followed by what is queued, is a
    subsequence of what was pushed, in order; it is all of it as long as
    [clear] was not called. *)
Theorem queue_fifo {E} consumer (r : run E) :
  steps (queue_step consumer) new_run r ->
  sublist ((snd <$> popped r) ++ m_queue (qst r)) (pushed r) /\
  (cleared r = false -> (snd <$> popped r) ++ m_queue (qst r) = pushed r).
Proof.
  intros Hr. apply (steps_invariant (queue_step consumer) fifo_inv) in Hr; [exact Hr| |done].
  apply fifo_inv_step.
Qed.

(** No lost wake-up for a single consumer: although [push] notifies only
    when the queue was empty, a consumer that is the only one is never asleep
    while the queue holds an element. *)
Lemma single_consumer_not_asleep {E} c (r : run E) :
  steps (queue_step (eq c)) new_run r -> m_queue (qst r) <> [] -> asleep (qst r) = [].
Proof.
  intros Hr Hne. apply (steps_invariant _ (consumer_inv c)) in Hr; [by apply Hr| |].
  - apply consumer_inv_step.
  - split; [by left | done].
Qed.

(** A run of one consumer (thread 7): it sleeps, is woken by the first push and
    takes the first element while the second is queued. *)
Definition sample_run : run Z :=
  {| qst := {| m_queue := [2%Z]; asleep := []; awake := [] |}; pushed := [1%Z; 2%Z];
     popped := [(7, 1%Z)]; cleared := false |}.

Lemma sample_run_steps : steps (queue_step (eq 7)) new_run sample_run.
Proof.
  eapply steps_cons; [apply (qs_enter _ 7); [done|set_solver..|reflexivity]|].
  eapply steps_cons; [apply (qs_push _ 1%Z)|].
  eapply steps_cons; [apply (qs_push _ 2%Z)|].
  eapply steps_cons; [apply (qs_resume _ 7); [set_solver|reflexivity]|].
  apply steps_refl.
Qed.

Lemma queue_fifo_witness :
  (snd <$> popped sample_run) ++ m_queue (qst sample_run) = pushed sample_run.
Proof. apply (queue_fifo (eq 7) sample_run sample_run_steps). reflexivity. Defined.

Lemma single_consumer_not_asleep_witness :
  m_queue (qst sample_run) <> [] /\ asleep (qst sample_run) = [].
Proof.
  split; [discriminate|].
  apply (single_consumer_not_asleep 7 sample_run sample_run_steps). discriminate.
Defined.

(** With two consumers the conditional notification does lose a wake-up: thread
    8 can stay asleep although an element is queued and nobody is awake. *)
Example two_consumers_lost_wakeup :
  exists r : run Z, steps (queue_step (fun t => t = 7 \/ t = 8)) new_run r /\
    m_queue (qst r) = [2%Z] /\ asleep (qst r) = [8] /\ awake (qst r) = [].
Proof.
  eexists. split.
  - eapply steps_cons; [apply (qs_enter _ 7); [by left|set_solver..|reflexivity]|].
    eapply steps_cons; [apply (qs_enter _ 8); [by right|set_solver..|reflexivity]|].
    eapply steps_cons; [apply (qs_push _ 1%Z)|].
    eapply steps_cons; [apply (qs_push _ 2%Z)|].
    eapply steps_cons; [apply (qs_resume _ 7); [set_solver|reflexivity]|].
    apply steps_refl.
  - done.
Qed.
