(* ===== verification/BoostLog.v ===== *)
(** * The log ([ext-tools/LogUtilities/BoostLog.h], [BoostLog.cpp])

    Severity filter, message queue, the writer thread, and the rotation of the
    log files on a file system of named files.  What the operating system may
    refuse (removing, renaming, opening) is a parameter. *)

From Stdlib Require Import ZArith Lia Ascii.
From stdpp Require Import base list strings gmap pretty.
From S2P Require Import Prelude SyncQueue.
#[local] Open Scope Z_scope.

(** ** Levels *)

Inductive LogLevel :=
  LOG_TRACE | LOG_INFO | LOG_WARNING | LOG_ERROR | LOG_FATAL | LOG_ALWAYS.

#[export] Instance LogLevel_eq_dec : EqDecision LogLevel.
Proof. solve_decision. Defined.

Definition level_value (l : LogLevel) : Z :=
  match l with
  | LOG_TRACE => 0 | LOG_INFO => 1 | LOG_WARNING => 2
  | LOG_ERROR => 3 | LOG_FATAL => 4 | LOG_ALWAYS => 5
  end.

Definition to_lower_char (c : ascii) : ascii :=
  let n := nat_of_ascii c in
  if ((65 <=? n) && (n <=? 90))%nat then ascii_of_nat (n + 32) else c.

Fixpoint to_lower (s : string) : string :=
  match s with
  | EmptyString => EmptyString
  | String c s => String (to_lower_char c) (to_lower s)
  end.

Definition stringToEnum (levelStr : string) : LogLevel :=
  let levelStr := to_lower levelStr in
  if decide (levelStr = "trace"%string) then LOG_TRACE
  else if decide (levelStr = "info"%string) then LOG_INFO
  else if decide (levelStr = "warning"%string) then LOG_WARNING
  else LOG_ERROR.

(** ** Files and the log object *)

(** The characters of a file or of a message. *)
Abbreviation text := (list ascii).
Abbreviation files := (gmap string text).

Definition text_of (s : string) : text := String.list_ascii_of_string s.
Definition endl : text := [ascii_of_nat 10].
Definition LOG_FIELD_SEPARATOR : text := text_of ",".

(** What the operating system allows. *)
Record os_policy := {
  can_remove : string -> bool;
  can_rename : string -> string -> bool;
  can_open : string -> bool;
}.

Record CBoostLog := {
  m_logLevel : Z;
  m_numBackups : Z;
  m_maxLogSize : Z;
  m_filename : string;
  m_log : option bool;     (* [NULL], or a stream and whether it is good *)
  m_isRunning : bool;
  m_logger : bool;         (* is there a thread object *)
  m_msgQueue : CSyncQueue text;
}.

Definition new_CBoostLog : CBoostLog :=
  {| m_logLevel := -1; m_numBackups := 1; m_maxLogSize := 1000000;
     m_filename := ""; m_log := None; m_isRunning := false; m_logger := false;
     m_msgQueue := new_CSyncQueue |}.

Definition set_log (s : option bool) (l : CBoostLog) : CBoostLog :=
  {| m_logLevel := m_logLevel l; m_numBackups := m_numBackups l;
     m_maxLogSize := m_maxLogSize l; m_filename := m_filename l; m_log := s;
     m_isRunning := m_isRunning l; m_logger := m_logger l; m_msgQueue := m_msgQueue l |}.

Definition log_set_running (r t : bool) (l : CBoostLog) : CBoostLog :=
  {| m_logLevel := m_logLevel l; m_numBackups := m_numBackups l;
     m_maxLogSize := m_maxLogSize l; m_filename := m_filename l; m_log := m_log l;
     m_isRunning := r; m_logger := t; m_msgQueue := m_msgQueue l |}.

Definition set_msgQueue (q : CSyncQueue text) (l : CBoostLog) : CBoostLog :=
  {| m_logLevel := m_logLevel l; m_numBackups := m_numBackups l;
     m_maxLogSize := m_maxLogSize l; m_filename := m_filename l; m_log := m_log l;
     m_isRunning := m_isRunning l; m_logger := m_logger l; m_msgQueue := q |}.

Section log.
Context (os : os_policy).

(** The name of backup [i]; 0 is the log file itself. *)
Definition log_name (base : string) (i : nat) : string :=
  match i with O => base | _ => base +:+ "." +:+ pretty i end.

(** The loop of [rotateLogs] from backup [i] down; a [filesystem_error] ends it
    with [false] and leaves the files as they are at that point. *)
Fixpoint rotate_from (base : string) (i : nat) (fs : files) : bool * files :=
  match i with
  | O => (true, fs)
  | S j =>
      let backup := log_name base i in
      let previous := log_name base j in
      let removed :=
        match fs !! backup with
        | None => Some fs
        | Some _ => if can_remove os backup then Some (delete backup fs) else None
        end in
      match removed with
      | None => (false, fs)
      | Some fs =>
          match fs !! previous with
          | None => rotate_from base j fs
          | Some content =>
              if can_rename os previous backup
              then rotate_from base j (<[backup := content]> (delete previous fs))
              else (false, fs)
          end
      end
  end.

Definition rotateLogs (l : CBoostLog) (fs : files) : bool * files :=
  rotate_from (m_filename l) (Z.to_nat (m_numBackups l)) fs.

(** The constructor of [std::ofstream] does not throw: a file that cannot be
    opened gives a stream that is not good.  [append] is [ios_base::app]; the
    default mode truncates. *)
Definition openFile (append : bool) (l : CBoostLog) (fs : files) : CBoostLog * files :=
  if can_open os (m_filename l)
  then (set_log (Some true) l,
        if append
        then match fs !! m_filename l with
             | Some _ => fs
             | None => <[m_filename l := []]> fs
             end
        else <[m_filename l := []]> fs)
  else (set_log (Some false) l, fs).

(** Output of [t] on the stream [m_log]. *)
Definition stream_out (t : text) (l : CBoostLog) (fs : files) : files :=
  match m_log l with
  | Some true => alter (fun content => content ++ t) (m_filename l) fs
  | _ => fs
  end.

Definition not_rotated : text :=
  text_of "Log file could not be rotated, truncated instead.".

(** [None] is the [filesystem_error] of [file_size] on a missing file, which
    nothing catches. *)
Definition writeMsg (msg : text) (l : CBoostLog) (fs : files) : option (CBoostLog * files) :=
  too_big ←
    (if 0 <? m_maxLogSize l
     then content ← fs !! m_filename l;
          Some (m_maxLogSize l <? Z.of_nat (length content))
     else Some false);
  let '(rotateOk, l, fs) :=
    if (too_big : bool)
    then let l := set_log None l in
         let '(rotateOk, fs) := rotateLogs l fs in (rotateOk, l, fs)
    else (true, l, fs) in
  let '(l, fs) :=
    match m_log l with None => openFile false l fs | Some _ => (l, fs) end in
  let fs := if (rotateOk : bool) then fs else stream_out (not_rotated ++ endl) l fs in
  Some (l, stream_out (msg ++ endl) l fs).

(** The test of [logMsg] and the line it queues at time [now]. *)
Definition log_accepts (l : CBoostLog) (msgLevel : LogLevel) : bool :=
  (m_logLevel l <=? level_value msgLevel) || bool_decide (msgLevel = LOG_ALWAYS).

Definition log_line (now msg : text) : text := now ++ LOG_FIELD_SEPARATOR ++ msg.

Definition logMsg (now : text) (msgLevel : LogLevel) (msg : text) (l : CBoostLog) : CBoostLog :=
  if log_accepts l msgLevel
  then set_msgQueue (queue_push (log_line now msg) (m_msgQueue l)) l
  else l.

Definition hex_char (n : Z) : ascii :=
  ascii_of_nat (Z.to_nat (if n <? 10 then 48 + n else 87 + n)).

(** A byte under [std::hex]: no leading zero. *)
Definition hex_text (b : Z) : text :=
  if b <? 16 then [hex_char b] else [hex_char (b / 16); hex_char (b mod 16)].

(** The text of [logDump].  The loop runs from [startIndex] to [length], not to
    [startIndex + length], and compares as [size_t] (64 bits); it cannot pass the
    end of the data, so its iterations up to there are enough. *)
Definition dump_text (prefix : text) (data : list Z) (startIndex len : Z) : outcome text :=
  let len := if len =? -1 then i32 (Z.of_nat (length data) - startIndex) else len in
  let first := startIndex mod 2 ^ 64 in
  let bound := Z.min (len mod 2 ^ 64) (Z.max first (Z.of_nat (length data)) + 1) in
  body ← foldM (fun out i => b ← vat data (Z.to_nat i); Ok (out ++ hex_text b ++ text_of " "))
           [] (seqZ first (bound - first));
  Ok (prefix ++ text_of " [len=" ++ text_of (pretty len) ++ text_of "]:" ++ endl ++ body).

Definition logDump (now : text) (msgLevel : LogLevel) (prefix : text) (data : list Z)
  (startIndex len : Z) (l : CBoostLog) : outcome CBoostLog :=
  output ← dump_text prefix data startIndex len;
  Ok (logMsg now msgLevel output l).

(** The static functions, on the log of [getInstance], with the level they default
    to. *)
Definition log (now msg : text) (instance : CBoostLog) : CBoostLog := logMsg now LOG_INFO msg instance.
Definition logDump_trace (now prefix : text) (data : list Z) (instance : CBoostLog) : outcome CBoostLog :=
  logDump now LOG_TRACE prefix data 0 (-1) instance.

(** ** Threads *)

Definition log_start (l : CBoostLog) : CBoostLog :=
  if m_isRunning l then l else log_set_running true true l.

Definition openLog (logfile : string) (numBackups maxLogSize : Z) (outLevel : LogLevel)
  (l : CBoostLog) (fs : files) : CBoostLog * files :=
  let l := {| m_logLevel := level_value outLevel; m_numBackups := numBackups;
              m_maxLogSize := maxLogSize; m_filename := logfile; m_log := None;
              m_isRunning := m_isRunning l; m_logger := m_logger l;
              m_msgQueue := m_msgQueue l |} in
  let '(_, fs) := rotateLogs l fs in
  let '(l, fs) := openFile true l fs in
  (log_start l, fs).

(** Where the writer thread is: in its loop, emptying the queue, or gone. *)
Inductive writer_pc := Looping | Draining | Finished.

#[export] Instance writer_pc_eq_dec : EqDecision writer_pc.
Proof. solve_decision. Defined.

(** One iteration of [logFromQueue].  [timedPop] ends with [pop_front] whether it
    slept or not; in the draining loop its result is not looked at, so a failed
    pop writes the empty message. *)
Definition logFromQueue (pc : writer_pc) (l : CBoostLog) (fs : files)
  : option (writer_pc * CBoostLog * files) :=
  let '(msg, q) := pop_front (m_msgQueue l) in
  match pc with
  | Looping =>
      if m_isRunning l
      then match msg with
           | Some msg => '(l, fs) ← writeMsg msg (set_msgQueue q l) fs; Some (Looping, l, fs)
           | None => Some (Looping, set_msgQueue q l, fs)
           end
      else Some (Draining, l, fs)
  | Draining =>
      if queue_empty (m_msgQueue l) then Some (Finished, l, fs)
      else '(l, fs) ← writeMsg (default [] msg) (set_msgQueue q l) fs; Some (Draining, l, fs)
  | Finished => Some (Finished, l, fs)
  end.

(** [stop] up to the [join], and its end once the thread is gone. *)
Definition log_stop (l : CBoostLog) : CBoostLog := log_set_running false (m_logger l) l.
Definition log_joined (l : CBoostLog) : CBoostLog := log_set_running (m_isRunning l) false l.
End log.

(** ** Executions: threads that log, the writer thread, [stop] *)

Record log_world := { w_pc : writer_pc; w_log : CBoostLog; w_files : files }.

Inductive log_event :=
  | EvLog (now : text) (msgLevel : LogLevel) (msg : text)
  | EvWriter
  | EvLogStop
  | EvLogJoin.

Definition log_exec (os : os_policy) (w : log_world) (ev : log_event) : option log_world :=
  match ev with
  | EvLog now level msg =>
      Some {| w_pc := w_pc w; w_log := logMsg now level msg (w_log w); w_files := w_files w |}
  | EvWriter =>
      '(pc, l, fs) ← logFromQueue os (w_pc w) (w_log w) (w_files w);
      Some {| w_pc := pc; w_log := l; w_files := fs |}
  | EvLogStop =>
      Some {| w_pc := w_pc w; w_log := log_stop (w_log w); w_files := w_files w |}
  | EvLogJoin =>
      Some (if decide (w_pc w = Finished)
            then {| w_pc := w_pc w; w_log := log_joined (w_log w); w_files := w_files w |}
            else w)
  end.

Fixpoint log_run (os : os_policy) (evs : list log_event) (w : log_world) : option log_world :=
  match evs with
  | [] => Some w
  | ev :: evs => w ← log_exec os w ev; log_run os evs w
  end.

(** The first opening: the log object of the process, and the thread started. *)
Definition opened (os : os_policy) (logfile : string) (numBackups maxLogSize : Z)
  (outLevel : LogLevel) (l : CBoostLog) (fs : files) : log_world :=
  let '(l, fs) := openLog os logfile numBackups maxLogSize outLevel l fs in
  {| w_pc := Looping; w_log := l; w_files := fs |}.

(** ** Rotation *)

(** Nothing is refused. *)
Definition permissive (os : os_policy) : Prop :=
  (forall a, can_remove os a = true) /\ (forall a b, can_rename os a b = true) /\
  (forall a, can_open os a = true).

Lemma string_app_length (s t : string) :
  String.length (s +:+ t) = (String.length s + String.length t)%nat.
Proof. induction s as [|c s IH]; [done|]. exact (f_equal S IH). Qed.

Lemma log_name_inj base i j : log_name base i = log_name base j -> i = j.
Proof.
  assert (Hne : forall k s, base +:+ "." +:+ s = log_name base k -> k <> O).
  { intros [|k] s Heq; [|done]. apply (f_equal String.length) in Heq.
    rewrite !string_app_length in Heq. cbn in Heq. lia. }
  destruct i as [|i], j as [|j]; intros Heq.
  - done.
  - by destruct (Hne O (pretty (S j))).
  - by destruct (Hne O (pretty (S i))).
  - unfold log_name in Heq. by simplify_eq.
Qed.

(** What [rotateLogs] does: every name takes the content of the one before it,
    the log file is gone, and no other file is touched. *)
Lemma rotate_from_spec os base n fs :
  permissive os ->
  exists fs', rotate_from os base n fs = (true, fs') /\
    (forall i, (i < n)%nat -> fs' !! log_name base (S i) = fs !! log_name base i) /\
    (n <> O -> fs' !! base = None) /\
    (forall x, (forall i, (i <= n)%nat -> x <> log_name base i) -> fs' !! x = fs !! x).
Proof.
  intros (Hrm & Hrn & _). revert fs. induction n as [|n IH]; intros fs.
  { exists fs. repeat split; [lia|done]. }
  assert (Hne : forall i j, i <> j -> log_name base i <> log_name base j)
    by (intros i j Hij Heq; by apply log_name_inj in Heq).
  set (fs1 := match fs !! log_name base n with
              | Some c => <[log_name base (S n) := c]>
                            (delete (log_name base n) (delete (log_name base (S n)) fs))
              | None => delete (log_name base (S n)) fs
              end).
  assert (Hstep : rotate_from os base (S n) fs = rotate_from os base n fs1).
  { cbn [rotate_from].
    replace (match fs !! log_name base (S n) with
             | Some _ => if can_remove os (log_name base (S n))
                         then Some (delete (log_name base (S n)) fs) else None
             | None => Some fs end) with (Some (delete (log_name base (S n)) fs)).
    2:{ rewrite Hrm. destruct (fs !! log_name base (S n)) eqn:E; [done|].
        f_equal; by apply delete_id. }
    cbv beta iota zeta. rewrite lookup_delete_ne by (apply Hne; lia). subst fs1.
    destruct (fs !! log_name base n); [by rewrite Hrn | done]. }
  assert (Hnew : fs1 !! log_name base (S n) = fs !! log_name base n).
  { subst fs1. destruct (fs !! log_name base n) eqn:E.
    - by rewrite lookup_insert_eq.
    - by rewrite lookup_delete_eq. }
  assert (Hprev : fs1 !! log_name base n = None).
  { subst fs1. destruct (fs !! log_name base n) eqn:E.
    - rewrite lookup_insert_ne by (apply Hne; lia). by rewrite lookup_delete_eq.
    - by rewrite lookup_delete_ne by (apply Hne; lia). }
  assert (Hother : forall x, x <> log_name base n -> x <> log_name base (S n) ->
                     fs1 !! x = fs !! x).
  { intros x H1 H2. subst fs1. destruct (fs !! log_name base n).
    - by rewrite lookup_insert_ne, !lookup_delete_ne by done.
    - by rewrite lookup_delete_ne by done. }
  destruct (IH fs1) as (fs' & Hrun & Hshift & Hgone & Hkeep).
  exists fs'. rewrite Hstep, Hrun. repeat split.
  - intros i Hi. destruct (decide (i = n)) as [->|Hin].
    + rewrite Hkeep by (intros j Hj; apply Hne; lia). done.
    + rewrite Hshift by lia. apply Hother; apply Hne; lia.
  - intros _. destruct n as [|n]; [|by apply Hgone].
    cbn in Hrun. by injection Hrun as <-.
  - intros x Hx. rewrite Hkeep by (intros i Hi; apply Hx; lia).
    apply Hother; apply Hx; lia.
Qed.

(** ** The shelf: the log file and its backups, newest first *)

Definition shelf (base : string) (n : nat) (fs : files) : list (option text) :=
  (fun i => fs !! log_name base i) <$> seq 0 (S n).
#[global] Arguments shelf : simpl never.

(** What the log does to the shelf.  A line goes to the log, unless the log is too
    big: then every file moves up one place, the last one falls off, and the line
    begins a new log. *)
Definition shelve (max : Z) (s : list (option text)) (line : text) : list (option text) :=
  let c := default [] (head s ≫= id) in
  if (0 <? max) && (max <? Z.of_nat (length c))
  then Some line :: take (length (tail s)) s
  else Some (c ++ line) :: tail s.

(** Opening it moves every file up and begins a new log, when there are backups. *)
Definition open_shelf (s : list (option text)) : list (option text) :=
  match tail s with
  | [] => [Some (default [] (head s ≫= id))]
  | _ => Some [] :: take (length (tail s)) s
  end.

(** Everything on the shelf, oldest first. *)
Definition journal (s : list (option text)) : text := concat (reverse (default [] <$> s)).

Lemma shelf_lookup base n fs i :
  shelf base n fs !! i = if decide (i <= n)%nat then Some (fs !! log_name base i) else None.
Proof.
  unfold shelf. rewrite list_lookup_fmap. case_decide.
  - by rewrite lookup_seq_lt by lia.
  - by rewrite lookup_seq_ge by lia.
Qed.

Lemma shelf_length base n fs : length (shelf base n fs) = S n.
Proof. unfold shelf. by rewrite length_fmap, length_seq. Qed.

(** The shelf after the log file [base] is set to [v]. *)
Lemma shelf_insert base n v fs :
  shelf base n (<[base := v]> fs) = Some v :: tail (shelf base n fs).
Proof.
  unfold shelf. cbn [seq fmap list_fmap tail log_name]. rewrite lookup_insert_eq. f_equal.
  apply list_fmap_ext. intros i x Hx. apply lookup_seq in Hx as [-> _].
  rewrite lookup_insert_ne; [done|]. intros Heq. by apply (log_name_inj base O (S i)) in Heq.
Qed.

Lemma shelf_alter base n c t fs :
  fs !! base = Some c ->
  shelf base n (alter (fun content => content ++ t) base fs) = Some (c ++ t) :: tail (shelf base n fs).
Proof.
  intros Hc. rewrite <- shelf_insert. f_equal. apply map_eq. intros i.
  destruct (decide (i = base)) as [->|Hne].
  - by rewrite lookup_alter_eq, lookup_insert_eq, Hc.
  - by rewrite lookup_alter_ne, lookup_insert_ne by done.
Qed.

(** The shelf after a rotation and a new log. *)
Lemma shelf_rotated base n v fs fs' :
  (forall i, (i < n)%nat -> fs' !! log_name base (S i) = fs !! log_name base i) ->
  shelf base n (<[base := v]> fs') = Some v :: take n (shelf base n fs).
Proof.
  intros Hshift. rewrite shelf_insert. f_equal. apply list_eq. intros i.
  change (tail (shelf base n fs')) with (drop 1 (shelf base n fs')).
  rewrite lookup_drop, shelf_lookup. destruct (decide (i < n)%nat).
  - rewrite lookup_take_lt, shelf_lookup by done. rewrite !decide_True by lia. cbn.
    by rewrite <- Hshift.
  - rewrite lookup_take_ge by lia. by rewrite decide_False by lia.
Qed.

(** No file but these is changed. *)
Definition off_shelf (base : string) (n : nat) (fs fs' : files) : Prop :=
  forall x, (forall i, (i <= n)%nat -> x <> log_name base i) -> fs' !! x = fs !! x.

Lemma off_shelf_base base n v fs fs' : off_shelf base n fs fs' -> off_shelf base n fs (<[base := v]> fs').
Proof.
  intros Hf x Hx. rewrite lookup_insert_ne; [by apply Hf|]. intros <-. exact (Hx O (Nat.le_0_l n) eq_refl).
Qed.

Lemma off_shelf_alter base n f fs fs' : off_shelf base n fs fs' -> off_shelf base n fs (alter f base fs').
Proof.
  intros Hf x Hx. rewrite lookup_alter_ne; [by apply Hf|]. intros <-. exact (Hx O (Nat.le_0_l n) eq_refl).
Qed.

Lemma off_shelf_trans base n fs1 fs2 fs3 :
  off_shelf base n fs1 fs2 -> off_shelf base n fs2 fs3 -> off_shelf base n fs1 fs3.
Proof. intros H1 H2 x Hx. by rewrite H2, H1. Qed.

Lemma shelve_length max s line : s <> [] -> length (shelve max s line) = length s.
Proof.
  intros Hs. unfold shelve. destruct s as [|c s]; [done|]. cbn [head tail].
  destruct (_ && _); [|done]. cbn [length]. rewrite length_take. cbn. lia.
Qed.

Lemma foldl_shelve_length max s ls : s <> [] -> length (foldl (shelve max) s ls) = length s.
Proof.
  revert s. induction ls as [|l ls IH]; intros s Hs; [done|]. cbn [foldl].
  assert (Hl : length (shelve max s l) = length s) by by apply shelve_length.
  rewrite IH; [done|]. intros Heq. rewrite Heq in Hl. by destruct s.
Qed.

Lemma journal_cons c s : journal (c :: s) = journal s ++ default [] c.
Proof.
  unfold journal. rewrite fmap_cons, reverse_cons, concat_app. cbn. by rewrite app_nil_r.
Qed.

(** What a shelf less its last file keeps. *)
Lemma journal_take s : s <> [] -> exists c, c ++ journal (take (length (tail s)) s) = journal s.
Proof.
  intros Hs. destruct s as [|c s _] using rev_ind; [done|]. exists (default [] c).
  replace (length (tail (s ++ [c]))) with (length s) by (destruct s; cbn; rewrite ?length_app; cbn; lia).
  rewrite take_app_length. unfold journal. rewrite fmap_app, reverse_app. done.
Qed.

(** Nothing is lost but what falls off, and with no limit nothing does. *)
Lemma shelve_journal max s ls :
  s <> [] ->
  exists dropped, dropped ++ journal (foldl (shelve max) s ls) = journal s ++ concat ls /\
    (max <= 0 -> dropped = []).
Proof.
  revert s. induction ls as [|l ls IH]; intros s Hs; [by exists []; rewrite app_nil_r|].
  cbn [foldl concat].
  assert (Hn : shelve max s l <> []).
  { intros Heq. apply (f_equal length) in Heq. rewrite shelve_length in Heq by done. by destruct s. }
  destruct (IH _ Hn) as (d & Hd & Hz).
  assert (H1 : exists d1, d1 ++ journal (shelve max s l) = journal s ++ l /\ (max <= 0 -> d1 = [])).
  { unfold shelve. destruct ((0 <? max) && _) eqn:E.
    - destruct (journal_take s Hs) as (c & Hc). exists c.
      rewrite journal_cons, (assoc_L app), Hc. split; [done|]. apply andb_prop in E as [E _]. lia.
    - exists []. split; [|done]. destruct s as [|c s]; [done|]. cbn [head tail mbind option_bind id default app].
      rewrite !journal_cons, <- (assoc_L app). by destruct c. }
  destruct H1 as (d1 & H1 & Hz1). exists (d1 ++ d). split.
  - by rewrite <- (assoc_L app), Hd, !(assoc_L app), H1.
  - intros Hm. by rewrite Hz1, Hz.
Qed.

(** ** One message *)

(** The log file is open, and on file. *)
Definition log_ready (l : CBoostLog) (fs : files) : Prop :=
  m_log l = Some true /\ is_Some (fs !! m_filename l).

Definition backups (l : CBoostLog) : nat := Z.to_nat (m_numBackups l).

Definition log_shelf (l : CBoostLog) (fs : files) : list (option text) :=
  shelf (m_filename l) (backups l) fs.

Lemma log_write_ready os msg l fs :
  permissive os -> log_ready l fs ->
  exists fs', writeMsg os msg l fs = Some (l, fs') /\ log_ready l fs' /\
    log_shelf l fs' = shelve (m_maxLogSize l) (log_shelf l fs) (msg ++ endl) /\
    off_shelf (m_filename l) (backups l) fs fs'.
Proof.
  intros Hos [Hlog [c Hc]]. unfold writeMsg, log_shelf, shelve.
  assert (Hl : set_log (Some true) (set_log None l) = l) by (destruct l; cbn in *; by subst).
  assert (Hhead : default [] (head (shelf (m_filename l) (backups l) fs) ≫= id) = c)
    by (unfold shelf; cbn; by rewrite Hc).
  assert (Htail : length (tail (shelf (m_filename l) (backups l) fs)) = backups l)
    by (pose proof (shelf_length (m_filename l) (backups l) fs); destruct (shelf _ _ _); cbn in *; lia).
  assert (Hplain : exists fs', Some (l, stream_out (msg ++ endl) l fs) = Some (l, fs') /\ log_ready l fs' /\
     shelf (m_filename l) (backups l) fs' = Some (c ++ msg ++ endl) :: tail (shelf (m_filename l) (backups l) fs) /\
     off_shelf (m_filename l) (backups l) fs fs').
  { eexists. split; [done|]. unfold stream_out, log_ready. rewrite Hlog. split_and!; [done|..].
    - rewrite lookup_alter_eq, Hc. by eexists.
    - by apply shelf_alter.
    - by apply off_shelf_alter. }
  rewrite Hhead, Htail. destruct (0 <? m_maxLogSize l); [rewrite Hc|]; cbn;
    [destruct (m_maxLogSize l <? Z.of_nat (length c))|]; rewrite ?Hlog; [|exact Hplain..].
  unfold rotateLogs. cbn [m_filename m_numBackups set_log]. fold (backups l).
  destruct (rotate_from_spec os (m_filename l) (backups l) fs Hos) as (fs1 & Hrun & Hshift & _ & Hkeep).
  rewrite Hrun. unfold openFile. cbn [m_log m_filename set_log]. rewrite (proj2 (proj2 Hos)), Hl.
  eexists. split; [done|]. unfold stream_out, log_ready. rewrite Hlog. split_and!; [done|..].
  - rewrite lookup_alter_eq, lookup_insert_eq. by eexists.
  - rewrite (shelf_alter _ _ []) by apply lookup_insert_eq. by rewrite (shelf_rotated _ _ _ fs).
  - apply off_shelf_alter, off_shelf_base. exact Hkeep.
Qed.

(** ** Whole executions *)

Definition queued (q : CSyncQueue text) : list text := map (fun m => m ++ endl) (m_queue q).
Definition lines (q : CSyncQueue text) : text := concat (queued q).

(** The lines the events add to the log, with the level of [l]. *)
Fixpoint accepted (l : CBoostLog) (evs : list log_event) : list text :=
  match evs with
  | [] => []
  | EvLog now level msg :: evs =>
      (if log_accepts l level then [log_line now msg ++ endl] else []) ++ accepted l evs
  | _ :: evs => accepted l evs
  end.

(** The settings of two log objects. *)
Definition settings (l : CBoostLog) : Z * Z * Z * string :=
  (m_logLevel l, m_numBackups l, m_maxLogSize l, m_filename l).

(** The shelf once the queue is written. *)
Definition settled (w : log_world) : list (option text) :=
  foldl (shelve (m_maxLogSize (w_log w))) (log_shelf (w_log w) (w_files w)) (queued (m_msgQueue (w_log w))).

(** [w2] is reached from [w1] having logged [new]. *)
Definition logged (w1 w2 : log_world) (new : list text) : Prop :=
  log_ready (w_log w2) (w_files w2) /\ settings (w_log w2) = settings (w_log w1) /\
  settled w2 = foldl (shelve (m_maxLogSize (w_log w1))) (settled w1) new /\
  off_shelf (m_filename (w_log w1)) (backups (w_log w1)) (w_files w1) (w_files w2).

Lemma logged_refl w : log_ready (w_log w) (w_files w) -> logged w w [].
Proof. intros Hr. by split_and!; [apply Hr..|done|done|]. Qed.

Lemma logged_trans w1 w2 w3 new1 new2 :
  logged w1 w2 new1 -> logged w2 w3 new2 -> logged w1 w3 (new1 ++ new2).
Proof.
  intros (_ & Hs1 & Hf1 & Ho1) (Hr & Hs2 & Hf2 & Ho2). pose proof Hs1 as [= _ Hn Hm Hname].
  split_and!; [apply Hr..|by rewrite Hs2| |].
  - by rewrite Hf2, Hf1, Hm, foldl_app.
  - unfold backups in *. rewrite Hn, Hname in Ho2. by eapply off_shelf_trans.
Qed.

(** Setting the queue, or the thread's flags, changes neither files nor settings. *)
Lemma log_ready_ext l l' fs :
  settings l = settings l' -> m_log l = m_log l' -> log_ready l fs -> log_ready l' fs.
Proof. unfold log_ready. intros [= _ _ _ Hf] Hl. by rewrite Hf, Hl. Qed.

Lemma log_shelf_ext l l' fs : settings l = settings l' -> log_shelf l fs = log_shelf l' fs.
Proof. unfold log_shelf, backups. intros [= _ Hn _ Hf]. by rewrite Hn, Hf. Qed.

(** The writer takes the first message off the queue. *)
Lemma writer_pops os pc pc' l fs m rest :
  permissive os -> log_ready l fs -> m_queue (m_msgQueue l) = m :: rest ->
  exists q fs', m_queue q = rest /\
    (forall X, ('(l', fs') ← writeMsg os m (set_msgQueue
        {| m_queue := rest; asleep := asleep (m_msgQueue l); awake := awake (m_msgQueue l) |} l)
        fs; Some (X l' fs')) = Some (X (set_msgQueue q l) fs') :> option log_world) /\
    logged {| w_pc := pc; w_log := l; w_files := fs |}
           {| w_pc := pc'; w_log := set_msgQueue q l; w_files := fs' |} [].
Proof.
  intros Hos Hr Hq.
  set (q := {| m_queue := rest; asleep := asleep (m_msgQueue l); awake := awake (m_msgQueue l) |}).
  assert (Hr1 : log_ready (set_msgQueue q l) fs) by exact (log_ready_ext l _ fs eq_refl eq_refl Hr).
  destruct (log_write_ready os m _ fs Hos Hr1) as (fs' & Hw & Hr2 & Hs & Ho).
  exists q, fs'. split; [done|]. split; [intros X; by rewrite Hw|].
  split_and!; [apply Hr2..|done| |exact Ho]. unfold settled, queued. cbn [w_log w_files m_msgQueue set_msgQueue].
  rewrite Hq, Hs. done.
Qed.

Lemma log_exec_logged os w ev :
  permissive os -> log_ready (w_log w) (w_files w) ->
  exists w', log_exec os w ev = Some w' /\ logged w w' (accepted (w_log w) [ev]).
Proof.
  intros Hos Hr. destruct w as [pc l fs]. destruct ev as [now level msg| | |].
  - eexists. split; [done|]. cbn. rewrite app_nil_r. unfold logMsg.
    destruct (log_accepts l level); [|by apply logged_refl].
    split_and!; [apply Hr..|done| |done]. unfold settled, queued. cbn [w_log w_files m_msgQueue set_msgQueue].
    by rewrite push_queue, map_app, foldl_app.
  - cbn [log_exec w_pc w_log w_files]. unfold logFromQueue, pop_front, queue_empty. cbn [accepted].
    destruct (m_queue (m_msgQueue l)) as [|m rest] eqn:Hq.
    + assert (Hl : set_msgQueue (m_msgQueue l) l = l) by (by destruct l).
      destruct pc; cbn; rewrite ?Hl; [destruct (m_isRunning l)|..]; cbn;
        (eexists; split; [done|]);
        match goal with |- logged ?a ?b _ => exact (logged_refl a Hr) end.
    + destruct (writer_pops os pc pc l fs m rest Hos Hr Hq) as (q & fs' & _ & Hx & Hlog).
      destruct pc; cbn [default].
      * destruct (m_isRunning l); [|eexists; split; [done|];
          match goal with |- logged ?a ?b _ => exact (logged_refl a Hr) end].
        eexists. split; [|exact Hlog].
        specialize (Hx (fun l fs => {| w_pc := Looping; w_log := l; w_files := fs |})).
        destruct (writeMsg os m _ fs) as [[l' fs'']|]; [|done]. exact Hx.
      * eexists. split; [|exact Hlog].
        specialize (Hx (fun l fs => {| w_pc := Draining; w_log := l; w_files := fs |})).
        destruct (writeMsg os m _ fs) as [[l' fs'']|] eqn:E; cbn in Hx |- *; [|done].
        unfold mbind. cbn. rewrite E. exact Hx.
      * eexists; split; [done|];
          match goal with |- logged ?a ?b _ => exact (logged_refl a Hr) end.
  - eexists. split; [done|]. exact (logged_refl {| w_pc := pc; w_log := l; w_files := fs |} Hr).
  - eexists. split; [done|]. destruct (decide _);
      exact (logged_refl {| w_pc := pc; w_log := l; w_files := fs |} Hr).
Qed.

Lemma log_accepts_ext l l' level : settings l = settings l' -> log_accepts l level = log_accepts l' level.
Proof. unfold log_accepts. intros [= Hl _ _ _]. by rewrite Hl. Qed.

Lemma accepted_ext l l' evs : settings l = settings l' -> accepted l evs = accepted l' evs.
Proof.
  intros Hs. induction evs as [|[now level msg| | |] evs IH]; cbn; [done| |exact IH..].
  by rewrite IH, (log_accepts_ext l l').
Qed.

Lemma accepted_cons l ev evs : accepted l (ev :: evs) = accepted l [ev] ++ accepted l evs.
Proof. destruct ev; cbn; by rewrite ?app_nil_r. Qed.

Lemma log_run_logged os evs w :
  permissive os -> log_ready (w_log w) (w_files w) ->
  exists w', log_run os evs w = Some w' /\ logged w w' (accepted (w_log w) evs).
Proof.
  intros Hos. revert w. induction evs as [|ev evs IH]; intros w Hr.
  { eexists. split; [done|]. by apply logged_refl. }
  destruct (log_exec_logged os w ev Hos Hr) as (w1 & H1 & Hl1).
  destruct (IH w1 (proj1 Hl1)) as (w2 & H2 & Hl2).
  exists w2. split; [cbn; by rewrite H1|]. rewrite accepted_cons.
  rewrite (accepted_ext _ (w_log w1)) with (evs := evs) by (by symmetry; apply Hl1).
  by apply (logged_trans _ w1).
Qed.

Lemma log_run_app os evs1 evs2 w :
  log_run os (evs1 ++ evs2) w = log_run os evs1 w ≫= log_run os evs2.
Proof.
  revert w. induction evs1 as [|ev evs1 IH]; intros w; [done|]. cbn.
  destruct (log_exec os w ev) as [w1|]; [apply IH | done].
Qed.

Definition before_stop (ev : log_event) : bool :=
  match ev with EvLog _ _ _ | EvWriter => true | _ => false end.

Lemma writeMsg_keeps os m l fs l' fs' :
  writeMsg os m l fs = Some (l', fs') ->
  m_isRunning l' = m_isRunning l /\ m_msgQueue l' = m_msgQueue l.
Proof.
  unfold writeMsg. destruct (if 0 <? m_maxLogSize l then _ else _) as [[|]|]; cbn; [| |done].
  - destruct (rotateLogs os (set_log None l) fs) as [r fs1]. cbn. unfold openFile. cbn.
    destruct (can_open os (m_filename l)); cbn; by intros [= <- _].
  - destruct (m_log l); unfold openFile; [|destruct (can_open os (m_filename l))]; cbn;
      by intros [= <- _].
Qed.

(** While the log runs, the writer loops, and the queue grows by one per call. *)
Lemma log_run_looping os evs w w' :
  forallb before_stop evs = true -> w_pc w = Looping -> m_isRunning (w_log w) = true ->
  log_run os evs w = Some w' ->
  w_pc w' = Looping /\ m_isRunning (w_log w') = true /\
  (length (m_queue (m_msgQueue (w_log w')))
     <= length (m_queue (m_msgQueue (w_log w))) + length evs)%nat.
Proof.
  revert w. induction evs as [|ev evs IH]; intros w Hev Hpc Hrun.
  { intros [= <-]. rewrite Nat.add_0_r. done. }
  cbn in Hev. apply andb_prop in Hev as [Hev1 Hev].
  cbn [log_run]. destruct (log_exec os w ev) as [w1|] eqn:Hx; [|done]. intros Hrest.
  assert (H1 : w_pc w1 = Looping /\ m_isRunning (w_log w1) = true /\
     (length (m_queue (m_msgQueue (w_log w1))) <= S (length (m_queue (m_msgQueue (w_log w)))))%nat).
  { destruct ev as [now level msg| | |]; [..|done|done]; cbn in Hx.
    - injection Hx as <-. cbn. unfold logMsg. destruct (log_accepts _ _); cbn; [|auto with lia].
      rewrite push_queue, length_app. cbn. auto with lia.
    - unfold logFromQueue in Hx. rewrite Hpc, Hrun in Hx. unfold pop_front in Hx.
      destruct (m_queue (m_msgQueue (w_log w))) as [|m rest] eqn:Hq.
      + injection Hx as <-. cbn. rewrite Hq. cbn. auto with lia.
      + destruct (writeMsg os m _ _) as [[l' fs']|] eqn:Hw; [|done].
        injection Hx as <-. cbn.
        assert (Hl : m_isRunning l' = m_isRunning (w_log w) /\ m_queue (m_msgQueue l') = rest).
        { apply writeMsg_keeps in Hw as [-> ->]. done. }
        rewrite (proj1 Hl), (proj2 Hl). cbn. auto with lia. }
  destruct H1 as (Hpc1 & Hrun1 & Hlen1).
  destruct (IH w1 Hev Hpc1 Hrun1 Hrest) as (? & ? & ?). cbn. split_and!; [done..|lia].
Qed.

Definition drained (w : log_world) : Prop :=
  w_pc w = Finished /\ m_queue (m_msgQueue (w_log w)) = [].

Lemma drained_stays os k w :
  drained w -> exists w', log_run os (replicate k EvWriter) w = Some w' /\ drained w'.
Proof.
  revert w. induction k as [|k IH]; intros w Hd; [by eexists|].
  cbn [replicate log_run log_exec]. unfold logFromQueue, pop_front.
  rewrite (proj1 Hd), (proj2 Hd). cbn.
  exact (IH {| w_pc := Finished; w_log := w_log w; w_files := w_files w |}
           (conj eq_refl (proj2 Hd))).
Qed.

Lemma writer_drains os k w :
  permissive os -> log_ready (w_log w) (w_files w) -> w_pc w = Draining ->
  (length (m_queue (m_msgQueue (w_log w))) < k)%nat ->
  exists w', log_run os (replicate k EvWriter) w = Some w' /\ drained w'.
Proof.
  intros Hos. revert w. induction k as [|k IH]; intros [pc l fs] Hr Hpc Hk; [lia|].
  cbn in Hpc, Hk, Hr. subst pc.
  cbn [replicate log_run log_exec w_pc w_log w_files]. unfold logFromQueue, pop_front, queue_empty.
  destruct (m_queue (m_msgQueue l)) as [|m rest] eqn:Hq.
  - cbn. apply drained_stays. by split.
  - destruct (writer_pops os Draining Draining l fs m rest Hos Hr Hq)
      as (q & fs' & Hq' & Hx & Hlog).
    specialize (Hx (fun l fs => {| w_pc := Draining; w_log := l; w_files := fs |})).
    destruct (writeMsg os m _ fs) as [[l' fs'']|] eqn:E; cbn in Hx; [|done].
    injection Hx as -> ->. unfold mbind, option_bind. cbn [default id]. rewrite ?E.
    apply (IH {| w_pc := Draining; w_log := set_msgQueue q l; w_files := fs' |});
      [apply Hlog | done | cbn; rewrite Hq'; cbn in Hk; lia].
Qed.

(** [stop]: the iteration that notices it, and the emptying of the queue. *)
Lemma stop_drains os k w :
  permissive os -> log_ready (w_log w) (w_files w) -> w_pc w = Looping ->
  (2 + length (m_queue (m_msgQueue (w_log w))) <= k)%nat ->
  exists w', log_run os (EvLogStop :: replicate k EvWriter) w = Some w' /\ drained w'.
Proof.
  intros Hos Hr Hpc Hk. destruct k as [|k]; [lia|].
  set (w2 := {| w_pc := Draining; w_log := log_stop (w_log w); w_files := w_files w |}).
  destruct (writer_drains os k w2 Hos) as (w3 & H3 & Hd); [|done|cbn; lia|].
  { exact (log_ready_ext (w_log w) _ _ eq_refl eq_refl Hr). }
  exists w3. split; [|done]. cbn. unfold logFromQueue. rewrite Hpc. by destruct (pop_front _).
Qed.

(** [openLog]: ready, with a new log on the shelf if there are backups. *)
Lemma openLog_ready os name n max level l fs :
  permissive os -> m_isRunning l = false ->
  let w := opened os name n max level l fs in
  log_ready (w_log w) (w_files w) /\ w_pc w = Looping /\ m_isRunning (w_log w) = true /\
  m_msgQueue (w_log w) = m_msgQueue l /\
  settings (w_log w) = (level_value level, n, max, name) /\
  shelf name (Z.to_nat n) (w_files w) = open_shelf (shelf name (Z.to_nat n) fs) /\
  off_shelf name (Z.to_nat n) fs (w_files w).
Proof.
  intros Hos Hrun. unfold opened, openLog, rotateLogs. cbn [m_filename m_numBackups].
  destruct (rotate_from_spec os name (Z.to_nat n) fs Hos) as (fs1 & Hr1 & Hshift & Hgone & Hkeep).
  rewrite Hr1. unfold openFile. cbn [m_filename].
  rewrite (proj2 (proj2 Hos)). unfold log_start. cbn [m_isRunning set_log]. rewrite Hrun. cbn [w_log w_files w_pc].
  assert (Hopen : is_Some ((match fs1 !! name with Some _ => fs1 | None => <[name:=[]]> fs1 end) !! name) /\
    shelf name (Z.to_nat n) (match fs1 !! name with Some _ => fs1 | None => <[name:=[]]> fs1 end)
      = open_shelf (shelf name (Z.to_nat n) fs) /\
    off_shelf name (Z.to_nat n) fs (match fs1 !! name with Some _ => fs1 | None => <[name:=[]]> fs1 end)).
  { destruct (Z.to_nat n) as [|k] eqn:Hn.
    - cbn in Hr1. injection Hr1 as <-. destruct (fs !! name) as [c|] eqn:E.
      + rewrite E. split_and!; [by eexists| |done]. unfold shelf. cbn. by rewrite E.
      + rewrite lookup_insert_eq. split_and!; [by eexists| |by apply off_shelf_base].
        rewrite shelf_insert. unfold shelf. cbn. by rewrite E.
    - rewrite (Hgone (Nat.neq_succ_0 k)), lookup_insert_eq. split_and!; [by eexists| |by apply off_shelf_base].
      rewrite (shelf_rotated _ _ _ fs) by done. pose proof (shelf_length name (S k) fs) as Hl.
      unfold open_shelf. destruct (shelf name (S k) fs) as [|c [|d s]]; [done..|]. cbn [tail].
      cbn in Hl. by replace (length (d :: s)) with (S k) by (cbn; lia). }
  destruct Hopen as (? & ? & ?). unfold log_ready. by split_and!.
Qed.

(** A log that is opened, used, stopped and given time to end, ends. *)
Lemma opened_drains os name n max level l fs evs k :
  permissive os -> m_isRunning l = false -> forallb before_stop evs = true ->
  (2 + length (m_queue (m_msgQueue l)) + length evs <= k)%nat ->
  exists w1 w, log_run os evs (opened os name n max level l fs) = Some w1 /\
    log_run os (EvLogStop :: replicate k EvWriter) w1 = Some w /\
    log_run os (evs ++ EvLogStop :: replicate k EvWriter) (opened os name n max level l fs) = Some w /\
    drained w.
Proof.
  intros Hos Hrun Hev Hk.
  destruct (openLog_ready os name n max level l fs Hos Hrun) as (Hr & Hpc & Hrun0 & Hq & _).
  set (w0 := opened os name n max level l fs) in *.
  destruct (log_run_logged os evs w0 Hos Hr) as (w1 & H1 & Hl1).
  destruct (log_run_looping os evs w0 w1 Hev Hpc Hrun0 H1) as (Hpc1 & _ & Hlen1).
  destruct (stop_drains os k w1 Hos (proj1 Hl1) Hpc1) as (w & H2 & Hd); [rewrite Hq in Hlen1; lia|].
  exists w1, w. split_and!; [done|done|by rewrite log_run_app, H1|done].
Qed.


(** ** A run as in the unit tests ([unit_test/log_tests.cpp], [rotateLogs]) *)

Definition os_all : os_policy :=
  {| can_remove := fun _ => true; can_rename := fun _ _ => true; can_open := fun _ => true |}.

Definition test_message : text := text_of "this is a log message. lalalalalalalalalalala".

Definition test_events : list log_event :=
  flat_map (fun s => [EvLog (text_of "12:00:00") LOG_INFO (text_of s ++ test_message); EvWriter])
    ["first "; "second "; "third "; "fourth "]%string
  ++ [EvLog (text_of "12:00:01") LOG_TRACE test_message].

(** The log was rotated because of its size, and the trace message filtered. *)
Example test_rotated :
  match log_run os_all (test_events ++ EvLogStop :: replicate 11 EvWriter)
          (opened os_all "boost_test.log" 3 100 LOG_INFO new_CBoostLog ∅) with
  | Some w => (is_Some (w_files w !! "boost_test.log.1"%string) /\
               w_files w !! "boost_test.log.2"%string = None)
  | None => False
  end.
Proof. vm_compute. split; [by eexists | done]. Qed.


(** ** The dump format *)

(** [logDump] of a whole vector, as its callers use it, reads in bounds. *)
Lemma dump_text_whole prefix data :
  Z.of_nat (length data) < 2 ^ 31 ->
  dump_text prefix data 0 (-1) =
    Ok (prefix ++ text_of " [len=" ++ text_of (pretty (Z.of_nat (length data)))
          ++ text_of "]:" ++ endl ++ flat_map (fun b => hex_text b ++ text_of " ") data).
Proof.
  intros Hlen. unfold dump_text. cbn [Z.eqb]. cbn [Pos.eqb].
  rewrite Z.sub_0_r, i32_small by (unfold is_i32; lia).
  rewrite Z.mod_0_l by done. rewrite Z.mod_small by lia.
  rewrite Z.min_l, Z.sub_0_r by lia.
  assert (Hgen : forall done_ rest out,
    foldM (fun out i => b ← vat (done_ ++ rest) (Z.to_nat i);
                        Ok (out ++ hex_text b ++ text_of " ")) out
      (seqZ (Z.of_nat (length done_)) (Z.of_nat (length rest)))
    = Ok (out ++ flat_map (fun b => hex_text b ++ text_of " ") rest)).
  { intros done_ rest. revert done_. induction rest as [|b rest IH]; intros done_ out.
    - change (Z.of_nat (length (@nil Z))) with 0. cbn [flat_map].
      rewrite !app_nil_r. reflexivity.
    - cbn [length]. rewrite seqZ_cons by lia. cbn [foldM]. rewrite Nat2Z.id.
      rewrite vat_mid.
      rewrite bind_Ok.
      replace (Z.succ (Z.of_nat (length done_))) with (Z.of_nat (length (done_ ++ [b])))
        by (rewrite length_app; cbn; lia).
      replace (Z.pred (Z.of_nat (S (length rest)))) with (Z.of_nat (length rest)) by lia.
      replace (done_ ++ b :: rest) with ((done_ ++ [b]) ++ rest) by (by rewrite <- (assoc_L app)).
      rewrite bind_Ok, IH. cbn [flat_map]. by rewrite !(assoc_L app). }
  specialize (Hgen [] data []). cbn [app length] in Hgen. change (Z.of_nat 0) with 0 in Hgen. rewrite Hgen. done.
Qed.
