(* ===== verification/LogTests.v ===== *)
(** * The unit tests of the log ([LogUtilities/unit_test/log_tests.cpp])

    Each test is a sequence of calls, interleaved with the writer thread, and a
    check of the files it leaves.  All of them pass, whatever files there were,
    however the threads are scheduled and whatever the time stamps, within the
    lengths [lastLine] can take; one of them would pass with any log. *)

From Stdlib Require Import ZArith Lia Ascii.
From stdpp Require Import base list strings gmap pretty.
From S2P Require Import Prelude SyncQueue BoostLog.
#[local] Open Scope Z_scope.

(** ** Reading the log back *)

(** [std::istream::getline(line, 256)]: up to the end of a line; up to the end of
    the file, which sets [eofbit]; or 255 characters with the line going on, which
    sets [failbit]. *)
Inductive line_read := LineEnds (line rest : text) | LineAtEof (line : text) | LineTooLong.

Fixpoint getline (room : nat) (input : text) : line_read :=
  match input with
  | [] => LineAtEof []
  | c :: input =>
      if bool_decide (c = ascii_of_nat 10) then LineEnds [] input
      else match room with
           | O => LineTooLong
           | S room =>
               match getline room input with
               | LineEnds line rest => LineEnds (c :: line) rest
               | LineAtEof line => LineAtEof (c :: line)
               | LineTooLong => LineTooLong
               end
           end
  end.

(** The stream: its input and whether it has failed; none at the end of the file. *)
Definition stream := option (text * bool).

(** The C string in an array: [strlen] ends at the first NUL. *)
Fixpoint c_string (l : text) : text :=
  match l with
  | [] => []
  | c :: l => if bool_decide (c = ascii_of_nat 0) then [] else c :: c_string l
  end.

(** An iteration of the loop of [lastLine].  A stream that has failed extracts
    nothing, and stays as it is. *)
Definition lastLine_step (input : text * bool) (result : text) : stream * text :=
  let keep line := match c_string line with [] => result | line => line end in
  match input with
  | (_, true) => (Some input, result)
  | (rest, false) =>
      match getline 255 rest with
      | LineEnds line rest => (Some (rest, false), keep line)
      | LineAtEof line => (None, keep line)
      | LineTooLong => (Some (rest, true), result)
      end
  end.

(** [while (!input.eof())] with [fuel] iterations. *)
Fixpoint lastLine_loop (fuel : nat) (input : stream) (result : text) : option text :=
  match input, fuel with
  | None, _ => Some result
  | Some _, O => None
  | Some input, S fuel => let '(input, result) := lastLine_step input result in lastLine_loop fuel input result
  end.

(** [lastLine]: a file that cannot be opened gives a stream that has failed. *)
Definition lastLine (fuel : nat) (path : string) (fs : files) : option text :=
  lastLine_loop fuel (match fs !! path with
                      | Some content => Some (content, false) | None => Some ([], true) end) [].

(** [std::string::find] as a [size_t]; [npos] is its largest value. *)
Fixpoint find_from (n : nat) (l sub : text) : Z :=
  if bool_decide (sub `prefix_of` l) then Z.of_nat n
  else match l with [] => 2 ^ 64 - 1 | _ :: l => find_from (S n) l sub end.
Definition text_find (l sub : text) : Z := find_from 0 l sub.

(** [boost::split] at commas. *)
Fixpoint split (l : text) : list text :=
  match l with
  | [] => [[]]
  | c :: l =>
      match split l with
      | s :: ss => if bool_decide (c = ","%char) then [] :: s :: ss else (c :: s) :: ss
      | [] => [[c]]
      end
  end.

(** ** The tests *)

Definition LOG_BASE : string := "boost_test.log".
Definition ROTATED_LOG : string := LOG_BASE +:+ ".1".
Definition SECOND_LOG : string := "boost_second.log".

(** [clearLogs]: the log and the files numbered 0 to 4. *)
Definition clearLogs (base : string) (fs : files) : files :=
  foldl (fun fs i => delete (base +:+ "." +:+ pretty (i : nat)) fs) (delete base fs) (seq 0 5).

Section tests.
Context (os : os_policy).

(** A run of a logger up to the return of [stop]: what the test does before it,
    interleaved with the writer, and enough of the writer. *)
Definition stopped_after (k : nat) (evs : list log_event) : list log_event :=
  evs ++ EvLogStop :: replicate k EvWriter.

(** A test's calls of [logMsg] among the events. *)
Definition call : Type := text * LogLevel * text.
Fixpoint calls (evs : list log_event) : list call :=
  match evs with
  | [] => []
  | EvLog now level msg :: evs => (now, level, msg) :: calls evs
  | _ :: evs => calls evs
  end.

(** [logInit]: a logger that is opened and destroyed, twice. *)
Definition logInit_open (fs : files) : log_world := opened os LOG_BASE 3 5000 LOG_INFO new_CBoostLog fs.
Definition logInit_first (fs : files) : bool :=
  bool_decide (is_Some (fs !! LOG_BASE)) && bool_decide (fs !! ROTATED_LOG = None).
Definition logInit_second (fs : files) : bool :=
  bool_decide (is_Some (fs !! LOG_BASE)) && bool_decide (is_Some (fs !! ROTATED_LOG)).

(** [rotateLogs] *)
Definition rotate_messages : list string :=
  ["this is a log message. lalalalalalalalalalala"; "this is a second log message. lalalalalalalalalalala";
   "this is a third log message. lalalalalalalalalalala"; "this is a fourth log message. lalalalalalalalalalala"].
Definition rotateLogs_open (fs : files) : log_world :=
  opened os LOG_BASE 3 100 LOG_INFO new_CBoostLog (clearLogs LOG_BASE fs).
Definition rotateLogs_calls (nows : list text) : list call :=
  zip_with (fun now m => (now, LOG_INFO, text_of m)) nows rotate_messages.
Definition rotateLogs_check (fs : files) : bool := bool_decide (is_Some (fs !! ROTATED_LOG)).

(** [logLevels] *)
Definition logLevels_open (fs : files) : log_world :=
  opened os LOG_BASE 3 5000 LOG_WARNING new_CBoostLog (clearLogs LOG_BASE fs).
Definition logLevels_calls (nows : list text) : list call :=
  zip_with (fun now '(level, m) => (now, level, text_of m)) nows
    [(LOG_ERROR, "this is an ERROR message."); (LOG_WARNING, "this is a WARNING message.");
     (LOG_INFO, "this is an INFO message."); (LOG_TRACE, "this is a TRACE message.")]%string.
Definition logLevels_check (lastMsg : text) : bool :=
  0 <? text_find lastMsg (text_of "this is a WARNING message").

(** [logMessages], with the fixture; the check is also that of
    [multipleLoggers]. *)
Definition fixture_open (fs : files) : log_world :=
  opened os LOG_BASE 3 5000 LOG_INFO new_CBoostLog (clearLogs LOG_BASE fs).
Definition message_check (msg : string) (lastMsg : text) : bool :=
  match split lastMsg with [_; s] => bool_decide (s = text_of msg) | _ => false end.

End tests.

(** ** Invariants of a run *)

(** The lines that calls add to a log of a given level. *)
Definition accepted_lines (level : LogLevel) (cs : list call) : list text :=
  omap (fun '(now, lv, msg) =>
          if (level_value level <=? level_value lv) || bool_decide (lv = LOG_ALWAYS)
          then Some (log_line now msg) else None) cs.

Definition text_lines (ls : list text) : text := concat (map (fun l => l ++ endl) ls).

Lemma text_lines_app ls1 ls2 : text_lines (ls1 ++ ls2) = text_lines ls1 ++ text_lines ls2.
Proof. unfold text_lines. by rewrite map_app, concat_app. Qed.

Lemma text_lines_snoc ls l : text_lines (ls ++ [l]) = text_lines ls ++ l ++ endl.
Proof. rewrite text_lines_app. unfold text_lines at 2. cbn. by rewrite app_nil_r. Qed.

Lemma calls_app evs1 evs2 : calls (evs1 ++ evs2) = calls evs1 ++ calls evs2.
Proof. induction evs1 as [|[now lv msg| | |] evs IH]; [done| |exact IH..]. cbn. by rewrite IH. Qed.

Lemma accepted_lines_app level cs1 cs2 :
  accepted_lines level (cs1 ++ cs2) = accepted_lines level cs1 ++ accepted_lines level cs2.
Proof. unfold accepted_lines. apply omap_app. Qed.

Section run_invariant.
(** [I l fs ls]: the log [l] has been given the lines [ls] and has left the files
    [fs]; [B] bounds the lines. *)
Context (os : os_policy) (level : LogLevel).
Context (I : CBoostLog -> files -> list text -> Prop) (B : list text -> Prop).
Hypothesis I_level : forall l fs ls, I l fs ls -> m_logLevel l = level_value level.
Hypothesis I_flags : forall l l' fs ls,
  settings l' = settings l -> m_log l' = m_log l -> m_msgQueue l' = m_msgQueue l -> I l fs ls -> I l' fs ls.
Hypothesis I_push : forall l fs ls line,
  B (ls ++ [line]) -> I l fs ls ->
  I (set_msgQueue (queue_push line (m_msgQueue l)) l) fs (ls ++ [line]).
Hypothesis I_write : forall l fs ls m rest,
  I l fs ls -> m_queue (m_msgQueue l) = m :: rest ->
  let q := {| m_queue := rest; asleep := asleep (m_msgQueue l); awake := awake (m_msgQueue l) |} in
  exists fs', writeMsg os m (set_msgQueue q l) fs = Some (set_msgQueue q l, fs') /\
    I (set_msgQueue q l) fs' ls.
Hypothesis B_prefix : forall ls1 ls2, B (ls1 ++ ls2) -> B ls1.

Lemma exec_invariant w ev ls :
  I (w_log w) (w_files w) ls -> B (ls ++ accepted_lines level (calls [ev])) ->
  exists w', log_exec os w ev = Some w' /\
    I (w_log w') (w_files w') (ls ++ accepted_lines level (calls [ev])).
Proof.
  intros Hi HB. destruct w as [pc l fs]. cbn [w_log w_files] in Hi.
  destruct ev as [now lv msg| | |]; cbn [calls accepted_lines omap list_omap] in *; rewrite ?app_nil_r in *.
  - eexists. split; [done|]. cbn [w_log w_files]. unfold logMsg, log_accepts. rewrite (I_level _ _ _ Hi).
    destruct (_ || _); [by apply I_push|by rewrite app_nil_r].
  - cbn [log_exec w_pc w_log w_files]. unfold logFromQueue, pop_front, queue_empty.
    destruct (m_queue (m_msgQueue l)) as [|m rest] eqn:Hq.
    + assert (Hl : set_msgQueue (m_msgQueue l) l = l) by (by destruct l).
      destruct pc; cbn; rewrite ?Hl; [destruct (m_isRunning l)|..]; by (eexists; split).
    + destruct (I_write l fs ls m rest Hi Hq) as (fs' & Hw & Hx).
      destruct pc; cbn [default id].
      * destruct (m_isRunning l); rewrite ?Hw; by (eexists; split).
      * unfold default, id. rewrite Hw. by (eexists; split).
      * by (eexists; split).
  - eexists. split; [done|]. by apply (I_flags l).
  - eexists. split; [done|]. cbn. case_decide; [by apply (I_flags l)|done].
Qed.

Lemma run_invariant evs w ls :
  I (w_log w) (w_files w) ls -> B (ls ++ accepted_lines level (calls evs)) ->
  exists w', log_run os evs w = Some w' /\
    I (w_log w') (w_files w') (ls ++ accepted_lines level (calls evs)).
Proof.
  revert w ls. induction evs as [|ev evs IH]; intros w ls Hi HB.
  - exists w. cbn. by rewrite app_nil_r.
  - change (ev :: evs) with ([ev] ++ evs) in HB |- *.
    rewrite calls_app, accepted_lines_app, (assoc_L app) in *.
    destruct (exec_invariant w ev ls Hi (B_prefix _ _ HB)) as (w1 & H1 & Hi1).
    destruct (IH w1 _ Hi1 HB) as (w' & Hr & Hi'). exists w'. split; [|done]. cbn. by rewrite H1.
Qed.
End run_invariant.

(** ** A log that is not full *)

Definition small (max : Z) (ls : list text) : Prop := Z.of_nat (length (text_lines ls)) <= max.

Lemma small_prefix max ls1 ls2 : small max (ls1 ++ ls2) -> small max ls1.
Proof. unfold small. rewrite text_lines_app, length_app. lia. Qed.

(** The log and its queue hold the lines, all of which fit, and the other files are
    as they were. *)
Record fits (fs0 : files) (level : LogLevel) (n max : Z) (name : string)
  (l : CBoostLog) (fs : files) (ls : list text) : Prop := {
  fit_good : m_log l = Some true;
  fit_settings : settings l = (level_value level, n, max, name);
  fit_size : small max ls;
  fit_text : exists c, fs !! name = Some c /\ c ++ lines (m_msgQueue l) = text_lines ls;
  fit_others : forall x, x <> name -> fs !! x = fs0 !! x;
}.

Lemma writeMsg_fits os m l fs c :
  m_log l = Some true -> fs !! m_filename l = Some c -> Z.of_nat (length c) <= m_maxLogSize l ->
  writeMsg os m l fs = Some (l, <[m_filename l := c ++ m ++ endl]> fs).
Proof.
  intros Hl Hc Hlen. unfold writeMsg. rewrite Hc. cbn.
  assert (Hbig : (m_maxLogSize l <? Z.of_nat (length c)) = false) by lia.
  assert (Hx : (if 0 <? m_maxLogSize l then Some (m_maxLogSize l <? Z.of_nat (length c)) else Some false) = Some false)
    by (destruct (0 <? _); by rewrite ?Hbig).
  rewrite Hx. cbn. rewrite Hl. unfold stream_out. rewrite Hl. do 2 f_equal.
  apply map_eq. intros n. destruct (decide (n = m_filename l)) as [->|Hn].
  - by rewrite lookup_alter_eq, lookup_insert_eq, Hc.
  - by rewrite lookup_alter_ne, lookup_insert_ne.
Qed.

Section fits.
Context (os : os_policy) (fs0 : files) (level : LogLevel) (n max : Z) (name : string).
#[local] Abbreviation I := (fits fs0 level n max name).

Lemma fits_flags l l' fs ls :
  settings l' = settings l -> m_log l' = m_log l -> m_msgQueue l' = m_msgQueue l -> I l fs ls -> I l' fs ls.
Proof. intros Hs Hl Hq [Hg Hset Hsz Ht Ho]. split; [congruence..|by rewrite Hq|done]. Qed.

Lemma fits_push l fs ls line :
  small max (ls ++ [line]) -> I l fs ls ->
  I (set_msgQueue (queue_push line (m_msgQueue l)) l) fs (ls ++ [line]).
Proof.
  intros HB [Hg Hset Hsz (c & Hc & Ht) Ho]. split; try done. exists c. split; [done|].
  rewrite text_lines_snoc, <- Ht. unfold lines, queued. cbn. rewrite push_queue, map_app, concat_app. cbn.
  by rewrite app_nil_r, (assoc_L app).
Qed.

Lemma fits_write l fs ls m rest :
  I l fs ls -> m_queue (m_msgQueue l) = m :: rest ->
  let q := {| m_queue := rest; asleep := asleep (m_msgQueue l); awake := awake (m_msgQueue l) |} in
  exists fs', writeMsg os m (set_msgQueue q l) fs = Some (set_msgQueue q l, fs') /\
    I (set_msgQueue q l) fs' ls.
Proof.
  intros [Hg Hset Hsz (c & Hc & Ht) Ho] Hq q. pose proof Hset as [= Hlv Hn Hm Hname].
  assert (Hct : c ++ (m ++ endl) ++ concat (map (fun m => m ++ endl) rest) = text_lines ls).
  { rewrite <- Ht. unfold lines, queued. by rewrite Hq. }
  eexists. split.
  - apply (writeMsg_fits os m (set_msgQueue q l) fs c); [done|cbn; by rewrite Hname|].
    cbn. unfold small in Hsz. rewrite <- Hct, length_app in Hsz. lia.
  - cbn [m_filename set_msgQueue]. rewrite Hname. split; [done..| |].
    + eexists. split; [by rewrite lookup_insert_eq|]. unfold lines, queued. cbn. by rewrite <- Hct, !(assoc_L app).
    + intros x Hx. rewrite lookup_insert_ne by done. by apply Ho.
Qed.

Lemma fits_run evs w ls :
  I (w_log w) (w_files w) ls -> small max (ls ++ accepted_lines level (calls evs)) ->
  exists w', log_run os evs w = Some w' /\
    I (w_log w') (w_files w') (ls ++ accepted_lines level (calls evs)).
Proof.
  apply (run_invariant os level I (small max)).
  - intros l fs ls' Hi. by injection (fit_settings _ _ _ _ _ _ _ _ Hi).
  - apply fits_flags.
  - apply fits_push.
  - apply fits_write.
  - apply small_prefix.
Qed.
End fits.

(** ** Opening, and stopping *)

Lemma clearLogs_base base fs : clearLogs base fs !! base = None.
Proof.
  unfold clearLogs. generalize (seq 0 5). intros idx.
  enough (forall fs : files, fs !! base = None ->
    foldl (fun fs i => delete (base +:+ "." +:+ pretty (i : nat)) fs) fs idx !! base = None) as Hx
    by (apply Hx, lookup_delete_eq).
  clear fs. induction idx as [|i idx IH]; intros fs Hfs; [done|]. cbn [foldl]. apply IH.
  apply lookup_delete_None. by right.
Qed.

(** A log that is opened with at least one backup is empty, and what it was is the
    first backup. *)
Lemma opened_fits os name n max level fs :
  permissive os -> 1 <= n -> 0 <= max ->
  let w := opened os name n max level new_CBoostLog fs in
  exists fs0, fits fs0 level n max name (w_log w) (w_files w) [] /\ fs0 !! log_name name 1 = fs !! name /\
    (forall x, (forall i, x <> log_name name i) -> fs0 !! x = fs !! x).
Proof.
  intros Hos Hn Hmax w. unfold w, opened, openLog, rotateLogs. cbn [m_filename m_numBackups].
  destruct (rotate_from_spec os name (Z.to_nat n) fs Hos) as (fs1 & -> & Hshift & Hgone & Hkeep).
  specialize (Hgone ltac:(lia)). specialize (Hshift 0%nat ltac:(lia)).
  unfold openFile. cbn [m_filename]. rewrite (proj2 (proj2 Hos)), Hgone. exists fs1.
  split; [split|split; [done|]].
  - done.
  - done.
  - unfold small. cbn. lia.
  - exists []. cbn. by rewrite lookup_insert_eq.
  - intros x Hx. cbn. by rewrite lookup_insert_ne.
  - intros x Hx. apply Hkeep. auto.
Qed.

Lemma calls_stop evs k : calls (stopped_after k evs) = calls evs.
Proof.
  unfold stopped_after. rewrite calls_app. cbn [calls].
  assert (Hk : calls (replicate k EvWriter) = []) by (induction k; done). by rewrite Hk, app_nil_r.
Qed.

(** A test that writes less than the log takes: what it logs is the whole log. *)
Lemma fits_stopped os name n max level fs evs k :
  permissive os -> 1 <= n -> 0 <= max -> forallb before_stop evs = true -> (2 + length evs <= k)%nat ->
  let ls := accepted_lines level (calls evs) in
  small max ls ->
  exists w, log_run os (stopped_after k evs) (opened os name n max level new_CBoostLog fs) = Some w /\
    drained w /\ w_files w !! name = Some (text_lines ls) /\ w_files w !! log_name name 1 = fs !! name.
Proof.
  intros Hos Hn Hmax Hev Hk ls Hlen.
  destruct (opened_fits os name n max level fs Hos Hn Hmax) as (fs0 & Hf & H1 & _).
  destruct (fits_run os fs0 level n max name (stopped_after k evs) _ [] Hf) as (w & Hr & Hw).
  { rewrite calls_stop. exact Hlen. }
  destruct (opened_drains os name n max level new_CBoostLog fs evs k Hos eq_refl Hev) as (_ & w' & _ & _ & Hr' & Hd);
    [cbn; lia|].
  unfold stopped_after in Hr. rewrite Hr in Hr'. injection Hr' as <-.
  exists w. split; [done|]. split; [done|]. rewrite calls_stop in Hw. destruct Hw as [_ _ _ (c & Hc & Ht) Ho]. split.
  - unfold lines, queued in Ht. rewrite (proj2 Hd) in Ht. cbn in Ht. rewrite app_nil_r in Ht. by rewrite Hc, Ht.
  - rewrite Ho; [exact H1|]. intros Heq. by apply (log_name_inj name 1 0) in Heq.
Qed.

(** ** Reading the log back *)

(** A time stamp, of which no more is used: it begins with a digit, and it has no
    commas and no ends of lines. *)
Definition plain (c : ascii) : bool :=
  negb (bool_decide (c = ascii_of_nat 10)) && negb (bool_decide (c = ascii_of_nat 0)).
Definition stamp (now : text) : Prop :=
  Forall (fun c => plain c = true /\ c <> ","%char) now /\
  (exists d rest, now = d :: rest /\ (48 <= nat_of_ascii d <= 57)%nat) /\ (length now <= 100)%nat.

(** A line that [lastLine] reads back. *)
Definition readable (l : text) : Prop :=
  Forall (fun c => plain c = true) l /\ l <> [] /\ (length l <= 255)%nat.

Lemma getline_line room l rest :
  Forall (fun c => plain c = true) l -> (length l <= room)%nat ->
  getline room (l ++ endl ++ rest) = LineEnds l rest.
Proof.
  intros Hl. revert room. induction Hl as [|c l Hc _ IH]; intros room Hlen; [by destruct room|].
  cbn [app length] in *. unfold plain in Hc. apply andb_prop in Hc as [Hc _].
  apply negb_true_iff in Hc. destruct room as [|room]; [lia|]. cbn [getline]. rewrite Hc.
  by rewrite IH by lia.
Qed.

Lemma c_string_plain l : Forall (fun c => plain c = true) l -> c_string l = l.
Proof.
  intros Hl. induction Hl as [|c l Hc _ IH]; [done|]. unfold plain in Hc.
  apply andb_prop in Hc as [_ Hc]. apply negb_true_iff in Hc. cbn [c_string]. by rewrite Hc, IH.
Qed.

Lemma lastLine_loop_S fuel input r :
  lastLine_loop (S fuel) (Some input) r
  = let '(input, r) := lastLine_step input r in lastLine_loop fuel input r.
Proof. done. Qed.

Lemma lastLine_lines ls r :
  Forall readable ls ->
  lastLine_loop (S (length ls)) (Some (concat (map (fun l => l ++ endl) ls), false)) r
  = Some (default r (last ls)).
Proof.
  intros Hls. revert r. induction Hls as [|l ls (Hp & Hne & Hlen) Hls IH]; intros r; [done|].
  rewrite lastLine_loop_S. unfold lastLine_step. cbn [length map concat].
  rewrite <- (assoc_L app), getline_line, c_string_plain by done. destruct l as [|c l]; [done|].
  rewrite IH, last_cons. by destruct (last ls).
Qed.

(** [lastLine] never returns when there is no file, or once it meets a line of more
    than 255 characters. *)
Lemma lastLine_hangs fuel fs path :
  match fs !! path with Some content => getline 255 content = LineTooLong | None => True end ->
  lastLine fuel path fs = None.
Proof.
  intros Hx. unfold lastLine.
  assert (Hfail : forall k r c, lastLine_loop k (Some (c, true)) r = None).
  { intros k. induction k as [|k IH]; intros r c; [done|]. apply IH. }
  destruct (fs !! path) as [c|]; [|apply Hfail].
  destruct fuel as [|fuel]; [done|]. cbn [lastLine_loop lastLine_step]. rewrite Hx. apply Hfail.
Qed.

(** The check of [logLevels] only fails where the text is the beginning of the line:
    [find] gives [npos] where there is none. *)
Lemma find_check l sub : ~ sub `prefix_of` l -> 0 < text_find l sub.
Proof.
  assert (Hpos : forall l n, 0 < find_from (S n) l sub).
  { intros k. induction k as [|c k IH]; intros n; cbn [find_from];
      (destruct (bool_decide _); [lia|]); [done|apply IH]. }
  intros Hp. unfold text_find.
  destruct l as [|c l]; cbn [find_from]; rewrite bool_decide_eq_false_2 by done; [done|apply Hpos].
Qed.

(** Neither stamps nor the messages of the tests get in the way of reading. *)
Lemma stamp_readable now msg :
  stamp now -> (length msg <= 100)%nat -> forallb plain msg = true -> readable (log_line now msg).
Proof.
  intros (Hs & (d & rest & -> & _) & Hlen) Hm Hp. unfold log_line. split; [|split].
  - apply Forall_app. split; [eapply Forall_impl; [exact Hs|by intros c []]|].
    apply Forall_app. split; [by repeat constructor|].
    apply Forall_forall. intros c Hc. rewrite forallb_forall in Hp. apply Hp. by apply list_elem_of_In.
  - done.
  - rewrite !length_app. cbn in *. lia.
Qed.

(** ** The tests of one log *)

Lemma readable_size ls :
  Forall readable ls -> (length (text_lines ls) <= 256 * length ls)%nat.
Proof.
  intros Hls. induction Hls as [|l ls (_ & _ & Hl) _ IH]; [cbn; lia|].
  unfold text_lines in *. cbn [map concat length]. rewrite !length_app. cbn [endl length]. lia.
Qed.

(** The last of at most nineteen lines is read back. *)
Lemma test_last os name level fs evs k :
  permissive os -> forallb before_stop evs = true -> (2 + length evs <= k)%nat ->
  let ls := accepted_lines level (calls evs) in
  Forall readable ls -> (length ls <= 19)%nat ->
  exists w, log_run os (stopped_after k evs) (opened os name 3 5000 level new_CBoostLog fs) = Some w /\
    drained w /\ lastLine (S (length ls)) name (w_files w) = Some (default [] (last ls)).
Proof.
  intros Hos Hev Hk ls Hls Hlen. pose proof (readable_size ls Hls) as Hsz.
  destruct (fits_stopped os name 3 5000 level fs evs k Hos) as (w & Hr & Hd & Hc & _); [lia|lia|done|done| |].
  { unfold small. fold ls. lia. }
  exists w. split; [exact Hr|]. split; [done|]. unfold lastLine. rewrite Hc. fold ls.
  by apply lastLine_lines.
Qed.

Lemma split_line now msg :
  Forall (fun c => c <> ","%char) now -> Forall (fun c => c <> ","%char) msg ->
  split (log_line now msg) = [now; msg].
Proof.
  intros Hn Hm. unfold log_line.
  assert (Hmsg : split msg = [msg]).
  { induction Hm as [|c m Hc _ IH]; [done|]. cbn [split]. by rewrite IH, bool_decide_eq_false_2. }
  induction Hn as [|c n Hc _ IH].
  - cbn [LOG_FIELD_SEPARATOR text_of app]. cbn. by rewrite Hmsg.
  - cbn [app split]. by rewrite IH, bool_decide_eq_false_2.
Qed.

Lemma stamp_no_comma now : stamp now -> Forall (fun c => c <> ","%char) now.
Proof. intros [Hs _]. eapply Forall_impl; [exact Hs|by intros c []]. Qed.

(** A message without commas. *)
Definition simple (msg : text) : bool :=
  forallb plain msg && forallb (fun c => negb (bool_decide (c = ","%char))) msg && (length msg <=? 100)%nat.

Lemma simple_spec msg :
  simple msg = true ->
  (length msg <= 100)%nat /\ forallb plain msg = true /\ Forall (fun c => c <> ","%char) msg.
Proof.
  unfold simple. intros Hm. apply andb_prop in Hm as [[Hp Hc]%andb_prop Hl].
  split; [by apply Nat.leb_le|]. split; [done|]. apply Forall_forall. intros c Hin.
  rewrite forallb_forall in Hc. apply list_elem_of_In in Hin. specialize (Hc c Hin).
  by apply negb_true_iff, bool_decide_eq_false in Hc.
Qed.

Lemma simple_readable now msg : stamp now -> simple msg = true -> readable (log_line now msg).
Proof. intros Hn Hm. apply simple_spec in Hm as (? & ? & _). by apply stamp_readable. Qed.

(** [logMessages] passes. *)
Lemma logMessages_passes os fs now evs k :
  permissive os -> stamp now -> forallb before_stop evs = true -> (2 + length evs <= k)%nat ->
  calls evs = [(now, LOG_INFO, text_of "this is a log message")] ->
  exists w lastMsg, log_run os (stopped_after k evs) (fixture_open os fs) = Some w /\ drained w /\
    lastLine 2 LOG_BASE (w_files w) = Some lastMsg /\
    message_check "this is a log message" lastMsg = true.
Proof.
  intros Hos Hn Hev Hk Hc.
  destruct (simple_spec (text_of "this is a log message") eq_refl) as (_ & _ & Hm).
  destruct (test_last os LOG_BASE LOG_INFO (clearLogs LOG_BASE fs) evs k Hos Hev Hk) as (w & Hr & Hd & Hlast);
    rewrite Hc in *.
  { constructor; [by apply simple_readable|done]. }
  { by apply Nat.leb_le. }
  exists w, (log_line now (text_of "this is a log message")). split; [exact Hr|]. split; [done|].
  split; [exact Hlast|]. unfold message_check.
  rewrite split_line by (done || by apply stamp_no_comma). by apply bool_decide_eq_true_2.
Qed.

(** [logLevels] passes: the warning is the last line, since the less severe messages
    are not logged.  But its check passes whatever the last line is, unless that
    begins with the text. *)
Lemma logLevels_passes os fs nows evs k :
  permissive os -> Forall stamp nows -> length nows = 4%nat ->
  forallb before_stop evs = true -> (2 + length evs <= k)%nat -> calls evs = logLevels_calls nows ->
  (exists w lastMsg, log_run os (stopped_after k evs) (logLevels_open os fs) = Some w /\ drained w /\
     lastLine 3 LOG_BASE (w_files w) = Some lastMsg /\
     lastMsg = log_line (nth 1 nows []) (text_of "this is a WARNING message.") /\
     logLevels_check lastMsg = true) /\
  (forall lastMsg, ~ text_of "this is a WARNING message" `prefix_of` lastMsg ->
     logLevels_check lastMsg = true).
Proof.
  intros Hos Hn Hlen Hev Hk Hc.
  assert (Hany : forall lastMsg, ~ text_of "this is a WARNING message" `prefix_of` lastMsg ->
    logLevels_check lastMsg = true).
  { intros lastMsg Hp. unfold logLevels_check. by apply Z.ltb_lt, find_check. }
  split; [|exact Hany].
  destruct nows as [|n1 [|n2 [|n3 [|n4 [|]]]]]; try done. rewrite !Forall_cons in Hn.
  destruct Hn as (H1 & H2 & H3 & H4 & _).
  destruct (test_last os LOG_BASE LOG_WARNING (clearLogs LOG_BASE fs) evs k Hos Hev Hk) as (w & Hr & Hd & Hlast);
    rewrite Hc in *.
  { constructor; [by apply simple_readable|]. constructor; [by apply simple_readable|done]. }
  { by apply Nat.leb_le. }
  eexists w, _. split; [exact Hr|]. split; [done|]. split; [exact Hlast|]. split; [done|].
  apply Hany. cbn [accepted_lines logLevels_calls zip_with omap list_omap last default].
  destruct H2 as (_ & (d & rest & -> & Hd2) & _). intros [x Hx].
  cbn in Hx. injection Hx as Hx _. subst d. destruct Hd2 as [_ Hd2%Nat.leb_le]. vm_compute in Hd2. discriminate Hd2.
Qed.

(** [logInit] passes: the second logger moves the file of the first aside. *)
Lemma logInit_passes os fs evs1 evs2 k :
  permissive os -> forallb before_stop (evs1 ++ evs2) = true -> calls evs1 = [] -> calls evs2 = [] ->
  (2 + length (evs1 ++ evs2) <= k)%nat ->
  exists w1, log_run os (stopped_after k evs1) (logInit_open os (clearLogs LOG_BASE fs)) = Some w1 /\
    drained w1 /\ logInit_first (w_files w1) = true /\
  exists w2, log_run os (stopped_after k evs2) (logInit_open os (w_files w1)) = Some w2 /\
    drained w2 /\ logInit_second (w_files w2) = true.
Proof.
  intros Hos Hev Hc1 Hc2 Hk. rewrite forallb_app in Hev. apply andb_prop in Hev as [He1 He2].
  rewrite length_app in Hk.
  assert (Hrun : forall fs evs, forallb before_stop evs = true -> calls evs = [] -> (2 + length evs <= k)%nat ->
    exists w, log_run os (stopped_after k evs) (logInit_open os fs) = Some w /\ drained w /\
      is_Some (w_files w !! LOG_BASE) /\ w_files w !! ROTATED_LOG = fs !! LOG_BASE).
  { intros fs0 evs Hev Hc Hk'.
    destruct (fits_stopped os LOG_BASE 3 5000 LOG_INFO fs0 evs k Hos) as (w & Hr & Hd & Hf & H1);
      [lia|lia|done|done|by rewrite Hc|].
    exists w. split; [exact Hr|]. split; [done|]. split; [by eexists|exact H1]. }
  destruct (Hrun (clearLogs LOG_BASE fs) evs1) as (w1 & H1 & Hd1 & Hb1 & Hr1); [done|done|lia|].
  destruct (Hrun (w_files w1) evs2) as (w2 & H2 & Hd2 & Hb2 & Hr2); [done|done|lia|].
  exists w1. split; [done|]. split; [done|]. split.
  { unfold logInit_first. rewrite Hr1, clearLogs_base. by rewrite !bool_decide_eq_true_2. }
  exists w2. split; [done|]. split; [done|]. unfold logInit_second. rewrite Hr2.
  by rewrite !bool_decide_eq_true_2.
Qed.

(** ** Rotation *)

(** The file has been rotated, or it holds the lines written so far, which were not
    too many before the last one. *)
Record rotating (level : LogLevel) (max : Z) (name : string) (l : CBoostLog) (fs : files)
  (ls : list text) : Prop := {
  rot_ready : log_ready l fs;
  rot_settings : settings l = (level_value level, 3, max, name);
  rot_state :
    is_Some (fs !! log_name name 1) \/
    exists written, fs !! name = Some (text_lines written) /\
      written ++ m_queue (m_msgQueue l) = ls /\
      (length (text_lines (removelast written)) <= Z.to_nat max)%nat;
}.

Lemma writeMsg_rotates os m l fs c :
  permissive os -> m_log l = Some true -> m_numBackups l = 3 -> 0 < m_maxLogSize l ->
  fs !! m_filename l = Some c ->
  exists fs', writeMsg os m l fs = Some (l, fs') /\ is_Some (fs' !! m_filename l) /\
    ((fs' !! m_filename l = Some (c ++ m ++ endl) /\ (length c <= Z.to_nat (m_maxLogSize l))%nat /\
      fs' !! log_name (m_filename l) 1 = fs !! log_name (m_filename l) 1) \/
     is_Some (fs' !! log_name (m_filename l) 1)).
Proof.
  intros Hos Hl Hb Hmax Hc.
  assert (Hne : m_filename l <> log_name (m_filename l) 1)
    by (intros Heq; by apply (log_name_inj _ 0 1) in Heq).
  destruct (decide (Z.of_nat (length c) <= m_maxLogSize l)) as [Hle|Hgt].
  - eexists. split; [by apply writeMsg_fits|]. rewrite lookup_insert_eq, lookup_insert_ne by done.
    split; [by eexists|]. left. split_and!; [done|lia|done].
  - unfold writeMsg. rewrite (proj2 (Z.ltb_lt _ _)) by done. rewrite Hc. cbn.
    rewrite (proj2 (Z.ltb_lt _ _)) by lia. cbn. unfold rotateLogs. cbn [m_filename m_numBackups set_log].
    destruct (rotate_from_spec os (m_filename l) (Z.to_nat (m_numBackups l)) fs Hos)
      as (fs1 & -> & Hshift & Hgone & _).
    rewrite Hb in *. specialize (Hshift 0%nat ltac:(lia)). cbn [log_name] in Hshift. unfold openFile.
    cbn [m_filename set_log]. rewrite (proj2 (proj2 Hos)).
    assert (Hset : set_log (Some true) (set_log None l) = l) by (destruct l; cbn in *; by subst).
    rewrite Hset. cbn [m_log set_log]. unfold stream_out. rewrite Hl. eexists. split; [done|].
    rewrite lookup_alter_eq, lookup_alter_ne, lookup_insert_eq, lookup_insert_ne by done.
    split; [by eexists|]. right. rewrite Hc in Hshift. by eexists.
Qed.

Section rotating.
Context (os : os_policy) (level : LogLevel) (max : Z) (name : string).
Hypothesis os_permissive : permissive os.
Hypothesis max_positive : 0 < max.
#[local] Abbreviation I := (rotating level max name).

Lemma rotating_write l fs ls m rest :
  I l fs ls -> m_queue (m_msgQueue l) = m :: rest ->
  let q := {| m_queue := rest; asleep := asleep (m_msgQueue l); awake := awake (m_msgQueue l) |} in
  exists fs', writeMsg os m (set_msgQueue q l) fs = Some (set_msgQueue q l, fs') /\
    I (set_msgQueue q l) fs' ls.
Proof.
  intros [[Hl [c Hc]] Hset Hst] Hq q. pose proof Hset as [= Hlv Hn Hm Hname].
  destruct (writeMsg_rotates os m (set_msgQueue q l) fs c os_permissive Hl Hn) as (fs' & Hw & Hsome & Hx);
    [cbn; lia|done|].
  exists fs'. split; [done|]. split; [by split|done|]. cbn [m_filename m_maxLogSize m_msgQueue set_msgQueue] in *.
  rewrite Hname, ?Hm in *.
  destruct Hx as [(Hc' & Hlen & Hsame)|?]; [|by left].
  destruct Hst as [Hr|(written & Hwr & Hls & _)]; [left; by rewrite Hsame|].
  right. exists (written ++ [m]). rewrite Hc in Hwr. injection Hwr as ->. split_and!.
  - by rewrite Hc', text_lines_snoc.
  - by rewrite <- Hls, Hq, <- (assoc_L app).
  - by rewrite removelast_last.
Qed.

Lemma rotating_run evs w ls :
  I (w_log w) (w_files w) ls ->
  exists w', log_run os evs w = Some w' /\
    I (w_log w') (w_files w') (ls ++ accepted_lines level (calls evs)).
Proof.
  intros Hi. apply (run_invariant os level I (fun _ => True)); try done.
  - intros l fs ls' [_ [= ? _ _ _] _]. done.
  - intros l l' fs ls' Hs Hl Hq [Hr Hset Hst]. split; [|congruence|by rewrite Hq].
    by apply (log_ready_ext l).
  - intros l fs ls' line _ [Hr Hset Hst]. split; [done|done|].
    destruct Hst as [?|(written & Hw & <- & Hlen)]; [by left|right]. exists written.
    cbn [m_msgQueue set_msgQueue]. by rewrite push_queue, (assoc_L app).
  - intros l fs ls' m rest. apply rotating_write.
Qed.
End rotating.

(** [rotateLogs] passes: three lines are more than the log takes, so the fourth
    moves it aside. *)
Lemma rotateLogs_passes os fs nows evs k :
  permissive os -> length nows = 4%nat ->
  forallb before_stop evs = true -> (2 + length evs <= k)%nat -> calls evs = rotateLogs_calls nows ->
  exists w, log_run os (stopped_after k evs) (rotateLogs_open os fs) = Some w /\ drained w /\
    rotateLogs_check (w_files w) = true.
Proof.
  intros Hos Hlen Hev Hk Hc.
  destruct (opened_fits os LOG_BASE 3 100 LOG_INFO (clearLogs LOG_BASE fs) Hos ltac:(lia) ltac:(lia))
    as (fs0 & [Hg Hset _ (c & Hc0 & Ht) _] & _ & _).
  destruct (opened_drains os LOG_BASE 3 100 LOG_INFO new_CBoostLog (clearLogs LOG_BASE fs) evs k Hos eq_refl Hev)
    as (_ & w & _ & _ & Hr & Hd); [cbn; lia|].
  apply app_eq_nil in Ht as [-> Hq]. set (w0 := opened _ _ _ _ _ _ _) in *.
  assert (Hq0 : m_queue (m_msgQueue (w_log w0)) = []).
  { unfold lines, queued in Hq. destruct (m_queue _) as [|m q]; [done|]. cbn in Hq. by destruct m. }
  destruct (rotating_run os LOG_INFO 100 LOG_BASE Hos ltac:(lia) (stopped_after k evs) w0 [])
    as (w' & Hr' & [_ _ Hst]).
  { pose proof Hset as [= _ _ _ Hname]. split; [split; [done|]|done|].
    - rewrite Hname, Hc0. by eexists.
    - right. exists []. rewrite Hc0, Hq0. cbn. split_and!; [done|done|lia]. }
  unfold stopped_after in Hr'. fold (stopped_after k evs) in Hr'.
  rewrite calls_stop, Hc in Hst. unfold rotateLogs_open. fold w0.
  unfold stopped_after in *. rewrite Hr in Hr'. injection Hr' as <-.
  exists w. split; [done|]. split; [done|]. unfold rotateLogs_check. apply bool_decide_eq_true_2.
  destruct Hst as [?|(written & _ & Hw & Hl)]; [done|exfalso].
  rewrite (proj2 Hd), app_nil_r in Hw. subst written.
  destruct nows as [|n1 [|n2 [|n3 [|n4 [|]]]]]; try done.
  change ([] ++ accepted_lines LOG_INFO (rotateLogs_calls [n1; n2; n3; n4]))
    with (zip_with (fun n m => log_line n (text_of m)) [n1; n2; n3; n4] rotate_messages) in Hl.
  revert Hl. unfold text_lines, log_line. cbn [zip_with rotate_messages removelast map concat].
  rewrite !length_app. cbn. lia.
Qed.

(** ** Two logs *)

(** Two loggers on one file system; an event is of the second if so marked. *)
Definition share (fs : files) (w : log_world) : log_world :=
  {| w_pc := w_pc w; w_log := w_log w; w_files := fs |}.

Definition two_exec (os : os_policy) (ws : log_world * log_world) (e : bool * log_event)
  : option (log_world * log_world) :=
  if e.1 then w ← log_exec os ws.2 e.2; Some (share (w_files w) ws.1, w)
  else w ← log_exec os ws.1 e.2; Some (w, share (w_files w) ws.2).

Fixpoint two_run (os : os_policy) (es : list (bool * log_event)) (ws : log_world * log_world)
  : option (log_world * log_world) :=
  match es with
  | [] => Some ws
  | e :: es => ws ← two_exec os ws e; two_run os es ws
  end.

(** [multipleLoggers], with the fixture, up to the two calls of [stop]. *)
Definition multipleLoggers_open (os : os_policy) (fs : files) : log_world * log_world :=
  let w1 := fixture_open os fs in
  let w2 := opened os SECOND_LOG 3 5000 LOG_INFO new_CBoostLog (w_files w1) in
  (share (w_files w2) w1, w2).

Definition multipleLoggers_calls (nows : list text) : list (bool * call) :=
  zip_with (fun now '(second, m) => (second, (now, LOG_INFO, text_of m))) nows
    [(false, "this is a log message"); (true, "this message goes to the second log");
     (false, "this is a log message"); (true, "this message goes to the second log")]%string.

Definition two_stopped (k : nat) (es : list (bool * log_event)) : list (bool * log_event) :=
  es ++ (pair false <$> EvLogStop :: replicate k EvWriter) ++
        (pair true <$> EvLogStop :: replicate k EvWriter).

(** The events of one of them. *)
Definition events_of (b : bool) (es : list (bool * log_event)) : list log_event :=
  (base.filter (fun e => e.1 = b) es).*2.

(** The files and queue of both logs. *)
Record two_fit (ws : log_world * log_world) (ls1 ls2 : list text) : Prop := {
  two_first : fits (w_files ws.1) LOG_INFO 3 5000 LOG_BASE (w_log ws.1) (w_files ws.1) ls1;
  two_second : fits (w_files ws.2) LOG_INFO 3 5000 SECOND_LOG (w_log ws.2) (w_files ws.2) ls2;
  two_files : w_files ws.1 = w_files ws.2;
}.

Lemma fits_rebase fs0 fs0' level n max name l fs fs' ls :
  fits fs0 level n max name l fs ls -> fs' !! name = fs !! name ->
  (forall x, x <> name -> fs' !! x = fs0' !! x) -> fits fs0' level n max name l fs' ls.
Proof. intros [Hg Hs Hz (c & Hc & Ht) _] Heq Ho. split; try done. exists c. by rewrite Heq. Qed.

Definition new_lines (b : bool) (es : list (bool * log_event)) : list text :=
  accepted_lines LOG_INFO (calls (events_of b es)).

(** A logger that runs, with its queue no longer than [n]. *)
Definition live (w : log_world) (n : nat) : Prop :=
  w_pc w = Looping /\ m_isRunning (w_log w) = true /\ (length (m_queue (m_msgQueue (w_log w))) <= n)%nat.

(** One logger steps beside the other. *)
Lemma two_one os evs (b : bool) ws ls1 ls2 :
  two_fit ws ls1 ls2 ->
  let new := accepted_lines LOG_INFO (calls evs) in
  small 5000 ((if b then ls2 else ls1) ++ new) ->
  exists w', log_run os evs (if b then ws.2 else ws.1) = Some w' /\
    two_run os (pair b <$> evs) ws = Some (if b then (share (w_files w') ws.1, w') else (w', share (w_files w') ws.2)) /\
    two_fit (if b then (share (w_files w') ws.1, w') else (w', share (w_files w') ws.2))
      (if b then ls1 else ls1 ++ new) (if b then ls2 ++ new else ls2).
Proof.
  intros [H1 H2 Hf] new HB.
  assert (Hrun : forall w', log_run os evs (if b then ws.2 else ws.1) = Some w' ->
    two_run os (pair b <$> evs) ws = Some (if b then (share (w_files w') ws.1, w') else (w', share (w_files w') ws.2))).
  { clear -Hf. revert ws Hf. induction evs as [|ev evs IH]; intros [w1 w2] Hf w'; cbn in Hf |- *.
    - destruct b; intros [= <-]; [rewrite <- Hf; by destruct w1|rewrite Hf; by destruct w2].
    - destruct b; cbn in *; destruct (log_exec os _ ev) as [w|]; try done; cbn; intros Hr.
      + exact (IH (share (w_files w) w1, w) eq_refl w' Hr).
      + exact (IH (w, share (w_files w) w2) eq_refl w' Hr). }
  destruct b; cbn [fst snd] in *.
  - destruct (fits_run os (w_files ws.2) LOG_INFO 3 5000 SECOND_LOG evs ws.2 ls2 H2 HB) as (w' & Hr & Hw).
    exists w'. split; [done|]. split; [by apply Hrun|]. split; cbn; [|by eapply fits_rebase|done].
    apply (fits_rebase _ _ _ _ _ _ _ _ _ _ H1); [|done]. rewrite Hf. by apply (fit_others _ _ _ _ _ _ _ _ Hw).
  - destruct (fits_run os (w_files ws.1) LOG_INFO 3 5000 LOG_BASE evs ws.1 ls1 H1 HB) as (w' & Hr & Hw).
    exists w'. split; [done|]. split; [by apply Hrun|]. split; cbn; [by eapply fits_rebase| |done].
    apply (fits_rebase _ _ _ _ _ _ _ _ _ _ H2); [|done]. rewrite <- Hf. by apply (fit_others _ _ _ _ _ _ _ _ Hw).
Qed.

Lemma live_step os ev w w' n :
  before_stop ev = true -> live w n -> log_run os [ev] w = Some w' -> live w' (S n).
Proof.
  intros He (Hp & Hr & Hn) Hx.
  destruct (log_run_looping os [ev] w w') as (? & ? & Hlen); [by cbn; rewrite He|done..|].
  cbn [length] in Hlen. split_and!; [done|done|lia].
Qed.

Lemma two_run_app os es1 es2 ws :
  two_run os (es1 ++ es2) ws = two_run os es1 ws ≫= two_run os es2.
Proof.
  revert ws. induction es1 as [|e es1 IH]; intros ws; [done|]. cbn.
  destruct (two_exec os ws e) as [ws1|]; [apply IH|done].
Qed.

Lemma two_before os es ws ls1 ls2 n :
  forallb (fun e => before_stop e.2) es = true -> two_fit ws ls1 ls2 -> live ws.1 n -> live ws.2 n ->
  small 5000 (ls1 ++ new_lines false es) -> small 5000 (ls2 ++ new_lines true es) ->
  exists ws', two_run os es ws = Some ws' /\
    two_fit ws' (ls1 ++ new_lines false es) (ls2 ++ new_lines true es) /\
    live ws'.1 (n + length es) /\ live ws'.2 (n + length es).
Proof.
  revert ws ls1 ls2 n. induction es as [|[b ev] es IH]; intros ws ls1 ls2 n He Hf Hl1 Hl2 HB1 HB2.
  - exists ws. unfold new_lines in *. cbn in *. rewrite !app_nil_r in *. rewrite Nat.add_0_r. by split_and!.
  - cbn [forallb] in He. apply andb_prop in He as [He1 He].
    assert (Hnew : forall c, new_lines c ((b, ev) :: es)
      = (if decide (b = c) then accepted_lines LOG_INFO (calls [ev]) else []) ++ new_lines c es).
    { intros c. unfold new_lines, events_of. rewrite filter_cons. cbn [fst]. destruct (decide (b = c)); [|done].
      cbn [fmap list_fmap snd]. change (ev :: ?l) with ([ev] ++ l). by rewrite calls_app, accepted_lines_app. }
    rewrite !Hnew in *. rewrite !(assoc_L app) in *.
    destruct (two_one os [ev] b ws ls1 ls2 Hf) as (w' & Hr & Htr & Hf').
    { destruct b; rewrite ?decide_True, ?decide_False in * by done; by eapply small_prefix. }
    assert (Hlive : live (if b then ws.2 else ws.1) n) by (by destruct b).
    pose proof (live_step os ev _ w' n He1 Hlive Hr) as Hlw.
    assert (Hmono : forall w fs, live w n -> live (share fs w) (S n)).
    { intros w fs (? & ? & ?). split_and!; [done|done|cbn; lia]. }
    change ((b, ev) :: es) with ((pair b <$> [ev]) ++ es). rewrite two_run_app, Htr. cbn [mbind option_bind].
    replace (n + length ((pair b <$> [ev]) ++ es))%nat with (S n + length es)%nat by (cbn; lia).
    destruct b; cbn [decide bool_eq_dec] in *; rewrite ?decide_True, ?decide_False, ?app_nil_r in * by done;
      (apply IH; [done|exact Hf'|..]); try done; try (by apply Hmono).
Qed.

(** The calls among the events of both. *)
Fixpoint two_calls (es : list (bool * log_event)) : list (bool * call) :=
  match es with
  | [] => []
  | (b, EvLog now level msg) :: es => (b, (now, level, msg)) :: two_calls es
  | _ :: es => two_calls es
  end.

Lemma calls_events_of b es :
  calls (events_of b es) = (base.filter (fun c => c.1 = b) (two_calls es)).*2.
Proof.
  unfold events_of. induction es as [|[b' ev] es IH]; [done|]. rewrite filter_cons. cbn [fst].
  destruct ev; cbn [two_calls]; rewrite ?filter_cons; cbn [fst]; destruct (decide (b' = b));
    rewrite ?fmap_cons; cbn [calls snd]; by rewrite IH.
Qed.

Lemma multipleLoggers_open_fit os fs :
  permissive os ->
  let ws := multipleLoggers_open os fs in
  two_fit ws [] [] /\ live ws.1 0 /\ live ws.2 0.
Proof.
  intros Hos ws.
  destruct (opened_fits os LOG_BASE 3 5000 LOG_INFO (clearLogs LOG_BASE fs) Hos ltac:(lia) ltac:(lia))
    as (fs1 & H1 & _).
  destruct (openLog_ready os LOG_BASE 3 5000 LOG_INFO new_CBoostLog (clearLogs LOG_BASE fs) Hos eq_refl)
    as (_ & Hp1 & Hr1 & Hq1 & _).
  set (w1 := opened os LOG_BASE _ _ _ _ _) in *.
  destruct (opened_fits os SECOND_LOG 3 5000 LOG_INFO (w_files w1) Hos ltac:(lia) ltac:(lia))
    as (fs2 & H2 & _ & Hkeep).
  destruct (openLog_ready os SECOND_LOG 3 5000 LOG_INFO new_CBoostLog (w_files w1) Hos eq_refl)
    as (_ & Hp2 & Hr2 & Hq2 & _).
  set (w2 := opened os SECOND_LOG _ _ _ _ _) in *.
  assert (Hne : forall i, LOG_BASE <> log_name SECOND_LOG i) by (by intros [|i]).
  split; [split|split].
  - apply (fits_rebase _ _ _ _ _ _ _ _ _ _ H1); [|done]. cbn.
    change (opened os SECOND_LOG 3 5000 LOG_INFO new_CBoostLog (w_files (fixture_open os fs))) with w2.
    rewrite (fit_others _ _ _ _ _ _ _ _ H2) by apply (Hne 0%nat). by apply Hkeep.
  - by apply (fits_rebase _ _ _ _ _ _ _ _ _ _ H2).
  - done.
  - split_and!; [exact Hp1|exact Hr1|]. change (w_log ws.1) with (w_log w1). by rewrite Hq1.
  - split_and!; [exact Hp2|exact Hr2|]. change (w_log ws.2) with (w_log w2). by rewrite Hq2.
Qed.

Lemma fits_ready fs0 level n max name l fs ls : fits fs0 level n max name l fs ls -> log_ready l fs.
Proof. intros [Hg [= _ _ _ Hname] _ (c & Hc & _) _]. split; [done|]. rewrite Hname. by eexists. Qed.

(** A logger that is stopped and joined has its lines in its file. *)
Lemma two_stop os k (b : bool) ws ls1 ls2 :
  permissive os -> two_fit ws ls1 ls2 -> live (if b then ws.2 else ws.1) k ->
  exists ws', two_run os (pair b <$> EvLogStop :: replicate (2 + k) EvWriter) ws = Some ws' /\
    two_fit ws' ls1 ls2 /\ drained (if b then ws'.2 else ws'.1) /\
    w_files ws'.2 !! (if b then SECOND_LOG else LOG_BASE) = Some (text_lines (if b then ls2 else ls1)) /\
    (if b then w_pc ws'.1 = w_pc ws.1 /\ w_log ws'.1 = w_log ws.1
     else w_pc ws'.2 = w_pc ws.2 /\ w_log ws'.2 = w_log ws.2).
Proof.
  intros Hos Hf (Hp & _ & Hlen).
  pose proof (calls_stop [] (2 + k)) as Hc. unfold stopped_after in Hc. cbn [app] in Hc.
  destruct (two_one os (EvLogStop :: replicate (2 + k) EvWriter) b ws ls1 ls2 Hf) as (w & Hr & Htr & Hf').
  { rewrite Hc. cbn. rewrite app_nil_r. destruct Hf as [H1 H2 _].
    destruct b; [apply (fit_size _ _ _ _ _ _ _ _ H2)|apply (fit_size _ _ _ _ _ _ _ _ H1)]. }
  rewrite Hc in Hf'. cbn [accepted_lines omap list_omap] in Hf'. rewrite !app_nil_r in Hf'.
  destruct (stop_drains os (2 + k) (if b then ws.2 else ws.1) Hos) as (w' & Hr' & Hd); [|done|lia|].
  { destruct Hf as [H1 H2 _]. destruct b; by eapply fits_ready. }
  rewrite Hr in Hr'. injection Hr' as <-.
  eexists. split; [exact Htr|]. split; [by destruct b|].
  assert (Hwhole : forall fs0 name l fs ls, fits fs0 LOG_INFO 3 5000 name l fs ls ->
    m_queue (m_msgQueue l) = [] -> fs !! name = Some (text_lines ls)).
  { intros fs0 name l fs ls [_ _ _ (c & Hcc & Ht) _] Hq. unfold lines, queued in Ht. rewrite Hq in Ht. cbn in Ht.
    rewrite app_nil_r in Ht. by rewrite Hcc, Ht. }
  destruct Hf' as [H1 H2 _], Hd as [Hpc Hq].
  destruct b; cbn in *; (split; [by split|]); (split; [by eapply Hwhole|done]).
Qed.

(** [multipleLoggers] passes: each log has the messages given to it. *)
Lemma multipleLoggers_passes os fs nows es :
  permissive os -> Forall stamp nows -> length nows = 4%nat ->
  forallb (fun e => before_stop e.2) es = true -> two_calls es = multipleLoggers_calls nows ->
  exists ws m1 m2, two_run os (two_stopped (2 + length es) es) (multipleLoggers_open os fs) = Some ws /\
    drained ws.1 /\ drained ws.2 /\
    lastLine 3 LOG_BASE (w_files ws.2) = Some m1 /\ message_check "this is a log message" m1 = true /\
    lastLine 3 SECOND_LOG (w_files ws.2) = Some m2 /\
    message_check "this message goes to the second log" m2 = true.
Proof.
  intros Hos Hn Hlen He Hc.
  destruct nows as [|n1 [|n2 [|n3 [|n4 [|]]]]]; try done. rewrite !Forall_cons in Hn.
  destruct Hn as (H1 & H2 & H3 & H4 & _).
  set (ls1 := [log_line n1 (text_of "this is a log message"); log_line n3 (text_of "this is a log message")]).
  set (ls2 := [log_line n2 (text_of "this message goes to the second log");
               log_line n4 (text_of "this message goes to the second log")]).
  assert (Hls : new_lines false es = ls1 /\ new_lines true es = ls2)
    by (unfold new_lines; by rewrite !calls_events_of, Hc).
  destruct Hls as [Hls1 Hls2].
  assert (Hr1 : Forall readable ls1) by (constructor; [|constructor; [|done]]; by apply simple_readable).
  assert (Hr2 : Forall readable ls2) by (constructor; [|constructor; [|done]]; by apply simple_readable).
  destruct (multipleLoggers_open_fit os fs Hos) as (Hf0 & Hl1 & Hl2).
  destruct (two_before os es _ [] [] 0 He Hf0 Hl1 Hl2) as (ws1 & Hx1 & Hf1 & Hl1' & Hl2');
    rewrite ?Hls1, ?Hls2 in *.
  { unfold small. cbn [app]. pose proof (readable_size _ Hr1) as Hz. change (length ls1) with 2%nat in Hz. lia. }
  { unfold small. cbn [app]. pose proof (readable_size _ Hr2) as Hz. change (length ls2) with 2%nat in Hz. lia. }
  cbn [app plus] in Hf1, Hl1', Hl2'.
  destruct (two_stop os (length es) false ws1 ls1 ls2 Hos Hf1 Hl1') as (ws2 & Hx2 & Hf2 & Hd1 & Hfile1 & Hp & Hlog).
  destruct (two_stop os (length es) true ws2 ls1 ls2 Hos Hf2) as (ws3 & Hx3 & Hf3 & Hd2 & Hfile2 & Hp1 & Hlog1).
  { destruct Hl2' as (? & ? & ?). unfold live. by rewrite Hp, Hlog. }
  assert (Hd3 : drained ws3.1) by (unfold drained; rewrite Hp1, Hlog1; exact Hd1).
  assert (Hfile3 : w_files ws3.2 !! LOG_BASE = Some (text_lines ls1)).
  { destruct Hf3 as [[_ _ _ (c & Hcc & Ht) _] _ Hsame]. rewrite <- Hsame, Hcc. f_equal.
    unfold lines, queued in Ht. rewrite (proj2 Hd3) in Ht. cbn in Ht. by rewrite app_nil_r in Ht. }
  exists ws3, (log_line n3 (text_of "this is a log message")),
    (log_line n4 (text_of "this message goes to the second log")).
  assert (Hcheck : forall now msg, stamp now -> simple (text_of msg) = true ->
    message_check msg (log_line now (text_of msg)) = true).
  { intros now msg Hs Hm. apply simple_spec in Hm as (_ & _ & Hm). unfold message_check.
    rewrite split_line by (done || by apply stamp_no_comma). by apply bool_decide_eq_true_2. }
  split_and!; [|done|done| | | |]; try (by apply Hcheck).
  - unfold two_stopped. rewrite !two_run_app, Hx1. cbn [mbind option_bind]. rewrite two_run_app, Hx2. exact Hx3.
  - unfold lastLine. rewrite Hfile3. exact (lastLine_lines ls1 [] Hr1).
  - unfold lastLine. rewrite Hfile2. exact (lastLine_lines ls2 [] Hr2).
Qed.

(** A stamp as [ptime] prints it. *)
Example stamp_sample : stamp (text_of "2010-Jan-02 03:04:05.678901").
Proof.
  split; [|split; [eexists _, _; split; [reflexivity|split; by apply Nat.leb_le]|by apply Nat.leb_le]].
  repeat constructor; done.
Qed.
