(* ===== verification/MuxMessage.v ===== *)
(** * Mux messages ([serial_mux/MuxMessageParser.h], [MuxMessageParser.cpp])

    Messages from the clients ([CMuxMessage]), messages to the clients
    ([CMuxOutput]) and the incremental parser of the client stream
    ([CMuxParser]), which reports messages through [ICommandCallback]. *)

From Stdlib Require Import ZArith Lia.
From stdpp Require Import base list.
From S2P Require Import Prelude.
#[local] Open Scope Z_scope.

Definition MAGIC_TOKEN : list Z := [0xa7; 0x40; 0xa0; 0xf5].

(** A 16-bit value, most significant byte first. *)
Definition be16 (v : Z) : list Z := [Z.shiftr (Z.land v 0xFF00) 8; Z.land v 0xFF].

(** ** Messages *)

Record CMuxMessage := { m_data : list Z; m_type : Z; m_id : Z }.

#[export] Instance CMuxMessage_eq_dec : EqDecision CMuxMessage.
Proof. solve_decision. Defined.

(** [CMuxMessage()] *)
Definition empty_message : CMuxMessage := {| m_data := []; m_type := 0; m_id := 0 |}.

(** [CMuxMessage(uint8_t inType, const ByteVector& inData)] *)
Definition typed_message (inType : Z) (inData : list Z) : CMuxMessage :=
  {| m_data := inData; m_type := inType; m_id := 0 |}.

(** [CMuxMessage(const ByteVector& data)] *)
Definition parse_message (data : list Z) : CMuxMessage :=
  match data with
  | d0 :: d1 :: d2 :: rest =>
      {| m_data := rest; m_type := d2; m_id := Z.lor (u16 (Z.shiftl d0 8)) d1 |}
  | _ => empty_message
  end.

(** [size()]: a [uint16_t]. *)
Definition message_size (m : CMuxMessage) : Z := u16 (Z.of_nat (length (m_data m))).

(** [CMuxMessage::serialize] *)
Definition serialize_message (m : CMuxMessage) : list Z :=
  let len := u16 (Z.of_nat (length (m_data m)) + 3) in
  MAGIC_TOKEN ++ be16 len ++ be16 (m_id m) ++ [m_type m] ++ m_data m.

(** ** Output *)

Record CMuxOutput := { out_data : list Z }.

Definition new_CMuxOutput (cmdType id prefix : Z) (payload : list Z) : CMuxOutput :=
  {| out_data := be16 id ++ [cmdType; prefix] ++ payload |}.

(** [CMuxOutput::serialize] *)
Definition serialize_output (o : CMuxOutput) : list Z :=
  let len := u16 (Z.of_nat (length (out_data o))) in
  MAGIC_TOKEN ++ be16 len ++ out_data o.

(** ** Parser *)

Class ICommandCallback (H : Type) := handleCommand : H -> CMuxMessage -> outcome H.

(** [std::search]: the position of the first occurrence, the length if none. *)
Fixpoint starts_with (pat l : list Z) : bool :=
  match pat, l with
  | [], _ => true
  | p :: pat, x :: l => (p =? x) && starts_with pat l
  | _ :: _, [] => false
  end.

Fixpoint search (l pat : list Z) : nat :=
  if starts_with pat l then 0%nat
  else match l with [] => 0%nat | _ :: l => S (search l pat) end.

Record CMuxParser := { parser_handler : bool; m_partialInput : list Z }.

Definition COMMAND_SIZE : nat := 128.

(** The constructor sizes the input buffer, so it starts with 128 zeros. *)
Definition new_CMuxParser (handler : bool) : CMuxParser :=
  {| parser_handler := handler; m_partialInput := replicate COMMAND_SIZE 0 |}.

Definition set_input (v : list Z) (p : CMuxParser) : CMuxParser :=
  {| parser_handler := parser_handler p; m_partialInput := v |}.

Section parser.
Context {H : Type} `{ICommandCallback H}.

Definition parser_callback (p : CMuxParser) (h : H) (command : list Z) : outcome H :=
  if parser_handler p then handleCommand h (parse_message command) else Ok h.

(** [CMuxParser::parse]; the result says whether a command was found. *)
Definition parse (s : CMuxParser * H) : outcome (bool * (CMuxParser * H)) :=
  let '(p, h) := s in
  let input := m_partialInput p in
  let iter := search input MAGIC_TOKEN in
  if (iter =? length input)%nat then
    if (3 <? length input)%nat
    then Ok (false, (set_input (drop (length input - 3) input) p, h))
    else Ok (false, (p, h))
  else
    let iter := (iter + 4)%nat in
    if (length input - iter <? 2)%nat then Ok (false, (p, h))
    else
      b1 ← vat input iter;
      b2 ← vat input (iter + 1);
      let expectedLength := Z.to_nat (b1 * 256 + b2) in
      let iter := (iter + 2)%nat in
      let remaining := (length input - iter)%nat in
      if (expectedLength <=? remaining)%nat then
        let cmdData := take expectedLength (drop iter input) in
        h ← parser_callback p h cmdData;
        Ok (true, (set_input (drop (iter + expectedLength) input) p, h))
      else Ok (false, (p, h)).

(** [while (parse()) ;] *)
Fixpoint parse_loop (fuel : nat) (s : CMuxParser * H) : outcome (CMuxParser * H) :=
  match fuel with
  | O => Ok s
  | S fuel =>
      '(found, s) ← parse s;
      if (found : bool) then parse_loop fuel s else Ok s
  end.

(** [CMuxParser::read] *)
Definition parser_read (s : CMuxParser * H) (input : list Z) : outcome (CMuxParser * H) :=
  let '(p, h) := s in
  let p := set_input (m_partialInput p ++ input) p in
  parse_loop (S (length (m_partialInput p))) (p, h).

Definition read_all (s : CMuxParser * H) (chunks : list (list Z)) :
  outcome (CMuxParser * H) := foldM parser_read s chunks.
End parser.

(** ** One command of a buffer, as a pure function *)

Definition token_free (l : list Z) : Prop := search l MAGIC_TOKEN = length l.

Definition next_command (input : list Z) : option (list Z * list Z) :=
  let iter := search input MAGIC_TOKEN in
  if (iter =? length input)%nat then None
  else match drop (iter + 4) input with
       | b1 :: b2 :: body =>
           let n := Z.to_nat (b1 * 256 + b2) in
           if (n <=? length body)%nat then Some (take n body, drop n body) else None
       | _ => None
       end.

Definition trim (input : list Z) : list Z :=
  if (search input MAGIC_TOKEN =? length input)%nat && (3 <? length input)%nat
  then drop (length input - 3) input else input.

Inductive commands : list Z -> list (list Z) -> list Z -> Prop :=
  | commands_done input : next_command input = None -> commands input [] input
  | commands_next input c rest cs last :
      next_command input = Some (c, rest) -> commands rest cs last ->
      commands input (c :: cs) last.

(** *** Search *)

Lemma search_nil_token l : token_free [] -> search (@nil Z) l = 0%nat.
Proof. by destruct l. Qed.

Lemma search_le l pat : (search l pat <= length l)%nat.
Proof. induction l as [|x l IH]; cbn; destruct (starts_with pat _); lia. Qed.

Lemma token_free_cons x l :
  token_free (x :: l) <-> starts_with MAGIC_TOKEN (x :: l) = false /\ token_free l.
Proof.
  unfold token_free. cbn [search length].
  destruct (starts_with MAGIC_TOKEN (x :: l)); split; [lia|by intros [? _]| |].
  - intros ?. split; [done|lia].
  - intros [_ ->]. done.
Qed.

Lemma starts_with_token l :
  starts_with MAGIC_TOKEN l = true <-> exists r, l = MAGIC_TOKEN ++ r.
Proof.
  split.
  - intros Hs. do 4 (destruct l as [|? l]; [by cbn in Hs; rewrite ?andb_false_r in Hs|]).
    unfold MAGIC_TOKEN in Hs. cbn [starts_with] in Hs. rewrite !andb_true_iff, !Z.eqb_eq in Hs.
    destruct Hs as (<- & <- & <- & <- & _). by exists l.
  - intros [r ->]. done.
Qed.

(** Extending the text keeps an occurrence and cannot create one at the front
    of four or more bytes. *)
Lemma starts_with_app l r :
  (4 <= length l)%nat -> starts_with MAGIC_TOKEN (l ++ r) = starts_with MAGIC_TOKEN l.
Proof. intros Hl. do 4 (destruct l as [|? l]; [cbn in Hl; lia|]). done. Qed.

(** What is found is the token. *)
Lemma search_found l :
  (search l MAGIC_TOKEN < length l)%nat ->
  exists g r, l = g ++ MAGIC_TOKEN ++ r /\ length g = search l MAGIC_TOKEN.
Proof.
  induction l as [|x l IH]; [cbn; lia|]. cbn [search length]. intros Hlt.
  destruct (starts_with MAGIC_TOKEN (x :: l)) eqn:Hs.
  - apply starts_with_token in Hs as [r ->]. by exists [], r.
  - destruct IH as (g & r & -> & Hg); [lia|]. exists (x :: g), r. cbn. by rewrite Hg.
Qed.

Lemma search_app l r :
  (search l MAGIC_TOKEN < length l)%nat -> search (l ++ r) MAGIC_TOKEN = search l MAGIC_TOKEN.
Proof.
  induction l as [|x l IH]; [cbn; lia|]. cbn [search length app]. intros Hlt.
  destruct (starts_with MAGIC_TOKEN (x :: l)) eqn:Hs.
  - apply starts_with_token in Hs as [r' Heq].
    by rewrite app_comm_cons, Heq, <- (assoc_L app).
  - assert (Hl : (search l MAGIC_TOKEN < length l)%nat) by lia. specialize (IH Hl).
    assert (Hlen : (4 <= length (x :: l))%nat).
    { destruct (search_found l Hl) as (g & r' & -> & _). cbn. rewrite length_app. cbn. lia. }
    rewrite app_comm_cons, starts_with_app, Hs by done. by rewrite IH.
Qed.

(** A token-free prefix of which no byte starts an occurrence is skipped. *)
Lemma search_skip g y :
  (forall k, (k < length g)%nat -> starts_with MAGIC_TOKEN (drop k (g ++ y)) = false) ->
  search (g ++ y) MAGIC_TOKEN = (length g + search y MAGIC_TOKEN)%nat.
Proof.
  induction g as [|x g IH]; intros Hg; [done|]. cbn [app search length].
  pose proof (Hg 0%nat ltac:(cbn; lia)) as H0. cbn [drop app] in H0. rewrite H0.
  cbn [Nat.add]. f_equal. apply IH.
  intros k Hk. apply (Hg (S k)). cbn. lia.
Qed.

Lemma token_free_drop l k : token_free l -> token_free (drop k l).
Proof.
  revert k; induction l as [|x l IH]; intros k Hl; [by destruct k|].
  destruct k as [|k]; [done|]. apply token_free_cons in Hl as [_ Hl]. by apply IH.
Qed.

Lemma token_free_starts l k :
  token_free l -> starts_with MAGIC_TOKEN (drop k l) = false.
Proof.
  intros Hl. apply (token_free_drop l k) in Hl. destruct (drop k l) as [|x m]; [done|].
  by apply token_free_cons in Hl as [? _].
Qed.

(** The token overlaps itself nowhere: a token-free text followed by the token
    has its first occurrence there. *)
Lemma search_token g y :
  token_free g -> search (g ++ MAGIC_TOKEN ++ y) MAGIC_TOKEN = length g.
Proof.
  intros Hg. rewrite search_skip; [by rewrite Nat.add_0_r|]. intros k Hk.
  rewrite drop_app_le by lia. apply (token_free_starts g k) in Hg.
  destruct (drop k g) as [|a [|b [|c [|d m]]]] eqn:Hd.
  1: { apply (f_equal length) in Hd. rewrite length_drop in Hd. cbn in Hd. lia. }
  all: cbn in Hg |- *; by rewrite ?andb_false_r.
Qed.

(** Trimming keeps what a future occurrence can need. *)
Lemma trim_spec l : exists g, l = g ++ trim l /\
  forall y k, (k < length g)%nat -> starts_with MAGIC_TOKEN (drop k (l ++ y)) = false.
Proof.
  unfold trim. destruct (Nat.eqb_spec (search l MAGIC_TOKEN) (length l)) as [Hs|Hs];
    [|exists []; split; [done|cbn; lia]].
  destruct (Nat.ltb_spec 3 (length l)) as [Hl|Hl]; cbn [andb];
    [|exists []; split; [done|cbn; lia]].
  exists (take (length l - 3) l). split; [by rewrite take_drop|].
  intros y k Hk. rewrite length_take in Hk. rewrite drop_app_le by lia.
  rewrite starts_with_app by (rewrite length_drop; lia). by apply token_free_starts.
Qed.

(** *** Commands *)

Lemma next_command_app l c rest x :
  next_command l = Some (c, rest) -> next_command (l ++ x) = Some (c, rest ++ x).
Proof.
  unfold next_command. destruct (Nat.eqb_spec (search l MAGIC_TOKEN) (length l)) as [|Hne]; [done|].
  pose proof (search_le l MAGIC_TOKEN) as Hle.
  assert (Hlt : (search l MAGIC_TOKEN < length l)%nat) by lia.
  rewrite search_app by done. destruct (Nat.eqb_spec (search l MAGIC_TOKEN) (length (l ++ x)))
    as [Heq|_]; [rewrite length_app in Heq; lia|].
  destruct (search_found l Hlt) as (g & r & Hl & Hg).
  assert (Hlen : (search l MAGIC_TOKEN + 4 <= length l)%nat).
  { apply (f_equal length) in Hl. rewrite !length_app in Hl. cbn in Hl. lia. }
  rewrite drop_app_le by done.
  destruct (drop _ l) as [|b1 [|b2 body]]; try done. cbn [app].
  destruct (Nat.leb_spec (Z.to_nat (b1 * 256 + b2)) (length body)) as [Hb|]; [|done].
  intros [= <- <-]. rewrite (proj2 (Nat.leb_le _ _)) by (rewrite length_app; lia).
  by rewrite take_app_le, drop_app_le.
Qed.

Lemma next_command_skip g y :
  (forall k, (k < length g)%nat -> starts_with MAGIC_TOKEN (drop k (g ++ y)) = false) ->
  next_command (g ++ y) = next_command y.
Proof.
  intros Hg. unfold next_command. rewrite search_skip by done. rewrite length_app.
  replace (length g + search y MAGIC_TOKEN =? length g + length y)%nat
    with (search y MAGIC_TOKEN =? length y)%nat
    by (destruct (Nat.eqb_spec (search y MAGIC_TOKEN) (length y)); symmetry;
        [apply Nat.eqb_eq | apply Nat.eqb_neq]; lia).
  destruct (_ =? _)%nat; [done|].
  by rewrite <- Nat.add_assoc, drop_app_add.
Qed.

Lemma next_command_shrinks l c rest :
  next_command l = Some (c, rest) -> (length rest + 6 <= length l)%nat.
Proof.
  unfold next_command. destruct (_ =? _)%nat; [done|].
  destruct (drop _ l) as [|b1 [|b2 body]] eqn:Hd; try done.
  destruct (_ <=? _)%nat; [|done]. intros [= <- <-].
  apply (f_equal length) in Hd. rewrite length_drop in *. cbn in Hd. lia.
Qed.

Lemma next_command_trim l : next_command l = None -> next_command (trim l) = None.
Proof.
  destruct (trim_spec l) as (g & Hl & Hg). intros Hn. rewrite Hl in Hn.
  rewrite next_command_skip in Hn; [done|]. intros k Hk.
  specialize (Hg [] k Hk). by rewrite app_nil_r, Hl in Hg.
Qed.

Lemma commands_total l : exists cs last, commands l cs last.
Proof.
  induction l as [l IH] using (induction_ltof1 _ length). unfold ltof in IH.
  destruct (next_command l) as [[c rest]|] eqn:Hn.
  - destruct (IH rest) as (cs & last & Hc).
    { pose proof (next_command_shrinks _ _ _ Hn). lia. }
    exists (c :: cs), last. by eapply commands_next.
  - exists [], l. by apply commands_done.
Qed.

Lemma commands_det l cs1 r1 cs2 r2 :
  commands l cs1 r1 -> commands l cs2 r2 -> cs1 = cs2 /\ r1 = r2.
Proof.
  intros H1. revert cs2 r2. induction H1 as [l Hn|l c rest cs r Hn _ IH];
    intros cs2 r2 H2; inversion H2; subst; try congruence; [done|].
  assert (c0 = c /\ rest0 = rest) as [-> ->] by (split; congruence).
  by edestruct IH as [-> ->].
Qed.

Lemma commands_app l x cs r cs' r' :
  commands l cs r -> commands (r ++ x) cs' r' -> commands (l ++ x) (cs ++ cs') r'.
Proof.
  induction 1 as [l Hn|l c rest cs r Hn _ IH]; intros Hr; [done|].
  cbn. eapply commands_next; [by apply next_command_app|]. by apply IH.
Qed.

Lemma commands_skip g y cs r :
  (forall k, (k < length g)%nat -> starts_with MAGIC_TOKEN (drop k (g ++ y)) = false) ->
  commands y cs r -> exists r', commands (g ++ y) cs r'.
Proof.
  intros Hg Hc. destruct Hc as [y Hn|y c rest cs r Hn Hc].
  - exists (g ++ y). apply commands_done. by rewrite next_command_skip.
  - exists r. eapply commands_next; [|exact Hc]. by rewrite next_command_skip.
Qed.

Lemma commands_trim l x cs r :
  commands (trim l ++ x) cs r -> exists r', commands (l ++ x) cs r'.
Proof.
  destruct (trim_spec l) as (g & Hl & Hg). intros Hc.
  destruct (commands_skip g (trim l ++ x) cs r) as [r' Hr']; [|done|].
  - intros k Hk. rewrite (assoc_L app), <- Hl. by apply Hg.
  - exists r'. by rewrite (assoc_L app), <- Hl in Hr'.
Qed.

Lemma commands_last l cs r : commands l cs r -> next_command r = None.
Proof. by induction 1. Qed.

(** ** The parser computes the commands of its buffer *)
Section parser_facts.
Context {H : Type} `{ICommandCallback H}.

Definition deliver (h : H) (cs : list (list Z)) : outcome H :=
  foldM (fun h c => handleCommand h (parse_message c)) h cs.

Lemma set_input_id p : set_input (m_partialInput p) p = p.
Proof. by destruct p. Qed.

Lemma parse_next p (h : H) :
  parse (p, h) =
  match next_command (m_partialInput p) with
  | Some (c, rest) =>
      h ← parser_callback p h c; Ok (true, (set_input rest p, h))
  | None => Ok (false, (set_input (trim (m_partialInput p)) p, h))
  end.
Proof.
  unfold parse, next_command, trim. set (l := m_partialInput p).
  destruct (Nat.eqb_spec (search l MAGIC_TOKEN) (length l)) as [Hs|Hs]; cbn [andb].
  { destruct (3 <? length l)%nat; [done|]. unfold l. by rewrite set_input_id. }
  replace (set_input l p) with p by (unfold l; by rewrite set_input_id).
  set (i := (search l MAGIC_TOKEN + 4)%nat).
  destruct (drop i l) as [|b1 [|b2 body]] eqn:Hd; pose proof (f_equal length Hd) as Hlen;
    rewrite length_drop in Hlen; cbn in Hlen.
  1,2: by rewrite (proj2 (Nat.ltb_lt _ _)) by lia.
  rewrite (proj2 (Nat.ltb_ge _ _)) by lia.
  assert (Hl : l = take i l ++ b1 :: b2 :: body) by (by rewrite <- Hd, take_drop).
  assert (Hi : length (take i l) = i) by (rewrite length_take; lia).
  rewrite (vat_Ok l i b1), (vat_Ok l (i + 1) b2).
  2: { rewrite Hl, lookup_app_r by lia. by rewrite Hi, Nat.add_comm, Nat.add_sub. }
  2: { rewrite Hl, lookup_app_r by lia. by rewrite Hi, Nat.sub_diag. }
  step_bind. replace (length l - (i + 2))%nat with (length body) by lia.
  assert (Hd2 : forall n, drop (i + 2 + n) l = drop n body).
  { intros n. by rewrite <- !drop_drop, Hd. }
  destruct (_ <=? length body)%nat; [|done].
  pose proof (Hd2 0%nat) as Hd0. rewrite Nat.add_0_r in Hd0. rewrite Hd0, Hd2.
  by rewrite drop_0.
Qed.

Lemma parse_loop_commands fuel p (h : H) cs last :
  parser_handler p = true -> (length (m_partialInput p) < fuel)%nat ->
  commands (m_partialInput p) cs last ->
  parse_loop fuel (p, h) = (h ← deliver h cs; Ok (set_input (trim last) p, h)).
Proof.
  intros Hp. revert p h cs Hp. induction fuel as [|fuel IH]; intros p h cs Hp Hf Hc; [lia|].
  cbn [parse_loop]. rewrite parse_next. inversion Hc as [? Hn|? c rest cs' ? Hn Hc']; subst;
    rewrite Hn; [done|].
  unfold parser_callback. rewrite Hp. unfold deliver. cbn [foldM].
  destruct (handleCommand h (parse_message c)) as [h'|why]; [|done]. step_bind.
  apply (IH (set_input rest p) h' cs'); [done| |done]. cbn.
  apply next_command_shrinks in Hn. lia.
Qed.

Lemma parser_read_commands p (h : H) input cs last :
  parser_handler p = true -> commands (m_partialInput p ++ input) cs last ->
  parser_read (p, h) input = (h ← deliver h cs; Ok (set_input (trim last) p, h)).
Proof.
  intros Hp Hc. unfold parser_read.
  apply (parse_loop_commands _ (set_input (m_partialInput p ++ input) p)); [done| |done].
  cbn. lia.
Qed.

Lemma deliver_app (h : H) cs1 cs2 :
  deliver h (cs1 ++ cs2) = (h ← deliver h cs1; deliver h cs2).
Proof. apply foldM_app. Qed.

Lemma read_all_commands chunks p (h : H) cs last :
  parser_handler p = true -> next_command (m_partialInput p) = None ->
  commands (m_partialInput p ++ concat chunks) cs last ->
  exists input, read_all (p, h) chunks = (h ← deliver h cs; Ok (set_input input p, h)).
Proof.
  revert p h cs last. induction chunks as [|chunk chunks IH]; intros p h cs last Hp Hn Hc.
  - cbn in Hc. rewrite app_nil_r in Hc. exists (m_partialInput p).
    inversion Hc; subst; [|congruence]. cbn. by rewrite set_input_id.
  - destruct (commands_total (m_partialInput p ++ chunk)) as (cs1 & r1 & Hc1).
    destruct (commands_total (trim r1 ++ concat chunks)) as (cs2 & r2 & Hc2).
    destruct (commands_trim _ _ _ _ Hc2) as [r2' Hc2'].
    pose proof (commands_app _ _ _ _ _ _ Hc1 Hc2') as Hc12. cbn [concat] in Hc.
    rewrite <- (assoc_L app) in Hc12. destruct (commands_det _ _ _ _ _ Hc Hc12) as [-> _].
    unfold read_all. cbn [foldM]. rewrite (parser_read_commands _ _ _ _ _ Hp Hc1).
    rewrite bind_assoc, deliver_app.
    destruct (deliver h cs1) as [h1|why]; [|by exists []]. step_bind.
    apply (IH (set_input (trim r1) p) h1 cs2 r2); [done| |done].
    apply next_command_trim. by eapply commands_last.
Qed.
End parser_facts.

(** ** Wire form *)

Lemma be16_bytes v : is_u16 v -> be16 v = [v / 256; v mod 256].
Proof.
  intros Hv. unfold be16. rewrite Z.shiftr_land. change (Z.shiftr 0xFF00 8) with 255.
  rewrite !land_255, (u8_small (Z.shiftr v 8)) by (by apply shiftr8_u8).
  by rewrite Z.shiftr_div_pow2 by lia.
Qed.

Lemma be16_combine v : is_u16 v -> Z.lor (u16 (Z.shiftl (v / 256) 8)) (v mod 256) = v.
Proof.
  intros Hv. change 256 with (2 ^ 8). rewrite <- Z.shiftr_div_pow2 by lia.
  rewrite u16_small.
  - apply Z.bits_inj'. intros i Hi. rewrite Z.lor_spec. destruct (decide (i < 8)).
    + by rewrite Z.shiftl_spec_low, Z.mod_pow2_bits_low by lia.
    + rewrite Z.shiftl_spec, Z.shiftr_spec, Z.mod_pow2_bits_high, orb_false_r by lia.
      f_equal. lia.
  - apply shiftr8_u8 in Hv. rewrite Z.shiftl_mul_pow2 by lia. word_range.
Qed.

Lemma be16_length v : length (be16 v) = 2%nat.
Proof. done. Qed.

(** The length-prefixed part of a message. *)
Definition body (m : CMuxMessage) : list Z := be16 (m_id m) ++ [m_type m] ++ m_data m.

Definition message_ok (m : CMuxMessage) : Prop :=
  is_u16 (m_id m) /\ Z.of_nat (length (m_data m)) + 3 < 65536.

#[export] Instance message_ok_dec m : Decision (message_ok m).
Proof. unfold message_ok; apply _. Defined.

Lemma body_length m : length (body m) = (length (m_data m) + 3)%nat.
Proof. unfold body. rewrite !length_app. cbn. lia. Qed.

Lemma parse_message_body m : message_ok m -> parse_message (body m) = m.
Proof.
  intros [Hid _]. unfold body. rewrite be16_bytes by done. cbn [app parse_message].
  rewrite be16_combine by done. by destruct m.
Qed.

Lemma serialize_message_frame m :
  message_ok m ->
  serialize_message m = MAGIC_TOKEN ++ be16 (Z.of_nat (length (body m))) ++ body m.
Proof.
  intros [_ Hlen]. unfold serialize_message. rewrite body_length, u16_small by word_range.
  by rewrite Nat2Z.inj_add.
Qed.

Lemma next_command_frame g b rest :
  token_free g -> Z.of_nat (length b) < 65536 ->
  next_command (g ++ MAGIC_TOKEN ++ be16 (Z.of_nat (length b)) ++ b ++ rest) = Some (b, rest).
Proof.
  intros Hg Hb. unfold next_command. rewrite search_token by done.
  rewrite (proj2 (Nat.eqb_neq _ _)) by (rewrite !length_app; cbn; lia).
  rewrite drop_app_add. change (drop 4 (MAGIC_TOKEN ++ ?l)) with l.
  rewrite be16_bytes by word_range. cbn [app drop MAGIC_TOKEN].
  replace (Z.of_nat (length b) / 256 * 256 + Z.of_nat (length b) mod 256)
    with (Z.of_nat (length b)) by (rewrite Z.mul_comm; apply Z.div_mod; lia).
  rewrite Nat2Z.id, (proj2 (Nat.leb_le _ _)) by (rewrite length_app; lia).
  by rewrite take_app_length, drop_app_length.
Qed.

(** A stream of messages, each after some noise. *)
Definition noisy (l : list (list Z * CMuxMessage)) : list Z :=
  concat ((fun gm => gm.1 ++ serialize_message gm.2) <$> l).

Definition noisy_ok (gm : list Z * CMuxMessage) : Prop :=
  token_free gm.1 /\ message_ok gm.2.

Lemma commands_noisy l :
  Forall noisy_ok l -> commands (noisy l) (body <$> l.*2) [].
Proof.
  unfold noisy. induction 1 as [|[g m] l [Hg Hm] _ IH]; [by apply commands_done|].
  eapply (commands_next _ (body m) (concat ((fun gm => gm.1 ++ serialize_message gm.2) <$> l)));
    [|exact IH].
  cbn [fmap list_fmap concat fst snd] in *.
  rewrite serialize_message_frame, <- !(assoc_L app) by done.
  apply next_command_frame; [done|]. destruct Hm as [_ Hlen]. rewrite body_length. lia.
Qed.

Lemma zeros_no_token n y k :
  (k < n)%nat -> starts_with MAGIC_TOKEN (drop k (replicate n 0 ++ y)) = false.
Proof.
  intros Hk. rewrite drop_app_le by (rewrite length_replicate; lia).
  rewrite drop_replicate. by destruct (n - k)%nat eqn:Hn; [lia|].
Qed.

(** The zeros a new parser starts with are never part of a command. *)
Lemma commands_new_parser s cs last :
  commands s cs last -> exists last', commands (m_partialInput (new_CMuxParser true) ++ s) cs last'.
Proof.
  apply commands_skip. intros k Hk. cbn [m_partialInput new_CMuxParser] in *.
  rewrite length_replicate in Hk. by apply zeros_no_token.
Qed.

Lemma next_command_new_parser : next_command (m_partialInput (new_CMuxParser true)) = None.
Proof. reflexivity. Qed.

Lemma read_all_new {H} `{ICommandCallback H} (h : H) chunks cs last :
  commands (concat chunks) cs last ->
  exists input, read_all (new_CMuxParser true, h) chunks
    = (h ← deliver h cs; Ok (set_input input (new_CMuxParser true), h)).
Proof.
  intros Hc. destruct (commands_new_parser _ _ _ Hc) as [last' Hc'].
  by eapply read_all_commands.
Qed.

Lemma deliver_bodies {H} `{ICommandCallback H} (h : H) ms :
  Forall message_ok ms -> deliver h (body <$> ms) = foldM handleCommand h ms.
Proof.
  intros Hms. revert h. unfold deliver.
  induction Hms as [|m ms Hm _ IH]; intros h; [done|].
  cbn [fmap list_fmap foldM]. rewrite parse_message_body by done.
  destruct (handleCommand h m); [apply IH|done].
Qed.

Lemma trim_idemp l : trim (trim l) = trim l.
Proof.
  unfold trim at 2 3. destruct (_ && _) eqn:Hc; unfold trim; [|by rewrite Hc].
  apply andb_true_iff in Hc as [_ Hl]. apply Nat.ltb_lt in Hl. rewrite length_drop.
  rewrite (proj2 (Nat.ltb_ge _ _)) by lia. by rewrite andb_false_r.
Qed.

Lemma parse_loop_fuel {H} `{ICommandCallback H} fuel1 fuel2 p (h : H) :
  (length (m_partialInput p) < fuel1)%nat -> (length (m_partialInput p) < fuel2)%nat ->
  parse_loop fuel1 (p, h) = parse_loop fuel2 (p, h).
Proof.
  revert fuel2 p h. induction fuel1 as [|fuel1 IH]; intros [|fuel2] p h H1 H2; try lia.
  cbn [parse_loop]. rewrite parse_next.
  destruct (next_command (m_partialInput p)) as [[c rest]|] eqn:Hn; [|done].
  apply next_command_shrinks in Hn. destruct (parser_callback p h c) as [h'|]; [|done].
  step_bind. apply IH; cbn; lia.
Qed.

Lemma parse_loop_exit {H} `{ICommandCallback H} fuel p (h : H) s' :
  (length (m_partialInput p) < fuel)%nat -> parse_loop fuel (p, h) = Ok s' ->
  parse s' = Ok (false, s').
Proof.
  revert p h. induction fuel as [|fuel IH]; intros p h Hf; [lia|].
  cbn [parse_loop]. rewrite parse_next.
  destruct (next_command (m_partialInput p)) as [[c rest]|] eqn:Hn; intros Heq.
  - destruct (parser_callback p h c) as [h'|]; [|done]. cbn in Heq.
    apply next_command_shrinks in Hn. eapply IH; [|exact Heq]. cbn. lia.
  - injection Heq as <-. rewrite parse_next. cbn [set_input m_partialInput].
    rewrite next_command_trim, trim_idemp by done. done.
Qed.

(** An invariant of the handler survives a read; if the handler is defined on
    it so is the read. *)
Lemma parser_read_invariant {H} `{ICommandCallback H} (P : H -> Prop) p h input p' h' :
  (forall h msg h', P h -> handleCommand h msg = Ok h' -> P h') ->
  P h -> parser_read (p, h) input = Ok (p', h') -> P h'.
Proof.
  intros Hstep. unfold parser_read. set (q := set_input _ p).
  generalize (S (length (m_partialInput q))) as fuel. intros fuel. clearbody q.
  revert q h. induction fuel as [|fuel IH]; intros q h HP; cbn [parse_loop].
  { by intros [= _ <-]. }
  rewrite parse_next. destruct (next_command (m_partialInput q)) as [[c rest]|];
    [|by intros [= _ <-]].
  unfold parser_callback. destruct (parser_handler q); [|by apply IH].
  destruct (handleCommand h (parse_message c)) as [h1|] eqn:Hh; [|done].
  step_bind. apply IH. by eapply Hstep.
Qed.

(** Handlers that correspond get corresponding messages. *)
Lemma parser_read_related {H1 H2} `{ICommandCallback H1} `{ICommandCallback H2} (R : H1 -> H2 -> Prop)
  p h1 h2 input p' h1' :
  (forall h1 h2 msg h1', R h1 h2 -> handleCommand h1 msg = Ok h1' ->
     exists h2', handleCommand h2 msg = Ok h2' /\ R h1' h2') ->
  R h1 h2 -> parser_read (p, h1) input = Ok (p', h1') ->
  exists h2', parser_read (p, h2) input = Ok (p', h2') /\ R h1' h2'.
Proof.
  intros Hstep. unfold parser_read. set (q := set_input _ p).
  generalize (S (length (m_partialInput q))) as fuel. intros fuel. clearbody q.
  revert q h1 h2. induction fuel as [|fuel IH]; intros q h1 h2 HR; cbn [parse_loop].
  { intros [= <- <-]. by eexists. }
  rewrite !parse_next. destruct (next_command (m_partialInput q)) as [[c rest]|];
    [|intros [= <- <-]; by eexists].
  unfold parser_callback. destruct (parser_handler q); [|by apply IH].
  destruct (handleCommand h1 (parse_message c)) as [h1''|] eqn:Hh; [|done].
  destruct (Hstep _ _ _ _ HR Hh) as (h2'' & Hh2 & HR'). rewrite Hh2. step_bind. by apply IH.
Qed.

Lemma parser_read_defined {H} `{ICommandCallback H} (P : H -> Prop) p h input :
  (forall h msg, P h -> exists h', handleCommand h msg = Ok h' /\ P h') ->
  P h -> exists p' h', parser_read (p, h) input = Ok (p', h') /\ P h'.
Proof.
  intros Hstep. unfold parser_read. set (q := set_input _ p).
  generalize (S (length (m_partialInput q))) as fuel. intros fuel. clearbody q.
  revert q h. induction fuel as [|fuel IH]; intros q h HP; cbn [parse_loop]; [by exists q, h|].
  rewrite parse_next. destruct (next_command (m_partialInput q)) as [[c rest]|]; [|by eexists _, h].
  unfold parser_callback. destruct (parser_handler q); [|by apply IH].
  destruct (Hstep h (parse_message c) HP) as (h1 & -> & HP1). step_bind. by apply IH.
Qed.

Lemma read_all_noisy {H} `{ICommandCallback H} (h : H) l chunks :
  Forall noisy_ok l -> concat chunks = noisy l ->
  exists input, read_all (new_CMuxParser true, h) chunks
    = (h' ← foldM handleCommand h (l.*2); Ok (set_input input (new_CMuxParser true), h')).
Proof.
  intros Hl Hc. rewrite <- deliver_bodies.
  - eapply read_all_new. rewrite Hc. by apply commands_noisy.
  - apply Forall_fmap. eapply Forall_impl; [exact Hl|]. by intros gm [_ ?].
Qed.

(** ** Properties *)

(** C8: message round trip over a noisy, fragmented stream.  A sequence of
    serialized messages, each preceded by any bytes that do not contain the
    magic token, and cut into reads at arbitrary places, reaches the handler as
    that sequence of messages, in order, each once. *)
Theorem parser_stream_roundtrip {H} `{ICommandCallback H} (h : H) l chunks :
  Forall noisy_ok l -> concat chunks = noisy l ->
  exists input, read_all (new_CMuxParser true, h) chunks
    = (h' ← foldM handleCommand h (l.*2); Ok (set_input input (new_CMuxParser true), h')).
Proof. apply read_all_noisy. Qed.

(** C27: the messages delivered depend only on the bytes received: two ways of
    cutting any stream, well-formed or not, into reads lead a new parser to the
    same handler state. *)
Theorem parser_fragmentation {H} `{ICommandCallback H} (h : H) chunks1 chunks2 :
  concat chunks1 = concat chunks2 ->
  (s ← read_all (new_CMuxParser true, h) chunks1; Ok s.2)
  = (s ← read_all (new_CMuxParser true, h) chunks2; Ok s.2).
Proof.
  intros Heq. destruct (commands_total (concat chunks1)) as (cs & last & Hc).
  destruct (read_all_new h chunks1 cs last Hc) as [i1 ->]. rewrite Heq in Hc.
  destruct (read_all_new h chunks2 cs last Hc) as [i2 ->].
  by destruct (deliver h cs).
Qed.

(** The parse loop of one read terminates: any fuel above the buffer length
    gives the same result, and the loop stops because [parse] returns [false],
    not because fuel ran out. *)
Lemma parse_loop_terminates {H} `{ICommandCallback H} p (h : H) input fuel :
  (length (m_partialInput p ++ input) < fuel)%nat ->
  parser_read (p, h) input = parse_loop fuel (set_input (m_partialInput p ++ input) p, h) /\
  forall s', parser_read (p, h) input = Ok s' -> parse s' = Ok (false, s').
Proof.
  intros Hf. unfold parser_read. split.
  - apply parse_loop_fuel; cbn in *; lia.
  - intros s'. apply parse_loop_exit. cbn. lia.
Qed.

(** Output round trip: what [CMuxOutput] serializes is the wire form of a
    message whose payload is the response code (or notification type) followed
    by the payload, and the peer's parser, however the bytes are cut, delivers
    exactly these messages in order. *)
Lemma output_roundtrip {H} `{ICommandCallback H} (h : H) (outs : list (Z * Z * Z * list Z)) chunks :
  let wire '(t, id, pre, payload) := serialize_output (new_CMuxOutput t id pre payload) in
  let message '(t, id, pre, payload) := {| m_data := pre :: payload; m_type := t; m_id := id |} in
  Forall (fun o => message_ok (message o)) outs -> concat chunks = concat (wire <$> outs) ->
  exists input, read_all (new_CMuxParser true, h) chunks
    = (h' ← foldM handleCommand h (message <$> outs);
       Ok (set_input input (new_CMuxParser true), h')).
Proof.
  intros wire message Hok Hc.
  assert (Hwire : forall o, wire o = serialize_message (message o)).
  { intros [[[t id] pre] payload]. unfold wire, serialize_output, serialize_message.
    cbn [message m_data m_type m_id out_data new_CMuxOutput].
    replace (Z.of_nat (length (be16 id ++ [t; pre] ++ payload)))
      with (Z.of_nat (length (pre :: payload)) + 3); [done|].
    rewrite !length_app, be16_length. cbn [length]. lia. }
  rewrite <- deliver_bodies by (by apply Forall_fmap). eapply read_all_new.
  replace (concat chunks) with (noisy ((fun o => ([], message o)) <$> outs)).
  - replace (message <$> outs) with ((fun o => (@nil Z, message o)) <$> outs).*2.
    + apply commands_noisy. apply Forall_fmap. eapply Forall_impl; [exact Hok|]. by intros o.
    + by rewrite <- list_fmap_compose.
  - rewrite Hc. unfold noisy. rewrite <- list_fmap_compose. f_equal.
    apply list_fmap_ext. intros _ o _. cbn. by rewrite Hwire.
Qed.

(** ** Witnesses: a handler that records the messages *)

Definition message_log := list CMuxMessage.
#[export] Instance message_log_callback : ICommandCallback message_log :=
  fun h m => Ok (push_back h m).

Definition subscribe_message : CMuxMessage :=
  {| m_data := [0; 0; 0; 8; 0; 0; 0; 0]; m_type := 1; m_id := 0x1234 |}.
Definition power_message : CMuxMessage :=
  {| m_data := [7]; m_type := 30; m_id := 0x1235 |}.
Definition noisy_stream : list (list Z * CMuxMessage) :=
  [([0x11; 0xa7], subscribe_message); ([0xa7; 0x40; 0xa0], power_message)].

Lemma parser_stream_roundtrip_witness :
  exists input, read_all (new_CMuxParser true, [] : message_log)
      [take 3 (noisy noisy_stream); drop 3 (noisy noisy_stream)]
    = Ok (set_input input (new_CMuxParser true), [subscribe_message; power_message]).
Proof.
  refine (parser_stream_roundtrip ([] : message_log) noisy_stream
    [take 3 (noisy noisy_stream); drop 3 (noisy noisy_stream)] _ _); [|reflexivity].
  repeat (apply Forall_cons; split; [by split; [|apply (bool_decide_unpack _)]|]); done.
Defined.

Lemma parser_fragmentation_witness :
  (s ← read_all (new_CMuxParser true, [] : message_log) [[0xa7; 0x40]; [0xa0; 0xf5; 0; 3; 0; 1; 30]];
   Ok s.2)
  = (s ← read_all (new_CMuxParser true, [] : message_log) [[0xa7; 0x40; 0xa0; 0xf5; 0; 3; 0]; [1; 30]];
     Ok s.2).
Proof. apply (parser_fragmentation ([] : message_log)). vm_compute. reflexivity. Defined.

Lemma parse_loop_terminates_witness :
  parser_read (new_CMuxParser true, [] : message_log) [0xa7; 0x40; 0xa0; 0xf5; 0; 3; 0; 1; 30]
    = parse_loop 200 (set_input (replicate 128 0 ++ [0xa7; 0x40; 0xa0; 0xf5; 0; 3; 0; 1; 30])
                        (new_CMuxParser true), []) /\
  forall s', parser_read (new_CMuxParser true, [] : message_log)
               [0xa7; 0x40; 0xa0; 0xf5; 0; 3; 0; 1; 30] = Ok s' ->
             parse s' = Ok (false, s').
Proof. apply (parse_loop_terminates (new_CMuxParser true) ([] : message_log)). vm_compute. lia. Defined.

Lemma output_roundtrip_witness :
  exists input, read_all (new_CMuxParser true, [] : message_log)
      [serialize_output (new_CMuxOutput 1 0x1234 0 [0; 0; 0; 8])]
    = Ok (set_input input (new_CMuxParser true),
          [{| m_data := [0; 0; 0; 0; 8]; m_type := 1; m_id := 0x1234 |}]).
Proof.
  refine (output_roundtrip ([] : message_log) [(1, 0x1234, 0, [0; 0; 0; 8])]
    [serialize_output (new_CMuxOutput 1 0x1234 0 [0; 0; 0; 8])] _ _); [|reflexivity].
  apply Forall_cons; split; [by apply (bool_decide_unpack _)|done].
Defined.
