(* ===== verification/BasePicard.v ===== *)
(** * The Picard connection ([serial_mux/PicardInterfaces.h], [BasePicard.h],
    [BasePicard.cpp])

    [CBasePicardIO]: the Serial API spoken with the manager (Picard).  The
    connection is modelled against three interfaces: the link that carries the
    frames ([sendRaw], [read]), the callback that receives responses and
    notifications ([IPicardCallback]) and the rest of the multiplexer that
    [resetConnection] tears down. *)

From Stdlib Require Import ZArith Lia Sorted.
From stdpp Require Import base list.
From S2P Require Import Prelude Hdlc Common MuxMessage.
Import Receiver.
#[local] Open Scope Z_scope.

(** ** Interfaces *)

Class IPicardCallback (E : Type) := {
  commandComplete : E -> Z -> Z -> Z -> list Z -> outcome E;
  handleNotif : E -> Z -> list Z -> outcome E;
}.

(** [sendRaw] of the concrete link. *)
Class IPicardLink (E : Type) := sendRaw : E -> list Z -> E.

(** What [resetConnection] does outside the Picard connection. *)
Class IConnectionReset (E : Type) := resetOthers : E -> E.

(** ** State *)

Definition KNOWN_API_PROTOCOL_VERSIONS : list Z := [4; 3].
Definition PICARD_HELLO_INTERVAL : Z := 6. (* seconds *)
Definition INPUT_BUFFER_LEN : nat := 1024.
Definition SERIAL_API_HEADER_LEN : nat := 4.

Record CBasePicardIO := {
  m_isRunning : bool;
  m_connected : bool;
  m_waiters : list nat;  (* the threads asleep on m_connect *)
  m_callback : bool;     (* whether a callback is registered *)
  m_hdlc : option CHDLC;
  m_protocolVersion : Z;
  m_seqNo : Z;
  m_mgrSeqNo : Z;
}.

Definition new_CBasePicardIO : CBasePicardIO :=
  {| m_isRunning := false; m_connected := false; m_waiters := []; m_callback := false;
     m_hdlc := None; m_protocolVersion := 0; m_seqNo := 0; m_mgrSeqNo := 0 |}.

Definition set_running (v : bool) (io : CBasePicardIO) : CBasePicardIO :=
  {| m_isRunning := v; m_connected := m_connected io; m_waiters := m_waiters io;
     m_callback := m_callback io; m_hdlc := m_hdlc io;
     m_protocolVersion := m_protocolVersion io; m_seqNo := m_seqNo io;
     m_mgrSeqNo := m_mgrSeqNo io |}.
Definition set_connect (c : bool) (w : list nat) (io : CBasePicardIO) : CBasePicardIO :=
  {| m_isRunning := m_isRunning io; m_connected := c; m_waiters := w;
     m_callback := m_callback io; m_hdlc := m_hdlc io;
     m_protocolVersion := m_protocolVersion io; m_seqNo := m_seqNo io;
     m_mgrSeqNo := m_mgrSeqNo io |}.
Definition set_hdlc (h : option CHDLC) (io : CBasePicardIO) : CBasePicardIO :=
  {| m_isRunning := m_isRunning io; m_connected := m_connected io;
     m_waiters := m_waiters io; m_callback := m_callback io; m_hdlc := h;
     m_protocolVersion := m_protocolVersion io; m_seqNo := m_seqNo io;
     m_mgrSeqNo := m_mgrSeqNo io |}.
Definition set_protocol (v : Z) (io : CBasePicardIO) : CBasePicardIO :=
  {| m_isRunning := m_isRunning io; m_connected := m_connected io;
     m_waiters := m_waiters io; m_callback := m_callback io; m_hdlc := m_hdlc io;
     m_protocolVersion := v; m_seqNo := m_seqNo io; m_mgrSeqNo := m_mgrSeqNo io |}.
Definition set_seqs (seqNo mgrSeqNo : Z) (io : CBasePicardIO) : CBasePicardIO :=
  {| m_isRunning := m_isRunning io; m_connected := m_connected io;
     m_waiters := m_waiters io; m_callback := m_callback io; m_hdlc := m_hdlc io;
     m_protocolVersion := m_protocolVersion io; m_seqNo := seqNo;
     m_mgrSeqNo := mgrSeqNo |}.

(** [start], [stop], [registerCallback], [getVersion] *)
Definition picard_start (io : CBasePicardIO) : CBasePicardIO := set_running true io.
Definition picard_stop (io : CBasePicardIO) : CBasePicardIO := set_running false io.
Definition registerCallback (handler : bool) (io : CBasePicardIO) : CBasePicardIO :=
  {| m_isRunning := m_isRunning io; m_connected := m_connected io;
     m_waiters := m_waiters io; m_callback := handler; m_hdlc := m_hdlc io;
     m_protocolVersion := m_protocolVersion io; m_seqNo := m_seqNo io;
     m_mgrSeqNo := m_mgrSeqNo io |}.
Definition picard_getVersion (io : CBasePicardIO) : Z := m_protocolVersion io.

(** [cleanup]: forget the connection and the receiver. *)
Definition cleanup (io : CBasePicardIO) : CBasePicardIO :=
  set_hdlc None (set_connect false (m_waiters io) io).

(** [reset]: [m_connect.notify_all()]. *)
Definition picard_reset (io : CBasePicardIO) : CBasePicardIO :=
  set_connect (m_connected io) [] io.

(** [waitForHello] by thread [t], at its blocking points: the test outside the
    lock ([Some r] returns [r], [None] goes on to the wait), the wait, and the
    return once the wait is over. *)
Definition waitForHello_check (io : CBasePicardIO) : option bool :=
  if m_connected io then Some true else None.
Definition waitForHello_wait (t : nat) (io : CBasePicardIO) : CBasePicardIO :=
  set_connect (m_connected io) (m_waiters io ++ [t]) io.
Definition waitForHello_return (io : CBasePicardIO) : bool := m_connected io.

Definition checkProtocol (version : Z) : bool :=
  existsb (fun known => version =? known) KNOWN_API_PROTOCOL_VERSIONS.

(** ** Operations *)

Section operations.
Context {E : Type} `{IPicardCallback E} `{IPicardLink E} `{IConnectionReset E}.

(** [sendCommand]: the new environment, the sequence number for the caller. *)
Definition sendCommand (io : CBasePicardIO) (e : E) (cmd : CMuxMessage) : E * Z :=
  let cmdLen := Z.land (message_size cmd) 0xFF in
  let buf := [2; m_type cmd; m_seqNo io; cmdLen] ++ take (Z.to_nat cmdLen) (m_data cmd) in
  (sendRaw e buf, m_seqNo io).

Definition sendAck (io : CBasePicardIO) (e : E) (type seqNo : Z) : CBasePicardIO * E :=
  let buf := [3; type; seqNo; 1; 0] in
  (set_seqs (m_seqNo io) (u8 (seqNo + 1)) io, sendRaw e buf).

(** The parameter is not used. *)
Definition sendHello (io : CBasePicardIO) (e : E) (seqNo : Z) : E :=
  let requestedVersion :=
    if m_protocolVersion io =? 0 then nth 0 KNOWN_API_PROTOCOL_VERSIONS 0
    else m_protocolVersion io in
  sendRaw e [0; HELLO; m_seqNo io; 3; requestedVersion; m_seqNo io; 0].

(** [resetConnection] of [serial_mux.cpp], with [gPicardIO] this connection. *)
Definition resetConnection (io : CBasePicardIO) (e : E) : CBasePicardIO * E :=
  (picard_stop (picard_reset io), resetOthers e).

Definition record_protocol (version : Z) (io : CBasePicardIO) : CBasePicardIO :=
  if checkProtocol version then set_protocol version io else io.

(** The branches of [frameComplete]. *)
Definition onHelloResponse (io : CBasePicardIO) (control : Z) (frame : list Z)
  : outcome CBasePicardIO :=
  successCode ← vat frame SERIAL_API_HEADER_LEN;
  version ← vat frame (SERIAL_API_HEADER_LEN + 1);
  mgrSeqNo ← vat frame (SERIAL_API_HEADER_LEN + 2);
  cliSeqNo ← vat frame (SERIAL_API_HEADER_LEN + 3);
  let io := record_protocol version io in
  if (control =? 0) && (successCode =? 0) then
    let io := set_seqs (u8 (cliSeqNo + 1)) mgrSeqNo io in
    if m_connected io then Ok io else Ok (set_connect true [] io)
  else Ok io.

Definition onMgrHello (io : CBasePicardIO) (e : E) (frame : list Z)
  : outcome (CBasePicardIO * E) :=
  version ← vat frame SERIAL_API_HEADER_LEN;
  let io := record_protocol version io in
  if m_connected io then Ok (resetConnection io e) else Ok (io, e).

Definition onNotification (io : CBasePicardIO) (e : E) (control type seqNo : Z)
  (frame : list Z) : outcome (CBasePicardIO * E) :=
  let isReliable := negb (Z.land control 2 =? 0) in
  let '(io, e) := if isReliable then sendAck io e type seqNo else (io, e) in
  notifType ← vat frame SERIAL_API_HEADER_LEN;
  let notif := drop (SERIAL_API_HEADER_LEN + 1) frame in
  e ← (if m_callback io && (negb isReliable || negb (m_mgrSeqNo io =? seqNo))
       then handleNotif e notifType notif else Ok e);
  Ok (set_seqs (m_seqNo io) seqNo io, e).

Definition onResponse (io : CBasePicardIO) (e : E) (type seqNo : Z) (frame : list Z)
  : outcome (CBasePicardIO * E) :=
  let io := set_seqs (u8 (seqNo + 1)) (m_mgrSeqNo io) io in
  respCode ← vat frame SERIAL_API_HEADER_LEN;
  let payload := drop (SERIAL_API_HEADER_LEN + 1) frame in
  e ← (if m_callback io then commandComplete e type seqNo respCode payload else Ok e);
  Ok (io, e).

(** [CBasePicardIO::frameComplete] *)
Definition picard_frameComplete (s : CBasePicardIO * E) (frame : list Z)
  : outcome (CBasePicardIO * E) :=
  let '(io, e) := s in
  if (SERIAL_API_HEADER_LEN <? length frame)%nat then
    control ← vat frame 0;
    type ← vat frame 1;
    seqNo ← vat frame 2;
    len ← vat frame 3;
    if negb (len + Z.of_nat SERIAL_API_HEADER_LEN =? Z.of_nat (length frame)) then Ok (io, e)
    else if (type =? HELLO_RESPONSE) && (5 <=? len) then
      io ← onHelloResponse io control frame; Ok (io, e)
    else if (type =? MGR_HELLO) && (2 <=? len) then onMgrHello io e frame
    else if (type =? NOTIFICATION) && (Z.land control 1 =? 0) && (1 <? len) then
      onNotification io e control type seqNo frame
    else if (NOTIFICATION <? type) && (1 <=? len) && (control =? 3) then
      onResponse io e type seqNo frame
    else Ok (io, e)
  else Ok (io, e).

#[export] Instance picard_IHDLCParser : IHDLCParser (CBasePicardIO * E) :=
  picard_frameComplete.

End operations.

(** [read] of the concrete link: what one call does with the input [I] the
    device gives it. *)
Class IPicardRead (I E : Type) :=
  link_read : CBasePicardIO * E -> I -> outcome (CBasePicardIO * E).

Section thread.
Context {E I : Type} `{IPicardLink E} `{IPicardRead I E}.

(** One pass of the read loop, as its surroundings decide it: whether another
    thread has called [stop], the two clock readings and the input. *)
Record pass := { p_stop : bool; p_now : Z; p_after : Z; p_input : I }.

(** [lastHello], and the times at which a hello was sent (for the statements). *)
Record loop_state := { l_io : CBasePicardIO; l_env : E; l_last : Z; l_hellos : list Z }.

Definition hello_due (io : CBasePicardIO) (now last : Z) : bool :=
  negb (m_connected io) && (PICARD_HELLO_INTERVAL <? now - last).

Definition loop_pass (s : loop_state) (p : pass) : outcome loop_state :=
  let io := if p_stop p then picard_stop (l_io s) else l_io s in
  if m_isRunning io then
    let '(e, last, hellos) :=
      if hello_due io (p_now p) (l_last s)
      then (sendHello io (l_env s) 0, p_after p, l_hellos s ++ [p_now p])
      else (l_env s, l_last s, l_hellos s) in
    '(io, e) ← link_read (io, e) (p_input p);
    Ok {| l_io := io; l_env := e; l_last := last; l_hellos := hellos |}
  else Ok {| l_io := io; l_env := l_env s; l_last := l_last s; l_hellos := l_hellos s |}.

(** [threadMain] started at time [t0], over the passes observed.  Once
    [m_isRunning] is false the remaining passes do nothing. *)
Definition threadMain_start (io : CBasePicardIO) (e : E) (t0 : Z) : loop_state :=
  {| l_io := set_hdlc (Some (new_CHDLC INPUT_BUFFER_LEN true)) io; l_env := e;
     l_last := t0 - 2 * PICARD_HELLO_INTERVAL; l_hellos := [] |}.

Definition threadMain (io : CBasePicardIO) (e : E) (t0 : Z) (ps : list pass)
  : outcome loop_state := foldM loop_pass (threadMain_start io e t0) ps.
End thread.
Arguments pass : clear implicits.
Arguments loop_state : clear implicits.

(** ** Frames of the Serial API *)

Definition picard_frame (control type seqNo : Z) (payload : list Z) : list Z :=
  [control; type; seqNo; Z.of_nat (length payload)] ++ payload.

Section frames.
Context {E : Type} `{IPicardCallback E} `{IPicardLink E} `{IConnectionReset E}.
Implicit Types (io : CBasePicardIO) (e : E).

(** [frameComplete] of a frame with a payload, its header reads done. *)
Lemma frameComplete_frame io e control type seqNo x payload :
  let frame := picard_frame control type seqNo (x :: payload) in
  let len := Z.of_nat (length (x :: payload)) in
  picard_frameComplete (io, e) frame =
    if (type =? HELLO_RESPONSE) && (5 <=? len) then
      io ← onHelloResponse io control frame; Ok (io, e)
    else if (type =? MGR_HELLO) && (2 <=? len) then onMgrHello io e frame
    else if (type =? NOTIFICATION) && (Z.land control 1 =? 0) && (1 <? len) then
      onNotification io e control type seqNo frame
    else if (NOTIFICATION <? type) && (1 <=? len) && (control =? 3) then
      onResponse io e type seqNo frame
    else Ok (io, e).
Proof.
  intros frame len. unfold picard_frameComplete, frame, picard_frame. cbn [app].
  unfold SERIAL_API_HEADER_LEN. cbn [length Nat.ltb Nat.leb].
  cbn [vat lookup list_lookup]. step_bind.
  rewrite (proj2 (Z.eqb_eq _ _)) by lia. done.
Qed.

(** Every frame is either ignored or has the header of [picard_frame]. *)
Lemma frame_cases (frame : list Z) :
  (forall io e, picard_frameComplete (io, e) frame = Ok (io, e)) \/
  exists control type seqNo x payload, frame = picard_frame control type seqNo (x :: payload).
Proof.
  destruct frame as [|c [|t [|q [|l [|x p]]]]]; try (left; intros; reflexivity).
  destruct (decide (l + 4 = Z.of_nat (length (c :: t :: q :: l :: x :: p)))) as [Hl|Hl].
  - right. exists c, t, q, x, p. unfold picard_frame. cbn [app]. do 4 f_equal.
    cbn in Hl |- *. lia.
  - left. intros io e. unfold picard_frameComplete, SERIAL_API_HEADER_LEN.
    cbn [length Nat.ltb Nat.leb]. cbn [vat lookup list_lookup]. step_bind.
    by rewrite (proj2 (Z.eqb_neq _ _)).
Qed.

Lemma onHelloResponse_frame io control type seqNo code version mgr cli rest :
  onHelloResponse io control (picard_frame control type seqNo (code :: version :: mgr :: cli :: rest))
  = Ok (let io := record_protocol version io in
        if (control =? 0) && (code =? 0) then
          let io := set_seqs (u8 (cli + 1)) mgr io in
          if m_connected io then io else set_connect true [] io
        else io).
Proof.
  unfold onHelloResponse, picard_frame. cbn [app]. unfold SERIAL_API_HEADER_LEN.
  cbn [Nat.add vat lookup list_lookup]. step_bind.
  destruct (_ && _); [|done]. by destruct (m_connected _).
Qed.

Lemma onMgrHello_frame io e control type seqNo version rest :
  onMgrHello io e (picard_frame control type seqNo (version :: rest))
  = Ok (let io := record_protocol version io in
        if m_connected io then resetConnection io e else (io, e)).
Proof. unfold onMgrHello. cbn. by destruct (m_connected _). Qed.

Lemma m_connected_record version io : m_connected (record_protocol version io) = m_connected io.
Proof. unfold record_protocol. by destruct (checkProtocol version). Qed.

Lemma checkProtocol_known v : checkProtocol v = true <-> v = 3 \/ v = 4.
Proof.
  unfold checkProtocol. cbn. rewrite orb_false_r, orb_true_iff, !Z.eqb_eq. tauto.
Qed.

Lemma onNotification_frame io e control seqNo t p :
  is_u8 seqNo ->
  onNotification io e control NOTIFICATION seqNo
    (picard_frame control NOTIFICATION seqNo (t :: p))
  = (e ← (let e := if Z.land control 2 =? 0 then e else sendRaw e [3; NOTIFICATION; seqNo; 1; 0] in
          if m_callback io then handleNotif e t p else Ok e);
     Ok (set_seqs (m_seqNo io) seqNo io, e)).
Proof.
  intros Hs. unfold onNotification. change (vat (picard_frame _ _ _ (t :: p)) _) with (Ok t).
  change (drop _ (picard_frame _ _ _ (t :: p))) with p.
  destruct (Z.land control 2 =? 0); cbn [negb orb andb sendAck].
  - rewrite andb_true_r. step_bind. by destruct (m_callback io).
  - cbn [m_callback set_seqs m_mgrSeqNo m_seqNo].
    rewrite (proj2 (Z.eqb_neq _ _)) by (by apply u8_succ_ne). rewrite andb_true_r.
    step_bind. by destruct (m_callback io).
Qed.

Lemma onResponse_frame io e control type seqNo rc p :
  onResponse io e type seqNo (picard_frame control type seqNo (rc :: p))
  = (e ← (if m_callback io then commandComplete e type seqNo rc p else Ok e);
     Ok (set_seqs (u8 (seqNo + 1)) (m_mgrSeqNo io) io, e)).
Proof. reflexivity. Qed.

(** No frame can make [frameComplete] read out of bounds. *)
Lemma frameComplete_defined io e frame :
  (forall e t q rc p, defined (commandComplete e t q rc p) = true) ->
  (forall e t p, defined (handleNotif e t p) = true) ->
  Forall is_u8 frame ->
  defined (picard_frameComplete (io, e) frame) = true.
Proof.
  intros Hc Hn Hu. destruct (frame_cases frame) as [Hi|(c & t & q & x & p & ->)].
  { by rewrite Hi. }
  rewrite frameComplete_frame. unfold picard_frame in Hu. cbn [app] in Hu.
  rewrite !Forall_cons in Hu. destruct Hu as (_ & _ & Hq & _).
  destruct (_ && _) eqn:Hb1.
  { apply andb_true_iff in Hb1 as [_ Hl]. apply Z.leb_le in Hl.
    do 4 (destruct p as [|? p]; [cbn in Hl; lia|]). by rewrite onHelloResponse_frame. }
  destruct ((t =? MGR_HELLO) && _) eqn:Hb2.
  { by rewrite onMgrHello_frame. }
  destruct ((t =? NOTIFICATION) && _ && _) eqn:Hb3.
  { apply andb_true_iff in Hb3 as [Hb3 _]. apply andb_true_iff in Hb3 as [Hb3 _].
    apply Z.eqb_eq in Hb3 as ->. rewrite onNotification_frame by done.
    destruct (m_callback io); [|done]. specialize (Hn (if Z.land c 2 =? 0 then e else
      sendRaw e [3; NOTIFICATION; q; 1; 0]) x p). cbn zeta. by destruct (handleNotif _ x p). }
  destruct ((NOTIFICATION <? t) && _ && _); [|done]. rewrite onResponse_frame.
  destruct (m_callback io); [|done]. specialize (Hc e t q x p).
  by destruct (commandComplete e t q x p).
Qed.
End frames.

(** ** Reachable states *)

Section reachability.
Context {E : Type} `{IPicardCallback E} `{IPicardLink E} `{IConnectionReset E}.

(** Every operation of the class, in any order. *)
Inductive picard_step : CBasePicardIO * E -> CBasePicardIO * E -> Prop :=
  | ps_frame s frame s' :
      bytes_ok frame -> picard_frameComplete s frame = Ok s' -> picard_step s s'
  | ps_sendCommand io e cmd :
      picard_step (io, e) (io, (sendCommand io e cmd).1)
  | ps_sendAck io e type seqNo :
      is_u8 seqNo -> picard_step (io, e) (sendAck io e type seqNo)
  | ps_sendHello io e n : picard_step (io, e) (io, sendHello io e n)
  | ps_start io e : picard_step (io, e) (picard_start io, e)
  | ps_stop io e : picard_step (io, e) (picard_stop io, e)
  | ps_reset io e : picard_step (io, e) (picard_reset io, e)
  | ps_register io e b : picard_step (io, e) (registerCallback b io, e)
  | ps_cleanup io e : picard_step (io, e) (cleanup io, e)
  | ps_thread io e h : picard_step (io, e) (set_hdlc h io, e)
  | ps_wait io e t : waitForHello_check io = None ->
      picard_step (io, e) (waitForHello_wait t io, e).

Definition picard_inv (io : CBasePicardIO) : Prop :=
  m_protocolVersion io ∈ 0 :: KNOWN_API_PROTOCOL_VERSIONS /\
  is_u8 (m_seqNo io) /\ is_u8 (m_mgrSeqNo io).

Lemma record_protocol_inv version io :
  picard_inv io -> picard_inv (record_protocol version io).
Proof.
  intros (Hv & Hs & Hm). unfold record_protocol.
  destruct (checkProtocol version) eqn:Hc; [|done].
  split; [|done]. apply checkProtocol_known in Hc as [-> | ->]; by apply (bool_decide_unpack _).
Qed.

Lemma frameComplete_inv s frame s' :
  picard_inv s.1 -> bytes_ok frame -> picard_frameComplete s frame = Ok s' ->
  picard_inv s'.1.
Proof.
  destruct s as [io e]. cbn [fst]. intros Hinv Hu.
  destruct (frame_cases frame) as [Hi|(c & t & q & x & p & ->)].
  { rewrite Hi. by intros [= <-]. }
  rewrite frameComplete_frame. unfold picard_frame in Hu. cbn [app] in Hu.
  rewrite !Forall_cons in Hu. destruct Hu as (_ & _ & Hq & _ & Hx & Hp).
  pose proof (record_protocol_inv x io Hinv) as Hinvx.
  destruct (_ && _) eqn:Hb1.
  { apply andb_true_iff in Hb1 as [_ Hl]. apply Z.leb_le in Hl.
    destruct p as [|v [|mgr [|cli [|z p]]]]; try (cbn in Hl; lia).
    rewrite onHelloResponse_frame. intros [= <-]. rewrite !Forall_cons in Hp.
    pose proof (record_protocol_inv v io Hinv) as (Hv & Hs & Hm). cbn zeta.
    destruct (_ && _); [|done].
    destruct (m_connected _); (split_and!; [exact Hv|apply u8_range|apply Hp]). }
  destruct ((t =? MGR_HELLO) && _) eqn:Hb2.
  { rewrite onMgrHello_frame. intros [= <-]. cbn zeta.
    by destruct (m_connected (record_protocol x io)). }
  destruct Hinv as (Hv & Hs & Hm).
  destruct ((t =? NOTIFICATION) && _ && _) eqn:Hb3.
  { apply andb_true_iff in Hb3 as [Hb3 _]. apply andb_true_iff in Hb3 as [Hb3 _].
    apply Z.eqb_eq in Hb3 as ->. rewrite onNotification_frame by done.
    intros Heq. apply bind_Ok_inv in Heq as (e' & _ & [= <-]). done. }
  destruct ((NOTIFICATION <? t) && _ && _); [|by intros [= <-]].
  rewrite onResponse_frame. intros Heq. apply bind_Ok_inv in Heq as (e' & _ & [= <-]).
  split_and!; [exact Hv|apply u8_range|exact Hm].
Qed.

Lemma picard_inv_step s s' : picard_inv s.1 -> picard_step s s' -> picard_inv s'.1.
Proof.
  intros Hinv Hstep.
  destruct Hstep; try exact Hinv; [by eapply frameComplete_inv|].
  destruct Hinv as (Hv & Hs & Hm). split_and!; [exact Hv|exact Hs|apply u8_range].
Qed.
End reachability.

(** ** Hello timing *)

Section timing.
Context {E I : Type} `{IPicardLink E} `{IPicardRead I E}.

(** Two hellos are more than the interval apart. *)
Definition spaced : list Z -> Prop := StronglySorted (fun a b => a + PICARD_HELLO_INTERVAL < b).

Definition hello_inv (s : loop_state E) : Prop :=
  spaced (l_hellos s) /\ Forall (fun t => t <= l_last s) (l_hellos s).

Lemma spaced_snoc l x :
  spaced l -> Forall (fun t => t + PICARD_HELLO_INTERVAL < x) l -> spaced (l ++ [x]).
Proof.
  induction 1 as [|y l Hl IH Hy]; [by repeat constructor|].
  rewrite Forall_cons. intros [Hyx Hlx]. cbn. constructor; [by apply IH|].
  apply Forall_app. by split; [|repeat constructor].
Qed.

Lemma loop_pass_inv s (p : pass I) s' :
  p_now p <= p_after p -> loop_pass s p = Ok s' -> hello_inv s -> hello_inv s'.
Proof.
  intros Hp. unfold loop_pass. set (io := if p_stop p then _ else _).
  destruct (m_isRunning io); [|by intros [= <-]].
  destruct (hello_due io (p_now p) (l_last s)) eqn:Hd;
    intros Heq; apply bind_Ok_inv in Heq as ([io' e'] & _ & [= <-]); [|done].
  intros [Hs Hl]. apply andb_true_iff in Hd as [_ Hd]. apply Z.ltb_lt in Hd. split; cbn.
  - apply spaced_snoc; [done|]. eapply Forall_impl; [exact Hl|]. cbn. intros; lia.
  - apply Forall_app. split; [|by repeat constructor].
    eapply Forall_impl; [exact Hl|]. unfold PICARD_HELLO_INTERVAL in Hd. cbn. intros; lia.
Qed.

Lemma loop_passes_inv (ps : list (pass I)) s s' :
  Forall (fun p => p_now p <= p_after p) ps -> foldM loop_pass s ps = Ok s' ->
  hello_inv s -> hello_inv s'.
Proof.
  intros Hps. revert s. induction Hps as [|p ps Hp _ IH]; intros s; cbn [foldM].
  - by intros [= <-].
  - intros Heq Hi. apply bind_Ok_inv in Heq as (s1 & Hs1 & Heq).
    eapply IH; [exact Heq|]. by eapply loop_pass_inv.
Qed.

(** After a pass of a running, unconnected loop the last hello is recent. *)
Lemma loop_pass_recent s (p : pass I) s' :
  p_now p <= p_after p -> loop_pass s p = Ok s' ->
  p_stop p = false -> m_isRunning (l_io s) = true -> m_connected (l_io s) = false ->
  p_now p - l_last s' <= PICARD_HELLO_INTERVAL.
Proof.
  intros Hp. unfold loop_pass. intros Heq Hstop Hr Hc. rewrite Hstop, Hr in Heq.
  unfold hello_due in Heq. rewrite Hc in Heq. cbn [negb andb] in Heq.
  destruct (Z.ltb_spec PICARD_HELLO_INTERVAL (p_now p - l_last s)) as [Hd|Hd];
    apply bind_Ok_inv in Heq as ([io' e'] & _ & [= <-]); cbn; [|done].
  unfold PICARD_HELLO_INTERVAL. lia.
Qed.
End timing.

(** A notification frame that is not a response, in one equation. *)
Lemma notification_frame {E} `{IPicardCallback E} `{IPicardLink E} `{IConnectionReset E}
  io (e : E) control seqNo t p :
  m_callback io = true -> is_u8 seqNo -> p <> [] -> Z.land control 1 = 0 ->
  picard_frameComplete (io, e) (picard_frame control NOTIFICATION seqNo (t :: p))
  = (e ← handleNotif (if Z.land control 2 =? 0 then e
                      else sendRaw e [3; NOTIFICATION; seqNo; 1; 0]) t p;
     Ok (set_seqs (m_seqNo io) seqNo io, e)).
Proof.
  intros Hcb Hq Hp Hctl. rewrite frameComplete_frame, Hctl. destruct p as [|y p]; [done|].
  rewrite (proj2 (Z.ltb_lt 1 _)) by (cbn; lia).
  cbn [andb Z.eqb NOTIFICATION HELLO_RESPONSE MGR_HELLO].
  by rewrite onNotification_frame, Hcb.
Qed.

(** ** Properties *)

(** C28: invariant of the connection under every sequence of its operations and
    received frames: the protocol version is a known one (or 0, none yet) and the
    two sequence numbers stay bytes through every increment. *)
Theorem picard_state_invariant {E} `{IPicardCallback E} `{IPicardLink E}
  `{IConnectionReset E} (e : E) s :
  steps picard_step (new_CBasePicardIO, e) s ->
  m_protocolVersion s.1 ∈ 0 :: KNOWN_API_PROTOCOL_VERSIONS /\
  is_u8 (m_seqNo s.1) /\ is_u8 (m_mgrSeqNo s.1).
Proof.
  intros Hs. eapply (steps_invariant picard_step (fun s => picard_inv s.1)); [|exact Hs|].
  - intros s1 s2. apply picard_inv_step.
  - split_and!; by apply (bool_decide_unpack _).
Qed.

(** No frame the link can deliver, of any length and content, makes
    [frameComplete] read outside the frame; and a frame that is too short or
    whose length byte does not match is dropped without any effect. *)
Lemma frame_safety {E} `{IPicardCallback E} `{IPicardLink E} `{IConnectionReset E}
  io (e : E) frame :
  (forall e t q rc p, defined (commandComplete e t q rc p) = true) ->
  (forall e t p, defined (handleNotif e t p) = true) ->
  bytes_ok frame ->
  defined (picard_frameComplete (io, e) frame) = true /\
  ((forall len, frame !! 3%nat = Some len -> len + 4 <> Z.of_nat (length frame)) \/
   (length frame <= 4)%nat -> picard_frameComplete (io, e) frame = Ok (io, e)).
Proof.
  intros Hc Hn Hu. split; [by apply frameComplete_defined|].
  destruct (frame_cases frame) as [Hi|(c & t & q & x & p & ->)]; [by intros _|].
  intros [Hl|Hl]; [|cbn in Hl; lia]. exfalso. eapply Hl; [reflexivity|]. cbn. lia.
Qed.

(** Notifications.  A notification is passed to the callback with its type
    and payload; if it is reliable the acknowledgement with its sequence number is
    sent first, if not none is sent.  This holds whatever sequence number was
    last recorded: a reliable frame received a second time is delivered a second
    time, because [sendAck] overwrites the number the filter compares with. *)
Lemma notification_delivery {E} `{IPicardCallback E} `{IPicardLink E}
  `{IConnectionReset E} io (e : E) control seqNo t p :
  m_callback io = true -> is_u8 seqNo -> p <> [] -> Z.land control 1 = 0 ->
  let ack e := if Z.land control 2 =? 0 then e else sendRaw e [3; NOTIFICATION; seqNo; 1; 0] in
  let frame := picard_frame control NOTIFICATION seqNo (t :: p) in
  let io' := set_seqs (m_seqNo io) seqNo io in
  picard_frameComplete (io, e) frame = (e ← handleNotif (ack e) t p; Ok (io', e)) /\
  foldM picard_frameComplete (io, e) [frame; frame]
    = (e ← handleNotif (ack e) t p; e ← handleNotif (ack e) t p; Ok (io', e)).
Proof.
  intros Hcb Hq Hp Hctl ack frame io'.
  assert (Hone : forall io e, m_callback io = true ->
    picard_frameComplete (io, e) frame
    = (e ← handleNotif (ack e) t p; Ok (set_seqs (m_seqNo io) seqNo io, e)))
    by (intros; by apply notification_frame).
  split; [by apply Hone|]. cbn [foldM]. rewrite Hone by done.
  destruct (handleNotif (ack e) t p) as [e1|]; [|done]. step_bind. rewrite Hone by done.
  by destruct (handleNotif (ack e1) t p).
Qed.

(** Command and response.  A command of type above [NOTIFICATION] with at
    most 255 bytes is sent as one reliable request carrying the connection's
    sequence number; the response frame with that type and number reaches the
    callback with its code and payload, and the next command gets another
    sequence number. *)
Lemma command_exchange {E} `{IPicardCallback E} `{IPicardLink E}
  `{IConnectionReset E} io (e : E) cmd rc payload :
  m_callback io = true -> is_u8 (m_seqNo io) -> isPicardApiCommand (m_type cmd) = true ->
  (length (m_data cmd) <= 255)%nat ->
  let '(e1, seqNo) := sendCommand io e cmd in
  e1 = sendRaw e (picard_frame 2 (m_type cmd) seqNo (m_data cmd)) /\
  exists io', m_seqNo io' <> seqNo /\
    picard_frameComplete (io, e1) (picard_frame 3 (m_type cmd) seqNo (rc :: payload))
    = (e2 ← commandComplete e1 (m_type cmd) seqNo rc payload; Ok (io', e2)).
Proof.
  intros Hcb Hq Ht Hlen. unfold sendCommand. split.
  - unfold message_size. rewrite u16_small, land_255, u8_small by word_range.
    rewrite Nat2Z.id, take_ge by lia. done.
  - exists (set_seqs (u8 (m_seqNo io + 1)) (m_mgrSeqNo io) io).
    split; [by apply u8_succ_ne|]. rewrite frameComplete_frame.
    unfold isPicardApiCommand in Ht. rewrite Ht. apply Z.ltb_lt in Ht.
    rewrite !(proj2 (Z.eqb_neq (m_type cmd) _))
      by (unfold HELLO_RESPONSE, MGR_HELLO, NOTIFICATION in *; lia).
    rewrite (proj2 (Z.leb_le 1 _)) by (cbn; lia). cbn [andb Z.eqb].
    change (3 =? 3) with true. cbn iota. by rewrite onResponse_frame, Hcb.
Qed.

(** C20: hello handshake.  A successful hello response connects an unconnected
    link, wakes every waiter and takes over both sequence numbers, and a known
    version is the one later hellos request; a failed one never connects.  Once
    connected a manager hello makes the connection reset (loop stopped, waiters
    woken, the other parts torn down); before that it only records the version. *)
Theorem hello_handshake {E} `{IPicardCallback E} `{IPicardLink E} `{IConnectionReset E}
  io (e : E) control q code version mgr cli mode :
  m_connected io = false ->
  exists io1,
    picard_frameComplete (io, e)
      (picard_frame control HELLO_RESPONSE q [code; version; mgr; cli; mode]) = Ok (io1, e) /\
    m_connected io1 = (control =? 0) && (code =? 0) /\
    (m_connected io1 = true ->
       m_waiters io1 = [] /\ waitForHello_check io1 = Some true /\
       m_seqNo io1 = u8 (cli + 1) /\ m_mgrSeqNo io1 = mgr) /\
    (version ∈ KNOWN_API_PROTOCOL_VERSIONS -> forall e n,
       sendHello io1 e n = sendRaw e [0; HELLO; m_seqNo io1; 3; version; m_seqNo io1; 0]) /\
    forall v, exists io2,
      picard_frameComplete (io1, e) (picard_frame 0 MGR_HELLO q [v; 0])
        = Ok (io2, if m_connected io1 then resetOthers e else e) /\
      m_isRunning io2 = m_isRunning io1 && negb (m_connected io1) /\
      (m_connected io1 = true -> m_waiters io2 = []).
Proof.
  intros Hc. eexists. rewrite frameComplete_frame. cbn [HELLO_RESPONSE Z.eqb andb].
  rewrite onHelloResponse_frame. step_bind. split; [reflexivity|]. cbn zeta.
  set (io1 := if (control =? 0) && (code =? 0) then _ else _).
  assert (Hc1 : m_connected io1 = (control =? 0) && (code =? 0)).
  { unfold io1. destruct (_ && _); cbn; rewrite m_connected_record, Hc; done. }
  split; [exact Hc1|]. split; [|split].
  - rewrite Hc1. intros Ht. unfold waitForHello_check. rewrite Hc1, Ht. unfold io1.
    rewrite Ht. cbn [m_connected set_seqs]. by rewrite m_connected_record, Hc.
  - intros Hv e0 n. assert (Hp : m_protocolVersion io1 = version /\ version <> 0).
    { assert (Hk : checkProtocol version = true).
      { apply checkProtocol_known. apply list_elem_of_In in Hv. cbn in Hv. lia. }
      split; [|by intros ->]. unfold io1, record_protocol. rewrite Hk.
      destruct (_ && _); [|done]. by destruct (m_connected _). }
    unfold sendHello. destruct Hp as [-> Hv0]. by rewrite (proj2 (Z.eqb_neq _ _)).
  - intros v. rewrite frameComplete_frame. cbn [MGR_HELLO HELLO_RESPONSE Z.eqb andb].
    change (3 =? 3) with true. change (3 =? 2) with false. cbn [andb].
    rewrite onMgrHello_frame. cbn zeta. rewrite m_connected_record.
    destruct (m_connected io1) eqn:Ht.
    + eexists. split; [reflexivity|]. by rewrite andb_false_r.
    + eexists. split; [reflexivity|]. rewrite andb_true_r. split; [|done].
      unfold record_protocol. by destruct (checkProtocol v).
Qed.

(** Hello timing of the read loop.  Two hellos are always more than
    [PICARD_HELLO_INTERVAL] seconds apart, and while the loop runs unconnected no
    pass leaves the last hello older than that. *)
Lemma hello_timing {E I} `{IPicardLink E} `{IPicardRead I E} io (e : E) t0
  (ps : list (pass I)) p s1 s2 :
  Forall (fun p => p_now p <= p_after p) (ps ++ [p]) ->
  threadMain io e t0 ps = Ok s1 -> threadMain io e t0 (ps ++ [p]) = Ok s2 ->
  spaced (l_hellos s2) /\
  (p_stop p = false -> m_isRunning (l_io s1) = true -> m_connected (l_io s1) = false ->
   p_now p - l_last s2 <= PICARD_HELLO_INTERVAL).
Proof.
  intros Hps Hs1 Hs2. split.
  - eapply loop_passes_inv; [exact Hps|exact Hs2|]. by split; constructor.
  - unfold threadMain in *. rewrite foldM_app, Hs1 in Hs2. cbn in Hs2.
    apply bind_Ok_inv in Hs2 as (s2' & Hp & [= ->]).
    apply Forall_app in Hps as [_ Hps]. apply Forall_cons in Hps as [Hpp _].
    by eapply loop_pass_recent.
Qed.

(** ** Witnesses: an environment that records what the connection does *)

Inductive picard_event :=
  | Sent (bytes : list Z)
  | Completed (type seqNo respCode : Z) (payload : list Z)
  | Notified (type : Z) (payload : list Z)
  | OthersReset.

Definition picard_log := list picard_event.
#[export] Instance picard_log_callback : IPicardCallback picard_log := {
  commandComplete e t q rc p := Ok (push_back e (Completed t q rc p));
  handleNotif e t p := Ok (push_back e (Notified t p));
}.
#[export] Instance picard_log_link : IPicardLink picard_log := fun e b => push_back e (Sent b).
#[export] Instance picard_log_reset : IConnectionReset picard_log :=
  fun e => push_back e OthersReset.
(** A link that delivers one frame per read. *)
#[export] Instance picard_log_read : IPicardRead (list Z) picard_log := picard_frameComplete.

Definition open_io : CBasePicardIO :=
  set_connect true [] (set_seqs 255 7 (registerCallback true (picard_start new_CBasePicardIO))).
Definition hello_ok : list Z := picard_frame 0 HELLO_RESPONSE 0 [0; 4; 9; 255; 0].

Lemma picard_state_invariant_witness :
  exists s, steps picard_step (new_CBasePicardIO, [] : picard_log) s /\
    m_protocolVersion s.1 = 4 /\ m_seqNo s.1 = 0 /\
    m_protocolVersion s.1 ∈ 0 :: KNOWN_API_PROTOCOL_VERSIONS /\
    is_u8 (m_seqNo s.1) /\ is_u8 (m_mgrSeqNo s.1).
Proof.
  eexists. assert (Hs : steps picard_step (new_CBasePicardIO, [] : picard_log)
    (set_connect true [] (set_seqs 0 9 (set_protocol 4 new_CBasePicardIO)), [])).
  { apply steps_one. apply (ps_frame _ hello_ok); [|reflexivity].
    by apply (bool_decide_unpack _). }
  split; [exact Hs|]. split; [reflexivity|]. split; [reflexivity|].
  exact (picard_state_invariant _ _ Hs).
Defined.

Lemma frame_safety_witness :
  picard_frameComplete (open_io, [] : picard_log) [3; 22; 1; 2; 0] = Ok (open_io, []).
Proof.
  apply (frame_safety open_io ([] : picard_log) [3; 22; 1; 2; 0]).
  - reflexivity.
  - reflexivity.
  - by apply (bool_decide_unpack _).
  - left. intros len Hl. cbn in Hl. injection Hl as <-. cbn. lia.
Defined.

Lemma notification_delivery_witness :
  let frame := picard_frame 2 NOTIFICATION 7 [1; 0xaa] in
  let ack := Sent [3; 20; 7; 1; 0] in
  foldM picard_frameComplete (open_io, [] : picard_log) [frame; frame]
  = Ok (set_seqs 255 7 open_io, [ack; Notified 1 [0xaa]; ack; Notified 1 [0xaa]]).
Proof.
  refine (proj2 (notification_delivery open_io ([] : picard_log) 2 7 1 [0xaa] _ _ _ _));
    [reflexivity | by apply (bool_decide_unpack _) | done | reflexivity].
Defined.

Lemma command_exchange_witness :
  exists io', m_seqNo io' <> 255 /\
    picard_frameComplete (open_io, [Sent [2; 30; 255; 1; 7]] : picard_log)
      (picard_frame 3 30 255 [0; 5])
    = Ok (io', [Sent [2; 30; 255; 1; 7]; Completed 30 255 0 [5]]).
Proof.
  refine (proj2 (command_exchange open_io ([] : picard_log) power_message 0 [5] _ _ _ _));
    [reflexivity | by apply (bool_decide_unpack _) | reflexivity | cbn; lia].
Defined.

Lemma hello_handshake_witness :
  exists io1, picard_frameComplete (new_CBasePicardIO, [] : picard_log) hello_ok = Ok (io1, []) /\
    m_connected io1 = true /\ m_seqNo io1 = 0.
Proof.
  destruct (hello_handshake new_CBasePicardIO ([] : picard_log) 0 0 0 4 9 255 0)
    as (io1 & Hf & Hc & Hs & _); [reflexivity|].
  exists io1. split; [exact Hf|]. split; [exact Hc|]. by apply Hs.
Defined.

Definition sample_passes : list (pass (list Z)) :=
  [{| p_stop := false; p_now := 100; p_after := 100; p_input := [] |};
   {| p_stop := false; p_now := 106; p_after := 106; p_input := [] |};
   {| p_stop := false; p_now := 107; p_after := 107; p_input := [] |}].

Lemma hello_timing_witness :
  exists s2 : loop_state picard_log,
    threadMain (picard_start new_CBasePicardIO) [] 100 (sample_passes ++
      [{| p_stop := false; p_now := 113; p_after := 113; p_input := hello_ok |}]) = Ok s2 /\
    l_hellos s2 = [100; 107] /\ spaced (l_hellos s2) /\
    113 - l_last s2 <= PICARD_HELLO_INTERVAL.
Proof.
  eexists. split; [vm_compute; reflexivity|]. split; [reflexivity|].
  edestruct (hello_timing (picard_start new_CBasePicardIO) ([] : picard_log) 100 sample_passes
    {| p_stop := false; p_now := 113; p_after := 113; p_input := hello_ok |}) as [Hs Hr];
    [|vm_compute; reflexivity|vm_compute; reflexivity|].
  - repeat (apply Forall_cons; split; [cbn; lia|]). done.
  - split; [exact Hs|]. apply Hr; reflexivity.
Defined.
