(* ===== verification/PicardLink.v ===== *)
(** * The links to Picard ([serial_mux/PicardBoost.h], [PicardBoost.cpp])

    The serial link carries Serial API frames in HDLC; the UDP link (for the
    emulator) carries one frame per datagram behind a dummy byte.  Both implement
    the link interfaces of [BasePicard], and [PicardDevice] is either of them, as
    [gPicardIO] is.  The serial port and the socket are the parameters [SerialPort]
    and [UdpSocket]; exceptions they throw are values of the input of [read], and
    the source discards those of a write. *)

From Stdlib Require Import ZArith Lia.
From stdpp Require Import base list.
From S2P Require Import Prelude Hdlc Common MuxMessage BasePicard.
Import Receiver Encoder Delivery.
#[local] Open Scope Z_scope.

(** What writing bytes does to the port, and sending a datagram to the socket. *)
Class SerialPort (P : Type) := serial_write : P -> list Z -> P.
Class UdpSocket (P : Type) := send_to : P -> list Z -> P.

(** The surroundings of a connection: its device and the rest of the mux. *)
Record link_world (P M : Type) := { s_port : P; s_mux : M }.
Arguments s_port {P M} _. Arguments s_mux {P M} _.
Abbreviation serial_world := link_world.
Abbreviation udp_world := link_world.

Section world.
Context {P M : Type} `{IPicardCallback M} `{IConnectionReset M}.

#[export] Instance world_callback : IPicardCallback (link_world P M) := {
  commandComplete w t q rc p :=
    m ← commandComplete (s_mux w) t q rc p; Ok {| s_port := s_port w; s_mux := m |};
  handleNotif w t p :=
    m ← handleNotif (s_mux w) t p; Ok {| s_port := s_port w; s_mux := m |};
}.
#[export] Instance world_reset : IConnectionReset (link_world P M) :=
  fun w => {| s_port := s_port w; s_mux := resetOthers (s_mux w) |}.
End world.

(** What a call of [async_read_some] or [receive_from] gives: the bytes read
    ([DeviceBytes []] on a timeout of the serial link), or an exception. *)
Inductive device_input := DeviceBytes (bytes : list Z) | DeviceException.

(** ** Reading *)

Section reading.
Context {E : Type} `{IPicardCallback E} `{IPicardLink E} `{IConnectionReset E}.

(** [CPicardBoost_Serial::read], its asynchronous read done (SerialRead.v models
    how it completes): the [for] loop over [m_hdlc->addByte], or the [catch]. *)
Definition serial_read (s : CBasePicardIO * E) (i : device_input) : outcome (CBasePicardIO * E) :=
  let '(io, w) := s in
  match i with
  | DeviceBytes input =>
      match m_hdlc io with
      | None => match input with [] => Ok (io, w) | _ => Undefined NullDeref end
      | Some hdlc =>
          '(hdlc, (io, w)) ← foldM addByte (hdlc, (io, w)) input;
          Ok (set_hdlc (Some hdlc) io, w)
      end
  | DeviceException => Ok (resetConnection io w)
  end.

(** [ByteVector(first + i, first + j)] over a buffer. *)
Definition range (v : list Z) (i j : nat) : outcome (list Z) :=
  if (i <=? j)%nat then Ok (take (j - i) (drop i v)) else Undefined BadRange.

(** [CPicardBoost_UDP::read]: [receive_from] fills at most [INPUT_BUFFER_LEN]
    bytes of a zeroed buffer. *)
Definition udp_read (s : CBasePicardIO * E) (i : device_input) : outcome (CBasePicardIO * E) :=
  match i with
  | DeviceBytes datagram =>
      let received := take INPUT_BUFFER_LEN datagram in
      let len := length received in
      let data := received ++ replicate (INPUT_BUFFER_LEN - len) 0 in
      input ← range data 1 len;
      picard_frameComplete s input
  | DeviceException => Ok s
  end.
End reading.

(** ** The serial and the UDP link *)

(** [CPicardBoost_Serial::sendRaw], on the port and in its surroundings. *)
Definition serial_send {P} `{SerialPort P} (port : P) (data : list Z) : P :=
  let encodedvec := encodeHDLC data in
  serial_write port encodedvec.
Definition serial_sendRaw {P M} `{SerialPort P} (w : serial_world P M) (data : list Z)
  : serial_world P M :=
  {| s_port := serial_send (s_port w) data; s_mux := s_mux w |}.

(** [CPicardBoost_UDP::sendRaw] *)
Definition udp_send {P} `{UdpSocket P} (socket : P) (data : list Z) : P :=
  let withDummy := 0 :: data in
  send_to socket withDummy.
Definition udp_sendRaw {P M} `{UdpSocket P} (w : udp_world P M) (data : list Z) : udp_world P M :=
  {| s_port := udp_send (s_port w) data; s_mux := s_mux w |}.

Section links.
Context {P M : Type} `{IPicardCallback M} `{IConnectionReset M}.

#[export] Instance serial_link `{SerialPort P} : IPicardLink (serial_world P M) := serial_sendRaw.
#[export] Instance serial_link_read `{SerialPort P} : IPicardRead device_input (serial_world P M) :=
  serial_read.
#[export] Instance udp_link `{UdpSocket P} : IPicardLink (udp_world P M) := udp_sendRaw.
#[export] Instance udp_link_read `{UdpSocket P} : IPicardRead device_input (udp_world P M) :=
  udp_read.
End links.

(** ** Either link

    [gPicardIO] is a [CPicardBoost_Serial] or a [CPicardBoost_UDP]; its virtual
    functions [sendRaw] and [read] are those of the one it is.  The program is
    built on this interface. *)

Class PicardDevice (D : Type) := {
  device_udp : D -> bool;                (* which of the two it is *)
  device_send : D -> list Z -> D;        (* sendRaw *)
  device_send_kind d data : device_udp (device_send d data) = device_udp d;
}.

Section device.
Context {D M : Type} `{PicardDevice D} `{IPicardCallback M} `{IConnectionReset M}.

#[export] Instance device_link : IPicardLink (link_world D M) := fun w data =>
  {| s_port := device_send (s_port w) data; s_mux := s_mux w |}.

Definition device_read (s : CBasePicardIO * link_world D M) (i : device_input)
  : outcome (CBasePicardIO * link_world D M) :=
  if device_udp (s_port s.2) then udp_read s i else serial_read s i.
#[export] Instance device_link_read : IPicardRead device_input (link_world D M) := device_read.
End device.

Inductive picard_device (A B : Type) := SerialDevice (port : A) | UdpDevice (socket : B).
Arguments SerialDevice {A B} port. Arguments UdpDevice {A B} socket.

#[export, refine] Instance picard_device_PicardDevice {A B} `{SerialPort A} `{UdpSocket B} :
  PicardDevice (picard_device A B) := {
  device_udp d := match d with SerialDevice _ => false | UdpDevice _ => true end;
  device_send d data :=
    match d with
    | SerialDevice port => SerialDevice (serial_send port data)
    | UdpDevice socket => UdpDevice (udp_send socket data)
    end;
}.
Proof. by intros []. Defined.

(** ** The receiver and a handler seen through a change of its state *)

Section transport.
Context {H : Type} `{IHDLCParser H} (f : H -> H).
Hypothesis f_frame : forall h frame,
  frameComplete (f h) frame = (h ← frameComplete h frame; Ok (f h)).

Lemma callback_transport p h :
  CHDLC_callback p (f h) = (h ← CHDLC_callback p h; Ok (f h)).
Proof. unfold CHDLC_callback. by destruct (_ && _). Qed.

(** What a flag does to the handler, as in [addByte]. *)
Definition addByte_flag_effect (p : CHDLC) (h : H) : outcome H :=
  if (2 <? length (m_buffer p))%nat then
    b2 ← vat (m_buffer p) (length (m_buffer p) - 2);
    b1 ← vat (m_buffer p) (length (m_buffer p) - 1);
    if validateChecksum (set_buffer (pop_back (pop_back (m_buffer p))) p) (u16 (b2 * 256 + b1))
    then CHDLC_callback (set_buffer (pop_back (pop_back (m_buffer p))) p) h else Ok h
  else Ok h.

Lemma addByte_transport p h b :
  addByte (p, f h) b = ('(p, h) ← addByte (p, h) b; Ok (p, f h)).
Proof.
  assert (Hflag : forall p, addByte_flag_effect p (f h) = (h ← addByte_flag_effect p h; Ok (f h))).
  { intros q. unfold addByte_flag_effect. destruct (2 <? _)%nat; [|done].
    destruct (vat _ (_ - 2)); [|done]. step_bind. destruct (vat _ _); [|done]. step_bind.
    destruct (validateChecksum _ _); [apply callback_transport|done]. }
  unfold addByte. destruct (m_state p); [| |done].
  all: destruct (b =? HDLC_ESCCHAR); [done|]; destruct (b =? HDLC_PADDING); [|done].
  all: specialize (Hflag p); unfold addByte_flag_effect in Hflag; rewrite Hflag.
  all: by rewrite !bind_assoc.
Qed.

Lemma addBytes_transport bs p h :
  foldM addByte (p, f h) bs = ('(p, h) ← foldM addByte (p, h) bs; Ok (p, f h)).
Proof.
  revert p h; induction bs as [|b bs IH]; intros p h; [done|].
  cbn [foldM]. rewrite addByte_transport. destruct (addByte (p, h) b) as [[p' h']|]; [|done].
  step_bind. apply IH.
Qed.
End transport.

Section hdlc_field.
Context {E : Type} `{IPicardCallback E} `{IPicardLink E} `{IConnectionReset E}.

(** [frameComplete] neither reads nor writes [m_hdlc]. *)
Lemma frameComplete_set_hdlc x (s : CBasePicardIO * E) frame :
  picard_frameComplete (set_hdlc x s.1, s.2) frame
  = (s ← picard_frameComplete s frame; Ok (set_hdlc x s.1, s.2)).
Proof.
  destruct s as [io e]. cbn [fst snd].
  destruct (frame_cases frame) as [Hi|(c & t & q & y & p & ->)]; [by rewrite !Hi|].
  rewrite !frameComplete_frame.
  unfold onHelloResponse, onMgrHello, onNotification, onResponse, record_protocol, sendAck.
  repeat match goal with
    | |- context [vat ?l ?i] => destruct (vat l i); step_bind
    | |- context [if ?b then _ else _] => destruct b eqn:?; cbn [m_connected set_hdlc m_callback
        set_protocol set_seqs m_mgrSeqNo] in *; step_bind
    | |- context [let '(_, _) := ?x in _] => destruct x
    | |- context [commandComplete ?e ?t ?q ?r ?p] => destruct (commandComplete e t q r p); step_bind
    | |- context [handleNotif ?e ?t ?p] => destruct (handleNotif e t p); step_bind
    end; try done; try congruence.
Qed.
End hdlc_field.

(** ** Serial reads *)

Section serial_facts.
Context {E : Type} `{IPicardCallback E} `{IPicardLink E} `{IConnectionReset E}.
Implicit Types (io : CBasePicardIO) (w : E).

Lemma frames_set_hdlc x io w frames :
  m_hdlc io = x ->
  foldM picard_frameComplete (io, w) frames
  = (s ← foldM picard_frameComplete (io, w) frames; Ok (set_hdlc x s.1, s.2)).
Proof.
  revert io w; induction frames as [|f frames IH]; intros io w Hx.
  - cbn. destruct io. cbn in Hx. by subst.
  - cbn [foldM]. assert (Hio : set_hdlc x io = io) by (destruct io; cbn in Hx; by subst).
    pose proof (frameComplete_set_hdlc x (io, w) f) as Hf. cbn [fst snd] in Hf. rewrite Hio in Hf.
    destruct (picard_frameComplete (io, w) f) as [[io1 w1]|]; [|done]. step_bind.
    apply IH. injection Hf as ->. done.
Qed.

Lemma addBytes_set_hdlc x hdlc io w bs :
  foldM addByte (hdlc, (set_hdlc x io, w)) bs
  = ('(hdlc, s) ← foldM addByte (hdlc, (io, w)) bs; Ok (hdlc, (set_hdlc x s.1, s.2))).
Proof.
  exact (addBytes_transport (fun s : CBasePicardIO * E => (set_hdlc x s.1, s.2))
    (frameComplete_set_hdlc x) bs hdlc (io, w)).
Qed.

Lemma serial_reads io w hdlc chunks :
  m_hdlc io = Some hdlc ->
  foldM serial_read (io, w) (DeviceBytes <$> chunks)
  = ('(hdlc, (io, w)) ← foldM addByte (hdlc, (io, w)) (concat chunks);
     Ok (set_hdlc (Some hdlc) io, w)).
Proof.
  revert io w hdlc; induction chunks as [|c chunks IH]; intros io w hdlc Hh.
  - cbn. destruct io. cbn in Hh. by subst.
  - cbn [fmap list_fmap foldM concat serial_read]. rewrite Hh, foldM_app.
    destruct (foldM addByte (hdlc, (io, w)) c) as [[h1 [io1 w1]]|]; [|done]. step_bind.
    fold (@fmap list _ _ _ DeviceBytes chunks). rewrite (IH _ _ h1) by done.
    pose proof (addBytes_set_hdlc (Some h1) h1 io1 w1 (concat chunks)) as Ht. rewrite Ht.
    by destruct (foldM addByte (h1, (io1, w1)) (concat chunks)) as [[h2 [io2 w2]]|].
Qed.

Lemma serial_stream io w frames chunks :
  m_hdlc io = Some (new_CHDLC INPUT_BUFFER_LEN true) -> Forall bytes_ok frames ->
  concat chunks = concat (encodeHDLC <$> frames) ->
  foldM serial_read (io, w) (DeviceBytes <$> chunks)
  = foldM picard_frameComplete (io, w) (base.filter (fun f => f <> []) frames).
Proof.
  intros Hh Hf Hc. rewrite (serial_reads _ _ _ _ Hh), Hc.
  pose proof (feed_encode_list frames (new_CHDLC INPUT_BUFFER_LEN true) (io, w)) as He.
  unfold feed in He. rewrite He by (done || apply new_wf).
  pose proof (frames_set_hdlc _ io w (base.filter (fun f => f <> []) frames) Hh) as Hs.
  unfold frameComplete, picard_IHDLCParser.
  destruct (foldM picard_frameComplete (io, w) _) as [[io1 w1]|]; [|done].
  injection Hs as Hs. step_bind. rewrite Hs at 2. by destruct (decide (frames = [])).
Qed.
End serial_facts.

(** ** What a frame does to the surroundings *)

Lemma frame_env {E} `{IPicardCallback E} `{IPicardLink E} `{IConnectionReset E} (Q : E -> Prop) :
  (forall e data, Q e -> Q (sendRaw e data)) ->
  (forall e, Q e -> Q (resetOthers e)) ->
  (forall e t q rc p e', Q e -> commandComplete e t q rc p = Ok e' -> Q e') ->
  (forall e t p e', Q e -> handleNotif e t p = Ok e' -> Q e') ->
  forall (s : CBasePicardIO * E) frame s',
  Q s.2 -> picard_frameComplete s frame = Ok s' -> Q s'.2.
Proof.
  intros Hsend Hreset Hcomplete Hnotif [io e] frame s' HQ. cbn [snd] in HQ.
  destruct (frame_cases (E := E) frame) as [Hi|(c & t & q & x & p & ->)];
    [rewrite Hi; by intros [= <-]|].
  rewrite frameComplete_frame. destruct (_ && _) eqn:Hb1.
  { intros Hx. by apply bind_Ok_inv in Hx as (io1 & _ & [= <-]). }
  destruct ((t =? MGR_HELLO) && _).
  { rewrite onMgrHello_frame. cbn zeta. destruct (m_connected _); intros [= <-]; [by apply Hreset|done]. }
  destruct ((t =? NOTIFICATION) && _ && _).
  { unfold onNotification.
    assert (Hsent : Q (if negb (Z.land c 2 =? 0) then sendAck io e t q else (io, e)).2).
    { destruct (negb _); [by apply Hsend|done]. }
    destruct (if negb _ then _ else _) as [io1 e1]. cbn [snd] in Hsent.
    change (vat _ SERIAL_API_HEADER_LEN) with (Ok x). rewrite bind_Ok.
    intros Hx. apply bind_Ok_inv in Hx as (e' & He & [= <-]). cbn [snd].
    destruct (m_callback io1 && _); [eauto|by injection He as <-]. }
  destruct ((NOTIFICATION <? t) && _ && _); [|by intros [= <-]].
  rewrite onResponse_frame. intros Hx. apply bind_Ok_inv in Hx as (e' & He & [= <-]). cbn [snd].
  destruct (m_callback io); [eauto|by injection He as <-].
Qed.

(** ** Reads of either link *)

Lemma set_hdlc_same io x : m_hdlc io = x -> set_hdlc x io = io.
Proof. destruct io. cbn. by intros ->. Qed.

Lemma udp_read_datagram {E} `{IPicardCallback E} `{IPicardLink E} `{IConnectionReset E}
  (s : CBasePicardIO * E) datagram :
  udp_read s (DeviceBytes datagram)
  = match datagram with
    | [] => Undefined BadRange
    | _ :: frame => picard_frameComplete s (take (INPUT_BUFFER_LEN - 1) frame)
    end.
Proof.
  destruct datagram as [|d frame]; [done|]. unfold udp_read, range.
  change (take INPUT_BUFFER_LEN (d :: frame)) with (d :: take (INPUT_BUFFER_LEN - 1) frame).
  generalize (take (INPUT_BUFFER_LEN - 1) frame) as x. intros x.
  cbn [length Nat.leb app drop]. step_bind. f_equal.
  replace (S (length x) - 1)%nat with (length x) by lia. by rewrite drop_0, take_app_length.
Qed.

(** The receiver of the connection is in place and well formed. *)
Definition hdlc_ok (io : CBasePicardIO) : Prop := exists p, m_hdlc io = Some p /\ wf p.

Definition input_ok (i : device_input) : Prop :=
  match i with DeviceBytes bs => bytes_ok bs | DeviceException => True end.

(** An empty datagram. *)
Definition empty_datagram {D} `{PicardDevice D} (d : D) (i : device_input) : bool :=
  device_udp d && match i with DeviceBytes [] => true | _ => false end.

Section device_facts.
Context {D M : Type} `{PicardDevice D} `{IPicardCallback M} `{IConnectionReset M}.
Implicit Types (io : CBasePicardIO) (w : link_world D M).

(** A read is a reset, or some frames, or undefined. *)
Lemma device_read_cases io w i :
  hdlc_ok io -> input_ok i ->
  if empty_datagram (s_port w) i then device_read (io, w) i = Undefined BadRange
  else
    device_read (io, w) i = Ok (resetConnection io w) \/
    exists p frames,
      device_read (io, w) i
      = (s ← foldM picard_frameComplete (io, w) frames; Ok (set_hdlc (Some p) s.1, s.2)) /\
      forall s, device_read (io, w) i = Ok s -> wf p.
Proof.
  intros (p & Hp & Hwf) Hi. unfold device_read, empty_datagram. cbn [snd].
  destruct (device_udp (s_port w)); cbn [andb].
  - destruct i as [[|d frame]|]; [done| |].
    + right. rewrite udp_read_datagram. exists p, [take (INPUT_BUFFER_LEN - 1) frame]. split; [|done].
      pose proof (frameComplete_set_hdlc (Some p) (io, w) (take (INPUT_BUFFER_LEN - 1) frame)) as Hf.
      cbn [fst snd] in Hf. rewrite set_hdlc_same in Hf by done. cbn [foldM]. by rewrite Hf, bind_ret at 1.
    + right. exists p, []. split; [|done]. cbn. by rewrite set_hdlc_same.
  - destruct i as [bs|]; [|by left].
    replace (match bs with [] => _ | _ => _ end) with false by by destruct bs. right.
    cbn [serial_read]. rewrite Hp. destruct (feed_segments bs p (io, w) Hwf Hi) as (p' & _ & Heq).
    pose proof (feed_wf p (io, w) bs) as Hwf'. unfold feed in Heq, Hwf'. rewrite Heq in Hwf' |- *.
    match type of Heq with _ = (h ← foldM _ _ ?l; _) => exists p', l; set (frames := l) in * end.
    change (@frameComplete (CBasePicardIO * link_world D M) picard_IHDLCParser)
      with (@picard_frameComplete (link_world D M) _ _ _) in *.
    destruct (foldM picard_frameComplete (io, w) frames) as [[io1 w1]|]; [|done].
    split; [done|]. intros s _. by eapply Hwf'.
Qed.

(** The device stays of its kind. *)
Lemma frames_kind frames (s s' : CBasePicardIO * link_world D M) :
  foldM picard_frameComplete s frames = Ok s' ->
  device_udp (s_port s'.2) = device_udp (s_port s.2).
Proof.
  assert (Hf : forall s frame s', picard_frameComplete s frame = Ok s' ->
    device_udp (s_port s'.2) = device_udp (s_port s.2)).
  { intros s0 f s1. apply (frame_env (fun w => device_udp (s_port w) = device_udp (s_port s0.2))).
    - intros w data Hw. cbn. by rewrite device_send_kind.
    - done.
    - intros w t q rc p w' Hw Hx. cbn in Hx. by apply bind_Ok_inv in Hx as (m & _ & [= <-]).
    - intros w t p w' Hw Hx. cbn in Hx. by apply bind_Ok_inv in Hx as (m & _ & [= <-]).
    - done. }
  revert s. induction frames as [|f frames IH]; intros s; cbn [foldM]; [by intros [= <-]|].
  intros Hx. apply bind_Ok_inv in Hx as (s1 & Hs1 & Hx). rewrite (IH _ Hx). by eapply Hf.
Qed.

Lemma device_read_kind io w i s' :
  hdlc_ok io -> input_ok i -> device_read (io, w) i = Ok s' ->
  device_udp (s_port s'.2) = device_udp (s_port w).
Proof.
  intros Hh Hi Hr. pose proof (device_read_cases io w i Hh Hi) as Hc.
  destruct (empty_datagram _ _); [congruence|]. destruct Hc as [Hc|(p & frames & Hc & _)].
  - rewrite Hc in Hr. by injection Hr as <-.
  - rewrite Hc in Hr. apply bind_Ok_inv in Hr as (s1 & Hs1 & [= <-]). exact (frames_kind _ _ _ Hs1).
Qed.
End device_facts.

(** ** A frame on either link *)

Section wire.
Context {A B M : Type} `{SerialPort A} `{UdpSocket B} `{IPicardCallback M} `{IConnectionReset M}.

(** How a frame of the peer arrives: in HDLC at a receiver between frames, or
    behind a byte in a datagram that fits the buffer. *)
Definition frame_input (d : picard_device A B) (io : CBasePicardIO) (frame : list Z)
  (i : device_input) : Prop :=
  match d with
  | SerialDevice _ =>
      m_hdlc io = Some (new_CHDLC INPUT_BUFFER_LEN true) /\ i = DeviceBytes (encodeHDLC frame)
  | UdpDevice _ => (length frame < INPUT_BUFFER_LEN)%nat /\ exists b, i = DeviceBytes (b :: frame)
  end.

(** The device after a frame has been sent on it. *)
Definition frame_written (d : picard_device A B) (frame : list Z) : picard_device A B :=
  match d with
  | SerialDevice port => SerialDevice (serial_write port (encodeHDLC frame))
  | UdpDevice socket => UdpDevice (send_to socket (0 :: frame))
  end.

Lemma device_read_frame (io : CBasePicardIO) (w : link_world (picard_device A B) M) frame i :
  bytes_ok frame -> frame <> [] -> frame_input (s_port w) io frame i ->
  device_read (io, w) i = picard_frameComplete (io, w) frame.
Proof.
  intros Hb Hne. unfold device_read, frame_input. cbn [snd].
  destruct w as [[port|socket] m]; cbn [s_port device_udp picard_device_PicardDevice].
  - intros [Hh ->].
    pose proof (serial_stream io {| s_port := SerialDevice (B := B) port; s_mux := m |}
      [frame] [encodeHDLC frame] Hh ltac:(by constructor)) as Hs.
    cbn [fmap list_fmap concat foldM] in Hs. rewrite app_nil_r, bind_ret in Hs.
    rewrite Hs, filter_cons_True, filter_nil by done. cbn [foldM]. by rewrite bind_ret.
  - intros [Hl [b ->]]. rewrite udp_read_datagram. f_equal. apply take_ge.
    unfold INPUT_BUFFER_LEN in *. lia.
Qed.
End wire.

(** ** Properties *)

(** The serial link delivers frames.  Whatever way the bytes of a peer's
    encoded frames are cut into reads, the reads have exactly the effect of
    [frameComplete] on the frames, in order, each once, and leave the receiver
    ready for the next. *)
Lemma serial_link_delivery {P M} `{SerialPort P} `{IPicardCallback M} `{IConnectionReset M}
  io (w : serial_world P M) frames chunks :
  m_hdlc io = Some (new_CHDLC INPUT_BUFFER_LEN true) -> Forall bytes_ok frames ->
  concat chunks = concat (encodeHDLC <$> frames) ->
  foldM serial_read (io, w) (DeviceBytes <$> chunks)
  = foldM picard_frameComplete (io, w) (base.filter (fun f => f <> []) frames).
Proof. apply serial_stream. Qed.

(** The UDP link.  A datagram of up to [INPUT_BUFFER_LEN] bytes is a dummy
    byte and a frame, so what one side's [sendRaw] hands to the socket is read by
    the other as that frame; a longer one is cut; an empty one makes the range
    [begin()+1 .. begin()+0], which is undefined. *)
Lemma udp_link_datagrams {P M} `{UdpSocket P} `{IPicardCallback M} `{IConnectionReset M}
  (s : CBasePicardIO * udp_world P M) (peer : udp_world (list (list Z)) M) frame d :
  let _ : UdpSocket (list (list Z)) := push_back in
  s_port (udp_sendRaw peer frame) = s_port peer ++ [0 :: frame] /\
  udp_read s (DeviceBytes (d :: frame))
    = picard_frameComplete s (take (INPUT_BUFFER_LEN - 1) frame) /\
  udp_read s (DeviceBytes []) = Undefined BadRange.
Proof.
  intros _sock. split; [reflexivity|]. split; [exact (udp_read_datagram s (d :: frame))|reflexivity].
Qed.

(** ** Witnesses: a port that records what is written *)

Definition port_log := list Z.
#[export] Instance port_log_port : SerialPort port_log := fun p bytes => p ++ bytes.

(** A socket that records the datagrams. *)
Definition datagram_log := list (list Z).
#[export] Instance datagram_log_socket : UdpSocket datagram_log := push_back.

Definition sample_world : serial_world port_log picard_log := {| s_port := []; s_mux := [] |}.
Definition thread_io : CBasePicardIO :=
  set_hdlc (Some (new_CHDLC INPUT_BUFFER_LEN true)) open_io.

(** A notification and a response, cut in the middle of the first frame: the
    notification is acknowledged on the port, both reach the callback. *)
Lemma serial_link_delivery_witness :
  let frames := [picard_frame 2 NOTIFICATION 8 [1; 0x7E]; picard_frame 3 30 255 [0]] in
  let bytes := concat (encodeHDLC <$> frames) in
  exists io', foldM serial_read (thread_io, sample_world) (DeviceBytes <$> [take 5 bytes; drop 5 bytes])
    = Ok (io', {| s_port := encodeHDLC [3; NOTIFICATION; 8; 1; 0];
                  s_mux := [Notified 1 [0x7E]; Completed 30 255 0 []] |}).
Proof.
  intros frames bytes. eexists. etransitivity.
  - apply (serial_link_delivery thread_io sample_world frames).
    + reflexivity.
    + repeat (apply Forall_cons; split; [by apply (bool_decide_unpack _)|]). done.
    + vm_compute. reflexivity.
  - vm_compute. reflexivity.
Defined.
