(* ===== verification/SerialRead.v ===== *)
(** * The asynchronous serial read ([serial_mux/PicardBoost.h], [PicardBoost.cpp])

    [CPicardBoost_Serial::read_async] runs on the Picard thread and starts an
    asynchronous read into a local buffer; [handleRead] runs on the thread of
    [io_service].  They share [m_readComplete] and [m_readLen] under [m_readLock]
    and signal with [m_readSem].  The model cuts the reader at its lock and
    blocking points, keeps the buffers alive in a store, and keeps the reads the
    port has not completed apart from the completions whose handler has not run:
    [cancel] ends only the former. *)

From Stdlib Require Import ZArith Lia.
From stdpp Require Import base list gmap.
From S2P Require Import Prelude Hdlc Common MuxMessage BasePicard PicardLink.
Import Receiver Encoder Delivery.
#[local] Open Scope Z_scope.

(** ** State *)

(** The [error_code] and byte count a handler is called with. *)
Inductive read_outcome := Transferred (bytes : nat) | Aborted | Failed.

#[export] Instance read_outcome_eq_dec : EqDecision read_outcome.
Proof. solve_decision. Defined.

(** The reader: between calls, [m_readComplete] cleared, the read started and
    the lock wanted, in [timed_wait] (and whether it is over), in the loop over
    the bytes read.  The argument is the local [input]. *)
Inductive reader_pc :=
  | RIdle
  | RCleared
  | RStarted (input : nat)
  | RWaiting (input : nat) (woken : bool)
  | RDeliver (input : nat) (i : nat).

#[export] Instance reader_pc_eq_dec : EqDecision reader_pc.
Proof. solve_decision. Defined.

Record serial_monitor (S : Type) := {
  m_readComplete : bool;
  m_readLen : nat;
  rd_buffers : gmap nat (list Z);      (* the live [input] vectors *)
  rd_fresh : nat;                      (* the next one's address *)
  rd_outstanding : list nat;           (* reads the port has not completed *)
  rd_completions : list read_outcome;  (* completed, the handler not yet run *)
  rd_pc : reader_pc;
  rd_sink : S;                         (* what [addByte] and [resetConnection] change *)
  rd_received : list Z;                (* every byte taken from the port *)
}.
Arguments m_readComplete {S} _. Arguments m_readLen {S} _. Arguments rd_buffers {S} _.
Arguments rd_fresh {S} _. Arguments rd_outstanding {S} _. Arguments rd_completions {S} _.
Arguments rd_pc {S} _. Arguments rd_sink {S} _. Arguments rd_received {S} _.

Section monitor.
Context {S : Type} (addByte : S -> Z -> outcome S) (resetConnection : S -> S).
Implicit Types (m : serial_monitor S).

Definition new_serial_monitor (s : S) : serial_monitor S :=
  {| m_readComplete := false; m_readLen := 0; rd_buffers := ∅; rd_fresh := 0;
     rd_outstanding := []; rd_completions := []; rd_pc := RIdle; rd_sink := s;
     rd_received := [] |}.

Definition rd_goto (pc : reader_pc) m : serial_monitor S :=
  {| m_readComplete := m_readComplete m; m_readLen := m_readLen m; rd_buffers := rd_buffers m;
     rd_fresh := rd_fresh m; rd_outstanding := rd_outstanding m;
     rd_completions := rd_completions m; rd_pc := pc; rd_sink := rd_sink m;
     rd_received := rd_received m |}.
Definition rd_set_complete (b : bool) (len : nat) m : serial_monitor S :=
  {| m_readComplete := b; m_readLen := len; rd_buffers := rd_buffers m;
     rd_fresh := rd_fresh m; rd_outstanding := rd_outstanding m;
     rd_completions := rd_completions m; rd_pc := rd_pc m; rd_sink := rd_sink m;
     rd_received := rd_received m |}.
Definition rd_set_ops (outstanding : list nat) (completions : list read_outcome) m
  : serial_monitor S :=
  {| m_readComplete := m_readComplete m; m_readLen := m_readLen m; rd_buffers := rd_buffers m;
     rd_fresh := rd_fresh m; rd_outstanding := outstanding; rd_completions := completions;
     rd_pc := rd_pc m; rd_sink := rd_sink m; rd_received := rd_received m |}.
Definition rd_set_buffers (buffers : gmap nat (list Z)) (fresh : nat) m : serial_monitor S :=
  {| m_readComplete := m_readComplete m; m_readLen := m_readLen m; rd_buffers := buffers;
     rd_fresh := fresh; rd_outstanding := rd_outstanding m;
     rd_completions := rd_completions m; rd_pc := rd_pc m; rd_sink := rd_sink m;
     rd_received := rd_received m |}.
Definition rd_set_sink (s : S) m : serial_monitor S :=
  {| m_readComplete := m_readComplete m; m_readLen := m_readLen m; rd_buffers := rd_buffers m;
     rd_fresh := rd_fresh m; rd_outstanding := rd_outstanding m;
     rd_completions := rd_completions m; rd_pc := rd_pc m; rd_sink := s;
     rd_received := rd_received m |}.
Definition rd_receive (bs : list Z) m : serial_monitor S :=
  {| m_readComplete := m_readComplete m; m_readLen := m_readLen m; rd_buffers := rd_buffers m;
     rd_fresh := rd_fresh m; rd_outstanding := rd_outstanding m;
     rd_completions := rd_completions m; rd_pc := rd_pc m; rd_sink := rd_sink m;
     rd_received := rd_received m ++ bs |}.

(** ** Operations *)

(** [m_readSem.notify_one()] *)
Definition readSem_notify m : serial_monitor S :=
  match rd_pc m with
  | RWaiting input _ => rd_goto (RWaiting input true) m
  | _ => m
  end.

(** [handleRead] *)
Definition handleRead (result : read_outcome) m : serial_monitor S :=
  match result with
  | Transferred bytes => readSem_notify (rd_set_complete true bytes m)
  | Aborted => rd_set_complete true (m_readLen m) m
  | Failed => readSem_notify (rd_set_complete true (m_readLen m) m)
  end.

(** [m_serial.cancel()]: every read the port has not completed is aborted. *)
Definition serial_cancel m : serial_monitor S :=
  rd_set_ops [] (rd_completions m ++ (const Aborted <$> rd_outstanding m)) m.

(** The end of the scope of [input]. *)
Definition free_input (input : nat) m : serial_monitor S :=
  rd_set_buffers (delete input (rd_buffers m)) (rd_fresh m) m.

(** [input] through a reference to it. *)
Definition deref_input (input : nat) m : outcome (list Z) :=
  match rd_buffers m !! input with
  | Some buffer => Ok buffer
  | None => Undefined UseAfterFree
  end.

(** [read_async] up to its next lock or blocking point; [ok] says whether
    [cancel] succeeds or throws. *)
Definition read_async (ok : bool) m : outcome (serial_monitor S) :=
  match rd_pc m with
  | RIdle => Ok (rd_goto RCleared (rd_set_complete false (m_readLen m) m))
  | RCleared =>
      let input := rd_fresh m in
      let m := rd_set_buffers (<[input := replicate INPUT_BUFFER_LEN 0]> (rd_buffers m))
                 (Nat.succ input) m in
      let m := rd_set_complete (m_readComplete m) 0 m in
      Ok (rd_goto (RStarted input)
            (rd_set_ops (rd_outstanding m ++ [input]) (rd_completions m) m))
  | RStarted input =>
      Ok (rd_goto (if m_readComplete m then RDeliver input 0 else RWaiting input false) m)
  | RWaiting input false => Ok m
  | RWaiting input true =>
      if ok then Ok (rd_goto (RDeliver input 0) (serial_cancel m))
      else
        let m := free_input input m in
        Ok (rd_goto RIdle (rd_set_sink (resetConnection (rd_sink m)) m))
  | RDeliver input i =>
      if (i <? m_readLen m)%nat then
        buffer ← deref_input input m;
        b ← vat buffer i;
        s ← addByte (rd_sink m) b;
        Ok (rd_goto (RDeliver input (Nat.succ i)) (rd_set_sink s m))
      else Ok (rd_goto RIdle (free_input input m))
  end.

(** ** Events *)

Inductive read_event :=
  | RThread (ok : bool)          (* the Picard thread runs *)
  | RData (bytes : list Z)       (* the port completes the oldest read *)
  | RFail                        (* the same, with an error *)
  | RHandler                     (* io_service runs the oldest queued handler *)
  | RTimeout.                    (* timed_wait is over *)

Definition rd_exec m (e : read_event) : outcome (serial_monitor S) :=
  match e with
  | RThread ok => read_async ok m
  | RData bytes =>
      match rd_outstanding m with
      | input :: rest =>
          if bool_decide (0 < length bytes <= INPUT_BUFFER_LEN)%nat then
            buffer ← deref_input input m;
            let m := rd_set_buffers
                       (<[input := bytes ++ drop (length bytes) buffer]> (rd_buffers m))
                       (rd_fresh m) m in
            Ok (rd_receive bytes
                  (rd_set_ops rest (rd_completions m ++ [Transferred (length bytes)]) m))
          else Ok m
      | [] => Ok m
      end
  | RFail =>
      match rd_outstanding m with
      | _ :: rest => Ok (rd_set_ops rest (rd_completions m ++ [Failed]) m)
      | [] => Ok m
      end
  | RHandler =>
      match rd_completions m with
      | result :: rest => Ok (handleRead result (rd_set_ops (rd_outstanding m) rest m))
      | [] => Ok m
      end
  | RTimeout => Ok (readSem_notify m)
  end.

Definition rd_run m (es : list read_event) : outcome (serial_monitor S) := foldM rd_exec m es.

Lemma rd_exec_data m input rest buffer bytes :
  rd_outstanding m = input :: rest -> rd_buffers m !! input = Some buffer ->
  (0 < length bytes <= INPUT_BUFFER_LEN)%nat ->
  rd_exec m (RData bytes) =
    Ok (rd_receive bytes (rd_set_ops rest (rd_completions m ++ [Transferred (length bytes)])
          (rd_set_buffers (<[input := bytes ++ drop (length bytes) buffer]> (rd_buffers m))
             (rd_fresh m) m))).
Proof.
  intros Ho Hb Hlen. cbn [rd_exec]. rewrite Ho, bool_decide_eq_true_2 by done.
  unfold deref_input. by rewrite Hb.
Qed.

Lemma rd_exec_data_freed m input rest bytes :
  rd_outstanding m = input :: rest -> rd_buffers m !! input = None ->
  (0 < length bytes <= INPUT_BUFFER_LEN)%nat ->
  rd_exec m (RData bytes) = Undefined UseAfterFree.
Proof.
  intros Ho Hb Hlen. cbn [rd_exec]. rewrite Ho, bool_decide_eq_true_2 by done.
  unfold deref_input. by rewrite Hb.
Qed.

(** The schedules in which [io_service] is prompt: the handlers of completed
    reads have run when the reader leaves [timed_wait] and when it starts the
    next read, and [cancel] succeeds. *)
Definition on_time m (e : read_event) : bool :=
  match e, rd_pc m with
  | RThread _, RIdle => bool_decide (rd_completions m = [])
  | RThread ok, RWaiting _ true => ok && bool_decide (rd_completions m = [])
  | _, _ => true
  end.

Fixpoint prompt m (es : list read_event) : bool :=
  match es with
  | [] => true
  | e :: es => on_time m e && match rd_exec m e with Ok m => prompt m es | Undefined _ => true end
  end.
End monitor.

(** ** The invariant of prompt schedules *)

#[local] Arguments INPUT_BUFFER_LEN : simpl never.

Section invariant.
Context {S : Type} (addByte : S -> Z -> outcome S) (resetConnection : S -> S).
Implicit Types (m : serial_monitor S) (und : list Z).

Abbreviation aborted := (Forall (fun r => r = Aborted)).

(** What [buffer] and the flags hold while the read into it is on its way; [und]
    are the bytes taken from the port and not yet delivered. *)
Inductive reading m (input : nat) (buffer und : list Z) : Prop :=
  | reading_started :
      rd_outstanding m = [input] -> rd_completions m = [] -> m_readComplete m = false ->
      m_readLen m = 0%nat -> und = [] -> reading m input buffer und
  | reading_failed :
      rd_outstanding m = [] -> rd_completions m = [Failed] -> m_readComplete m = false ->
      m_readLen m = 0%nat -> und = [] -> reading m input buffer und
  | reading_completed :
      rd_outstanding m = [] -> rd_completions m = [Transferred (length und)] ->
      m_readComplete m = false -> m_readLen m = 0%nat ->
      take (length und) buffer = und -> reading m input buffer und
  | reading_handled :
      rd_outstanding m = [] -> rd_completions m = [] -> m_readComplete m = true ->
      m_readLen m = length und -> take (length und) buffer = und -> reading m input buffer und.

Definition phase m und : Prop :=
  match rd_pc m with
  | RIdle =>
      und = [] /\ rd_outstanding m = [] /\ rd_buffers m = ∅ /\ aborted (rd_completions m)
  | RCleared =>
      und = [] /\ rd_outstanding m = [] /\ rd_buffers m = ∅ /\ rd_completions m = [] /\
      m_readComplete m = false
  | RStarted input | RWaiting input _ =>
      exists buffer, rd_buffers m = {[input := buffer]} /\ length buffer = INPUT_BUFFER_LEN /\
        reading m input buffer und
  | RDeliver input i =>
      exists buffer, rd_buffers m = {[input := buffer]} /\ length buffer = INPUT_BUFFER_LEN /\
        rd_outstanding m = [] /\ aborted (rd_completions m) /\
        (i <= m_readLen m <= INPUT_BUFFER_LEN)%nat /\ und = drop i (take (m_readLen m) buffer)
  end.

(** [out] has been delivered. *)
Definition read_inv (s0 : S) m : Prop :=
  exists out und, foldM addByte s0 out = Ok (rd_sink m) /\ rd_received m = out ++ und /\
    phase m und.

Lemma inv_idle s0 m : phase m [] -> foldM addByte s0 (rd_received m) = Ok (rd_sink m) -> read_inv s0 m.
Proof. intros Hp Hf. exists (rd_received m), []. by rewrite app_nil_r. Qed.

(** The steps that deliver nothing keep what is delivered and undelivered. *)
Lemma read_inv_frame s0 m m' :
  rd_sink m' = rd_sink m -> rd_received m' = rd_received m ->
  (forall und, phase m und -> phase m' und) -> read_inv s0 m -> read_inv s0 m'.
Proof.
  intros Hs Hr Hp (out & und & Hf & Hin & Hph). exists out, und. rewrite Hs, Hr. eauto.
Qed.

Lemma reader_inv s0 m ok :
  on_time m (RThread ok) = true -> read_inv s0 m ->
  match read_async addByte resetConnection ok m with
  | Ok m' => read_inv s0 m'
  | Undefined why => exists out, foldM addByte s0 out = Undefined why
  end.
Proof.
  intros Hon Hi. unfold read_async. cbn [on_time] in Hon.
  destruct (rd_pc m) as [| |input|input [|]|input i] eqn:Hpc.
  - apply bool_decide_eq_true_1 in Hon. revert Hi. apply read_inv_frame; [done..|].
    intros und. unfold phase; cbn. rewrite Hpc. naive_solver.
  - revert Hi. apply read_inv_frame; [done..|]. intros und. unfold phase; cbn. rewrite Hpc.
    intros (-> & Ho & Hb & Hc & Hrc). eexists. rewrite Ho, Hb, insert_empty.
    split_and!; [done|by apply length_replicate|]. by apply reading_started.
  - revert Hi. apply read_inv_frame; [done..|]. intros und. unfold phase; cbn. rewrite Hpc.
    intros (buffer & Hb & Hl & Hr). destruct (m_readComplete m) eqn:Hrc; cbn; eauto.
    + exists buffer. destruct Hr; try congruence. split_and!; try done; [by rewrite H0|lia| |].
      * rewrite H2, <- Hl. rewrite <- H3. rewrite length_take. lia.
      * by rewrite H2, drop_0.
    + exists buffer. split_and!; [done..|]. destruct Hr; [by apply reading_started|by apply reading_failed
        |by apply reading_completed|by apply reading_handled].
  - apply andb_true_iff in Hon as [-> Hon]. apply bool_decide_eq_true_1 in Hon.
    revert Hi. apply read_inv_frame; [done..|]. intros und. unfold phase; cbn. rewrite Hpc.
    intros (buffer & Hb & Hl & Hr). exists buffer. rewrite Hon. cbn.
    split_and!; [done|done|done|..].
    + apply Forall_fmap, Forall_true. done.
    + lia.
    + destruct Hr; try congruence; [rewrite H2; lia|]. rewrite H2, <- Hl, <- H3, length_take. lia.
    + destruct Hr; try congruence; [by rewrite H2, H3|]. by rewrite H2, drop_0.
  - revert Hi. by apply read_inv_frame.
  - unfold read_inv, phase in Hi. rewrite Hpc in Hi.
    destruct Hi as (out & und & Hf & Hin & buffer & Hb & Hl & Ho & Hc & Hi & ->).
    destruct (Nat.ltb_spec i (m_readLen m)) as [Hlt|Hge].
    + unfold deref_input. rewrite Hb, lookup_singleton_eq. step_bind.
      destruct (lookup_lt_is_Some_2 buffer i) as [b Hbi]; [lia|]. rewrite (vat_Ok _ _ _ Hbi). step_bind.
      assert (Hd : drop i (take (m_readLen m) buffer) = b :: drop (Datatypes.S i) (take (m_readLen m) buffer)).
      { apply drop_S. by rewrite lookup_take_lt. }
      destruct (addByte (rd_sink m) b) as [s|why] eqn:Ha.
      * exists (out ++ [b]), (drop (Datatypes.S i) (take (m_readLen m) buffer)). split_and!.
        -- rewrite foldM_app, Hf. step_bind. by rewrite Ha.
        -- cbn. by rewrite Hin, Hd, <- (assoc_L app).
        -- unfold phase; cbn. exists buffer. split_and!; try done; lia.
      * exists (out ++ [b]). rewrite foldM_app, Hf. step_bind. by rewrite Ha.
    + apply inv_idle.
      * unfold phase; cbn. rewrite Hb, delete_singleton_eq. done.
      * cbn. rewrite Hin, drop_ge, app_nil_r; [done|]. rewrite length_take. lia.
Qed.

(** A completion concerns the one read that is outstanding. *)
Lemma outstanding_reading m und input rest :
  phase m und -> rd_outstanding m = input :: rest ->
  exists buffer, rest = [] /\ und = [] /\ rd_buffers m = {[input := buffer]} /\
    length buffer = INPUT_BUFFER_LEN /\ rd_completions m = [] /\ m_readComplete m = false /\
    m_readLen m = 0%nat /\ (rd_pc m = RStarted input \/ exists w, rd_pc m = RWaiting input w).
Proof.
  unfold phase. intros Hp Ho.
  destruct (rd_pc m) as [| |i|i w|i j]; [naive_solver congruence..| | |naive_solver congruence].
  all: destruct Hp as (buffer & Hb & Hl & [Ho'| | |]); try congruence.
  all: rewrite Ho in Ho'; injection Ho' as -> ->; exists buffer; naive_solver.
Qed.

Lemma data_inv s0 m bytes m' :
  read_inv s0 m -> rd_exec addByte resetConnection m (RData bytes) = Ok m' -> read_inv s0 m'.
Proof.
  intros (out & und & Hf & Hin & Hp). cbn [rd_exec].
  destruct (rd_outstanding m) as [|input rest] eqn:Ho; [intros [= <-]; by exists out, und|].
  case_bool_decide as Hlen; [|intros [= <-]; by exists out, und].
  destruct (outstanding_reading _ _ _ _ Hp Ho)
    as (buffer & -> & -> & Hb & Hl & Hc & Hrc & Hrl & Hpc).
  unfold deref_input. rewrite Hb, lookup_singleton_eq. step_bind. intros [= <-].
  exists out, bytes. split_and!; [done|cbn; by rewrite Hin, app_nil_r|].
  assert (Hr : exists b, {[input := buffer]} = ({[input := buffer]} : gmap nat (list Z)) /\
    <[input := bytes ++ drop (length bytes) buffer]> {[input := buffer]}
      = ({[input := b]} : gmap nat (list Z)) /\
    length b = INPUT_BUFFER_LEN /\ take (length bytes) b = bytes).
  { exists (bytes ++ drop (length bytes) buffer). split_and!; [done|apply insert_singleton_eq|..].
    - rewrite length_app, length_drop. lia.
    - by rewrite take_app_length. }
  destruct Hr as (b & _ & Hi & Hlb & Hbs).
  unfold phase; cbn. rewrite Hi, Hc.
  destruct Hpc as [->|[w ->]]; exists b; split_and!; try done; by apply reading_completed.
Qed.

Lemma fail_inv s0 m m' :
  read_inv s0 m -> rd_exec addByte resetConnection m RFail = Ok m' -> read_inv s0 m'.
Proof.
  intros (out & und & Hf & Hin & Hp). cbn [rd_exec].
  destruct (rd_outstanding m) as [|input rest] eqn:Ho; intros [= <-]; [by exists out, und|].
  destruct (outstanding_reading _ _ _ _ Hp Ho)
    as (buffer & -> & -> & Hb & Hl & Hc & Hrc & Hrl & Hpc).
  exists out, []. split_and!; [done|done|]. unfold phase; cbn. rewrite Hc.
  destruct Hpc as [->|[w ->]]; exists buffer; split_and!; try done; by apply reading_failed.
Qed.

Lemma timeout_inv s0 m : read_inv s0 m -> read_inv s0 (readSem_notify m).
Proof.
  apply read_inv_frame; [by unfold readSem_notify; destruct (rd_pc m)..|].
  intros und. unfold readSem_notify. destruct (rd_pc m) as [| |i|i w|i j] eqn:Hpc; [done..| |done].
  unfold phase; cbn. rewrite Hpc. intros (buffer & Hb & Hl & Hr). exists buffer. split_and!; [done..|].
  destruct Hr; [by apply reading_started|by apply reading_failed|by apply reading_completed
    |by apply reading_handled].
Qed.

Lemma handler_inv s0 m result rest :
  rd_completions m = result :: rest -> read_inv s0 m ->
  read_inv s0 (handleRead result (rd_set_ops (rd_outstanding m) rest m)).
Proof.
  intros Hc Hi. assert (Hw : forall m0 : serial_monitor S, read_inv s0 m0 -> read_inv s0 (readSem_notify m0))
    by apply timeout_inv.
  cut (read_inv s0 (rd_set_complete true
         (match result with Transferred n => n | _ => m_readLen m end)
         (rd_set_ops (rd_outstanding m) rest m))).
  { destruct result; cbn; auto. }
  revert Hi. apply read_inv_frame; [done..|]. intros und. unfold phase; cbn.
  destruct (rd_pc m) as [| |i|i w|i j] eqn:Hpc.
  - rewrite Hc. intros (? & ? & ? & Ha%Forall_cons_1). naive_solver.
  - naive_solver congruence.
  - intros (buffer & Hb & Hl & [| | |]); try congruence; rewrite Hc in H0; injection H0 as -> ->;
      exists buffer; split_and!; try done; apply reading_handled; naive_solver.
  - intros (buffer & Hb & Hl & [| | |]); try congruence; rewrite Hc in H0; injection H0 as -> ->;
      exists buffer; split_and!; try done; apply reading_handled; naive_solver.
  - intros (buffer & Hb & Hl & Ho & Ha & Hi & ->). rewrite Hc in Ha.
    apply Forall_cons_1 in Ha as [-> Ha]. exists buffer. naive_solver.
Qed.

Lemma read_exec_inv s0 m e :
  on_time m e = true -> read_inv s0 m ->
  match rd_exec addByte resetConnection m e with
  | Ok m' => read_inv s0 m'
  | Undefined why => exists out, foldM addByte s0 out = Undefined why
  end.
Proof.
  intros Hon Hi. destruct e as [ok|bytes| | |].
  - exact (reader_inv s0 m ok Hon Hi).
  - pose proof (data_inv s0 m bytes) as Hd. cbn [rd_exec] in *.
    destruct (rd_outstanding m) as [|input rest] eqn:Ho; [done|].
    case_bool_decide; [|done]. destruct Hi as (out & und & Hf & Hin & Hp).
    destruct (outstanding_reading _ _ _ _ Hp Ho) as (buffer & _ & _ & Hb & _).
    unfold deref_input in *. rewrite Hb, lookup_singleton_eq in *. apply Hd; [by exists out, und|done].
  - pose proof (fail_inv s0 m) as Hd. cbn [rd_exec] in *.
    destruct (rd_outstanding m); [done|by apply Hd].
  - cbn [rd_exec]. destruct (rd_completions m) eqn:Hc; [done|by apply handler_inv].
  - by apply timeout_inv.
Qed.

Lemma read_run_inv s0 es m :
  prompt addByte resetConnection m es = true -> read_inv s0 m ->
  match rd_run addByte resetConnection m es with
  | Ok m' => read_inv s0 m'
  | Undefined why => exists out, foldM addByte s0 out = Undefined why
  end.
Proof.
  unfold rd_run. revert m. induction es as [|e es IH]; intros m Hp Hi; [done|].
  cbn [prompt] in Hp. apply andb_true_iff in Hp as [Hon Hp]. cbn [foldM].
  pose proof (read_exec_inv s0 m e Hon Hi) as Hx.
  destruct (rd_exec addByte resetConnection m e) as [m1|why]; [|done]. step_bind. by apply IH.
Qed.

Lemma new_monitor_inv s : read_inv s (new_serial_monitor s).
Proof. by apply inv_idle. Qed.

Lemma idle_delivered s0 m :
  read_inv s0 m -> rd_pc m = RIdle -> foldM addByte s0 (rd_received m) = Ok (rd_sink m).
Proof.
  intros (out & und & Hf & Hin & Hp) Hpc. unfold phase in Hp. rewrite Hpc in Hp.
  destruct Hp as (-> & _). by rewrite Hin, app_nil_r.
Qed.
End invariant.

(** ** Every call ends *)

Section termination.
Context {S : Type} (addByte : S -> Z -> outcome S) (resetConnection : S -> S).
Hypothesis addByte_defined : forall s b, defined (addByte s b) = true.
Implicit Types (m : serial_monitor S).

(** Whatever the schedule, the reader's own buffer is alive and [m_readLen] within it. *)
Definition input_of (pc : reader_pc) : option nat :=
  match pc with
  | RIdle | RCleared => None
  | RStarted input | RWaiting input _ | RDeliver input _ => Some input
  end.

Definition live m : Prop :=
  (m_readLen m <= INPUT_BUFFER_LEN)%nat /\
  Forall (fun r => match r with Transferred n => (n <= INPUT_BUFFER_LEN)%nat | _ => True end)
    (rd_completions m) /\
  (forall input buffer, rd_buffers m !! input = Some buffer -> length buffer = INPUT_BUFFER_LEN) /\
  match input_of (rd_pc m) with Some input => is_Some (rd_buffers m !! input) | None => True end.

Lemma notify_input m : input_of (rd_pc (readSem_notify m)) = input_of (rd_pc m).
Proof. unfold readSem_notify. destruct (rd_pc m) eqn:Hpc; cbn; by rewrite ?Hpc. Qed.

Lemma notify_live m : live m -> live (readSem_notify m).
Proof.
  unfold live. rewrite notify_input. unfold readSem_notify. by destruct (rd_pc m).
Qed.

Lemma handleRead_live r m :
  match r with Transferred n => (n <= INPUT_BUFFER_LEN)%nat | _ => True end ->
  live m -> live (handleRead r m).
Proof.
  intros Hr Hl. destruct r; cbn [handleRead].
  1, 3: apply notify_live. all: destruct Hl as (? & ? & ? & ?); by unfold live; cbn; split_and!.
Qed.

Lemma delete_live m input pc s :
  live m -> input_of pc = None ->
  live (rd_goto pc (rd_set_sink s (free_input input m))).
Proof.
  intros (Hn & Hc & Hb & _) Hpc. unfold live; cbn; split_and!; [done..| |by rewrite Hpc].
  intros i buffer [_ Hi]%lookup_delete_Some. eauto.
Qed.

Lemma read_async_live ok m m' : live m -> read_async addByte resetConnection ok m = Ok m' -> live m'.
Proof.
  intros Hl. unfold read_async. pose proof Hl as (Hn & Hc & Hb & Hi).
  destruct (rd_pc m) as [| |input|input [|]|input i] eqn:Hpc.
  - intros [= <-]. unfold live; cbn; split_and!; eauto.
  - intros [= <-]. unfold live; cbn; split_and!; [lia|done| |by rewrite lookup_insert_eq].
    intros j buffer [[_ <-]|[_ Hj]]%lookup_insert_Some; [done|eauto].
  - intros [= <-]. unfold live; cbn. by destruct (m_readComplete m); split_and!.
  - destruct ok; intros [= <-].
    + unfold live; cbn; split_and!; [done| |done..]. apply Forall_app. split; [done|].
      by apply Forall_fmap, Forall_true.
    + by apply delete_live.
  - intros [= <-]. unfold live. by rewrite Hpc; split_and!.
  - destruct (_ <? _)%nat.
    + intros Hx. inv_bind. by unfold live; cbn; split_and!.
    + intros [= <-]. apply (delete_live m input RIdle (rd_sink m)); done.
Qed.

Lemma rd_exec_live m e m' : live m -> rd_exec addByte resetConnection m e = Ok m' -> live m'.
Proof.
  intros Hl. pose proof Hl as (Hn & Hc & Hb & Hi). destruct e as [ok|bytes| | |]; cbn [rd_exec].
  - by apply read_async_live.
  - destruct (rd_outstanding m) as [|input rest]; [by intros [= <-]|].
    case_bool_decide as Hlen; [|by intros [= <-]]. unfold deref_input.
    destruct (rd_buffers m !! input) as [buffer|] eqn:Hbuf; [|done]. step_bind. intros [= <-].
    unfold live; cbn; split_and!; [done| | |].
    + apply Forall_app. split; [done|]. constructor; [lia|done].
    + intros j b [[_ <-]|[_ Hj]]%lookup_insert_Some; [|eauto].
      rewrite length_app, length_drop. specialize (Hb _ _ Hbuf). lia.
    + destruct (input_of (rd_pc m)) as [j|]; [|done].
      destruct (decide (input = j)) as [->|]; [by rewrite lookup_insert_eq|].
      by rewrite lookup_insert_ne.
  - destruct (rd_outstanding m) as [|input rest]; intros [= <-]; [done|].
    unfold live; cbn; split_and!; [done| |done..]. apply Forall_app. split; [done|]. by constructor.
  - destruct (rd_completions m) as [|r rest] eqn:Hr; intros [= <-]; [done|].
    apply Forall_cons_1 in Hc as [Hr0 Hc]. by apply handleRead_live.
  - intros [= <-]. by apply notify_live.
Qed.

Lemma rd_run_live m es m' : live m -> rd_run addByte resetConnection m es = Ok m' -> live m'.
Proof.
  unfold rd_run. revert m. induction es as [|e es IH]; intros m Hl; [by intros [= <-]|].
  cbn [foldM]. destruct (rd_exec addByte resetConnection m e) as [m1|] eqn:He; [|done]. step_bind.
  apply IH. by eapply rd_exec_live.
Qed.

(** One round: the wait times out and the reader runs. *)
Definition rounds (n : nat) : list read_event := concat (replicate n [RTimeout; RThread true]).

Definition remaining m : nat :=
  match rd_pc m with
  | RIdle => 0
  | RCleared => 4
  | RStarted _ => 3 + m_readLen m
  | RWaiting _ _ => 2 + m_readLen m
  | RDeliver _ i => 1 + (m_readLen m - i)
  end.

Lemma round_step m :
  live m -> rd_pc m <> RIdle ->
  exists m', rd_run addByte resetConnection m [RTimeout; RThread true] = Ok m' /\
    (remaining m' < remaining m)%nat.
Proof.
  intros Hl Hne. unfold rd_run. cbn [foldM rd_exec]. step_bind.
  pose proof (notify_live m Hl) as (Hn & _ & Hb & Hi). rewrite notify_input in Hi.
  unfold readSem_notify, remaining in *. unfold read_async.
  destruct (rd_pc m) as [| |input|input w|input i] eqn:Hpc; [done|..]; cbn [rd_pc rd_goto];
    rewrite ?Hpc; step_bind.
  - eexists; split; [done|]. cbn. lia.
  - eexists; split; [done|]. destruct (m_readComplete m); cbn; lia.
  - eexists; split; [done|]. cbn. lia.
  - destruct (Nat.ltb_spec i (m_readLen m)) as [Hlt|Hge]; step_bind.
    + destruct Hi as [buffer Hbuf]. unfold deref_input. rewrite Hbuf. step_bind.
      specialize (Hb _ _ Hbuf). destruct (lookup_lt_is_Some_2 buffer i) as [b Hbi]; [lia|].
      rewrite (vat_Ok _ _ _ Hbi). step_bind. pose proof (addByte_defined (rd_sink m) b) as Hd.
      destruct (addByte (rd_sink m) b) as [s|]; [|done]. step_bind.
      eexists; split; [done|]. cbn. unfold Nat.succ. lia.
    + eexists; split; [done|]. cbn. lia.
Qed.

Lemma rounds_end k m :
  live m -> (remaining m <= k)%nat ->
  exists n m', (n <= k)%nat /\ rd_run addByte resetConnection m (rounds n) = Ok m' /\ rd_pc m' = RIdle.
Proof.
  revert m. induction k as [|k IH]; intros m Hl Hk.
  - exists 0%nat, m. split_and!; [done..|]. unfold remaining in Hk. destruct (rd_pc m); [done|lia..].
  - destruct (decide (rd_pc m = RIdle)) as [Hpc|Hpc]; [exists 0%nat, m; split_and!; [lia|done..]|].
    destruct (round_step m Hl Hpc) as (m1 & H1 & Hr).
    destruct (IH m1) as (n & m' & Hn & H2 & Hi); [by eapply rd_run_live|lia|].
    exists (Datatypes.S n), m'. split_and!; [lia| |done]. unfold rounds. cbn [replicate concat].
    unfold rd_run in *. rewrite foldM_app, H1. step_bind. done.
Qed.
End termination.

(** ** Properties *)

(** C5: the asynchronous read implements the read the system is built on.
    Under every schedule in which the handlers of completed reads run before the
    reader goes on, a read adds no undefined behaviour of its own, at most one
    is outstanding, and between two calls the connection is as [serial_read] of
    the bytes the port gave leaves it, however they are cut into reads: nothing is
    lost, repeated or reordered. *)
Theorem serial_read_refined {P M} `{SerialPort P} `{IPicardCallback M} `{IConnectionReset M}
  io (w : serial_world P M) hdlc es :
  let sink := (hdlc, (io, w)) in
  let reset '(p, (io, w)) := (p, resetConnection io w) in
  m_hdlc io = Some hdlc ->
  prompt addByte reset (new_serial_monitor sink) es = true ->
  match rd_run addByte reset (new_serial_monitor sink) es with
  | Ok m =>
      (length (rd_outstanding m) <= 1)%nat /\
      (rd_pc m = RIdle ->
       forall chunks, concat chunks = rd_received m ->
         let '(p, (io', w')) := rd_sink m in
         foldM serial_read (io, w) (DeviceBytes <$> chunks) = Ok (set_hdlc (Some p) io', w'))
  | Undefined why => exists bytes, foldM addByte sink bytes = Undefined why
  end.
Proof.
  intros sink reset Hh Hp.
  pose proof (read_run_inv addByte reset sink es _ Hp (new_monitor_inv _ sink)) as Hr.
  destruct (rd_run addByte reset (new_serial_monitor sink) es) as [m|why]; [|exact Hr].
  split.
  - destruct Hr as (out & und & _ & _ & Hph).
    destruct (rd_outstanding m) as [|i rest] eqn:Ho; cbn [length]; [lia|].
    by destruct (outstanding_reading m und i rest Hph Ho) as (b & -> & _).
  - intros Hpc chunks Hc. pose proof (idle_delivered addByte sink m Hr Hpc) as Hd.
    rewrite (serial_reads io w hdlc chunks Hh), Hc. unfold sink in Hd. rewrite Hd.
    by destruct (rd_sink m) as [p [io' w']].
Qed.

(** C29: a call of [read_async] ends.  Whatever happened before, and in whatever
    order, the read under way is over after at most [INPUT_BUFFER_LEN + 4] rounds
    of a timed out wait and a step of the reader, even if nothing arrives. *)
Theorem read_async_ends {S} (addByte : S -> Z -> outcome S) reset s es m :
  (forall s b, defined (addByte s b) = true) ->
  rd_run addByte reset (new_serial_monitor s) es = Ok m ->
  exists n m', (n <= INPUT_BUFFER_LEN + 4)%nat /\
    rd_run addByte reset m (rounds n) = Ok m' /\ rd_pc m' = RIdle.
Proof.
  intros Hd Hrun. assert (Hl : live m).
  { eapply rd_run_live; [|exact Hrun]. unfold live; cbn; split_and!; [lia|done| |done]. intros i b. by rewrite lookup_empty. }
  apply rounds_end; [done..|]. destruct Hl as [Hn _]. unfold remaining, INPUT_BUFFER_LEN in *.
  destruct (rd_pc m); lia.
Qed.

(** A first call up to its wait, and timed out. *)
Definition first_wait {S} (woken : bool) (s : S) : serial_monitor S :=
  {| m_readComplete := false; m_readLen := 0;
     rd_buffers := <[0%nat := replicate INPUT_BUFFER_LEN 0]> ∅; rd_fresh := 1;
     rd_outstanding := [0%nat]; rd_completions := []; rd_pc := RWaiting 0 woken; rd_sink := s;
     rd_received := [] |}.

Lemma first_call {S} (addByte : S -> Z -> outcome S) reset s :
  rd_run addByte reset (new_serial_monitor s) (replicate 3 (RThread true)) = Ok (first_wait false s).
Proof. reflexivity. Qed.

Lemma run_cons {S} (addByte : S -> Z -> outcome S) reset m m1 e es r :
  rd_exec addByte reset m e = Ok m1 -> rd_run addByte reset m1 es = r ->
  rd_run addByte reset m (e :: es) = r.
Proof. intros H <-. unfold rd_run. cbn [foldM]. by rewrite H. Qed.

(** What a late handler does.  (1) Bytes that arrive after the wait timed
    out and before [cancel] are dropped.  (2) If the handler of the read that
    [cancel] aborted runs after the next call has cleared [m_readComplete], that
    call neither waits nor cancels: it returns with its read outstanding, and
    the port writes the next bytes into a buffer that no longer exists.  (3) A
    read that fails looks like a timeout: the connection is not reset. *)
Lemma late_read_handlers {S} (addByte : S -> Z -> outcome S) reset s bytes :
  (0 < length bytes <= INPUT_BUFFER_LEN)%nat ->
  let run := rd_run addByte reset (new_serial_monitor s) in
  let call := replicate 3 (RThread true) in
  (exists m, run (call ++ [RTimeout; RData bytes; RThread true; RThread true; RHandler]) = Ok m /\
     rd_pc m = RIdle /\ rd_outstanding m = [] /\ rd_completions m = [] /\
     rd_received m = bytes /\ rd_sink m = s) /\
  run (call ++ [RTimeout; RThread true; RThread true; RThread true; RThread true; RHandler;
                RThread true; RThread true; RData bytes]) = Undefined UseAfterFree /\
  (exists m, run (call ++ [RFail; RHandler; RThread true; RThread true]) = Ok m /\
     rd_pc m = RIdle /\ rd_sink m = s).
Proof.
  intros Hlen run call.
  assert (Hrun : forall es1 es2 m0 r, run es1 = Ok m0 -> rd_run addByte reset m0 es2 = r ->
    run (es1 ++ es2) = r).
  { intros es1 es2 m0 r H1 <-. unfold run, rd_run in *. by rewrite foldM_app, H1. }
  split_and!.
  - set (m0 := first_wait true s). eexists. split_and!.
    + apply (Hrun _ [RTimeout; RData bytes; RThread true; RThread true; RHandler] _ _ (first_call addByte reset s)).
      apply (run_cons addByte reset _ m0); [reflexivity|].
      eapply run_cons; [by apply (rd_exec_data addByte reset m0 0 [] (replicate INPUT_BUFFER_LEN 0))|].
      eapply run_cons; [reflexivity|]. eapply run_cons; [reflexivity|].
      eapply run_cons; reflexivity.
    + done.
    + done.
    + done.
    + done.
    + done.
  - apply (Hrun _ [RTimeout; RThread true; RThread true; RThread true; RThread true; RHandler;
                RThread true; RThread true; RData bytes] _ _ (first_call addByte reset s)).
    do 8 (eapply run_cons; [reflexivity|]).
    unfold rd_run. cbn [foldM]. by rewrite (rd_exec_data_freed addByte reset _ 1 []).
  - eexists. split_and!.
    + apply (Hrun _ [RFail; RHandler; RThread true; RThread true] _ _ (first_call addByte reset s)).
      do 3 (eapply run_cons; [reflexivity|]). eapply run_cons; reflexivity.
    + done.
    + done.
Qed.

(** ** Witnesses *)

(** Two reads of a notification frame, one of them before the handler of the
    aborted first read has run. *)
Definition sample_bytes : list Z := encodeHDLC (picard_frame 2 NOTIFICATION 8 [1; 0x7E]).
Definition sample_schedule : list read_event :=
  [RThread true; RThread true; RThread true; RTimeout; RThread true; RHandler; RThread true;
   RThread true; RThread true; RData (take 5 sample_bytes); RThread true; RHandler] ++
  replicate 7 (RThread true) ++
  [RThread true; RThread true; RData (drop 5 sample_bytes); RThread true; RHandler; RTimeout] ++
  replicate 8 (RThread true).

Definition sample_reset (s : CHDLC * (CBasePicardIO * serial_world port_log picard_log))
  : CHDLC * (CBasePicardIO * serial_world port_log picard_log) :=
  let '(p, (io, w)) := s in (p, resetConnection io w).
Definition sample_monitor :=
  new_serial_monitor (new_CHDLC INPUT_BUFFER_LEN true, (thread_io, sample_world)).

Lemma sample_run :
  exists m p io, rd_run addByte sample_reset sample_monitor sample_schedule = Ok m /\
    rd_pc m = RIdle /\ rd_received m = sample_bytes /\
    rd_sink m = (p, (io, {| s_port := encodeHDLC [3; NOTIFICATION; 8; 1; 0];
                            s_mux := [Notified 1 [0x7E]] |})).
Proof.
  eexists _, _, _. split; [vm_compute; reflexivity|]. split_and!; vm_compute; reflexivity.
Qed.

(** Cut elsewhere, the bytes give the same: one acknowledgement, one callback. *)
Lemma serial_read_refined_witness :
  exists io', foldM serial_read (thread_io, sample_world)
      (DeviceBytes <$> [take 3 sample_bytes; drop 3 sample_bytes])
    = Ok (io', {| s_port := encodeHDLC [3; NOTIFICATION; 8; 1; 0]; s_mux := [Notified 1 [0x7E]] |}).
Proof.
  pose proof (serial_read_refined thread_io sample_world (new_CHDLC INPUT_BUFFER_LEN true)
    sample_schedule eq_refl) as Hr.
  specialize (Hr ltac:(vm_compute; reflexivity)).
  destruct sample_run as (m & p & io & Hm & Hpc & Hrec & Hsink).
  pose proof Hm as Hm'. unfold sample_monitor, sample_reset in Hm'. rewrite Hm' in Hr.
  destruct Hr as [_ Hr]. specialize (Hr Hpc [take 3 sample_bytes; drop 3 sample_bytes]).
  rewrite Hsink, Hrec in Hr. eexists. apply Hr. reflexivity.
Defined.

(** The bytes counted: a call with a byte under way. *)
Lemma read_async_ends_witness :
  exists n m', (n <= 1028)%nat /\
    rd_run (fun s b => Ok (s ++ [b])) id
      {| m_readComplete := true; m_readLen := 1; rd_buffers := {[0%nat := 65 :: replicate 1023 0]};
         rd_fresh := 1; rd_outstanding := []; rd_completions := []; rd_pc := RWaiting 0 true;
         rd_sink := []; rd_received := [65] |} (rounds n) = Ok m' /\ rd_pc m' = RIdle.
Proof.
  apply (read_async_ends (fun s b => Ok (s ++ [b])) id []
    [RThread true; RThread true; RThread true; RData [65]; RHandler]); [done|].
  vm_compute. reflexivity.
Defined.

Lemma late_read_handlers_witness :
  rd_run (fun s b => Ok (s ++ [b])) id (new_serial_monitor [])
    (replicate 3 (RThread true) ++
     [RTimeout; RThread true; RThread true; RThread true; RThread true; RHandler;
      RThread true; RThread true; RData [65; 66]]) = Undefined UseAfterFree.
Proof.
  destruct (late_read_handlers (fun s b => Ok (s ++ [b])) id [] [65; 66]) as (_ & Hu & _).
  - vm_decide.
  - exact Hu.
Defined.
