(* ===== verification/SerialRestart.v ===== *)
(** * Reads that outlive their link ([PicardBoost.cpp], [serial_mux.cpp])

    The handler of an asynchronous read is bound to the [CPicardBoost_Serial] that
    started it and waits in the global [io_service].  When [io_service] is stopped,
    the Picard thread still ends its read, and [serial_mux_loop] deletes the link and
    runs [io_service] again for the next one.  Here the read of [SerialRead] is
    followed through that: what is left in the queue then calls [handleRead] of an
    object that is gone. *)

From Stdlib Require Import ZArith Lia.
From stdpp Require Import base list gmap.
From S2P Require Import Prelude Hdlc Common MuxMessage BasePicard PicardLink SerialRead.
Import Receiver Encoder Delivery.
#[local] Open Scope Z_scope.

Section restart.
Context {S : Type} (addByte : S -> Z -> outcome S) (resetConnection : S -> S).
Implicit Types (m : serial_monitor S).

(** The link, the handlers of links deleted before, and whether
    [io_service.run()] is executing. *)
Record serial_io := {
  si_monitor : serial_monitor S;
  si_stale : list read_outcome;
  si_running : bool;
}.

Definition new_serial_io (s : S) : serial_io :=
  {| si_monitor := new_serial_monitor s; si_stale := []; si_running := true |}.

Definition set_monitor m (x : serial_io) : serial_io :=
  {| si_monitor := m; si_stale := si_stale x; si_running := si_running x |}.

(** [~CPicardBoost_Serial]: [m_serial.cancel()]; the handlers stay queued. *)
Definition delete_link (x : serial_io) : list read_outcome :=
  si_stale x ++ rd_completions (serial_cancel (si_monitor x)).

Inductive serial_event :=
  | SiRead (e : read_event)     (* an event of the link *)
  | SiStop                      (* io_service.stop(): run returns *)
  | SiRestart (s : S).          (* the link is deleted, a new one created, run called *)

(** [picardThread.join()] is over when the thread is between two reads.  The oldest
    handler runs first. *)
Definition si_exec (x : serial_io) (e : serial_event) : outcome serial_io :=
  match e with
  | SiRead RHandler =>
      if si_running x then
        match si_stale x with
        | [] => m ← rd_exec addByte resetConnection (si_monitor x) RHandler; Ok (set_monitor m x)
        | _ :: _ => Undefined UseAfterFree
        end
      else Ok x
  | SiRead e => m ← rd_exec addByte resetConnection (si_monitor x) e; Ok (set_monitor m x)
  | SiStop => Ok {| si_monitor := si_monitor x; si_stale := si_stale x; si_running := false |}
  | SiRestart s =>
      Ok (if negb (si_running x) && bool_decide (rd_pc (si_monitor x) = RIdle)
          then {| si_monitor := new_serial_monitor s; si_stale := delete_link x; si_running := true |}
          else x)
  end.

Definition si_run (x : serial_io) (es : list serial_event) : outcome serial_io := foldM si_exec x es.

Definition is_restart (e : serial_event) : bool := match e with SiRestart _ => true | _ => false end.

(** A read whose handler has not run. *)
Definition pending m : bool := bool_decide (rd_outstanding m <> [] \/ rd_completions m <> []).

(** Schedules in which the Picard thread starts no read: its loop has seen that it is
    to stop. *)
Fixpoint starts_no_read (x : serial_io) (es : list serial_event) : bool :=
  match es with
  | [] => true
  | e :: es =>
      match e with
      | SiRead (RThread _) => bool_decide (rd_pc (si_monitor x) <> RIdle)
      | _ => true
      end && match si_exec x e with Ok x => starts_no_read x es | Undefined _ => true end
  end.

(** ** Facts *)

(** Only its handler takes a read off the queues. *)
Lemma rd_exec_pending m e m' :
  e <> RHandler -> rd_exec addByte resetConnection m e = Ok m' -> pending m = true -> pending m' = true.
Proof.
  unfold pending. rewrite !bool_decide_eq_true. intros He Hx Hp.
  assert (Hsame : forall m1, rd_outstanding m1 = rd_outstanding m -> rd_completions m1 = rd_completions m ->
    rd_outstanding m1 <> [] \/ rd_completions m1 <> []) by (by intros m1 -> ->).
  assert (Hm : forall m1, m1 = m -> rd_outstanding m1 <> [] \/ rd_completions m1 <> []) by (by intros m1 ->).
  assert (Hsnoc : forall T (l : list T) a, l ++ [a] <> []) by (by intros T [|]).
  destruct e as [ok|bytes| | |]; cbn [rd_exec] in Hx; [| | |done|].
  - unfold read_async in Hx. destruct (rd_pc m) as [| |input|input [|]|input i].
    + injection Hx as <-. by apply Hsame.
    + injection Hx as <-. left. apply Hsnoc.
    + injection Hx as <-. by destruct (m_readComplete m); apply Hsame.
    + destruct ok; injection Hx as <-; [|by apply Hsame]. right. cbn.
      destruct (rd_completions m), (rd_outstanding m); naive_solver.
    + injection Hx as <-. by apply Hsame.
    + destruct (_ <? _)%nat; [|injection Hx as <-; by apply Hsame]. inv_bind. by apply Hsame.
  - destruct (rd_outstanding m) as [|input rest]; [injection Hx as <-; by apply Hm|].
    case_bool_decide; [|injection Hx as <-; by apply Hm]. inv_bind. right. apply Hsnoc.
  - destruct (rd_outstanding m) as [|input rest]; injection Hx as <-; [by apply Hm|].
    right. apply Hsnoc.
  - injection Hx as <-. unfold readSem_notify. destruct (rd_pc m); by apply Hsame.
Qed.

Lemma restart_stopped es x x' :
  forallb (fun e => negb (is_restart e)) es = true -> si_running x = false ->
  si_run x es = Ok x' ->
  si_running x' = false /\ (pending (si_monitor x) = true -> pending (si_monitor x') = true).
Proof.
  intros Hes. revert x. unfold si_run. induction es as [|e es IH]; intros x Hr; [by intros [= <-]|].
  cbn [forallb] in Hes. apply andb_prop in Hes as [He Hes]. cbn [foldM]. intros Hx.
  apply bind_Ok_inv in Hx as (x1 & H1 & Hx).
  assert (Hstep : si_running x1 = false /\ (pending (si_monitor x) = true -> pending (si_monitor x1) = true)).
  { assert (Hev : forall e, e <> RHandler ->
      (m ← rd_exec addByte resetConnection (si_monitor x) e; Ok (set_monitor m x)) = Ok x1 ->
      si_running x1 = false /\ (pending (si_monitor x) = true -> pending (si_monitor x1) = true)).
    { intros e' Hne He'. apply bind_Ok_inv in He' as (m & Hm & [= <-]). split; [done|]. cbn.
      by eapply rd_exec_pending. }
    destruct e as [[ok|bytes| | |]| |s]; cbn [si_exec] in H1; [| | | | | |done].
    - by apply (Hev (RThread ok)).
    - by apply (Hev (RData bytes)).
    - by apply (Hev RFail).
    - rewrite Hr in H1. by injection H1 as <-.
    - by apply (Hev RTimeout).
    - by injection H1 as <-. }
  destruct Hstep as [Hr1 Hp1]. destruct (IH Hes x1 Hr1 Hx) as [Hr' Hp']. auto.
Qed.

Lemma si_reads x es m :
  RHandler ∉ es -> rd_run addByte resetConnection (si_monitor x) es = Ok m ->
  si_run x (SiRead <$> es) = Ok (set_monitor m x).
Proof.
  unfold rd_run, si_run. revert x. induction es as [|e es IH]; intros x Hn.
  - intros [= <-]. by destruct x.
  - cbn [foldM fmap list_fmap]. intros Hx. apply bind_Ok_inv in Hx as (m1 & H1 & Hx).
    apply not_elem_of_cons in Hn as [Hne Hn].
    assert (Hs : si_exec x (SiRead e) = Ok (set_monitor m1 x)).
    { destruct e; cbn [si_exec]; try done; by rewrite H1. }
    rewrite Hs. step_bind. by apply (IH (set_monitor m1 x)).
Qed.

(** Nothing is left by a thread that starts no read while nothing is pending. *)
Lemma rd_exec_not_pending m e m' :
  pending m = false -> (forall ok, e = RThread ok -> rd_pc m <> RIdle) ->
  (rd_pc m = RIdle \/ exists input i, rd_pc m = RDeliver input i) ->
  rd_exec addByte resetConnection m e = Ok m' ->
  pending m' = false /\ (rd_pc m' = RIdle \/ exists input i, rd_pc m' = RDeliver input i).
Proof.
  unfold pending. rewrite !bool_decide_eq_false. intros Hp He Hpc.
  assert (Hq : rd_outstanding m = [] /\ rd_completions m = []).
  { destruct (rd_outstanding m), (rd_completions m); naive_solver. }
  destruct Hq as [Ho Hc].
  assert (Hsame : forall m1, rd_outstanding m1 = [] -> rd_completions m1 = [] ->
    ~ (rd_outstanding m1 <> [] \/ rd_completions m1 <> [])) by (intros m1 -> ->; naive_solver).
  destruct e as [ok|bytes| | |]; cbn [rd_exec]; rewrite ?Ho, ?Hc.
  - specialize (He ok eq_refl). destruct Hpc as [|(input & i & Hpc)]; [done|].
    unfold read_async. rewrite Hpc. destruct (_ <? _)%nat.
    + intros Hx. inv_bind. split; [by apply Hsame|]. right. by eexists _, _.
    + intros [= <-]. split; [by apply Hsame|]. by left.
  - intros [= <-]. by split; [apply Hsame|].
  - intros [= <-]. by split; [apply Hsame|].
  - intros [= <-]. by split; [apply Hsame|].
  - intros [= <-]. unfold readSem_notify.
    destruct Hpc as [Hpc|(input & i & Hpc)]; rewrite Hpc; (split; [by apply Hsame|]); eauto.
Qed.

Lemma nothing_left es x x' :
  forallb (fun e => negb (is_restart e)) es = true -> starts_no_read x es = true ->
  si_stale x = [] -> pending (si_monitor x) = false ->
  (rd_pc (si_monitor x) = RIdle \/ exists input i, rd_pc (si_monitor x) = RDeliver input i) ->
  si_run x es = Ok x' -> si_stale x' = [] /\ pending (si_monitor x') = false.
Proof.
  intros Hes. revert x. unfold si_run. induction es as [|e es IH]; intros x Hn Hst Hp Hpc; [by intros [= <-]|].
  cbn [forallb] in Hes. apply andb_prop in Hes as [He Hes].
  cbn [starts_no_read] in Hn. apply andb_prop in Hn as [Hn1 Hn]. cbn [foldM]. intros Hx.
  apply bind_Ok_inv in Hx as (x1 & H1 & Hx). rewrite H1 in Hn.
  enough (si_stale x1 = [] /\ pending (si_monitor x1) = false /\
    (rd_pc (si_monitor x1) = RIdle \/ exists input i, rd_pc (si_monitor x1) = RDeliver input i))
    as (? & ? & ?) by (by eapply IH).
  assert (Hev : forall e, (forall ok, e = RThread ok -> rd_pc (si_monitor x) <> RIdle) ->
    (m ← rd_exec addByte resetConnection (si_monitor x) e; Ok (set_monitor m x)) = Ok x1 ->
    si_stale x1 = [] /\ pending (si_monitor x1) = false /\
    (rd_pc (si_monitor x1) = RIdle \/ exists input i, rd_pc (si_monitor x1) = RDeliver input i)).
  { intros e' Hne Hm. apply bind_Ok_inv in Hm as (m & Hm & [= <-]). split; [done|]. cbn.
    by eapply rd_exec_not_pending. }
  destruct e as [[ok|bytes| | |]| |s]; cbn [si_exec] in H1; try done.
  - apply (Hev (RThread ok)); [|done]. intros ? [= <-]. by apply bool_decide_eq_true in Hn1.
  - by apply (Hev (RData bytes)).
  - by apply (Hev RFail).
  - rewrite Hst in H1. destruct (si_running x); [by apply (Hev RHandler)|by injection H1 as <-].
  - by apply (Hev RTimeout).
  - by injection H1 as <-.
Qed.
End restart.

Section live.
Context {S : Type} (addByte : S -> Z -> outcome S) (resetConnection : S -> S).

Lemma new_monitor_live (s : S) : live (new_serial_monitor s).
Proof. unfold live; cbn; split_and!; [lia|done| |done]. intros i b. by rewrite lookup_empty. Qed.

Lemma si_run_live es (x x' : serial_io (S := S)) :
  live (si_monitor x) -> si_run addByte resetConnection x es = Ok x' -> live (si_monitor x').
Proof.
  revert x. unfold si_run. induction es as [|e es IH]; intros x Hl; [by intros [= <-]|].
  cbn [foldM]. intros Hx. apply bind_Ok_inv in Hx as (x1 & H1 & Hx). eapply IH; [|exact Hx].
  assert (Hev : forall e, (m ← rd_exec addByte resetConnection (si_monitor x) e; Ok (set_monitor m x)) = Ok x1 ->
    live (si_monitor x1)).
  { intros e' He'. apply bind_Ok_inv in He' as (m & Hm & [= <-]). cbn. by eapply rd_exec_live. }
  destruct e as [[ok|bytes| | |]| |s]; cbn [si_exec] in H1; [..|injection H1 as <-].
  - exact (Hev (RThread ok) H1).
  - exact (Hev (RData bytes) H1).
  - exact (Hev RFail H1).
  - destruct (si_running x); [|by injection H1 as <-].
    destruct (si_stale x); [exact (Hev RHandler H1)|done].
  - exact (Hev RTimeout H1).
  - by injection H1 as <-.
  - destruct (_ && _); [apply new_monitor_live|done].
Qed.
End live.

(** ** Property *)

(** C33: a read that outlives its link.  If a read whose handler has not run is left
    when [io_service] is stopped, as in any reset that finds the Picard thread
    waiting, then whatever happens until the link is replaced, the first handler that
    [io_service] runs after it is that of the deleted link; and a timed-out wait and
    the steps of the reader are enough to get there.  If none is left, and the
    Picard thread starts no other, as in a reset that it makes itself while it
    delivers, none outlives the link. *)
Theorem reset_leaves_read {S} (addByte : S -> Z -> outcome S) reset s0 es0 x s :
  (forall s b, defined (addByte s b) = true) ->
  si_run addByte reset (new_serial_io s0) es0 = Ok x -> si_running x = false ->
  (pending (si_monitor x) = true ->
     (forall es x', forallb (fun e => negb (is_restart e)) es = true ->
        si_run addByte reset x (es ++ [SiRestart s]) = Ok x' -> si_running x' = true ->
        si_exec addByte reset x' (SiRead RHandler) = Undefined UseAfterFree) /\
     exists n x', (n <= INPUT_BUFFER_LEN + 4)%nat /\
       si_run addByte reset x ((SiRead <$> rounds n) ++ [SiRestart s]) = Ok x' /\ si_running x' = true) /\
  (pending (si_monitor x) = false -> si_stale x = [] ->
   (rd_pc (si_monitor x) = RIdle \/ exists input i, rd_pc (si_monitor x) = RDeliver input i) ->
   forall es x', forallb (fun e => negb (is_restart e)) es = true -> starts_no_read addByte reset x es = true ->
     si_run addByte reset x (es ++ [SiRestart s]) = Ok x' -> si_stale x' = []).
Proof.
  intros Hd Hrun Hr. split; [intros Hp; split|].
  - intros es x' Hes Hx Hr'. unfold si_run in Hx. rewrite foldM_app in Hx.
    apply bind_Ok_inv in Hx as (x1 & H1 & Hx).
    destruct (restart_stopped addByte reset es x x1 Hes Hr H1) as [Hr1 Hp1]. specialize (Hp1 Hp).
    cbn in Hx. injection Hx as <-. rewrite Hr1 in Hr' |- *. cbn [negb andb] in *.
    destruct (bool_decide (rd_pc _ = RIdle)); [|by rewrite Hr1 in Hr'].
    cbn [si_exec si_running si_stale]. unfold delete_link.
    unfold pending in Hp1. rewrite bool_decide_eq_true in Hp1. cbn.
    destruct (si_stale x1), (rd_completions (si_monitor x1)), (rd_outstanding (si_monitor x1)); naive_solver.
  - assert (Hl : live (si_monitor x)) by exact (si_run_live addByte reset es0 (new_serial_io s0) x (new_monitor_live s0) Hrun).
    destruct (rounds_end addByte reset Hd (INPUT_BUFFER_LEN + 4) (si_monitor x) Hl) as (n & m & Hn & Hm & Hpc).
    { destruct Hl as [Hlen _]. unfold remaining, INPUT_BUFFER_LEN in *. destruct (rd_pc _); lia. }
    exists n. eexists. split; [done|]. unfold si_run. rewrite foldM_app.
    pose proof (si_reads addByte reset x (rounds n) m) as Hs. unfold si_run in Hs. rewrite Hs; [|clear|done].
    + cbn. rewrite Hr, bool_decide_eq_true_2 by done. by split.
    + unfold rounds. induction n as [|n IH]; cbn; set_solver.
  - intros Hp Hst Hpc es x' Hes Hn Hx. unfold si_run in Hx. rewrite foldM_app in Hx.
    apply bind_Ok_inv in Hx as (x1 & H1 & Hx).
    destruct (nothing_left addByte reset es x x1 Hes Hn Hst Hp Hpc H1) as [Hst1 Hp1].
    cbn in Hx. injection Hx as <-. destruct (_ && _); [|done]. cbn. unfold delete_link. rewrite Hst1.
    unfold pending in Hp1. rewrite bool_decide_eq_false in Hp1. cbn.
    destruct (rd_completions (si_monitor x1)), (rd_outstanding (si_monitor x1)); naive_solver.
Qed.

(** ** Witness: a read waits, the connection is reset by another thread, and the
    next [io_service.run()] runs the handler of the deleted link *)

Definition waiting_reader : list (serial_event (S := list Z)) :=
  SiRead <$> replicate 3 (RThread true).
Definition reset_while_waiting : list (serial_event (S := list Z)) :=
  [SiRead RTimeout; SiRead (RThread true); SiRead (RThread true); SiRestart []].

Definition append_byte (s : list Z) (b : Z) : outcome (list Z) := Ok (s ++ [b]).
Definition ran (x : outcome (serial_io (S := list Z))) : serial_io :=
  match x with Ok x => x | Undefined _ => new_serial_io [] end.
Definition stopped_link : serial_io :=
  ran (si_run append_byte id (new_serial_io []) (waiting_reader ++ [SiStop])).
Definition replaced_link : serial_io :=
  ran (si_run append_byte id stopped_link reset_while_waiting).

Lemma reset_leaves_read_witness :
  si_running replaced_link = true /\
  si_exec append_byte id replaced_link (SiRead RHandler) = Undefined UseAfterFree.
Proof.
  split; [vm_compute; reflexivity|].
  assert (Hrun : si_run append_byte id (new_serial_io (@nil Z)) (waiting_reader ++ [SiStop]) = Ok stopped_link)
    by (vm_compute; reflexivity).
  destruct (reset_leaves_read append_byte id [] (waiting_reader ++ [SiStop]) stopped_link []
    (fun _ _ => eq_refl) Hrun eq_refl) as [Hleft _].
  destruct (Hleft eq_refl) as [Hu _].
  apply (Hu [SiRead RTimeout; SiRead (RThread true); SiRead (RThread true)]); vm_compute; reflexivity.
Defined.
