(* ===== verification/BoostClient.v ===== *)
(** * Client connections ([serial_mux/BoostClient.h], [BoostClient.cpp])

    One [CBoostClient] per TCP connection: it authenticates the peer with the mux
    hello, then forwards the peer's commands to the client list
    ([ISimpleClientList]).  The socket is modelled by what the source observes and
    does: whether it is open and the buffers passed to [boost::asio::write] while
    it was.  The deadline timer follows its documented behaviour: [cancel] does
    not reach a handler that has already been queued for execution. *)

From Stdlib Require Import ZArith Lia.
From stdpp Require Import base list.
From S2P Require Import Prelude Common Subscriber MuxMessage.
#[local] Open Scope Z_scope.

(** [ISimpleClientList], with clients named by their identity (the pointer). *)
Class ISimpleClientList (M : Type) := {
  addClient : M -> nat -> M;
  removeClient : M -> nat -> outcome M;
  addCommand : M -> nat -> CMuxMessage -> M;
}.

Inductive InitState := WAITING | AUTHENTICATED | BAD_INIT | CLOSED.

#[export] Instance InitState_eq_dec : EqDecision InitState.
Proof. solve_decision. Defined.

(** [m_authTimeout]: no wait started, waiting, handler queued because the time
    ran out, handler queued with [operation_aborted] because of [cancel]. *)
Inductive timer := TimerIdle | TimerWaiting | TimerExpired | TimerAborted.

#[export] Instance timer_eq_dec : EqDecision timer.
Proof. solve_decision. Defined.

Definition timer_cancel (t : timer) : timer :=
  match t with TimerWaiting => TimerAborted | _ => t end.
Definition timer_expire (t : timer) : timer :=
  match t with TimerWaiting => TimerExpired | _ => t end.

Definition EXPECTED_HELLO_LEN : Z := 9.
Definition AUTHENTICATION_LEN : nat := 8.

(** The members [handleCommand] works on. *)
Record client_core := {
  m_initState : InitState;
  m_expectedAuth : list Z;
  m_version : Z;               (* m_protocolVersion *)
  m_authTimeout : timer;
  m_open : bool;               (* m_socket.is_open() *)
  m_sent : list (list Z);      (* buffers written to the open socket *)
  m_subscriber : CSubscriber;  (* the base class *)
}.

(** With the parser, and whether an asynchronous read is outstanding. *)
Record CBoostClient := {
  m_core : client_core;
  m_parser : CMuxParser;
  m_reading : bool;
}.

#[export] Instance client_core_eq_dec : EqDecision client_core.
Proof. solve_decision. Defined.

(** [create]: an accepted connection, not started. *)
Definition create (authToken : list Z) (protocolVersion : Z) : CBoostClient :=
  {| m_core := {| m_initState := WAITING; m_expectedAuth := authToken;
                  m_version := protocolVersion; m_authTimeout := TimerIdle;
                  m_open := true; m_sent := []; m_subscriber := new_CSubscriber |};
     m_parser := new_CMuxParser true; m_reading := false |}.

Definition set_state_timer (s : InitState) (t : timer) (o : bool) (c : client_core)
  : client_core :=
  {| m_initState := s; m_expectedAuth := m_expectedAuth c; m_version := m_version c;
     m_authTimeout := t; m_open := o; m_sent := m_sent c; m_subscriber := m_subscriber c |}.
Definition set_core (c : client_core) (cl : CBoostClient) : CBoostClient :=
  {| m_core := c; m_parser := m_parser cl; m_reading := m_reading cl |}.
Definition set_subscriber (s : CSubscriber) (c : client_core) : client_core :=
  {| m_initState := m_initState c; m_expectedAuth := m_expectedAuth c;
     m_version := m_version c; m_authTimeout := m_authTimeout c; m_open := m_open c;
     m_sent := m_sent c; m_subscriber := s |}.

(** [write]: errors are ignored by every caller; nothing goes out of a closed
    socket. *)
Definition core_write (msg : list Z) (c : client_core) : client_core :=
  {| m_initState := m_initState c; m_expectedAuth := m_expectedAuth c;
     m_version := m_version c; m_authTimeout := m_authTimeout c; m_open := m_open c;
     m_sent := if m_open c then push_back (m_sent c) msg else m_sent c;
     m_subscriber := m_subscriber c |}.

Definition core_close (c : client_core) : client_core :=
  set_state_timer CLOSED (timer_cancel (m_authTimeout c)) false c.

Definition client_write (msg : list Z) (cl : CBoostClient) : CBoostClient :=
  set_core (core_write msg (m_core cl)) cl.
Definition client_close (cl : CBoostClient) : CBoostClient :=
  set_core (core_close (m_core cl)) cl.

Definition isInitialized (c : client_core) : bool :=
  bool_decide (m_initState c = AUTHENTICATED).
Definition badInit (c : client_core) : bool := bool_decide (m_initState c = BAD_INIT).
Definition getProtocolVersion (cl : CBoostClient) : Z := m_version (m_core cl).

Definition parseHello (c : client_core) (data : list Z) (length : Z) : outcome Z :=
  if length =? EXPECTED_HELLO_LEN then
    protoVersion ← vat data 0;
    let result := if protoVersion =? m_version c then ERR_OK else ERR_UNSUPPORTED_VERSION in
    foldM (fun result i =>
      expected ← vat (m_expectedAuth c) i;
      got ← vat data (1 + i);
      Ok (if expected =? got then result else ERR_INVALID_AUTH))
      result (List.seq 0 AUTHENTICATION_LEN)
  else Ok ERR_INVALID_CMD.

Definition buildHelloResponse (c : client_core) (result : Z) : list Z :=
  serialize_output (new_CMuxOutput MUX_HELLO 0 result [m_version c]).

Section client.
Context {M : Type} `{ISimpleClientList M} (this : nat).

Definition client_handleCommand (s : client_core * M) (command : CMuxMessage)
  : outcome (client_core * M) :=
  let '(c, m) := s in
  if isInitialized c then Ok (c, addCommand m this command)
  else if bool_decide (m_initState c = WAITING) && (m_type command =? MUX_HELLO) then
    helloResult ← parseHello c (m_data command) (message_size command);
    let resp := buildHelloResponse c helloResult in
    let c := core_write resp c in
    let t := timer_cancel (m_authTimeout c) in
    if helloResult =? ERR_OK
    then Ok (set_state_timer AUTHENTICATED t (m_open c) c, addClient m this)
    else Ok (set_state_timer BAD_INIT t false c, m)
  else Ok (c, m).

#[export] Instance client_ICommandCallback : ICommandCallback (client_core * M) :=
  client_handleCommand.

(** A completed read: the bytes, or an error. *)
Inductive read_result := ReadData (data : list Z) | ReadError.

Definition handle_read (s : CBoostClient * M) (r : read_result) : outcome (CBoostClient * M) :=
  let '(cl, m) := s in
  match r with
  | ReadData [] =>
      Ok ({| m_core := m_core cl; m_parser := m_parser cl; m_reading := false |}, m)
  | ReadData data =>
      '(p, (c, m)) ← parser_read (m_parser cl, (m_core cl, m)) data;
      Ok ({| m_core := c; m_parser := p; m_reading := negb (badInit c) |}, m)
  | ReadError =>
      let cl := {| m_core := m_core cl; m_parser := m_parser cl; m_reading := false |} in
      if bool_decide (m_initState (m_core cl) = AUTHENTICATED)
      then m ← removeClient m this; Ok (cl, m)
      else Ok (cl, m)
  end.

(** The handler of the auth timer; the argument is its error. *)
Definition handleAuthTimeout (error : bool) (cl : CBoostClient) : CBoostClient :=
  let c := m_core cl in
  let c := set_state_timer (m_initState c) TimerIdle (m_open c) c in
  if error then set_core c cl
  else set_core (core_close (set_state_timer BAD_INIT TimerIdle (m_open c) c)) cl.

Definition client_start (cl : CBoostClient) : CBoostClient :=
  let c := m_core cl in
  {| m_core := set_state_timer (m_initState c) TimerWaiting (m_open c) c;
     m_parser := m_parser cl; m_reading := true |}.

(** The asynchronous events of a started client.  A read completes only when
    one is outstanding; it may have completed with data before a close. *)
Inductive client_step : CBoostClient * M -> CBoostClient * M -> Prop :=
  | cs_data cl m data s' :
      m_reading cl = true -> data <> [] ->
      handle_read (cl, m) (ReadData data) = Ok s' -> client_step (cl, m) s'
  | cs_error cl m s' :
      m_reading cl = true -> handle_read (cl, m) ReadError = Ok s' -> client_step (cl, m) s'
  | cs_expire cl m :
      client_step (cl, m)
        (set_core (set_state_timer (m_initState (m_core cl))
           (timer_expire (m_authTimeout (m_core cl))) (m_open (m_core cl)) (m_core cl)) cl, m)
  | cs_timeout cl m :
      m_authTimeout (m_core cl) = TimerExpired ->
      client_step (cl, m) (handleAuthTimeout false cl, m)
  | cs_aborted cl m :
      m_authTimeout (m_core cl) = TimerAborted ->
      client_step (cl, m) (handleAuthTimeout true cl, m)
  | cs_close cl m : client_step (cl, m) (client_close cl, m)
  | cs_write cl m msg : client_step (cl, m) (client_write msg cl, m).

(** The data completions of a started client, in order: a chunk arrives only
    while a read is outstanding. *)
Definition read_stream (s : CBoostClient * M) (chunks : list (list Z))
  : outcome (CBoostClient * M) :=
  foldM (fun s data => if m_reading s.1 then handle_read s (ReadData data) else Ok s) s chunks.
End client.

(** ** Specification of the hello and of a session *)

(** The code a hello is answered with: a wrong length, then a wrong token, then a
    wrong version. *)
Definition hello_code (version : Z) (auth data : list Z) : Z :=
  match data with
  | v :: token =>
      if decide (length token = AUTHENTICATION_LEN) then
        if decide (token = auth) then if v =? version then ERR_OK else ERR_UNSUPPORTED_VERSION
        else ERR_INVALID_AUTH
      else ERR_INVALID_CMD
  | [] => ERR_INVALID_CMD
  end.

(** The first hello of a list of messages: its code and the messages after it. *)
Fixpoint session (version : Z) (auth : list Z) (ms : list CMuxMessage)
  : option (Z * list CMuxMessage) :=
  match ms with
  | [] => None
  | m :: ms =>
      if m_type m =? MUX_HELLO then Some (hello_code version auth (m_data m), ms)
      else session version auth ms
  end.

Lemma auth_loop (auth data : list Z) r l :
  Forall (fun i => (i < length auth)%nat /\ (i < length data)%nat) l ->
  foldM (fun result i =>
      expected ← vat auth i; got ← vat data i;
      Ok (if expected =? got then result else ERR_INVALID_AUTH)) r l
  = Ok (if forallb (fun i => bool_decide (auth !! i = data !! i)) l then r else ERR_INVALID_AUTH).
Proof.
  intros Hl. revert r. induction Hl as [|i l [Ha Hd] _ IH]; intros r; [done|].
  apply lookup_lt_is_Some_2 in Ha as [a Ha]. apply lookup_lt_is_Some_2 in Hd as [d Hd].
  cbn [foldM forallb]. rewrite (vat_Ok _ _ _ Ha), (vat_Ok _ _ _ Hd), Ha, Hd. step_bind.
  rewrite IH. f_equal. destruct (Z.eqb_spec a d) as [->|Hne].
  - by rewrite bool_decide_eq_true_2.
  - rewrite bool_decide_eq_false_2 by congruence. by destruct (forallb _ l).
Qed.

Lemma seq_lookup_eq (auth data : list Z) n :
  length auth = n -> length data = n ->
  forallb (fun i => bool_decide (auth !! i = data !! i)) (List.seq 0 n) = bool_decide (data = auth).
Proof.
  intros Ha Hd. apply eq_true_iff_eq. rewrite bool_decide_eq_true, forallb_forall. split.
  - intros Hf. apply list_eq. intros i. destruct (decide (i < n)%nat) as [Hi|Hi].
    + specialize (Hf i). rewrite bool_decide_eq_true in Hf. symmetry. apply Hf.
      apply in_seq. lia.
    + by rewrite !lookup_ge_None_2 by lia.
  - intros -> i _. by apply bool_decide_eq_true_2.
Qed.

Lemma parseHello_spec c msg :
  length (m_expectedAuth c) = AUTHENTICATION_LEN -> Z.of_nat (length (m_data msg)) < 65536 ->
  parseHello c (m_data msg) (message_size msg)
  = Ok (hello_code (m_version c) (m_expectedAuth c) (m_data msg)).
Proof.
  intros Ha Hlen. unfold parseHello, message_size, hello_code. rewrite u16_small by word_range.
  destruct (m_data msg) as [|v token] eqn:Hm; [done|]. cbn [length].
  unfold EXPECTED_HELLO_LEN. case_decide as Ht.
  - rewrite (proj2 (Z.eqb_eq _ _)) by (rewrite Ht; done). change (vat (v :: token) 0) with (Ok v).
    step_bind. change (fun result i => expected ← vat (m_expectedAuth c) i; _)
      with (fun result i => expected ← vat (m_expectedAuth c) i; got ← vat token i;
              Ok (if expected =? got then result else ERR_INVALID_AUTH)).
    rewrite auth_loop.
    + rewrite seq_lookup_eq by done. f_equal. by repeat case_decide.
    + apply Forall_forall. intros i Hi. apply elem_of_seq in Hi. lia.
  - rewrite (proj2 (Z.eqb_neq _ _)); [done|]. unfold AUTHENTICATION_LEN in Ht. lia.
Qed.

(** Whatever the message, its reads stay inside it. *)
Lemma parseHello_defined c msg :
  length (m_expectedAuth c) = AUTHENTICATION_LEN ->
  exists code, parseHello c (m_data msg) (message_size msg) = Ok code.
Proof.
  intros Ha. unfold parseHello. destruct (Z.eqb_spec (message_size msg) EXPECTED_HELLO_LEN) as [He|_];
    [|by eexists].
  assert (Hlen : (9 <= length (m_data msg))%nat).
  { unfold message_size, u16, EXPECTED_HELLO_LEN in He.
    pose proof (Z.mod_le (Z.of_nat (length (m_data msg))) (2 ^ 16)). lia. }
  destruct (m_data msg) as [|v token]; [cbn in Hlen; lia|].
  change (vat (v :: token) 0) with (Ok v). step_bind.
  change (fun result i => expected ← vat (m_expectedAuth c) i; _)
    with (fun result i => expected ← vat (m_expectedAuth c) i; got ← vat token i;
            Ok (if expected =? got then result else ERR_INVALID_AUTH)).
  rewrite auth_loop; [by eexists|].
  apply Forall_forall. intros i Hi. apply elem_of_seq in Hi.
  unfold AUTHENTICATION_LEN in *. cbn in Hlen. lia.
Qed.

Section session.
Context {M : Type} `{ISimpleClientList M} (this : nat).
Implicit Types (c : client_core) (m : M).

(** What a session leaves: [c] and [m] after the messages [ms]. *)
Definition session_result c m (ms : list CMuxMessage) : client_core * M :=
  match session (m_version c) (m_expectedAuth c) ms with
  | None => (c, m)
  | Some (code, rest) =>
      let c := core_write (buildHelloResponse c code) c in
      let t := timer_cancel (m_authTimeout c) in
      if code =? ERR_OK
      then (set_state_timer AUTHENTICATED t (m_open c) c,
            foldl (fun m msg => addCommand m this msg) (addClient m this) rest)
      else (set_state_timer BAD_INIT t false c, m)
  end.

Lemma messages_authenticated c m ms :
  m_initState c = AUTHENTICATED ->
  foldM (client_handleCommand this) (c, m) ms
  = Ok (c, foldl (fun m msg => addCommand m this msg) m ms).
Proof.
  intros Hc. revert m. induction ms as [|msg ms IH]; intros m; [done|].
  cbn [foldM foldl client_handleCommand]. unfold isInitialized.
  rewrite bool_decide_eq_true_2 by done. apply IH.
Qed.

(** Input is discarded in every state but [WAITING] and [AUTHENTICATED]. *)
Lemma message_discarded c m msg :
  m_initState c <> AUTHENTICATED -> m_initState c <> WAITING ->
  client_handleCommand this (c, m) msg = Ok (c, m).
Proof.
  intros Ha Hw. cbn. unfold isInitialized. by rewrite !bool_decide_eq_false_2.
Qed.

Lemma messages_discarded c m ms :
  m_initState c <> AUTHENTICATED -> m_initState c <> WAITING ->
  foldM (client_handleCommand this) (c, m) ms = Ok (c, m).
Proof.
  intros Ha Hw. induction ms as [|msg ms IH]; [done|].
  cbn [foldM]. by rewrite message_discarded.
Qed.

Lemma message_waiting c m msg :
  m_initState c = WAITING -> length (m_expectedAuth c) = AUTHENTICATION_LEN ->
  Z.of_nat (length (m_data msg)) + 3 < 65536 ->
  client_handleCommand this (c, m) msg =
  Ok (if m_type msg =? MUX_HELLO then
        let code := hello_code (m_version c) (m_expectedAuth c) (m_data msg) in
        let c := core_write (buildHelloResponse c code) c in
        let t := timer_cancel (m_authTimeout c) in
        if code =? ERR_OK then (set_state_timer AUTHENTICATED t (m_open c) c, addClient m this)
        else (set_state_timer BAD_INIT t false c, m)
      else (c, m)).
Proof.
  intros Hw Ha Hlen. unfold client_handleCommand, isInitialized.
  rewrite (bool_decide_eq_false_2 (m_initState c = AUTHENTICATED)) by congruence.
  rewrite bool_decide_eq_true_2 by done. cbn [andb].
  destruct (m_type msg =? MUX_HELLO); [|done].
  rewrite parseHello_spec by (done || lia). step_bind. by destruct (_ =? ERR_OK).
Qed.

Lemma messages_waiting c m ms :
  m_initState c = WAITING -> length (m_expectedAuth c) = AUTHENTICATION_LEN ->
  Forall message_ok ms ->
  foldM (client_handleCommand this) (c, m) ms = Ok (session_result c m ms).
Proof.
  intros Hw Ha Hms. induction Hms as [|msg ms Hmsg _ IH]; [done|].
  unfold session_result. cbn [foldM session].
  rewrite message_waiting by (done || apply Hmsg).
  destruct (m_type msg =? MUX_HELLO); [|exact IH].
  cbn zeta. step_bind. destruct (hello_code _ _ _ =? ERR_OK).
  - by rewrite messages_authenticated.
  - by rewrite messages_discarded.
Qed.

(** A parser whose handler ignores every message leaves the handler alone. *)
Lemma parse_loop_ignored {H0} `{ICommandCallback H0} (h : H0) fuel p :
  (forall msg, handleCommand h msg = Ok h) ->
  exists p', parse_loop fuel (p, h) = Ok (p', h).
Proof.
  intros Hh. revert p. induction fuel as [|fuel IH]; intros p; [by exists p|].
  cbn [parse_loop]. rewrite parse_next.
  destruct (next_command (m_partialInput p)) as [[cmd rest]|]; [|by eexists].
  unfold parser_callback. destruct (parser_handler p); rewrite ?Hh; step_bind; apply IH.
Qed.

Lemma read_all_ignored {H0} `{ICommandCallback H0} (h : H0) chunks p p' h' :
  (forall msg, handleCommand h msg = Ok h) ->
  read_all (p, h) chunks = Ok (p', h') -> h' = h.
Proof.
  intros Hh. revert p. unfold read_all. induction chunks as [|d chunks IH]; intros p; cbn [foldM].
  - by intros [= _ <-].
  - assert (Hread : exists p1, parser_read (p, h) d = Ok (p1, h)).
    { apply parse_loop_ignored. exact Hh. }
    destruct Hread as [p1 ->]. step_bind. apply IH.
Qed.

Lemma read_stream_stopped (cl : CBoostClient) m chunks :
  m_reading cl = false -> read_stream this (cl, m) chunks = Ok (cl, m).
Proof.
  intros Hr. unfold read_stream. induction chunks as [|d chunks IH]; [done|].
  cbn [foldM fst]. by rewrite Hr.
Qed.

(** The reads of a client are the reads of its parser, stopped at a bad hello. *)
Lemma read_stream_parser chunks p c m p' c' m' :
  Forall (fun d => d <> []) chunks ->
  @read_all _ (client_ICommandCallback this) (p, (c, m)) chunks = Ok (p', (c', m')) ->
  exists q, read_stream this ({| m_core := c; m_parser := p; m_reading := negb (badInit c) |}, m) chunks
    = Ok ({| m_core := c'; m_parser := q; m_reading := negb (badInit c') |}, m').
Proof.
  intros Hd. revert p c m. induction Hd as [|d chunks Hne _ IH]; intros p c m.
  { unfold read_all. cbn. intros [= <- <- <-]. by eexists. }
  destruct (badInit c) eqn:Hb.
  - intros Hr. apply read_all_ignored in Hr.
    + injection Hr as -> ->. rewrite read_stream_stopped by done. rewrite Hb. by eexists.
    + intros msg. apply message_discarded; apply bool_decide_eq_true in Hb; congruence.
  - unfold read_all. cbn [foldM].
    destruct (parser_read (p, (c, m)) d) as [[p1 [c1 m1]]|] eqn:Hp; [|done].
    step_bind. intros Hr. apply IH in Hr as [q Hq]. exists q.
    unfold read_stream in *. cbn [foldM fst m_reading negb].
    destruct d as [|b d]; [done|]. cbn [handle_read m_parser m_core].
    rewrite Hp. step_bind. exact Hq.
Qed.
End session.

(** ** Invariants of a client's events *)

(** The calls a client makes on the client list. *)
Inductive client_call :=
  | CallAdd (client : nat)
  | CallRemove (client : nat)
  | CallCommand (client : nat) (command : CMuxMessage).

Definition client_log := list client_call.
#[export] Instance client_log_list : ISimpleClientList client_log := {
  addClient l c := push_back l (CallAdd c);
  removeClient l c := Ok (push_back l (CallRemove c));
  addCommand l c m := push_back l (CallCommand c m);
}.

Section lifecycle.
Context (this : nat).
Implicit Types (c : client_core) (log : client_log).

(** The client was registered once, before anything else. *)
Definition registered log : Prop :=
  exists rest, log = CallAdd this :: rest /\ CallAdd this ∉ rest.

Record core_inv (s : client_core * client_log) : Prop := {
  ci_timer : m_authTimeout s.1 = TimerWaiting -> m_initState s.1 = WAITING;
  ci_open : m_open s.1 = true <-> m_initState s.1 = WAITING \/ m_initState s.1 = AUTHENTICATED;
  ci_quiet : m_initState s.1 = WAITING \/ m_initState s.1 = BAD_INIT -> s.2 = [];
  ci_auth : m_initState s.1 = AUTHENTICATED -> s.2 <> [];
  ci_shape : s.2 = [] \/ registered s.2 /\ buildHelloResponse s.1 ERR_OK ∈ m_sent s.1;
}.

Definition client_inv (s : CBoostClient * client_log) : Prop :=
  core_inv (m_core s.1, s.2) /\
  (m_initState (m_core s.1) = BAD_INIT -> m_reading s.1 = false).

Lemma registered_snoc log x : registered log -> x <> CallAdd this -> registered (log ++ [x]).
Proof.
  intros (rest & -> & Hr) Hx. exists (rest ++ [x]). split; [done|].
  rewrite elem_of_app, list_elem_of_singleton. by intros [?|<-].
Qed.

Lemma core_inv_command s msg s' :
  core_inv s -> client_handleCommand this s msg = Ok s' -> core_inv s'.
Proof.
  destruct s as [c log]. intros Hi. unfold client_handleCommand, isInitialized.
  case_bool_decide as Ha; [|destruct (_ && _) eqn:Hb; [|by intros [= <-]]].
  - intros [= <-]. destruct Hi as [Ht Ho Hq Hn Hs]. cbn in *. split; cbn; try done.
    + rewrite Ha. by intros [|].
    + intros _ Hnil. by destruct log.
    + right. destruct Hs as [Hs|[Hs Hsent]]; [by destruct Hn|]. split; [|done].
      by apply registered_snoc.
  - apply andb_true_iff in Hb as [Hw _]. apply bool_decide_eq_true in Hw.
    destruct Hi as [Ht Ho Hq Hn Hs]. cbn in *.
    assert (Hop : m_open c = true) by (apply Ho; by left).
    intros Heq. apply bind_Ok_inv in Heq as (code & _ & Heq).
    assert (log = []) as -> by (apply Hq; by left).
    destruct (code =? ERR_OK) eqn:Hc; injection Heq as <-; split; cbn; try done.
    + by destruct (m_authTimeout c).
    + split; [by right|done].
    + by intros [|].
    + right. split; [exists []; split; [done|apply not_elem_of_nil]|].
      apply Z.eqb_eq in Hc as ->. rewrite Hop. apply elem_of_app. right. by apply list_elem_of_singleton.
    + by destruct (m_authTimeout c).
    + split; [done|by intros [|]].
    + by left.
Qed.

Lemma core_inv_close c log : core_inv (c, log) -> core_inv (core_close c, log).
Proof.
  intros [Ht Ho Hq Hn Hs]. cbn in *. split; cbn; try done.
  - by destruct (m_authTimeout c).
  - split; [done|by intros [|]].
  - by intros [|].
Qed.

Lemma core_inv_timer c log t :
  t <> TimerWaiting \/ t = m_authTimeout c -> core_inv (c, log) ->
  core_inv (set_state_timer (m_initState c) t (m_open c) c, log).
Proof. intros Htm [Ht Ho Hq Hn Hs]. cbn in *. split; cbn; try done.
  intros ->. destruct Htm as [|Htm]; [done|by apply Ht].
Qed.

Lemma core_inv_write c log msg : core_inv (c, log) -> core_inv (core_write msg c, log).
Proof.
  intros [Ht Ho Hq Hn Hs]. cbn in *. split; cbn; try done.
  destruct Hs as [Hs|[Hs Hsent]]; [by left|]. right. split; [done|].
  destruct (m_open c); [|done]. apply elem_of_app. by left.
Qed.

Lemma client_inv_step s s' : client_inv s -> client_step this s s' -> client_inv s'.
Proof.
  intros [Hi Hb] Hstep. destruct Hstep as [cl m data s' Hr Hd Heq|cl m s' Hr Heq|cl m|cl m Ht|cl m Ht|cl m|cl m msg];
    cbn [fst snd] in *.
  - destruct data as [|b data]; [done|]. cbn [handle_read] in Heq.
    apply bind_Ok_inv in Heq as ([p [c log]] & Hp & [= <-]). split.
    + eapply (parser_read_invariant (H0 := client_ICommandCallback this) core_inv); [|exact Hi|exact Hp].
      intros h msg h'. apply core_inv_command.
    + cbn. intros Hs. unfold badInit. by rewrite bool_decide_eq_true_2.
  - cbn [handle_read m_core] in Heq. case_bool_decide as Ha; cbn in Heq.
    + injection Heq as <-. destruct Hi as [Ht Ho Hq Hn Hs]. cbn in *. split; [|done].
      split; cbn; try done.
      * rewrite Ha. by intros [|].
      * intros _ Hnil. by destruct m.
      * right. destruct Hs as [Hs|[Hs Hsent]]; [by destruct Hn|]. split; [|done].
        by apply registered_snoc.
    + injection Heq as <-. by split.
  - split; [|done]. apply core_inv_timer; [|done]. destruct (m_authTimeout (m_core cl)); auto.
  - split; [|done]. apply (core_inv_close (set_state_timer (m_initState (m_core cl)) TimerIdle
      (m_open (m_core cl)) (m_core cl))). apply core_inv_timer; [by left|done].
  - split; [|done]. cbn. apply core_inv_timer; [by left|done].
  - split; [by apply core_inv_close|done].
  - split; [by apply core_inv_write|done].
Qed.
End lifecycle.

(** ** A handler of the expired timer that runs late *)

Section late_timeout.
Context {M : Type} `{ISimpleClientList M} (this : nat).

Lemma handle_read_hello (cl : CBoostClient) m hello :
  m_parser cl = new_CMuxParser true -> m_reading cl = true ->
  m_initState (m_core cl) = WAITING ->
  length (m_expectedAuth (m_core cl)) = AUTHENTICATION_LEN -> message_ok hello ->
  exists q, handle_read this (cl, m) (ReadData (serialize_message hello))
    = (let '(c, m) := session_result this (m_core cl) m [hello] in
       Ok ({| m_core := c; m_parser := q; m_reading := negb (badInit c) |}, m)).
Proof.
  intros Hp Hr Hw Ha Hok.
  destruct (read_all_noisy (H0 := client_ICommandCallback this) (m_core cl, m) [([], hello)]
    [serialize_message hello]) as [input Hread].
  { apply Forall_cons. split; [|done]. by split. }
  { unfold noisy. cbn. by rewrite app_nil_r. }
  change (foldM handleCommand (m_core cl, m) [([], hello)].*2)
    with (foldM (client_handleCommand this) (m_core cl, m) [hello]) in Hread.
  rewrite messages_waiting in Hread by (done || by apply Forall_cons).
  destruct (session_result this (m_core cl) m [hello]) as [c' m'] eqn:Hs. step_bind.
  apply read_stream_parser in Hread as [q Hq]; [|by apply Forall_cons].
  exists q. unfold read_stream in Hq. cbn [foldM fst m_reading] in Hq.
  assert (Hb : badInit (m_core cl) = false) by (unfold badInit; by rewrite Hw).
  rewrite Hb in Hq. cbn [negb] in Hq. destruct cl as [c p r]. cbn in Hp, Hr. subst.
  cbn [m_core] in *. by apply bind_Ok_inv in Hq as (x & Hx & [= ->]).
Qed.

Lemma not_reading_quiet (s s' : CBoostClient * M) :
  steps (client_step this) s s' -> m_reading s.1 = false ->
  m_reading s'.1 = false /\ s'.2 = s.2.
Proof.
  intros Hs Hr. eapply (steps_invariant (client_step this)
    (fun s' => m_reading s'.1 = false /\ s'.2 = s.2)); [|exact Hs|done].
  intros s1 s2 [Hr1 Hm1] Hstep.
  destruct Hstep; cbn [fst snd] in *; try congruence; by split.
Qed.
End late_timeout.

(** ** Properties *)

(** C9: a client session, from the bytes to the client list.  A started client
    that receives serialized messages (between noise, cut into reads anywhere)
    ignores those before the first hello, answers that hello with its code
    (length, then token, then version), and if it is accepted registers itself
    and passes on every later message in order; if not it closes the socket,
    never reads again and calls nobody. *)
Theorem client_session {M} `{ISimpleClientList M} this (m : M) auth version l chunks :
  length auth = AUTHENTICATION_LEN -> Forall noisy_ok l ->
  concat chunks = noisy l -> Forall (fun d => d <> []) chunks ->
  let c := m_core (client_start (create auth version)) in
  let '(c', m') :=
    match session version auth (l.*2) with
    | None => (c, m)
    | Some (code, rest) =>
        let c := core_write (serialize_output (new_CMuxOutput MUX_HELLO 0 code [version])) c in
        if code =? ERR_OK
        then (set_state_timer AUTHENTICATED TimerAborted true c,
              foldl (fun m msg => addCommand m this msg) (addClient m this) rest)
        else (set_state_timer BAD_INIT TimerAborted false c, m)
    end in
  exists q, read_stream this (client_start (create auth version), m) chunks
    = Ok ({| m_core := c'; m_parser := q; m_reading := negb (badInit c') |}, m').
Proof.
  intros Ha Hl Hc Hd c.
  destruct (read_all_noisy (H0 := client_ICommandCallback this) (c, m) l chunks Hl Hc)
    as [input Hread].
  change (foldM handleCommand (c, m) l.*2) with (foldM (client_handleCommand this) (c, m) l.*2) in Hread.
  rewrite messages_waiting in Hread; [|done|done|].
  2: { apply Forall_fmap. eapply Forall_impl; [exact Hl|]. by intros gm [_ ?]. }
  change (match session version auth (l.*2) with None => _ | Some _ => _ end)
    with (session_result this c m (l.*2)).
  destruct (session_result this c m (l.*2)) as [c' m']. step_bind.
  exact (read_stream_parser _ _ _ _ _ _ _ _ Hd Hread).
Qed.

(** C19: whatever bytes, timer events, writes and closes a client sees, it is
    registered at most once, before any of its commands is queued and only after
    it sent the accepting hello response; while it waits or after a bad hello it
    has called nobody.  The socket is open exactly while waiting or
    authenticated, the auth timer runs only while waiting, and a client with a
    bad hello reads nothing more. *)
Theorem client_safety this auth version (cl : CBoostClient) (log : client_log) :
  steps (client_step this) (client_start (create auth version), []) (cl, log) ->
  let c := m_core cl in
  (log = [] \/
   (exists rest, log = CallAdd this :: rest /\ CallAdd this ∉ rest) /\
   buildHelloResponse c ERR_OK ∈ m_sent c) /\
  (m_initState c = WAITING \/ m_initState c = BAD_INIT -> log = []) /\
  (m_open c = true <-> m_initState c = WAITING \/ m_initState c = AUTHENTICATED) /\
  (m_authTimeout c = TimerWaiting -> m_initState c = WAITING) /\
  (m_initState c = BAD_INIT -> m_reading cl = false).
Proof.
  intros Hs c. assert (Hi : client_inv this (cl, log)).
  { eapply steps_invariant; [apply client_inv_step | exact Hs |].
    split; [|done]. split; cbn; try done; [tauto|by left]. }
  destruct Hi as [[Ht Ho Hq _ Hsh] Hb]. by split_and!.
Qed.

(** The auth timer can close a client that authenticated in time.  When the
    timer's handler is already queued as the hello is read, the accepted and
    registered client is closed by it; its read error no longer removes it,
    and no later event of the client ever does. *)
Lemma late_auth_timeout {M} `{ISimpleClientList M} this (m : M) auth version hello :
  length auth = AUTHENTICATION_LEN -> message_ok hello -> m_type hello = MUX_HELLO ->
  hello_code version auth (m_data hello) = ERR_OK ->
  exists cl, steps (client_step this) (client_start (create auth version), m) (cl, addClient m this) /\
    m_initState (m_core cl) = CLOSED /\ m_open (m_core cl) = false /\
    forall cl' m', steps (client_step this) (cl, addClient m this) (cl', m') -> m' = addClient m this.
Proof.
  intros Ha Hok Ht Hcode. set (cl0 := client_start (create auth version)).
  set (cl1 := set_core (set_state_timer WAITING TimerExpired true (m_core cl0)) cl0).
  destruct (handle_read_hello this cl1 m hello) as [q Hq]; [done..|].
  unfold session_result in Hq. cbn [session] in Hq. rewrite Ht, Z.eqb_refl in Hq.
  change (hello_code (m_version (m_core cl1)) (m_expectedAuth (m_core cl1)) (m_data hello))
    with (hello_code version auth (m_data hello)) in Hq.
  rewrite Hcode, Z.eqb_refl in Hq. cbn [foldl] in Hq.
  match type of Hq with _ = Ok (?x, _) => set (cl2 := x) in Hq end.
  exists {| m_core := core_close (set_state_timer BAD_INIT TimerIdle true (m_core cl2));
            m_parser := q; m_reading := false |}.
  split; [|split; [done|split; [done|]]].
  - apply (steps_cons _ _ (cl1, m)); [apply (cs_expire this cl0)|].
    apply (steps_cons _ _ (cl2, addClient m this)).
    { apply (cs_data this cl1 m (serialize_message hello)); done. }
    eapply steps_cons; [by apply cs_timeout|]. apply steps_one. by apply cs_error.
  - intros cl' m' Hs. by apply not_reading_quiet in Hs as [_ ?].
Qed.

(** ** Witnesses *)

Definition sample_auth : list Z := [48; 49; 50; 51; 52; 53; 54; 55].
Definition sample_hello : CMuxMessage := typed_message MUX_HELLO (4 :: sample_auth).

(** Noise and a stray command, then the hello, then a command. *)
Definition sample_session : list (list Z * CMuxMessage) :=
  [([0x11], power_message); ([], sample_hello); ([0xa7], power_message)].

Lemma client_session_witness :
  let bytes := noisy sample_session in
  exists cl, read_stream 3 (client_start (create sample_auth 4), [] : client_log)
      [take 20 bytes; drop 20 bytes]
    = Ok (cl, [CallAdd 3; CallCommand 3 power_message]) /\
    m_initState (m_core cl) = AUTHENTICATED /\
    m_sent (m_core cl) = [serialize_output (new_CMuxOutput MUX_HELLO 0 ERR_OK [4])].
Proof.
  intros bytes.
  destruct (client_session 3 ([] : client_log) sample_auth 4 sample_session
    [take 20 bytes; drop 20 bytes]) as [q Hq].
  - reflexivity.
  - repeat (apply Forall_cons; split; [by split; [|apply (bool_decide_unpack _)]|]). done.
  - reflexivity.
  - repeat (apply Forall_cons; split; [by vm_compute|]). done.
  - eexists. split; [exact Hq|]. by split.
Defined.

Lemma client_safety_witness :
  exists cl, steps (client_step 3) (client_start (create sample_auth 4), [])
      (cl, [CallAdd 3]) /\
    buildHelloResponse (m_core cl) ERR_OK ∈ m_sent (m_core cl).
Proof.
  eexists.
  assert (Hs : steps (client_step 3) (client_start (create sample_auth 4), [])
    (match handle_read 3 (client_start (create sample_auth 4), [])
             (ReadData (serialize_message sample_hello)) with
     | Ok s => s | Undefined _ => (client_start (create sample_auth 4), []) end)).
  { apply steps_one. apply (cs_data 3 _ _ (serialize_message sample_hello));
      [reflexivity | discriminate | vm_compute; reflexivity]. }
  vm_compute in Hs. split; [exact Hs|].
  destruct (client_safety 3 sample_auth 4 _ _ Hs) as ([Hnil|[_ Hsent]] & _); [discriminate Hnil|].
  exact Hsent.
Defined.

Lemma late_auth_timeout_witness :
  exists cl, steps (client_step 3) (client_start (create sample_auth 4), [] : client_log)
      (cl, [CallAdd 3]) /\ m_initState (m_core cl) = CLOSED.
Proof.
  destruct (late_auth_timeout 3 ([] : client_log) sample_auth 4 sample_hello)
    as (cl & Hs & Hc & _).
  - reflexivity.
  - by apply (bool_decide_unpack _).
  - reflexivity.
  - reflexivity.
  - exists cl. by split.
Defined.
