(* ===== verification/Options.v ===== *)
(** * Options ([serial_mux/SerialMuxOptions.h], [SerialMuxOptions.cpp])

    Defaults, the conversion of the authentication token, and
    [parseConfiguration].  The option parser is a library: what it makes of the
    command line and of the configuration file is a parameter. *)

From Stdlib Require Import ZArith Lia Ascii.
From stdpp Require Import base list strings gmap.
From S2P Require Import Prelude Common BoostLog BoostClient.
#[local] Open Scope Z_scope.

(** ** Characters: [char] is signed, and the C locale is in force *)

Definition char_int (c : ascii) : Z :=
  let n := Z.of_nat (nat_of_ascii c) in if n <? 128 then n else n - 256.

(** The classification functions take [EOF] or an [unsigned char]. *)
Definition ctype (p : Z -> bool) (c : ascii) : outcome bool :=
  let n := char_int c in
  if n <? -1 then Undefined BadCtype else Ok ((0 <=? n) && p n).

Definition between (a b n : Z) : bool := (a <=? n) && (n <=? b).
Definition is_space (n : Z) : bool := (n =? 32) || between 9 13 n.
Definition is_digit (n : Z) : bool := between 48 57 n.
Definition is_xdigit (n : Z) : bool := is_digit n || between 65 70 n || between 97 102 n.

Definition isspace : ascii -> outcome bool := ctype is_space.
Definition isxdigit : ascii -> outcome bool := ctype is_xdigit.

(** [isdigit(c) ? c-'0' : tolower(c)-'a'+10] on a hexadecimal digit *)
Definition digit_value (c : ascii) : Z :=
  let n := char_int c in
  if is_digit n then n - 48
  else (if between 65 90 n then n + 32 else n) - 97 + 10.

Definition NUL : ascii := ascii_of_nat 0.
Definition is_NUL (c : ascii) : bool := char_int c =? 0.
(** '-' or ':' *)
Definition is_separator (c : ascii) : bool := (char_int c =? 45) || (char_int c =? 58).

(** ** [hexToBin] *)

(** The local variables of the loop. *)
Record hex_state := {
  idx : nat;
  nn : nat;
  isOk : bool;
  wasDigit : bool;
  outBuf : list Z;
}.

(** One iteration on character [c]: the state, and whether it ends with [break]. *)
Definition hex_iter (len : nat) (c : ascii) (s : hex_state) : outcome (hex_state * bool) :=
  isDigit ← isxdigit c;
  stop ← (if wasDigit s then if is_NUL c then Ok true else isspace c else Ok false);
  let ok := (wasDigit s && (stop || is_separator c)) || isDigit in
  if negb ok
  then Ok ({| idx := idx s; nn := nn s; isOk := false; wasDigit := isDigit;
              outBuf := outBuf s |}, false)
  else
    let next := negb isDigit || (nn s =? 2)%nat in
    let idx' := if next then S (idx s) else idx s in
    let nn' := if next then O else nn s in
    if (isDigit : bool) then
      if (idx' <? len)%nat then
        old ← vat (outBuf s) idx';
        buf ← vset (outBuf s) idx' (u8 (Z.shiftl old 4 + digit_value c));
        Ok ({| idx := idx'; nn := S nn'; isOk := true; wasDigit := true; outBuf := buf |},
            false)
      else Ok ({| idx := idx'; nn := nn'; isOk := false; wasDigit := true;
                  outBuf := outBuf s |}, false)
    else
      Ok ({| idx := idx'; nn := nn'; isOk := true; wasDigit := false; outBuf := outBuf s |},
          negb (is_separator c)).

(** [while(isOk)]; a string that is not terminated is read out of bounds. *)
Fixpoint hex_loop (len : nat) (str : list ascii) (s : hex_state) : outcome hex_state :=
  if isOk s then
    match str with
    | [] => Undefined OutOfBounds
    | c :: str =>
        '(s, break) ← hex_iter len c s;
        if (break : bool) then Ok s else hex_loop len str s
    end
  else Ok s.

(** [while (isspace( *str)) str++] *)
Fixpoint skip_spaces (str : list ascii) : outcome (list ascii) :=
  match str with
  | [] => Undefined OutOfBounds
  | c :: rest => sp ← isspace c; if (sp : bool) then skip_spaces rest else Ok str
  end.

(** The result and the buffer, of [len] bytes. *)
Definition hexToBin (str : list ascii) (len : nat) : outcome (nat * list Z) :=
  str ← skip_spaces str;
  s ← hex_loop len str {| idx := 0; nn := 0; isOk := true; wasDigit := false;
                          outBuf := replicate len 0 |};
  Ok (if isOk s then idx s else O, outBuf s).

Definition c_str (s : string) : list ascii := String.list_ascii_of_string s ++ [NUL].

Example hexToBin_pairs :
  hexToBin (c_str "  3031-32:3 ignored") 8 = Ok (4%nat, [48; 49; 50; 3; 0; 0; 0; 0]).
Proof. reflexivity. Qed.
Example hexToBin_bad : hexToBin (c_str "30--31") 8 = Ok (0%nat, [48; 0; 0; 0; 0; 0; 0; 0]).
Proof. reflexivity. Qed.

(** ** The reference decoder: split the first word at the separators, each part
    into pairs of digits *)

(** The characters the classification functions accept: all but 128..254. *)
Definition plain (c : ascii) : Prop := -1 <= char_int c.
Definition ends_word (c : ascii) : bool := is_NUL c || is_space (char_int c).
Definition hexa (c : ascii) : bool := is_xdigit (char_int c).

Fixpoint drop_spaces (str : list ascii) : list ascii :=
  match str with
  | c :: rest => if is_space (char_int c) then drop_spaces rest else str
  | [] => []
  end.

Fixpoint first_word (str : list ascii) : list ascii :=
  match str with
  | c :: rest => if ends_word c then [] else c :: first_word rest
  | [] => []
  end.

Fixpoint split_groups (w : list ascii) : list ascii * list (list ascii) :=
  match w with
  | [] => ([], [])
  | c :: w =>
      let '(g, gs) := split_groups w in
      if is_separator c then ([], g :: gs) else (c :: g, gs)
  end.

Fixpoint pair_up (ds : list Z) : list Z :=
  match ds with
  | a :: b :: ds => (16 * a + b) :: pair_up ds
  | [a] => [a]
  | [] => []
  end.

Definition good_group (g : list ascii) : bool :=
  negb (bool_decide (g = [])) && forallb hexa g.

Definition group_bytes (g : list ascii) : list Z := pair_up (map digit_value g).

Definition token_of (str : list ascii) : option (list Z) :=
  let '(g, gs) := split_groups (first_word (drop_spaces str)) in
  if forallb good_group (g :: gs) then Some (flat_map group_bytes (g :: gs)) else None.

(** ** Characters of a token *)

Lemma char_int_range c : -128 <= char_int c < 128.
Proof.
  unfold char_int. pose proof (nat_ascii_bounded c).
  destruct (Z.ltb_spec (Z.of_nat (nat_of_ascii c)) 128); lia.
Qed.

Lemma ctype_plain p c : (p (-1) = false) -> plain c -> ctype p c = Ok (p (char_int c)).
Proof.
  unfold plain, ctype. intros Hp Hc. rewrite (proj2 (Z.ltb_ge _ _)) by lia.
  destruct (decide (char_int c = -1)) as [->|]; [by rewrite Hp|].
  by rewrite (proj2 (Z.leb_le _ _)) by lia.
Qed.

Lemma ctype_undefined p c : ~ plain c -> ctype p c = Undefined BadCtype.
Proof. unfold plain, ctype. intros Hc. by rewrite (proj2 (Z.ltb_lt _ _)) by lia. Qed.

(** Check a property of every character by evaluation. *)
Lemma all_chars (f : ascii -> bool) :
  forallb f (map ascii_of_nat (List.seq 0 256)) = true -> forall c, f c = true.
Proof.
  rewrite forallb_forall. intros Hf c. apply Hf. apply in_map_iff.
  exists (nat_of_ascii c). split; [apply ascii_nat_embedding|].
  apply in_seq. pose proof (nat_ascii_bounded c). lia.
Qed.

(** The classes of characters do not overlap. *)
Lemma hexa_classes c :
  hexa c = true -> is_separator c = false /\ ends_word c = false /\ 0 <= digit_value c < 16.
Proof.
  pose proof (all_chars (fun c => implb (hexa c) (negb (is_separator c) && negb (ends_word c)
    && (0 <=? digit_value c) && (digit_value c <? 16))) eq_refl c) as Hall.
  cbn beta in Hall. intros Hc. rewrite Hc in Hall. cbn [implb] in Hall.
  destruct (is_separator c), (ends_word c); try done. repeat split; lia.
Qed.

Lemma separator_classes c :
  is_separator c = true -> hexa c = false /\ ends_word c = false.
Proof.
  pose proof (all_chars (fun c => implb (is_separator c) (negb (hexa c) && negb (ends_word c)))
    eq_refl c) as Hall.
  cbn beta in Hall. intros Hc. rewrite Hc in Hall. cbn [implb] in Hall.
  by destruct (hexa c), (ends_word c).
Qed.

Lemma end_classes c :
  ends_word c = true -> hexa c = false /\ is_separator c = false.
Proof.
  intros He. split.
  - destruct (hexa c) eqn:E; [|done]. apply hexa_classes in E as (_ & E & _). congruence.
  - destruct (is_separator c) eqn:E; [|done]. apply separator_classes in E as [_ E]. congruence.
Qed.

(** ** The loop against the reference decoder *)

(** The byte being assembled from the digits [pre] read so far, if any. *)
Definition digits_value (pre : list Z) : Z := foldl (fun a b => 16 * a + b) 0 pre.
Definition current (pre : list Z) : list Z :=
  match pre with [] => [] | _ => [digits_value pre] end.

Definition hex_at (len : nat) (bytes pre : list Z) : hex_state :=
  {| idx := length bytes; nn := length pre; isOk := true;
     wasDigit := negb (bool_decide (pre = []));
     outBuf := bytes ++ current pre ++ replicate (len - length bytes - length (current pre)) 0 |}.

(** What the rest [w] of the word makes of the bytes and digits before it. *)
Definition expected (bytes pre : list Z) (w : list ascii) : option (list Z) :=
  let '(g, gs) := split_groups w in
  if negb (bool_decide (pre = []) && bool_decide (g = [])) && forallb hexa g
     && forallb good_group gs
  then Some (bytes ++ pair_up (pre ++ map digit_value g) ++ flat_map group_bytes gs)
  else None.

(** The final state agrees with the expected bytes. *)
Definition agrees (len : nat) (e : option (list Z)) (s : hex_state) : Prop :=
  length (outBuf s) = len /\ bytes_ok (outBuf s) /\
  match e with
  | Some bs =>
      if (length bs <=? len)%nat
      then isOk s = true /\ idx s = length bs /\
           outBuf s = bs ++ replicate (len - length bs) 0
      else isOk s = false
  | None => isOk s = false
  end.

(** Digits and bytes in range, and the current byte inside the buffer. *)
Definition hex_inv (len : nat) (bytes pre : list Z) : Prop :=
  bytes_ok bytes /\ Forall (fun d => 0 <= d < 16) pre /\ (length pre <= 2)%nat /\
  (length bytes + length (current pre) <= len)%nat.

Lemma digits_value_range pre :
  Forall (fun d => 0 <= d < 16) pre -> (length pre <= 2)%nat -> is_u8 (digits_value pre).
Proof.
  intros Hd Hl. destruct pre as [|a [|b [|c pre]]]; cbn in Hl; [..|lia];
    decompose_Forall_hyps; unfold is_u8, digits_value; cbn; lia.
Qed.

Lemma hex_at_buf len bytes pre :
  hex_inv len bytes pre ->
  length (outBuf (hex_at len bytes pre)) = len /\ bytes_ok (outBuf (hex_at len bytes pre)).
Proof.
  intros (Hb & Hd & Hl & Hlen). cbn. split.
  - rewrite !length_app, length_replicate. lia.
  - apply Forall_app; split; [done|]. apply Forall_app; split.
    + destruct pre; [done|]. constructor; [by apply digits_value_range | done].
    + apply Forall_replicate. word_range.
Qed.

Lemma pair_up_current pre :
  (length pre <= 2)%nat -> pair_up pre = current pre.
Proof. destruct pre as [|a [|b [|c pre]]]; cbn; intros; [done..|lia]. Qed.

Lemma pair_up_length ds : ds <> [] -> (1 <= length (pair_up ds))%nat.
Proof. destruct ds as [|a [|b ds]]; cbn; [done|lia..]. Qed.

Lemma expected_length bytes pre w bs :
  expected bytes pre w = Some bs -> (length bytes < length bs)%nat.
Proof.
  unfold expected. destruct (split_groups w) as [g gs].
  destruct (bool_decide (pre = []) && bool_decide (g = [])) eqn:E; [done|]. cbn.
  destruct (forallb hexa g && forallb good_group gs); [|done]. intros [= <-].
  rewrite !length_app.
  assert (1 <= length (pair_up (pre ++ map digit_value g)))%nat; [|lia].
  apply pair_up_length. intros Hnil. apply app_eq_nil in Hnil as [-> Hg].
  destruct g; [done|done].
Qed.

(** A separator, or the third digit, closes the current byte. *)
Lemma expected_separator bytes pre c w :
  pre <> [] -> (length pre <= 2)%nat -> is_separator c = true ->
  expected bytes pre (c :: w) = expected (bytes ++ current pre) [] w.
Proof.
  intros Hpre Hl Hc. unfold expected. cbn [split_groups].
  destruct (split_groups w) as [g gs]. rewrite Hc. cbv beta iota zeta.
  rewrite (bool_decide_eq_false_2 (pre = [])) by done.
  rewrite app_nil_r, pair_up_current by done. cbn [andb negb forallb app map flat_map].
  unfold good_group at 1. rewrite (bool_decide_eq_true_2 ([] = [])) by done. cbn [andb].
  destruct (negb (bool_decide (g = [])) && forallb hexa g && forallb good_group gs); [|done].
  by rewrite (assoc_L app).
Qed.

Lemma expected_full bytes pre w :
  length pre = 2%nat -> (exists c w', w = c :: w' /\ hexa c = true) ->
  expected bytes pre w = expected (bytes ++ current pre) [] w.
Proof.
  intros Hl (c & w' & -> & Hc). unfold expected. cbn [split_groups].
  destruct (split_groups w') as [g gs]. rewrite (proj1 (hexa_classes c Hc)). cbv beta iota zeta.
  destruct pre as [|a [|b [|? ?]]]; [done..| |done].
  change (bool_decide ([a; b] = [])) with false.
  change (bool_decide (c :: g = [])) with false. rewrite !andb_false_r. cbn [andb negb].
  destruct (forallb hexa (c :: g) && forallb good_group gs); [|done].
  cbn. by rewrite <- (assoc_L app).
Qed.

Lemma expected_digit bytes pre c w :
  hexa c = true -> expected bytes pre (c :: w) = expected bytes (pre ++ [digit_value c]) w.
Proof.
  intros Hc. unfold expected. cbn [split_groups].
  destruct (split_groups w) as [g gs]. rewrite (proj1 (hexa_classes c Hc)). cbv beta iota zeta.
  rewrite (bool_decide_eq_false_2 (pre ++ [digit_value c] = [])) by (by destruct pre).
  change (bool_decide (c :: g = [])) with false.
  rewrite andb_false_r. cbn [andb negb forallb map]. rewrite Hc, <- (assoc_L app). done.
Qed.

(** One digit, with at most one before it in its byte. *)
Lemma hex_iter_digit len bytes pre c :
  hex_inv len bytes pre -> (length pre < 2)%nat -> plain c -> hexa c = true ->
  if (length bytes <? len)%nat
  then hex_iter len c (hex_at len bytes pre)
         = Ok (hex_at len bytes (pre ++ [digit_value c]), false) /\
       hex_inv len bytes (pre ++ [digit_value c])
  else exists s, hex_iter len c (hex_at len bytes pre) = Ok (s, false) /\
         isOk s = false /\ outBuf s = outBuf (hex_at len bytes pre).
Proof.
  intros (Hb & Hd & _ & Hlen) Hl Hp Hc.
  destruct (hexa_classes c Hc) as (_ & _ & Hv).
  assert (Hstop : exists b, (if wasDigit (hex_at len bytes pre)
             then if is_NUL c then Ok true else isspace c else Ok false) = Ok b).
  { destruct (wasDigit _); [|by eexists]. destruct (is_NUL c); [by eexists|].
    unfold isspace. rewrite ctype_plain by done. by eexists. }
  destruct Hstop as [stop Hstop].
  unfold hex_iter, isxdigit. rewrite ctype_plain, bind_Ok, Hstop, bind_Ok by done.
  change (is_xdigit (char_int c)) with (hexa c). rewrite Hc, orb_true_r. cbn [negb].
  cbn [orb]. cbn [hex_at nn idx outBuf].
  rewrite (proj2 (Nat.eqb_neq (length pre) 2)) by lia. cbv zeta iota.
  destruct (Nat.ltb_spec (length bytes) len) as [Hlt|Hge]; [|by eexists].
  assert (Hcur : (current pre ++ replicate (len - length bytes - length (current pre)) 0)
      = digits_value pre :: replicate (len - length bytes - 1) 0 /\ (length (current pre) <= 1)%nat).
  { destruct pre; cbn [current app length].
    - replace (len - length bytes - 0)%nat with (S (len - length bytes - 1)) by lia.
      split; [reflexivity | lia].
    - split; [reflexivity | lia]. }
  destruct Hcur as [Hcur Hcl]. rewrite Hcur.
  rewrite vat_mid, bind_Ok, vset_mid, bind_Ok.
  assert (Hd' : Forall (fun d => 0 <= d < 16) (pre ++ [digit_value c]))
    by (apply Forall_app; split; [done|by constructor]).
  assert (Hnew : u8 (Z.shiftl (digits_value pre) 4 + digit_value c)
                 = digits_value (pre ++ [digit_value c])).
  { assert (Hval : digits_value (pre ++ [digit_value c])
                   = Z.shiftl (digits_value pre) 4 + digit_value c).
    { unfold digits_value. rewrite foldl_app. cbn [foldl].
      rewrite Z.shiftl_mul_pow2 by lia. lia. }
    rewrite <- Hval. apply u8_small, digits_value_range; [done|].
    rewrite length_app. cbn. lia. }
  assert (Hcur' : current (pre ++ [digit_value c]) = [digits_value (pre ++ [digit_value c])])
    by (destruct pre; done).
  split.
  - unfold hex_at. rewrite Hcur'. cbn [app length].
    rewrite bool_decide_eq_false_2 by (by destruct pre). cbn [negb].
    rewrite length_app, Nat.add_1_r. by rewrite Hnew.
  - split_and!; [done|done| |]; rewrite ?length_app, ?Hcur'; cbn; lia.
Qed.

(** The third digit first closes the byte. *)
Lemma hex_iter_full len bytes pre c :
  length pre = 2%nat -> hexa c = true -> plain c -> (length bytes < len)%nat ->
  hex_iter len c (hex_at len bytes pre) = hex_iter len c (hex_at len (bytes ++ current pre) []).
Proof.
  intros Hl Hc Hp Hlt. destruct (hexa_classes c Hc) as (Hsep & Hend & _).
  apply orb_false_elim in Hend as [Hnul _].
  unfold hex_iter, isspace, isxdigit. rewrite !ctype_plain, !bind_Ok by done.
  change (is_xdigit (char_int c)) with (hexa c). rewrite Hc, Hnul.
  destruct pre as [|a [|b [|? ?]]]; [done..| |done].
  cbn [hex_at wasDigit nn idx outBuf current].
  change (bool_decide ([a; b] = [])) with false. change (bool_decide (@nil Z = [])) with true.
  cbn [negb]. rewrite !bind_Ok.
  rewrite !orb_true_r. cbn [negb orb length Nat.eqb].
  rewrite length_app, Nat.add_1_r. cbn [length app]. rewrite Nat.sub_0_r.
  replace (len - length bytes - 1)%nat with (len - S (length bytes))%nat by lia.
  by rewrite <- (assoc_L app).
Qed.

(** A separator after a digit closes the byte. *)
Lemma hex_iter_separator len bytes pre c :
  hex_inv len bytes pre -> pre <> [] -> is_separator c = true -> plain c ->
  hex_iter len c (hex_at len bytes pre) = Ok (hex_at len (bytes ++ current pre) [], false) /\
  hex_inv len (bytes ++ current pre) [].
Proof.
  intros (Hb & Hd & Hl & Hlen) Hpre Hc Hp. destruct (separator_classes c Hc) as [Hx Hend].
  apply orb_false_elim in Hend as [Hnul Hsp].
  assert (Hcur : current pre = [digits_value pre]) by (by destruct pre).
  split.
  - unfold hex_iter, isspace, isxdigit. rewrite !ctype_plain, !bind_Ok by done.
    change (is_xdigit (char_int c)) with (hexa c). rewrite Hx, Hnul, Hsp, Hc.
    cbn [hex_at wasDigit nn idx outBuf]. rewrite bool_decide_eq_false_2 by done.
    cbn [negb]. rewrite bind_Ok. cbn [andb orb negb].
    unfold hex_at. rewrite Hcur, length_app. cbn [length app current].
    rewrite Nat.add_1_r, Nat.sub_0_r, <- (assoc_L app).
    by replace (len - S (length bytes))%nat with (len - length bytes - 1)%nat by lia.
  - rewrite Hcur in *. split_and!.
    + apply Forall_app; split; [done|]. constructor; [by apply digits_value_range|done].
    + done.
    + cbn. lia.
    + rewrite length_app. cbn in Hlen |- *. lia.
Qed.

(** Any other character inside the word, or a separator or an end that does not
    follow a digit, is an error. *)
Lemma hex_iter_bad len bytes pre c :
  plain c -> hexa c = false -> (pre = [] \/ (is_separator c = false /\ ends_word c = false)) ->
  exists s, hex_iter len c (hex_at len bytes pre) = Ok (s, false) /\ isOk s = false /\
    outBuf s = outBuf (hex_at len bytes pre).
Proof.
  intros Hp Hx Hbad. unfold hex_iter, isspace, isxdigit. rewrite !ctype_plain, !bind_Ok by done.
  change (is_xdigit (char_int c)) with (hexa c). rewrite Hx. cbn [hex_at wasDigit].
  destruct (decide (pre = [])) as [->|Hpre]; [by eexists|].
  rewrite bool_decide_eq_false_2 by done. destruct Hbad as [?|[Hsep Hend]]; [done|].
  apply orb_false_elim in Hend as [Hnul Hsp]. rewrite Hnul, Hsp, Hsep. by eexists.
Qed.

(** The end of the word after a digit. *)
Lemma hex_iter_end len bytes pre c :
  hex_inv len bytes pre -> pre <> [] -> ends_word c = true -> plain c ->
  exists s, hex_iter len c (hex_at len bytes pre) = Ok (s, true) /\ isOk s = true /\
    idx s = S (length bytes) /\ outBuf s = outBuf (hex_at len bytes pre).
Proof.
  intros _ Hpre Hend Hp. destruct (end_classes c Hend) as [Hx Hsep].
  unfold hex_iter, isspace, isxdigit. rewrite !ctype_plain, !bind_Ok by done.
  change (is_xdigit (char_int c)) with (hexa c). rewrite Hx, Hsep.
  cbn [hex_at wasDigit]. rewrite bool_decide_eq_false_2 by done. cbn [negb].
  unfold ends_word in Hend.
  replace (if is_NUL c then Ok true else Ok (is_space (char_int c))) with (Ok true)
    by (destruct (is_NUL c); [done|]; cbn in Hend; by rewrite Hend).
  by eexists.
Qed.

Lemma hex_loop_stopped len str s : isOk s = false -> hex_loop len str s = Ok s.
Proof. intros Hs. destruct str; cbn; by rewrite Hs. Qed.

(** A loop that stops with an error agrees with no bytes, or too many. *)
Lemma agrees_error len e s bytes pre :
  hex_inv len bytes pre -> isOk s = false -> outBuf s = outBuf (hex_at len bytes pre) ->
  (forall bs, e = Some bs -> (len < length bs)%nat) -> agrees len e s.
Proof.
  intros Hinv Hok Hbuf He. unfold agrees. rewrite Hbuf.
  destruct (hex_at_buf len bytes pre Hinv) as [H1 H2]. split_and!; [done..|].
  destruct e as [bs|]; [|done]. specialize (He bs eq_refl).
  by rewrite (proj2 (Nat.leb_gt _ _)).
Qed.

Lemma hex_loop_step len c str s s' break :
  isOk s = true -> hex_iter len c s = Ok (s', break) ->
  hex_loop len (c :: str) s = if break then Ok s' else hex_loop len str s'.
Proof. intros Hs Hi. cbn [hex_loop]. by rewrite Hs, Hi. Qed.

(** The loop from a state and the rest of the word agrees with the reference. *)
Definition word_agrees (len : nat) (tail w : list ascii) (bytes : list Z) (pre : list Z) : Prop :=
  exists s, hex_loop len (w ++ tail) (hex_at len bytes pre) = Ok s /\
    agrees len (expected bytes pre w) s.

(** The end of the word. *)
Lemma agrees_at_end len t rest bytes pre :
  ends_word t = true -> plain t -> hex_inv len bytes pre ->
  word_agrees len (t :: rest) [] bytes pre.
Proof.
  intros Ht Htp Hinv. destruct (end_classes t Ht) as [Htx Hts]. unfold word_agrees. cbn [app].
  destruct (decide (pre = [])) as [->|Hpre].
  - destruct (hex_iter_bad len bytes [] t Htp Htx (or_introl eq_refl)) as (s & Hi & Hok & Hbuf).
    exists s. rewrite (hex_loop_step _ _ _ _ s false) by done.
    rewrite hex_loop_stopped by done. split; [done|].
    by apply (agrees_error len _ s bytes []).
  - destruct (hex_iter_end len bytes pre t Hinv Hpre Ht Htp) as (s & Hi & Hok & Hidx & Hbuf).
    exists s. rewrite (hex_loop_step _ _ _ _ s true) by done. split; [done|].
    unfold expected, agrees. cbn [split_groups]. rewrite bool_decide_eq_false_2 by done.
    cbn [andb negb forallb map flat_map]. rewrite !app_nil_r, Hbuf, Hok, Hidx.
    destruct (hex_at_buf len bytes pre Hinv) as [H1 H2].
    destruct Hinv as (_ & _ & Hl & Hlen). rewrite pair_up_current by done.
    rewrite length_app. split_and!; [done..|]. rewrite (proj2 (Nat.leb_le _ _)) by done.
    cbn [hex_at outBuf]. rewrite Nat.sub_add_distr, (assoc_L app).
    destruct pre; [done|]. cbn. split_and!; [done|lia|done].
Qed.

(** A digit that begins or ends a byte. *)
Lemma agrees_at_digit len tail c w bytes pre :
  (forall bytes pre, hex_inv len bytes pre -> word_agrees len tail w bytes pre) ->
  plain c -> hexa c = true -> hex_inv len bytes pre -> (length pre < 2)%nat ->
  word_agrees len tail (c :: w) bytes pre.
Proof.
  intros IH Hcp Hx Hinv Hl. unfold word_agrees. cbn [app].
  pose proof (hex_iter_digit len bytes pre c Hinv Hl Hcp Hx) as Hstep.
  destruct (Nat.ltb_spec (length bytes) len) as [Hlt|Hge].
  - destruct Hstep as [Hi Hinv']. rewrite expected_digit by done.
    rewrite (hex_loop_step _ _ _ (hex_at len bytes pre) _ false eq_refl Hi). by apply IH.
  - destruct Hstep as (s & Hi & Hok & Hbuf). exists s.
    rewrite (hex_loop_step _ _ _ (hex_at len bytes pre) _ false eq_refl Hi).
    rewrite hex_loop_stopped by done. split; [done|].
    apply (agrees_error len _ s bytes pre); [done..|].
    intros bs Hbs. apply expected_length in Hbs. lia.
Qed.

(** A digit after two: the byte is complete. *)
Lemma agrees_at_third len tail c w bytes pre :
  (forall bytes pre, hex_inv len bytes pre -> word_agrees len tail w bytes pre) ->
  plain c -> hexa c = true -> hex_inv len bytes pre -> length pre = 2%nat ->
  word_agrees len tail (c :: w) bytes pre.
Proof.
  intros IH Hcp Hx (Hb & Hd & Hl2 & Hlen) Hl. unfold word_agrees.
  assert (Hcur : length (current pre) = 1%nat) by (by destruct pre).
  rewrite expected_full by eauto.
  destruct (agrees_at_digit len tail c w (bytes ++ current pre) []) as (s & Hs & Ha);
    [exact IH|done|done| |cbn; lia|].
  { split_and!; [|done|cbn; lia|rewrite length_app; cbn; lia].
    apply Forall_app; split; [done|]. destruct pre; [done|].
    constructor; [by apply digits_value_range|done]. }
  exists s. split; [|done]. rewrite <- Hs. cbn [app hex_loop isOk hex_at].
  change (hex_iter len c {| idx := _; nn := length pre; isOk := _; wasDigit := _; outBuf := _ |})
    with (hex_iter len c (hex_at len bytes pre)).
  rewrite hex_iter_full by (done || lia). done.
Qed.

(** A character that cannot stand where it does. *)
Lemma agrees_at_bad len tail c w bytes pre :
  plain c -> hexa c = false -> ends_word c = false -> hex_inv len bytes pre ->
  pre = [] \/ is_separator c = false ->
  word_agrees len tail (c :: w) bytes pre.
Proof.
  intros Hcp Hx Hend Hinv Hor. unfold word_agrees. cbn [app].
  destruct (hex_iter_bad len bytes pre c Hcp Hx) as (s & Hi & Hok & Hbuf).
  { destruct Hor as [Hp|Hs]; [by left|by right]. }
  exists s. rewrite (hex_loop_step _ _ _ (hex_at len bytes pre) _ false eq_refl Hi).
  rewrite hex_loop_stopped by done. split; [done|].
  apply (agrees_error len _ s bytes pre); [done..|].
  unfold expected. cbn [split_groups]. destruct (split_groups w) as [g gs].
  destruct (is_separator c); cbv beta iota zeta.
  - destruct Hor as [->|?]; [|done]. done.
  - cbn [forallb]. rewrite Hx, andb_false_r. done.
Qed.

Lemma hex_loop_agrees len t rest w :
  ends_word t = true -> plain t -> forall bytes pre,
  hex_inv len bytes pre -> Forall plain w -> forallb (fun c => negb (ends_word c)) w = true ->
  word_agrees len (t :: rest) w bytes pre.
Proof.
  intros Ht Htp. induction w as [|c w IH]; intros bytes pre Hinv Hw Hword; [by apply agrees_at_end|].
  apply Forall_cons in Hw as [Hcp Hw]. cbn [forallb] in Hword. apply andb_prop in Hword as [Hcw Hword].
  apply negb_true_iff in Hcw.
  assert (IH' : forall bytes pre, hex_inv len bytes pre -> word_agrees len (t :: rest) w bytes pre) by auto.
  destruct (hexa c) eqn:Hx.
  - destruct (decide (length pre = 2%nat)); [by apply agrees_at_third|].
    apply agrees_at_digit; try done. destruct Hinv as (_ & _ & ? & _). lia.
  - destruct (is_separator c) eqn:Hs; [|apply agrees_at_bad; auto].
    destruct (decide (pre = [])) as [->|Hpre]; [apply agrees_at_bad; auto|].
    destruct (hex_iter_separator len bytes pre c Hinv Hpre Hs Hcp) as [Hi Hinv'].
    unfold word_agrees. cbn [app]. rewrite expected_separator by (done || apply Hinv).
    rewrite (hex_loop_step _ _ _ (hex_at len bytes pre) _ false eq_refl Hi). by apply IH.
Qed.

(** ** [hexToBin] as a whole *)

#[export] Instance plain_dec c : Decision (plain c).
Proof. unfold plain; apply _. Defined.

Lemma plain_NUL : plain NUL.
Proof. vm_decide. Qed.

Lemma ends_plain c : ends_word c = true -> plain c.
Proof.
  unfold ends_word, is_NUL, is_space, between, plain. intros Hc.
  rewrite !orb_true_iff, andb_true_iff, !Z.eqb_eq, !Z.leb_le in Hc. lia.
Qed.

Lemma hexa_plain c : hexa c = true -> plain c.
Proof.
  unfold hexa, is_xdigit, is_digit, between, plain. intros Hc.
  rewrite !orb_true_iff, !andb_true_iff, !Z.leb_le in Hc. lia.
Qed.

Definition wordy (w : list ascii) : bool := forallb (fun c => negb (ends_word c)) w.

(** The first word, and the character that ends it. *)
Lemma first_word_split str :
  exists t rest, str ++ [NUL] = first_word str ++ t :: rest /\ ends_word t = true /\
    wordy (first_word str) = true.
Proof.
  induction str as [|c str (t & rest & Heq & Ht & Hf)]; [by exists NUL, []|].
  cbn [first_word app]. destruct (ends_word c) eqn:Hend; [by exists c, (str ++ [NUL])|].
  exists t, rest. rewrite Heq. split_and!; [done..|]. unfold wordy. cbn. by rewrite Hend.
Qed.

Lemma skip_spaces_drop str :
  match first_word (drop_spaces str) with c :: _ => plain c | [] => True end ->
  skip_spaces (str ++ [NUL]) = Ok (drop_spaces str ++ [NUL]).
Proof.
  induction str as [|c str IH]; [done|]. cbn [app skip_spaces drop_spaces]. unfold isspace.
  destruct (is_space (char_int c)) eqn:Hc; intros Hp.
  - rewrite ctype_plain, Hc, bind_Ok; [by apply IH|done|].
    apply ends_plain. unfold ends_word. by rewrite Hc, orb_true_r.
  - rewrite ctype_plain, Hc, bind_Ok; [done..|]. cbn [first_word] in Hp.
    destruct (ends_word c) eqn:E; [by apply ends_plain|done].
Qed.

(** What the first word stands for. *)
Definition word_bytes (w : list ascii) : option (list Z) :=
  let '(g, gs) := split_groups w in
  if forallb good_group (g :: gs) then Some (flat_map group_bytes (g :: gs)) else None.

Lemma expected_word w : expected [] [] w = word_bytes w.
Proof.
  unfold expected, word_bytes. destruct (split_groups w) as [g gs].
  change (bool_decide (@nil Z = [])) with true. cbn [andb app forallb flat_map].
  unfold good_group at 2.
  by destruct (negb (bool_decide (g = [])) && forallb hexa g && forallb good_group gs).
Qed.

Definition fits (len : nat) (w : list ascii) : Prop :=
  match word_bytes w with Some bs => (length bs <= len)%nat | None => False end.

Definition start (len : nat) : hex_state :=
  {| idx := 0; nn := 0; isOk := true; wasDigit := false; outBuf := replicate len 0 |}.

Lemma start_at len : start len = hex_at len [] [].
Proof. unfold hex_at. cbn. by rewrite !Nat.sub_0_r. Qed.

Lemma hex_loop_word len t rest w :
  ends_word t = true -> Forall plain w -> wordy w = true ->
  exists s, hex_loop len (w ++ t :: rest) (start len) = Ok s /\ agrees len (word_bytes w) s.
Proof.
  intros Ht Hw Hf. rewrite start_at, <- expected_word.
  apply (hex_loop_agrees len t rest w Ht (ends_plain t Ht) [] []); [|done|done].
  split_and!; cbn; [done|done|lia|lia].
Qed.

(** ** How far the string is read *)

(** An accepted character inside the word: the loop goes on, or stops with an
    error, and its answer is in [isOk]. *)
Lemma hex_iter_inside len c s :
  plain c -> ends_word c = false -> length (outBuf s) = len -> bytes_ok (outBuf s) ->
  exists s', hex_iter len c s = Ok (s', false) /\ length (outBuf s') = len /\ bytes_ok (outBuf s') /\
    (isOk s' = true -> wasDigit s' = hexa c /\ (hexa c = false -> is_separator c = true /\ wasDigit s = true)) /\
    (is_separator c = true -> wasDigit s = true -> isOk s' = true).
Proof.
  intros Hp Hend Hlen Hok. apply orb_false_elim in Hend as [Hnul Hsp].
  unfold hex_iter, isspace, isxdigit. rewrite !ctype_plain, bind_Ok, Hsp, Hnul by done.
  change (is_xdigit (char_int c)) with (hexa c).
  replace (if wasDigit s then Ok false else Ok false) with (@Ok bool false) by (by destruct (wasDigit s)).
  rewrite bind_Ok. cbn [orb].
  assert (Hsep : is_separator c = true -> hexa c = false) by apply separator_classes.
  destruct (hexa c) eqn:Hx; rewrite ?orb_true_r, ?orb_false_r; cbn [negb orb].
  - set (i := if (nn s =? 2)%nat then _ else _). destruct (Nat.ltb_spec i len) as [Hi|Hi].
    + rewrite <- Hlen in Hi. destruct (lookup_lt_is_Some_2 _ _ Hi) as [old Ho].
      rewrite (vat_Ok _ _ _ Ho), bind_Ok, vset_Ok, bind_Ok by done.
      eexists. split; [done|]. cbn. rewrite length_insert.
      split_and!; [done|apply Forall_insert; [done|apply u8_range]|done|]. intros Hs. by specialize (Hsep Hs).
    + eexists. split; [done|]. cbn. split_and!; [done..|]. intros Hs. by specialize (Hsep Hs).
  - destruct (wasDigit s); cbn [andb negb]; [|by eexists].
    destruct (is_separator c); cbn [negb]; [|by eexists]. by eexists.
Qed.

(** A stretch of the word: the loop stops inside it, or gets to its end. *)
Lemma hex_loop_inside len w s :
  Forall plain w -> wordy w = true -> isOk s = true -> length (outBuf s) = len -> bytes_ok (outBuf s) ->
  exists s', length (outBuf s') = len /\ bytes_ok (outBuf s') /\
    if isOk s' then forall tail, hex_loop len (w ++ tail) s = hex_loop len tail s'
    else forall tail, hex_loop len (w ++ tail) s = Ok s'.
Proof.
  revert s. induction w as [|c w IH]; intros s Hw Hf Hs Hlen Hok; [by exists s; rewrite Hs|].
  apply Forall_cons in Hw as [Hc Hw]. unfold wordy in Hf. cbn [forallb] in Hf.
  apply andb_prop in Hf as [Hce Hf]. apply negb_true_iff in Hce.
  destruct (hex_iter_inside len c s Hc Hce Hlen Hok) as (s1 & Hi & Hlen1 & Hok1 & _).
  destruct (isOk s1) eqn:H1.
  - destruct (IH s1 Hw Hf H1 Hlen1 Hok1) as (s' & ? & ? & Hs'). exists s'. split_and!; [done..|].
    destruct (isOk s'); intros tail; cbn [app]; by rewrite (hex_loop_step _ _ _ _ _ _ Hs Hi).
  - exists s1. rewrite H1. split_and!; [done..|]. intros tail. cbn [app].
    by rewrite (hex_loop_step _ _ _ _ _ _ Hs Hi), hex_loop_stopped.
Qed.

(** The loop gets to the end of a stretch that is a token so far: it is one that
    fits, or one that fits and a separator, or empty. *)
Definition token_so_far (len : nat) (w : list ascii) : Prop :=
  w = [] \/ fits len w \/ exists w' c, w = w' ++ [c] /\ is_separator c = true /\ fits len w'.

Lemma fits_reached len w s :
  Forall plain w -> wordy w = true ->
  (if isOk s then forall tail, hex_loop len (w ++ tail) (start len) = hex_loop len tail s
   else forall tail, hex_loop len (w ++ tail) (start len) = Ok s) ->
  fits len w <-> isOk s = true /\ wasDigit s = true.
Proof.
  intros Hw Hf Hs. destruct (hex_loop_word len NUL [] w eq_refl Hw Hf) as (s1 & H1 & _ & _ & Ha).
  assert (Hfit : fits len w <-> isOk s1 = true).
  { unfold fits. destruct (word_bytes w) as [bs|]; [|rewrite Ha; by split].
    destruct (Nat.leb_spec (length bs) len); [|rewrite Ha; split; [lia|done]].
    destruct Ha as (Ha & _). by rewrite Ha. }
  rewrite Hfit. destruct (isOk s) eqn:Hok; rewrite Hs in H1.
  - cbn [hex_loop] in H1. rewrite Hok in H1. unfold hex_iter in H1. cbn in H1.
    destruct (wasDigit s); cbn in H1; injection H1 as <-; cbn; naive_solver.
  - injection H1 as <-. rewrite Hok. naive_solver.
Qed.

Lemma wordy_snoc w c : wordy (w ++ [c]) = wordy w && negb (ends_word c).
Proof. unfold wordy. rewrite forallb_app. cbn. by rewrite andb_true_r. Qed.

Lemma token_reached len w :
  Forall plain w -> wordy w = true ->
  exists s, length (outBuf s) = len /\ bytes_ok (outBuf s) /\
    (if isOk s then forall tail, hex_loop len (w ++ tail) (start len) = hex_loop len tail s
     else forall tail, hex_loop len (w ++ tail) (start len) = Ok s) /\
    (token_so_far len w <-> isOk s = true).
Proof.
  assert (Hbuf : bytes_ok (replicate len 0)) by (apply Forall_replicate; word_range).
  destruct w as [|c w _] using rev_ind; intros Hw Hf.
  { exists (start len). cbn. rewrite length_replicate. split_and!; [done..|].
    split; [done|by left]. }
  apply Forall_app in Hw as Hw'. destruct Hw' as [Hw1 Hc]. apply Forall_cons in Hc as [Hc _].
  rewrite wordy_snoc in Hf. apply andb_prop in Hf as Hf'. destruct Hf' as [Hf1 Hce].
  apply negb_true_iff in Hce. rewrite <- wordy_snoc in Hf.
  destruct (hex_loop_inside len w (start len) Hw1 Hf1 eq_refl (length_replicate _ _) Hbuf)
    as (s1 & Hlen1 & Hok1 & Hs1).
  pose proof (fits_reached len w s1 Hw1 Hf1 Hs1) as Hfit1.
  destruct (isOk s1) eqn:H1.
  - destruct (hex_iter_inside len c s1 Hc Hce Hlen1 Hok1) as (s2 & Hi & Hlen2 & Hok2 & Hd & Hsep).
    assert (Hs2 : if isOk s2 then forall tail, hex_loop len ((w ++ [c]) ++ tail) (start len) = hex_loop len tail s2
       else forall tail, hex_loop len ((w ++ [c]) ++ tail) (start len) = Ok s2).
    { destruct (isOk s2) eqn:H2; intros tail; rewrite <- (assoc_L app), Hs1; cbn [app];
        rewrite (hex_loop_step _ _ _ _ _ _ H1 Hi); [done|by rewrite hex_loop_stopped]. }
    pose proof (fits_reached len (w ++ [c]) s2 Hw Hf Hs2) as Hfit2.
    exists s2. split_and!; [done..|]. split.
    + intros [?|[?|(w' & c' & Heq & Hc' & ?)]]; [by destruct w|by apply Hfit2|].
      apply app_inj_tail in Heq as [-> ->]. apply Hsep; [done|]. by apply Hfit1.
    + intros H2. destruct (Hd H2) as [Hwd Hcs]. right. destruct (hexa c).
      * left. by apply Hfit2.
      * destruct (Hcs eq_refl). right. exists w, c. split_and!; [done..|]. by apply Hfit1.
  - assert (Hs2 : forall tail, hex_loop len ((w ++ [c]) ++ tail) (start len) = Ok s1).
    { intros tail. rewrite <- (assoc_L app). apply Hs1. }
    pose proof (fits_reached len (w ++ [c]) s1 Hw Hf) as Hfit2. rewrite H1 in Hfit2. specialize (Hfit2 Hs2).
    exists s1. rewrite H1. split_and!; [done..|]. split; [|done].
    intros [?|[?|(w' & c' & Heq & Hc' & ?)]]; [by destruct w|by apply Hfit2|].
    apply app_inj_tail in Heq as [-> ->]. by apply Hfit1.
Qed.

(** A word with a character the classification functions do not accept. *)
Lemma hex_loop_unaccepted len w c rest :
  Forall plain w -> wordy w = true -> ~ plain c ->
  (token_so_far len w /\ hex_loop len (w ++ c :: rest) (start len) = Undefined BadCtype) \/
  (~ token_so_far len w /\
   exists s, hex_loop len (w ++ c :: rest) (start len) = Ok s /\ isOk s = false /\
     length (outBuf s) = len /\ bytes_ok (outBuf s)).
Proof.
  intros Hw Hf Hc. destruct (token_reached len w Hw Hf) as (s & ? & ? & Hs & Ht).
  rewrite Ht. destruct (isOk s) eqn:Hok; [left|right].
  - split; [done|]. rewrite Hs. cbn [hex_loop]. rewrite Hok. unfold hex_iter, isxdigit.
    by rewrite ctype_undefined.
  - split; [done|]. exists s. by rewrite Hs.
Qed.

Lemma word_bytes_good w c : word_bytes w <> None -> c ∈ w -> hexa c = true \/ is_separator c = true.
Proof.
  unfold word_bytes. intros Hw Hc.
  assert (Hg : forallb hexa (split_groups w).1 = true /\ forallb good_group (split_groups w).2 = true).
  { destruct (split_groups w) as [g gs]. cbn [forallb fst snd] in *. unfold good_group at 1 in Hw.
    by destruct (forallb hexa g), (forallb good_group gs), (bool_decide (g = [])). }
  clear Hw. revert Hg. induction w as [|d w IH]; [by apply not_elem_of_nil in Hc|].
  cbn [split_groups]. destruct (split_groups w) as [g gs].
  destruct (is_separator d) eqn:Hd; cbn [fst snd forallb] in *; rewrite !andb_true_iff; intros [Hg Hgs].
  - apply elem_of_cons in Hc as [->|Hc]; [by right|]. apply IH; [done|]. destruct Hgs as [Hgs ?].
    unfold good_group in Hgs. by apply andb_prop in Hgs as [_ ?].
  - apply elem_of_cons in Hc as [->|Hc]; [left; apply Hg|]. apply IH; [done|]. split; [apply Hg|done].
Qed.

Lemma plain_prefix (l : list ascii) :
  Forall plain l \/ exists w c rest, l = w ++ c :: rest /\ Forall plain w /\ ~ plain c.
Proof.
  induction l as [|c l [IH|(w & d & rest & -> & Hw & Hd)]]; [by left|..].
  - destruct (decide (plain c)); [by left; constructor|]. right. by exists [], c, l.
  - destruct (decide (plain c)); [|by right; exists [], c, (w ++ d :: rest)].
    right. exists (c :: w), d, rest. split_and!; [done|by constructor|done].
Qed.

(** ** [hexToBin] as a whole *)

(** The first character of the string that is not accepted, if it is read. *)
Definition reads_unaccepted (len : nat) (str : list ascii) : Prop :=
  exists w c rest, first_word (drop_spaces str) = w ++ c :: rest /\ Forall plain w /\ ~ plain c /\
    token_so_far len w.

Lemma wordy_first str : wordy (first_word str) = true.
Proof.
  induction str as [|c str IH]; [done|]. cbn. destruct (ends_word c) eqn:E; [done|].
  unfold wordy. cbn. by rewrite E.
Qed.

Lemma hexToBin_cases str len :
  (reads_unaccepted len str /\ hexToBin (str ++ [NUL]) len = Undefined BadCtype) \/
  (~ reads_unaccepted len str /\ exists s,
     hexToBin (str ++ [NUL]) len = Ok (if isOk s then idx s else O, outBuf s) /\ agrees len (token_of str) s).
Proof.
  change (token_of str) with (word_bytes (first_word (drop_spaces str))).
  destruct (first_word_split (drop_spaces str)) as (t & rest & Heq & Ht & Hf).
  unfold hexToBin, reads_unaccepted. fold (start len).
  destruct (plain_prefix (first_word (drop_spaces str))) as [Hp|(w & c & rest' & Hw & Hp & Hc)].
  - right. split.
    { intros (w & c & r & Hw & _ & Hc & _). rewrite Hw in Hp. apply Forall_app in Hp as [_ Hp].
      by apply Forall_cons in Hp as [? _]. }
    rewrite skip_spaces_drop, bind_Ok, Heq by (destruct Hp; done).
    destruct (hex_loop_word len t rest _ Ht Hp Hf) as (s & -> & Ha). by exists s.
  - rewrite Hw in Hf. unfold wordy in Hf. rewrite forallb_app in Hf. apply andb_prop in Hf as [Hf Hcf].
    assert (Huniq : token_so_far len w <-> exists w c rest, first_word (drop_spaces str) = w ++ c :: rest /\
       Forall plain w /\ ~ plain c /\ token_so_far len w).
    { rewrite Hw. split; [by exists w, c, rest'|]. intros (v & d & r & Hv & Hpv & Hd & Hvt).
      assert (v = w) as ->; [|done]. clear -Hv Hp Hpv Hd Hc. revert v Hv Hpv.
      induction Hp as [|a w Ha Hp IH]; intros [|b v] Hv Hpv; [done|..].
      - injection Hv as -> _. by apply Forall_cons in Hpv as [? _].
      - by injection Hv as <- _.
      - injection Hv as <- Hv. f_equal. apply IH; [done|]. by apply Forall_cons in Hpv as [_ ?]. }
    rewrite <- Huniq.
    destruct w as [|a w].
    + left. split; [by left|]. cbn [app] in Hw.
      clear -Hc Hw. assert (Hsk : skip_spaces (str ++ [NUL]) = Undefined BadCtype); [|by rewrite Hsk].
      induction str as [|b str IH]; [done|]. cbn [drop_spaces app skip_spaces] in *. unfold isspace in *.
      destruct (is_space (char_int b)) eqn:Hb.
      * rewrite ctype_plain, Hb, bind_Ok; [by apply IH|done|].
        apply ends_plain. unfold ends_word. by rewrite Hb, orb_true_r.
      * cbn [first_word] in Hw. destruct (ends_word b); [done|]. injection Hw as -> _.
        by rewrite ctype_undefined.
    + rewrite skip_spaces_drop, bind_Ok, Heq, Hw by (rewrite Hw; by apply Forall_cons in Hp as [? _]).
      rewrite <- (assoc_L app). change ((c :: rest') ++ t :: rest) with (c :: (rest' ++ t :: rest)).
      destruct (hex_loop_unaccepted len (a :: w) c (rest' ++ t :: rest) Hp Hf Hc)
        as [[Htk ->]|[Htk (s & -> & Hok & Hlen & Hb)]]; [by left|right].
      split; [done|]. exists s. split; [done|]. unfold agrees. split_and!; [done..|].
      destruct (word_bytes ((a :: w) ++ c :: rest')) eqn:Hwb; [|done]. exfalso.
      cbn [forallb] in Hcf. apply andb_prop in Hcf as [Hce _]. 
      destruct (word_bytes_good ((a :: w) ++ c :: rest') c) as [Hx|Hx]; [by rewrite Hwb|set_solver|..].
      * by apply Hc, hexa_plain.
      * apply Hc. unfold plain. unfold is_separator in Hx. rewrite orb_true_iff, !Z.eqb_eq in Hx. lia.
Qed.

Lemma agrees_token len e s r :
  agrees len e s -> r = (if isOk s then idx s else O) ->
  length (outBuf s) = len /\ bytes_ok (outBuf s) /\
  match e with
  | Some bs =>
      if (length bs <=? len)%nat
      then r = length bs /\ outBuf s = bs ++ replicate (len - length bs) 0
      else r = O
  | None => r = O
  end.
Proof.
  intros (H1 & H2 & H3) ->. split_and!; [done..|]. destruct e as [bs|]; [|by rewrite H3].
  destruct (length bs <=? len)%nat; [|by rewrite H3]. destruct H3 as (-> & -> & ->). done.
Qed.

(** C38: on every string, [hexToBin] stays inside the string and inside its buffer,
    ends, and computes what splitting the first word at '-' and ':' and pairing
    the digits of each part does: the number of bytes, and the bytes followed by
    zeros; 0 when that word is empty, has a part without digits or a character
    that is not a hexadecimal digit, or has too many bytes.  What follows the
    first word, valid or not, makes no difference.  Its behaviour is undefined exactly
    if it reads a character of code 128 to 254, which [isxdigit] and [isspace] do
    not accept: the first such of the word, if what precedes it is nothing, a
    token that fits, or one followed by a separator. *)
Theorem hexToBin_decodes str len :
  match hexToBin (str ++ [NUL]) len with
  | Ok (r, buf) =>
      ~ reads_unaccepted len str /\
      length buf = len /\ bytes_ok buf /\
      match token_of str with
      | Some bs =>
          if (length bs <=? len)%nat
          then r = length bs /\ buf = bs ++ replicate (len - length bs) 0
          else r = O
      | None => r = O
      end
  | Undefined why => why = BadCtype /\ reads_unaccepted len str
  end.
Proof.
  destruct (hexToBin_cases str len) as [[Hr ->]|(Hr & s & -> & Ha)]; [done|].
  split; [done|]. by apply (agrees_token len (token_of str) s).
Qed.

(** ** Default values and the options structure *)

Definition DEFAULT_SERIAL_PORT : string := "COM1".
Definition DEFAULT_BAUD_RATE : Z := 115200.
Definition DEFAULT_RTS_DELAY : Z := 5.
Definition DEFAULT_FLOW_CONTROL : bool := false.
Definition DEFAULT_TO_SERIAL : bool := true.
Definition DEFAULT_PICARD_TIMEOUT : Z := 3000.
Definition DEFAULT_PICARD_RETRIES : Z := 2.
Definition DEFAULT_READ_TIMEOUT : Z := 1000.
Definition DEFAULT_LISTENER_PORT : Z := 9900.
Definition DEFAULT_EMULATOR_PORT : Z := 60000.
Definition DEFAULT_ACCEPT_ANYHOST : bool := false.
Definition DEFAULT_CONFIG_FILE : string := "serial_mux.cfg".
Definition DEFAULT_AUTHENTICATION : list Z := [48; 49; 50; 51; 52; 53; 54; 55].
Definition DEFAULT_RUN_AS_DAEMON : bool := false.
Definition DEFAULT_SERVICE_NAME : string := "SerialMux".
Definition DEFAULT_LOG_FILE : string := "serial_mux.log".
Definition DEFAULT_NUM_LOG_BACKUPS : Z := 5.
Definition DEFAULT_MAX_LOG_SIZE : Z := 1000000.
Definition DEFAULT_LOG_LEVEL : LogLevel := LOG_ERROR.

Record SerialMuxOptions := {
  configFile : string;
  useSerial : bool;
  serialPort : string;
  baudRate : Z;          (* uint32_t *)
  useFlowControl : bool;
  rtsDelay : Z;
  emulatorPort : Z;      (* uint16_t *)
  listenerPort : Z;      (* uint16_t *)
  acceptAnyhost : bool;
  authToken : list Z;    (* uint8_t[AUTHENTICATION_LEN] *)
  picardTimeout : Z;
  picardRetries : Z;
  readTimeout : Z;
  runAsDaemon : bool;
  serviceName : string;
  logLevel : LogLevel;
  logFile : string;
  numLogBackups : Z;
  maxLogSize : Z;
}.

Definition new_SerialMuxOptions : SerialMuxOptions := {|
  configFile := DEFAULT_CONFIG_FILE;
  useSerial := DEFAULT_TO_SERIAL;
  serialPort := DEFAULT_SERIAL_PORT;
  baudRate := DEFAULT_BAUD_RATE;
  useFlowControl := DEFAULT_FLOW_CONTROL;
  rtsDelay := DEFAULT_RTS_DELAY;
  emulatorPort := DEFAULT_EMULATOR_PORT;
  listenerPort := DEFAULT_LISTENER_PORT;
  acceptAnyhost := DEFAULT_ACCEPT_ANYHOST;
  authToken := DEFAULT_AUTHENTICATION;
  picardTimeout := DEFAULT_PICARD_TIMEOUT;
  picardRetries := DEFAULT_PICARD_RETRIES;
  readTimeout := DEFAULT_READ_TIMEOUT;
  runAsDaemon := DEFAULT_RUN_AS_DAEMON;
  serviceName := DEFAULT_SERVICE_NAME;
  logLevel := DEFAULT_LOG_LEVEL;
  logFile := DEFAULT_LOG_FILE;
  numLogBackups := DEFAULT_NUM_LOG_BACKUPS;
  maxLogSize := DEFAULT_MAX_LOG_SIZE;
|}.

(** ** The option library: [variables_map], [store] and [notify] *)

Inductive option_value :=
  | VString (s : string)   (* value<std::string> *)
  | VNumber (z : Z)        (* value<int>, value<uint16_t>, value<uint32_t> *)
  | VFlag.                 (* no value *)

Definition variables_map := gmap string option_value.

Definition has_option (vm : variables_map) (name : string) : bool :=
  bool_decide (is_Some (vm !! name)).

Definition string_option (vm : variables_map) (name : string) (old : string) : string :=
  match vm !! name with Some (VString s) => s | _ => old end.
Definition number_option (vm : variables_map) (name : string) (old : Z) : Z :=
  match vm !! name with Some (VNumber z) => z | _ => old end.

(** [notify(vm)]: every option with a value is assigned to the variable its
    description names. *)
Definition notify (vm : variables_map) (o : SerialMuxOptions) : SerialMuxOptions := {|
  configFile := string_option vm "config" (configFile o);
  useSerial := useSerial o;
  serialPort := string_option vm "port" (serialPort o);
  baudRate := number_option vm "baud" (baudRate o);
  useFlowControl := useFlowControl o;
  rtsDelay := number_option vm "rts-delay" (rtsDelay o);
  emulatorPort := emulatorPort o;
  listenerPort := number_option vm "listen" (listenerPort o);
  acceptAnyhost := acceptAnyhost o;
  authToken := authToken o;
  picardTimeout := number_option vm "picard-timeout" (picardTimeout o);
  picardRetries := number_option vm "picard-retries" (picardRetries o);
  readTimeout := number_option vm "read-timeout" (readTimeout o);
  runAsDaemon := runAsDaemon o;
  serviceName := string_option vm "service-name" (serviceName o);
  logLevel := logLevel o;
  logFile := string_option vm "log-file" (logFile o);
  numLogBackups := number_option vm "log-num-backups" (numLogBackups o);
  maxLogSize := number_option vm "log-max-size" (maxLogSize o);
|}.

(** What [store(command_line_parser(...).run(), vm)] and
    [store(parse_config_file(...), vm)] can do: the map after the call,
    [unknown_option], or another exception. *)
Inductive parsed :=
  | Parsed (vm : variables_map)
  | UnknownOption (name : string)
  | ParseError (what : string).

Record option_parser := {
  parse_command_line : list string -> parsed;
  parse_config_file : string -> variables_map -> parsed;  (* contents, map so far *)
  usage : string;
}.

(** The file system as [parseConfiguration] uses it. *)
Record host := {
  change_directory : string -> bool;
  open_config : option string -> string -> option string; (* directory, path *)
}.

(** ** [parseConfiguration] *)

Inductive parse_outcome :=
  | Returned0 (o : SerialMuxOptions)
  | Returned1 (output : string)
  | Throws (what : string).

(** [atoi]; a number outside [int] is undefined. *)
Fixpoint digits_from (acc : Z) (str : list ascii) : Z :=
  match str with
  | c :: str => if is_digit (char_int c) then digits_from (10 * acc + (char_int c - 48)) str
                else acc
  | [] => acc
  end.

Definition atoi (str : list ascii) : outcome Z :=
  let n := match drop_spaces str with
           | c :: rest => if char_int c =? 45 then - digits_from 0 rest
                          else if char_int c =? 43 then digits_from 0 rest
                          else digits_from 0 (c :: rest)
           | [] => 0
           end in
  if decide (is_i32 n) then Ok n else Undefined BadConversion.

Section configuration.
Context (P : option_parser) (h : host).

(** Up to "Parse option values": an early end, or the map and the options. *)
Definition read_options (options : SerialMuxOptions) (args : list string)
  : parse_outcome + variables_map * SerialMuxOptions :=
  match parse_command_line P args with
  | UnknownOption name => inl (Throws ("unknown option '" +:+ name +:+ "'"))
  | ParseError what => inl (Throws what)
  | Parsed vm =>
      let options := notify vm options in
      if has_option vm "help" then inl (Returned1 (usage P))
      else if has_option vm "version" then inl (Returned1 getVersionString)
      else
        let dir := if has_option vm "directory"
                   then Some (string_option vm "directory" "") else None in
        if match dir with Some d => negb (change_directory h d) | None => false end
        then inl (Throws "current_path")
        else
          match open_config h dir (configFile options) with
          | None =>
              if has_option vm "config"
              then inl (Throws ("can not open config file: " +:+ configFile options))
              else inr (vm, options)
          | Some contents =>
              match parse_config_file P contents vm with
              | UnknownOption name =>
                  inl (Throws ("unknown option '" +:+ name +:+ "' in " +:+ configFile options))
              | ParseError what => inl (Throws what)
              | Parsed vm => inr (vm, notify vm options)
              end
          end
  end.

(** From "Parse option values" on. *)
Definition apply_options (vm : variables_map) (o : SerialMuxOptions) : outcome parse_outcome :=
  port ← atoi (c_str (serialPort o));
  let emulatorPort' := u16 port in
  let useSerial' := if (0 <? emulatorPort') && (emulatorPort' <? 65535)
                    then false else useSerial o in
  let authTokenStr := string_option vm "authToken" "" in
  '(result, token) ←
    (if has_option vm "authToken"
     then hexToBin (c_str authTokenStr) AUTHENTICATION_LEN
     else Ok (1%nat, authToken o));
  if (result =? 0)%nat
  then Ok (Throws ("invalid authentication token: " +:+ authTokenStr))
  else Ok (Returned0 {|
    configFile := configFile o;
    useSerial := useSerial';
    serialPort := serialPort o;
    baudRate := baudRate o;
    useFlowControl := if has_option vm "flow-control" then true else useFlowControl o;
    rtsDelay := rtsDelay o;
    emulatorPort := emulatorPort';
    listenerPort := listenerPort o;
    acceptAnyhost := if has_option vm "accept-anyhost" then true else acceptAnyhost o;
    authToken := token;
    picardTimeout := picardTimeout o;
    picardRetries := picardRetries o;
    readTimeout := readTimeout o;
    runAsDaemon := if has_option vm "daemon" then true else runAsDaemon o;
    serviceName := serviceName o;
    logLevel := if has_option vm "log-level"
                then stringToEnum (string_option vm "log-level" "") else logLevel o;
    logFile := logFile o;
    numLogBackups := numLogBackups o;
    maxLogSize := maxLogSize o;
  |}).

Definition parseConfiguration (options : SerialMuxOptions) (args : list string)
  : outcome parse_outcome :=
  match read_options options args with
  | inl r => Ok r
  | inr (vm, options) => apply_options vm options
  end.
End configuration.

(** ** What a configuration can be *)

(** The buffer keeps its length, whatever the characters. *)
Lemma hex_loop_buffer len str s s' :
  length (outBuf s) = len -> bytes_ok (outBuf s) -> hex_loop len str s = Ok s' ->
  length (outBuf s') = len /\ bytes_ok (outBuf s').
Proof.
  revert s. induction str as [|c str IH]; intros s Hlen Hok; cbn [hex_loop].
  { destruct (isOk s); [done|]. by intros [= <-]. }
  destruct (isOk s); [|by intros [= <-]].
  destruct (hex_iter len c s) as [[s1 brk]|] eqn:Hi; [|done]. rewrite bind_Ok.
  assert (H1 : length (outBuf s1) = len /\ bytes_ok (outBuf s1)).
  { unfold hex_iter in Hi. inv_bind. case_match; [by simplify_eq|].
    destruct r; [case_match|]; inv_bind; try (by simplify_eq).
    simplify_eq. cbn. unfold vset in *. case_decide; simplify_eq.
    rewrite length_insert. split; [done|]. apply Forall_insert; [done|apply u8_range]. }
  destruct brk; [by intros [= <-]|]. intros Hl. by apply (IH s1); [apply H1..|].
Qed.

Lemma hexToBin_buffer str len r buf :
  hexToBin str len = Ok (r, buf) -> length buf = len /\ bytes_ok buf.
Proof.
  unfold hexToBin. intros Hx. inv_bind. simplify_eq.
  eapply hex_loop_buffer; [..|done]; cbn.
  - apply length_replicate.
  - apply Forall_replicate. word_range.
Qed.

(** The string given for the token, if any. *)
Definition token_string (vm : variables_map) : list ascii :=
  String.list_ascii_of_string (string_option vm "authToken" "").

Lemma token_of_length str bs : token_of str = Some bs -> (1 <= length bs)%nat.
Proof.
  unfold token_of. destruct (split_groups _) as [g gs]. cbn [forallb flat_map].
  destruct (good_group g) eqn:Hg; [|done]. destruct (forallb good_group gs); [|done].
  intros [= <-]. rewrite length_app. destruct g as [|c g]; [done|].
  assert (1 <= length (group_bytes (c :: g)))%nat; [|lia]. by apply pair_up_length.
Qed.

(** *** What the options are read from *)

Section sources.
Context (P : option_parser) (h : host) (args : list string).

(** The command line is well formed and asks for neither help nor version. *)
Definition command_line (vm : variables_map) : Prop :=
  parse_command_line P args = Parsed vm /\
  has_option vm "help" = false /\ has_option vm "version" = false.

Definition directory_of (vm : variables_map) : option string :=
  if has_option vm "directory" then Some (string_option vm "directory" "") else None.
Definition config_path (vm : variables_map) : string := string_option vm "config" DEFAULT_CONFIG_FILE.

(** It also names no directory, or one that can be entered; and what is then
    found at the path of the configuration file. *)
Definition config_file (vm : variables_map) (found : option string) : Prop :=
  command_line vm /\
  match directory_of vm with Some d => change_directory h d = true | None => True end /\
  open_config h (directory_of vm) (config_path vm) = found.

(** The map and the options after both sources are read. *)
Inductive sources : variables_map -> SerialMuxOptions -> Prop :=
  | SourceCommandLine vm :   (* there is no file, and none is asked for *)
      config_file vm None -> has_option vm "config" = false ->
      sources vm (notify vm new_SerialMuxOptions)
  | SourceBoth vm contents vm' :
      config_file vm (Some contents) -> parse_config_file P contents vm = Parsed vm' ->
      sources vm' (notify vm' (notify vm new_SerialMuxOptions)).

(** What is refused, and the text of the exception. *)
Inductive refused : string -> Prop :=
  | RefusedOption name :
      parse_command_line P args = UnknownOption name -> refused ("unknown option '" +:+ name +:+ "'")
  | RefusedCommandLine what :
      parse_command_line P args = ParseError what -> refused what
  | RefusedDirectory vm d :
      command_line vm -> directory_of vm = Some d -> change_directory h d = false ->
      refused "current_path"
  | RefusedMissing vm :
      config_file vm None -> has_option vm "config" = true ->
      refused ("can not open config file: " +:+ config_path vm)
  | RefusedFileOption vm contents name :
      config_file vm (Some contents) -> parse_config_file P contents vm = UnknownOption name ->
      refused ("unknown option '" +:+ name +:+ "' in " +:+ config_path vm)
  | RefusedFile vm contents what :
      config_file vm (Some contents) -> parse_config_file P contents vm = ParseError what ->
      refused what
  | RefusedToken vm o port :
      sources vm o -> atoi (c_str (serialPort o)) = Ok port -> has_option vm "authToken" = true ->
      ~ reads_unaccepted AUTHENTICATION_LEN (token_string vm) ->
      match token_of (token_string vm) with
      | Some bs => (AUTHENTICATION_LEN < length bs)%nat
      | None => True
      end ->
      refused ("invalid authentication token: " +:+ string_option vm "authToken" "").

(** [read_options] reads the two sources or refuses. *)
Lemma config_file_read vm found :
  config_file vm found ->
  read_options P h new_SerialMuxOptions args =
  match found with
  | None =>
      if has_option vm "config" then inl (Throws ("can not open config file: " +:+ config_path vm))
      else inr (vm, notify vm new_SerialMuxOptions)
  | Some contents =>
      match parse_config_file P contents vm with
      | UnknownOption name => inl (Throws ("unknown option '" +:+ name +:+ "' in " +:+ config_path vm))
      | ParseError what => inl (Throws what)
      | Parsed vm' => inr (vm', notify vm' (notify vm new_SerialMuxOptions))
      end
  end.
Proof.
  intros [(Hp & Hhelp & Hv) [Hd <-]]. unfold read_options. rewrite Hp, Hhelp, Hv.
  change (configFile (notify vm new_SerialMuxOptions)) with (config_path vm). fold (directory_of vm).
  by destruct (directory_of vm) as [d|]; [rewrite Hd|].
Qed.

Lemma sources_read vm o : sources vm o -> read_options P h new_SerialMuxOptions args = inr (vm, o).
Proof.
  intros [? Hf Hc|? contents ? Hf Hc]; rewrite (config_file_read _ _ Hf); by rewrite Hc.
Qed.

Lemma read_options_cases :
  match read_options P h new_SerialMuxOptions args with
  | inr (vm, o) => sources vm o
  | inl (Returned1 out) =>
      exists vm, parse_command_line P args = Parsed vm /\
        (has_option vm "help" = true /\ out = usage P \/
         has_option vm "help" = false /\ has_option vm "version" = true /\ out = getVersionString)
  | inl (Throws w) => refused w
  | inl (Returned0 _) => False
  end.
Proof.
  destruct (parse_command_line P args) as [vm|name|what] eqn:Hp;
    [|unfold read_options; rewrite Hp; by constructor..].
  destruct (has_option vm "help") eqn:Hhelp;
    [unfold read_options; rewrite Hp, Hhelp; by eauto|].
  destruct (has_option vm "version") eqn:Hv;
    [unfold read_options; rewrite Hp, Hhelp, Hv; by eauto 6|].
  assert (Hcl : command_line vm) by done.
  assert (Hdir : (exists d, directory_of vm = Some d /\ change_directory h d = false) \/
    match directory_of vm with Some d => change_directory h d = true | None => True end).
  { destruct (directory_of vm) as [d|]; [|by right]. destruct (change_directory h d) eqn:E; eauto. }
  destruct Hdir as [(d & Hdir & Hd)|Hdir].
  { unfold read_options. rewrite Hp, Hhelp, Hv. fold (directory_of vm). rewrite Hdir, Hd.
    by eapply RefusedDirectory. }
  assert (Hf : config_file vm (open_config h (directory_of vm) (config_path vm))) by done.
  rewrite (config_file_read _ _ Hf).
  destruct (open_config h (directory_of vm) (config_path vm)) as [contents|].
  - destruct (parse_config_file P contents vm) eqn:Hc;
      [by eapply SourceBoth|by eapply RefusedFileOption|by eapply RefusedFile].
  - destruct (has_option vm "config") eqn:Hc; [by apply RefusedMissing|by apply SourceCommandLine].
Qed.
End sources.

Lemma sources_defaults P h args vm o :
  sources P h args vm o ->
  useSerial o = DEFAULT_TO_SERIAL /\ authToken o = DEFAULT_AUTHENTICATION /\
  useFlowControl o = DEFAULT_FLOW_CONTROL /\ acceptAnyhost o = DEFAULT_ACCEPT_ANYHOST /\
  runAsDaemon o = DEFAULT_RUN_AS_DAEMON /\ logLevel o = DEFAULT_LOG_LEVEL.
Proof. by intros [|]. Qed.

(** The options the two sources set directly. *)
Definition direct_settings (o : SerialMuxOptions) :=
  (configFile o, serialPort o, baudRate o, rtsDelay o, listenerPort o, picardTimeout o,
   picardRetries o, readTimeout o, (serviceName o, logFile o, numLogBackups o, maxLogSize o)).

(** What the token option gives: the bytes of the token, if it is given. *)
Definition token_is (vm : variables_map) (token : list Z) : Prop :=
  if has_option vm "authToken"
  then exists bs, token_of (token_string vm) = Some bs /\ (1 <= length bs <= AUTHENTICATION_LEN)%nat /\
         token = bs ++ replicate (AUTHENTICATION_LEN - length bs) 0
  else token = DEFAULT_AUTHENTICATION.

(** [apply_options], case by case. *)
Lemma apply_options_cases vm o port :
  atoi (c_str (serialPort o)) = Ok port -> authToken o = DEFAULT_AUTHENTICATION ->
  (has_option vm "authToken" = true /\ reads_unaccepted AUTHENTICATION_LEN (token_string vm) /\
   apply_options vm o = Undefined BadCtype) \/
  (has_option vm "authToken" = true /\ ~ reads_unaccepted AUTHENTICATION_LEN (token_string vm) /\
   match token_of (token_string vm) with Some bs => (AUTHENTICATION_LEN < length bs)%nat | None => True end /\
   apply_options vm o = Ok (Throws ("invalid authentication token: " +:+ string_option vm "authToken" ""))) \/
  ((has_option vm "authToken" = true -> ~ reads_unaccepted AUTHENTICATION_LEN (token_string vm)) /\
   exists o', apply_options vm o = Ok (Returned0 o') /\
   direct_settings o' = direct_settings o /\ token_is vm (authToken o') /\
   emulatorPort o' = u16 port /\
   useSerial o' = (if (0 <? u16 port) && (u16 port <? 65535) then false else useSerial o) /\
   useFlowControl o' = (has_option vm "flow-control" || useFlowControl o) /\
   acceptAnyhost o' = (has_option vm "accept-anyhost" || acceptAnyhost o) /\
   runAsDaemon o' = (has_option vm "daemon" || runAsDaemon o) /\
   logLevel o' = if has_option vm "log-level" then stringToEnum (string_option vm "log-level" "")
                 else logLevel o).
Proof.
  intros Hport Htok0. unfold apply_options, token_is. rewrite Hport, bind_Ok.
  destruct (has_option vm "authToken") eqn:Htok.
  - destruct (hexToBin_cases (token_string vm) AUTHENTICATION_LEN) as [[Hr Hx]|(Hr & s & Hx & Ha)];
      unfold token_string in Hx; change (_ ++ [NUL]) with (c_str (string_option vm "authToken" "")) in Hx;
      rewrite Hx; [by left|right]. rewrite bind_Ok. cbv beta iota.
    destruct (agrees_token _ _ _ _ Ha eq_refl) as (Hlen & Hb & Hm).
    destruct (token_of (token_string vm)) as [bs|] eqn:Hbs; [|rewrite Hm; by left].
    apply token_of_length in Hbs as Hbl.
    destruct (Nat.leb_spec (length bs) AUTHENTICATION_LEN); [right|rewrite Hm; by left].
    destruct Hm as [-> Hbuf]. rewrite (proj2 (Nat.eqb_neq _ _)) by lia. split; [done|].
    eexists. split; [done|]. split_and!; try done; [by exists bs|..]; by case_match.
  - right. right. rewrite bind_Ok. split; [done|]. eexists. split; [done|].
    split_and!; try done; by case_match.
Qed.

Lemma token_is_length vm token : token_is vm token -> length token = AUTHENTICATION_LEN.
Proof.
  unfold token_is. destruct (has_option vm "authToken"); [|by intros ->].
  intros (bs & _ & ? & ->). rewrite length_app, length_replicate. lia.
Qed.

Lemma udp_port n : (if (0 <? n) && (n <? 65535) then false else true) = false <-> 0 < n < 65535.
Proof. destruct (Z.ltb_spec 0 n), (Z.ltb_spec n 65535); cbn; split; (done || lia). Qed.

Lemma refused_throws P h args w :
  refused P h args w -> parseConfiguration P h new_SerialMuxOptions args = Ok (Throws w).
Proof.
  unfold parseConfiguration.
  intros [name Hp|what Hp|vm d (Hp & Hhelp & Hv) Hdir Hd|vm Hf Hc|vm contents name Hf Hc
         |vm contents what Hf Hc|vm o port Hs Hport Htok Hr Hbad].
  - unfold read_options. by rewrite Hp.
  - unfold read_options. by rewrite Hp.
  - unfold read_options. rewrite Hp, Hhelp, Hv. fold (directory_of vm). by rewrite Hdir, Hd.
  - rewrite (config_file_read _ _ _ _ _ Hf). by rewrite Hc.
  - rewrite (config_file_read _ _ _ _ _ Hf). by rewrite Hc.
  - rewrite (config_file_read _ _ _ _ _ Hf). by rewrite Hc.
  - rewrite (sources_read _ _ _ _ _ Hs). destruct (sources_defaults _ _ _ _ _ Hs) as (_ & Hd & _).
    destruct (apply_options_cases vm o port Hport Hd)
      as [(_ & ? & _)|[(_ & _ & _ & ?)|(_ & o' & _ & _ & Ht & _)]]; [done|done|].
    unfold token_is in Ht. rewrite Htok in Ht. destruct Ht as (bs & Hbs & ? & _).
    rewrite Hbs in Hbad. lia.
Qed.

(** C39: [parseConfiguration] from the default options, on every command line, file
    system and option library.  It returns 1 exactly for help or version.  It throws
    exactly for the reasons of [refused], each with its text: an option or syntax
    error of the command line or of the configuration file, a directory that
    cannot be entered, a configuration file that was asked for and cannot be
    opened (a missing default file is none), a token of no bytes, more than 8 or bad
    characters.  Otherwise it returns the settings of the two sources, with a
    token of exactly 8 bytes, the default or the one given padded with zeros, and
    the link is UDP exactly if the port, read as a number modulo 2^16, is in
    1..65534.  It is undefined exactly if that number is no [int], or the token is
    read up to a character of code 128 to 254. *)
Theorem configuration_outcome P h args :
  match parseConfiguration P h new_SerialMuxOptions args with
  | Ok (Returned0 o) =>
      exists vm o0 port, sources P h args vm o0 /\ atoi (c_str (serialPort o0)) = Ok port /\
        direct_settings o = direct_settings o0 /\
        token_is vm (authToken o) /\ length (authToken o) = AUTHENTICATION_LEN /\
        emulatorPort o = u16 port /\ (useSerial o = false <-> 0 < u16 port < 65535) /\
        useFlowControl o = has_option vm "flow-control" /\
        acceptAnyhost o = has_option vm "accept-anyhost" /\
        runAsDaemon o = has_option vm "daemon" /\
        logLevel o = if has_option vm "log-level" then stringToEnum (string_option vm "log-level" "")
                     else LOG_ERROR
  | Ok (Returned1 out) =>
      exists vm, parse_command_line P args = Parsed vm /\
        (has_option vm "help" = true /\ out = usage P \/
         has_option vm "help" = false /\ has_option vm "version" = true /\ out = getVersionString)
  | Ok (Throws w) => refused P h args w
  | Undefined why =>
      exists vm o0, sources P h args vm o0 /\
        (atoi (c_str (serialPort o0)) = Undefined why \/
         why = BadCtype /\ has_option vm "authToken" = true /\
         reads_unaccepted AUTHENTICATION_LEN (token_string vm))
  end /\
  forall w, refused P h args w -> parseConfiguration P h new_SerialMuxOptions args = Ok (Throws w).
Proof.
  split; [|apply refused_throws]. unfold parseConfiguration.
  pose proof (read_options_cases P h args) as Hc.
  destruct (read_options P h new_SerialMuxOptions args) as [r|[vm o0]]; [by destruct r|].
  destruct (sources_defaults _ _ _ _ _ Hc) as (Hser & Htok & Hflow & Hany & Hrun & Hlog).
  destruct (atoi (c_str (serialPort o0))) as [port|why] eqn:Hport;
    [|unfold apply_options; rewrite Hport; exists vm, o0; by auto].
  destruct (apply_options_cases vm o0 port Hport Htok)
    as [(Hg & Hr & ->)|[(Hg & Hr & Hbad & ->)|(_ & o & -> & Hdir & Htk & He & Hu & Hf & Ha & Hd & Hl)]].
  - exists vm, o0. by auto.
  - by eapply RefusedToken.
  - exists vm, o0, port. rewrite Hflow, Hany, Hrun, Hlog, Hser, !orb_false_r in *.
    split_and!; try done; [by eapply token_is_length|by rewrite Hu; apply udp_port..].
Qed.

(** Two runs: a port from the command line, and no default file; a file that is
    asked for and is missing. *)
Definition sample_parser (vm : variables_map) : option_parser :=
  {| parse_command_line := fun _ => Parsed vm; parse_config_file := fun _ vm => Parsed vm; usage := "" |}.
Definition empty_host : host := {| change_directory := fun _ => true; open_config := fun _ _ => None |}.

Example configure_udp :
  match parseConfiguration (sample_parser {["port" := VString "9901"]}) empty_host new_SerialMuxOptions [] with
  | Ok (Returned0 o) => (useSerial o, emulatorPort o, authToken o) = (false, 9901, DEFAULT_AUTHENTICATION)
  | _ => False
  end.
Proof. vm_compute. reflexivity. Qed.

Example configure_missing :
  parseConfiguration (sample_parser {["config" := VString "mux.cfg"]}) empty_host new_SerialMuxOptions []
  = Ok (Throws "can not open config file: mux.cfg").
Proof. vm_compute. reflexivity. Qed.

Example hexToBin_unaccepted :
  hexToBin (c_str (String "3" (String "0" (String (ascii_of_nat 200) "")))) 8 = Undefined BadCtype.
Proof. vm_compute. reflexivity. Qed.
