(* ===== verification/LinkSetup.v ===== *)
(** * Opening the links to Picard (the constructors of [serial_mux/PicardBoost.cpp])

    [CPicardBoost_Serial] opens the port and sets its parameters, ignoring the
    errors of every single one; [CPicardBoost_UDP] opens a socket and bounds its
    receive with [SO_RCVTIMEO].  The port may refuse a parameter, and what the
    system makes of the bytes given to [setsockopt] is a parameter of the model. *)

From Stdlib Require Import ZArith Lia.
From stdpp Require Import base list.
From S2P Require Import Prelude BasePicard PicardLink Options.
#[local] Open Scope Z_scope.

(** ** The serial port *)

Inductive flow_control := FlowNone | FlowSoftware | FlowHardware.
Inductive parity := ParityNone | ParityOdd | ParityEven.
Inductive stop_bits := StopOne | StopOnePointFive | StopTwo.

(** What the constructor sets of the port. *)
Record port_settings := {
  ps_baud_rate : Z;
  ps_flow_control : flow_control;
  ps_character_size : Z;
  ps_parity : parity;
  ps_stop_bits : stop_bits;
  ps_dtr : bool;
  ps_rts : bool;
  ps_ReadTotalTimeoutMultiplier : Z;
  ps_ReadTotalTimeoutConstant : Z;
}.

Inductive serial_option :=
  | baud_rate (rate : Z) | set_flow_control (f : flow_control) | character_size (n : Z)
  | set_parity (p : parity) | set_stop_bits (s : stop_bits).

Definition apply_option (o : serial_option) (s : port_settings) : port_settings :=
  {| ps_baud_rate := match o with baud_rate r => r | _ => ps_baud_rate s end;
     ps_flow_control := match o with set_flow_control f => f | _ => ps_flow_control s end;
     ps_character_size := match o with character_size n => n | _ => ps_character_size s end;
     ps_parity := match o with set_parity p => p | _ => ps_parity s end;
     ps_stop_bits := match o with set_stop_bits b => b | _ => ps_stop_bits s end;
     ps_dtr := ps_dtr s; ps_rts := ps_rts s;
     ps_ReadTotalTimeoutMultiplier := ps_ReadTotalTimeoutMultiplier s;
     ps_ReadTotalTimeoutConstant := ps_ReadTotalTimeoutConstant s |}.

Section serial.
(** [set_option] succeeds. *)
Variable accepts : serial_option -> bool.

(** [m_serial.set_option(o, err)]: nobody looks at [err]. *)
Definition set_option (s : port_settings) (o : serial_option) : port_settings :=
  if accepts o then apply_option o s else s.

Definition serial_options : list serial_option :=
  [baud_rate DEFAULT_BAUD_RATE; set_flow_control FlowNone; character_size 8;
   set_parity ParityNone; set_stop_bits StopOne].

(** [EscapeCommFunction] and [SetCommTimeouts], only under Windows *)
Definition windows_setup (readTimeout : Z) (s : port_settings) : port_settings :=
  {| ps_baud_rate := ps_baud_rate s; ps_flow_control := ps_flow_control s;
     ps_character_size := ps_character_size s; ps_parity := ps_parity s;
     ps_stop_bits := ps_stop_bits s; ps_dtr := true; ps_rts := false;
     ps_ReadTotalTimeoutMultiplier := 0; ps_ReadTotalTimeoutConstant := u32 readTimeout |}.

Definition open_serial (win32 : bool) (readTimeout : Z) (s : port_settings) : port_settings :=
  let s := foldl set_option s serial_options in
  if win32 then windows_setup readTimeout s else s.

(** A port that takes every parameter runs at 115200 baud with 8 data bits, no
    parity, one stop bit and no flow control, however it was set. *)
Lemma open_serial_accepted win32 readTimeout s :
  Forall (fun o => accepts o = true) serial_options ->
  let s' := open_serial win32 readTimeout s in
  ps_baud_rate s' = 115200 /\ ps_flow_control s' = FlowNone /\ ps_character_size s' = 8 /\
  ps_parity s' = ParityNone /\ ps_stop_bits s' = StopOne /\
  ps_dtr s' = (win32 || ps_dtr s) /\ ps_rts s' = (negb win32 && ps_rts s).
Proof.
  intros Ha. unfold serial_options in Ha. rewrite !Forall_cons in Ha.
  destruct Ha as (Hb & Hf & Hc & Hp & Hs & _). unfold open_serial, serial_options. cbn [foldl].
  unfold set_option. rewrite Hb, Hf, Hc, Hp, Hs. by destruct win32.
Qed.

(** A parameter the port refuses stays as it was, and the connection is made. *)
Lemma open_serial_refused win32 readTimeout s :
  accepts (baud_rate DEFAULT_BAUD_RATE) = false ->
  ps_baud_rate (open_serial win32 readTimeout s) = ps_baud_rate s.
Proof.
  intros Hb. unfold open_serial, serial_options. cbn [foldl]. unfold set_option. rewrite Hb.
  by destruct win32, (accepts (set_flow_control _)), (accepts (character_size _)),
    (accepts (set_parity _)), (accepts (set_stop_bits _)).
Qed.
End serial.

(** ** The socket *)

(** [struct timeval] *)
Record timeval := { tv_sec : Z; tv_usec : Z }.

(** [recvtimeout]; the division of [int]s truncates. *)
Definition recvtimeout (readTimeout : Z) : timeval :=
  {| tv_sec := Z.quot readTimeout 1000; tv_usec := Z.rem readTimeout 1000 * 1000 |}.

(** How long [receive_from] waits. *)
Inductive receive_wait := WaitMs (ms : Z) | WaitForever.

Section socket.
(** What the system makes of the [timeval] it is given for [SO_RCVTIMEO]. *)
Variable rcvtimeo : timeval -> receive_wait.

(** POSIX takes the [timeval]; zero means no limit. *)
Definition posix_rcvtimeo : Prop := forall tv,
  0 <= tv_sec tv -> 0 <= tv_usec tv < 1000000 ->
  rcvtimeo tv = if (tv_sec tv =? 0) && (tv_usec tv =? 0) then WaitForever
                else WaitMs (tv_sec tv * 1000 + tv_usec tv / 1000).

(** Windows takes a [DWORD] of milliseconds, the first of its bytes, which are
    those of [tv_sec]; zero means no limit. *)
Definition winsock_rcvtimeo : Prop := forall tv,
  rcvtimeo tv = if u32 (tv_sec tv) =? 0 then WaitForever else WaitMs (u32 (tv_sec tv)).

(** The receive timeout of [CPicardBoost_UDP]. *)
Definition udp_receive_wait (readTimeout : Z) : receive_wait := rcvtimeo (recvtimeout readTimeout).

Lemma posix_udp_wait readTimeout :
  posix_rcvtimeo -> 0 < readTimeout -> udp_receive_wait readTimeout = WaitMs readTimeout.
Proof.
  intros Hp Ht. unfold udp_receive_wait, recvtimeout.
  pose proof (Z.quot_rem readTimeout 1000 ltac:(lia)) as Hqr.
  pose proof (Z.rem_bound_pos readTimeout 1000 ltac:(lia) ltac:(lia)) as Hr.
  pose proof (Z.quot_pos readTimeout 1000 ltac:(lia) ltac:(lia)) as Hq.
  rewrite Hp by (cbn; lia). cbn [tv_sec tv_usec]. rewrite Z.div_mul by lia.
  destruct (Z.eqb_spec (Z.quot readTimeout 1000) 0); [|cbn [andb]; f_equal; lia].
  rewrite (proj2 (Z.eqb_neq _ _)) by lia. cbn [andb]. f_equal. lia.
Qed.

(** Under Windows the wait is a thousand times shorter, and below a second it has
    no limit: the Picard thread then sees [m_isRunning] only after the next
    datagram. *)
Lemma winsock_udp_wait readTimeout :
  winsock_rcvtimeo -> 0 <= readTimeout < 2 ^ 31 ->
  udp_receive_wait readTimeout
  = if readTimeout <? 1000 then WaitForever else WaitMs (readTimeout / 1000).
Proof.
  intros Hw Ht. unfold udp_receive_wait, recvtimeout. rewrite Hw. cbn [tv_sec].
  rewrite Z.quot_div_nonneg by lia.
  pose proof (Z.div_mod readTimeout 1000 ltac:(lia)). pose proof (Z.mod_pos_bound readTimeout 1000 ltac:(lia)).
  unfold u32. rewrite Z.mod_small by lia. destruct (Z.ltb_spec readTimeout 1000).
  - by rewrite (proj2 (Z.eqb_eq _ _)) by lia.
  - by rewrite (proj2 (Z.eqb_neq _ _)) by lia.
Qed.
End socket.

(** The default of one second. *)
Example udp_waits :
  let posix tv := if (tv_sec tv =? 0) && (tv_usec tv =? 0) then WaitForever
                  else WaitMs (tv_sec tv * 1000 + tv_usec tv / 1000) in
  let winsock tv := if u32 (tv_sec tv) =? 0 then WaitForever else WaitMs (u32 (tv_sec tv)) in
  posix_rcvtimeo posix /\ winsock_rcvtimeo winsock /\
  udp_receive_wait posix DEFAULT_READ_TIMEOUT = WaitMs 1000 /\
  udp_receive_wait winsock DEFAULT_READ_TIMEOUT = WaitMs 1 /\
  udp_receive_wait winsock 500 = WaitForever.
Proof. by split_and!. Qed.
