(* ===== verification/ClientManager.v ===== *)
(** * The client manager ([serial_mux/BoostClientManager.h],
    [BoostClientManager.cpp])

    [CBoostClientManager] keeps the authenticated clients, queues their commands,
    sends one command at a time to Picard, routes its response to the client that
    issued it and fans notifications out to the subscribers.

    The clients are shared objects: the listener, the manager and the queued
    commands hold pointers to them.  They live in one store, [m_heap], and a
    pointer is their key.  [commandLoop] is cut at its blocking points, so the
    callbacks of the other threads can run wherever it waits. *)

From Stdlib Require Import ZArith Lia.
From stdpp Require Import base list gmap.
From S2P Require Import Prelude Common Subscriber SyncQueue MuxMessage BasePicard BoostClient.
#[local] Open Scope Z_scope.

(** ** State *)

Inductive EClientResult := CLIENT_OK | CLIENT_TIMEOUT | CLIENT_DISCONNECT.

#[export] Instance EClientResult_eq_dec : EqDecision EClientResult.
Proof. solve_decision. Defined.

Record SClientCommand := {
  sc_client : option nat;   (* the pointer; [None] is null *)
  sc_command : CMuxMessage;
  sc_seq : Z;
  sc_result : EClientResult;
}.

#[export] Instance SClientCommand_eq_dec : EqDecision SClientCommand.
Proof. solve_decision. Defined.

(** [SClientCommand()] and [SClientCommand(inClient, inCmd)] *)
Definition no_command : SClientCommand :=
  {| sc_client := None; sc_command := empty_message; sc_seq := 0; sc_result := CLIENT_TIMEOUT |}.
Definition new_SClientCommand (inClient : option nat) (inCmd : CMuxMessage) : SClientCommand :=
  {| sc_client := inClient; sc_command := inCmd; sc_seq := 0; sc_result := CLIENT_TIMEOUT |}.

Record CBoostClientManager := {
  m_heap : gmap nat CBoostClient;
  m_loop : bool;                              (* m_isRunning *)
  m_clients : list nat;
  m_commands : CSyncQueue SClientCommand;
  m_filterUnion : SubscriptionParams;
  m_prevfilter : SubscriptionParams;
  m_currentCommand : SClientCommand;
  m_retries : Z;
}.

Definition new_CBoostClientManager (retries : Z) : CBoostClientManager :=
  {| m_heap := ∅; m_loop := false; m_clients := []; m_commands := new_CSyncQueue;
     m_filterUnion := default_params; m_prevfilter := default_params;
     m_currentCommand := no_command; m_retries := retries |}.

Definition set_heap (h : gmap nat CBoostClient) (g : CBoostClientManager) : CBoostClientManager :=
  {| m_heap := h; m_loop := m_loop g; m_clients := m_clients g; m_commands := m_commands g;
     m_filterUnion := m_filterUnion g; m_prevfilter := m_prevfilter g;
     m_currentCommand := m_currentCommand g; m_retries := m_retries g |}.
Definition set_loop (b : bool) (g : CBoostClientManager) : CBoostClientManager :=
  {| m_heap := m_heap g; m_loop := b; m_clients := m_clients g; m_commands := m_commands g;
     m_filterUnion := m_filterUnion g; m_prevfilter := m_prevfilter g;
     m_currentCommand := m_currentCommand g; m_retries := m_retries g |}.
Definition set_clients (l : list nat) (g : CBoostClientManager) : CBoostClientManager :=
  {| m_heap := m_heap g; m_loop := m_loop g; m_clients := l; m_commands := m_commands g;
     m_filterUnion := m_filterUnion g; m_prevfilter := m_prevfilter g;
     m_currentCommand := m_currentCommand g; m_retries := m_retries g |}.
Definition set_commands (q : CSyncQueue SClientCommand) (g : CBoostClientManager) : CBoostClientManager :=
  {| m_heap := m_heap g; m_loop := m_loop g; m_clients := m_clients g; m_commands := q;
     m_filterUnion := m_filterUnion g; m_prevfilter := m_prevfilter g;
     m_currentCommand := m_currentCommand g; m_retries := m_retries g |}.
Definition set_filters (u p : SubscriptionParams) (g : CBoostClientManager) : CBoostClientManager :=
  {| m_heap := m_heap g; m_loop := m_loop g; m_clients := m_clients g;
     m_commands := m_commands g; m_filterUnion := u; m_prevfilter := p;
     m_currentCommand := m_currentCommand g; m_retries := m_retries g |}.
Definition set_current (c : SClientCommand) (g : CBoostClientManager) : CBoostClientManager :=
  {| m_heap := m_heap g; m_loop := m_loop g; m_clients := m_clients g;
     m_commands := m_commands g; m_filterUnion := m_filterUnion g;
     m_prevfilter := m_prevfilter g; m_currentCommand := c; m_retries := m_retries g |}.
Definition set_result (r : EClientResult) (c : SClientCommand) : SClientCommand :=
  {| sc_client := sc_client c; sc_command := sc_command c; sc_seq := sc_seq c; sc_result := r |}.
Definition set_seq (seq : Z) (c : SClientCommand) : SClientCommand :=
  {| sc_client := sc_client c; sc_command := sc_command c; sc_seq := seq;
     sc_result := sc_result c |}.
Definition set_command (m : CMuxMessage) (c : SClientCommand) : SClientCommand :=
  {| sc_client := sc_client c; sc_command := m; sc_seq := sc_seq c; sc_result := sc_result c |}.
Definition set_data (d : list Z) (m : CMuxMessage) : CMuxMessage :=
  {| m_data := d; m_type := m_type m; m_id := m_id m |}.

(** [client->...] on a pointer. *)
Definition deref (g : CBoostClientManager) (client : nat) : outcome CBoostClient :=
  match m_heap g !! client with Some cl => Ok cl | None => Undefined NullDeref end.
Definition store (client : nat) (cl : CBoostClient) (g : CBoostClientManager)
  : CBoostClientManager := set_heap (<[client := cl]> (m_heap g)) g.
Definition update_client (f : CBoostClient -> CBoostClient) (g : CBoostClientManager)
  (client : nat) : outcome CBoostClientManager :=
  cl ← deref g client; Ok (store client (f cl) g).
Definition on_subscriber (f : CSubscriber -> CSubscriber) (cl : CBoostClient) : CBoostClient :=
  set_core (set_subscriber (f (m_subscriber (m_core cl))) (m_core cl)) cl.

(** ** Operations *)

Definition mgr_addClient (g : CBoostClientManager) (client : nat) : CBoostClientManager :=
  set_clients (push_back (m_clients g) client) g.

Definition push_command (g : CBoostClientManager) (client : option nat) (command : CMuxMessage)
  : CBoostClientManager :=
  set_commands (queue_push (new_SClientCommand client command) (m_commands g)) g.

Definition mgr_addCommand (g : CBoostClientManager) (client : nat) (command : CMuxMessage)
  : CBoostClientManager := push_command g (Some client) command.

(** [closeClients] *)
Definition closeClients (g : CBoostClientManager) : outcome CBoostClientManager :=
  g ← foldM (update_client client_close) g (m_clients g);
  Ok (set_clients [] g).

(** [stop] *)
Definition mgr_stop (g : CBoostClientManager) : CBoostClientManager :=
  set_commands (queue_clear (m_commands g)) (set_loop false g).

(** [recomputeSubscribeFilter] *)
Definition subscription_union (g : CBoostClientManager) : outcome SubscriptionParams :=
  foldM (fun u client =>
    cl ← deref g client;
    let s := m_subscriber (m_core cl) in
    Ok {| filter := Z.lor (filter u) (getSubscription s);
          unreliable := Z.lor (unreliable u) (getUnreliable s) |})
    default_params (m_clients g).

Definition recomputeSubscribeFilter (g : CBoostClientManager)
  : outcome (bool * CBoostClientManager) :=
  newParamsUnion ← subscription_union g;
  let changed := negb (filter newParamsUnion =? filter (m_filterUnion g))
              || negb (unreliable newParamsUnion =? unreliable (m_filterUnion g)) in
  Ok (changed, set_filters newParamsUnion (m_filterUnion g) g).

(** [std::find] and [erase]: the first occurrence. *)
Fixpoint erase (client : nat) (l : list nat) : list nat :=
  match l with
  | [] => []
  | x :: l => if decide (x = client) then l else x :: erase client l
  end.

(** [removeClient] *)
Definition mgr_removeClient (g : CBoostClientManager) (client : nat)
  : outcome CBoostClientManager :=
  let g := match sc_client (m_currentCommand g) with
           | Some _ => set_current (set_result CLIENT_DISCONNECT (m_currentCommand g)) g
           | None => g
           end in
  if decide (client ∈ m_clients g) then
    '(changed, g) ← recomputeSubscribeFilter (set_clients (erase client (m_clients g)) g);
    if (changed : bool) then
      payload ← filterToVector (m_filterUnion g) (replicate SUBSCRIBE_PARAMS_LENGTH 0);
      Ok (push_command g None (typed_message SUBSCRIBE payload))
    else Ok g
  else Ok g.

#[export] Instance manager_list : ISimpleClientList CBoostClientManager := {
  addClient := mgr_addClient;
  removeClient := mgr_removeClient;
  addCommand := mgr_addCommand;
}.

(** [sendResponse] *)
Definition sendResponse (g : CBoostClientManager) (client : option nat) (resp : CMuxOutput)
  : outcome CBoostClientManager :=
  match client with
  | Some client => update_client (client_write (serialize_output resp)) g client
  | None => Ok g
  end.

(** [commandComplete] *)
Definition mgr_commandComplete (g : CBoostClientManager) (cmdType seqNo respCode : Z)
  (response : list Z) : outcome CBoostClientManager :=
  let current := m_currentCommand g in
  if negb (cmdType =? m_type (sc_command current)) || negb (seqNo =? sc_seq current)
  then Ok g
  else
    let g := if (cmdType =? SUBSCRIBE) && negb (respCode =? ERR_OK)
             then set_filters (m_prevfilter g) (m_prevfilter g) g else g in
    let g := set_current (set_result CLIENT_OK current) g in
    match sc_client current with
    | Some client =>
        g ← sendResponse g (Some client) (new_CMuxOutput cmdType 0 respCode response);
        if cmdType =? SUBSCRIBE
        then update_client (on_subscriber commitFilter) g client
        else Ok g
    | None => Ok g
    end.

(** [handleNotif] *)
Definition mgr_handleNotif (g : CBoostClientManager) (notifType : Z) (payload : list Z)
  : outcome CBoostClientManager :=
  foldM (fun g client =>
    cl ← deref g client;
    subscribed ← isSubscribed (m_subscriber (m_core cl)) notifType;
    if (subscribed : bool)
    then update_client
           (client_write (serialize_output (new_CMuxOutput NOTIFICATION 0 notifType payload)))
           g client
    else Ok g) g (m_clients g).

#[export] Instance manager_callback : IPicardCallback CBoostClientManager := {
  commandComplete := mgr_commandComplete;
  handleNotif := mgr_handleNotif;
}.

(** ** The command loop *)

(** What the loop uses of the rest of the multiplexer: [IPicardIO::sendCommand]
    (the sequence number is the one it stores for the caller) and the parts of
    [resetConnection] outside the manager. *)
Class IPicardIO (P : Type) := {
  picard_sendCommand : P -> CMuxMessage -> bool -> P * Z;
  reset_rest : P -> P;
}.

Definition MAX_SERIAL_API_CMD_LEN : Z := 128.

(** Where the command thread is: before the loop, at its head, asleep in
    [timedPop], in the [for] loop about to send for the [i]th time, waiting for
    the response to that, or finished.  The command is the local [cmd]. *)
Inductive loop_pc :=
  | NotStarted
  | AtHead
  | InPop
  | Sending (cmd : SClientCommand) (i : Z)
  | Waiting (cmd : SClientCommand) (i : Z)
  | Exited.

#[export] Instance loop_pc_eq_dec : EqDecision loop_pc.
Proof. solve_decision. Defined.

Section loop.
Context {P : Type} `{IPicardIO P}.

Record world := { w_mgr : CBoostClientManager; w_rest : P; w_pc : loop_pc }.

(** [resetConnection] as the manager sees it. *)
Definition mgr_resetConnection (g : CBoostClientManager) (p : P)
  : outcome (CBoostClientManager * P) :=
  g ← closeClients g; Ok (g, reset_rest p).

(** [commandTimeout] *)
Definition commandTimeout (g : CBoostClientManager) (p : P) (client : option nat)
  (cmdType respCode : Z) : outcome (CBoostClientManager * P) :=
  g ← sendResponse g client (new_CMuxOutput cmdType 0 respCode []);
  mgr_resetConnection g p.

(** The loop body from the pop to the [for] loop: the state, and the command to
    send, or [None] for a [continue]. *)
Definition dispatch (g : CBoostClientManager) (cmd : SClientCommand)
  : outcome (CBoostClientManager * option SClientCommand) :=
  let type := m_type (sc_command cmd) in
  let known := match sc_client cmd with
               | Some client => bool_decide (client ∈ m_clients g) | None => true end in
  if negb known then Ok (g, None)
  else if type =? MUX_INFO then
    match sc_client cmd with
    | Some client =>
        cl ← deref g client;
        g ← sendResponse g (sc_client cmd)
              (new_CMuxOutput MUX_INFO 0 ERR_OK (muxInfoPayload (getProtocolVersion cl)));
        Ok (g, None)
    | None => Undefined NullDeref
    end
  else if negb (isPicardApiCommand type)
       || (MAX_SERIAL_API_CMD_LEN <? message_size (sc_command cmd)) then
    g ← sendResponse g (sc_client cmd) (new_CMuxOutput type 0 ERR_INVALID_CMD []);
    Ok (g, None)
  else
    '(g, cmd) ←
      match sc_client cmd with
      | Some client =>
          if type =? SUBSCRIBE then
            params ← vectorToFilter (m_data (sc_command cmd));
            g ← update_client (on_subscriber (setSubscription params)) g client;
            '(_, g) ← recomputeSubscribeFilter g;
            data ← filterToVector (m_filterUnion g) (m_data (sc_command cmd));
            Ok (g, set_command (set_data data (sc_command cmd)) cmd)
          else Ok (g, cmd)
      | None => Ok (g, cmd)
      end;
    Ok (set_current cmd g, Some cmd).

(** The loop body after the [for] loop. *)
Definition finish (g : CBoostClientManager) (p : P) (cmd : SClientCommand)
  (result : EClientResult) : outcome (CBoostClientManager * P) :=
  '(g, p) ←
    match sc_client cmd with
    | Some client =>
        if decide (result = CLIENT_OK) then Ok (g, p)
        else
          g ← (if m_type (sc_command cmd) =? SUBSCRIBE
               then update_client (on_subscriber resetFilter)
                      (set_filters (m_prevfilter g) (m_prevfilter g) g) client
               else Ok g);
          commandTimeout g p (Some client) (m_type (sc_command cmd)) ERR_COMMAND_TIMEOUT
    | None => Ok (g, p)
    end;
  Ok (set_current no_command g, p).

Definition after_pop (w : world) (popped : option SClientCommand) : outcome world :=
  match popped with
  | None => Ok {| w_mgr := w_mgr w; w_rest := w_rest w; w_pc := AtHead |}
  | Some cmd =>
      '(g, next) ← dispatch (w_mgr w) cmd;
      Ok {| w_mgr := g; w_rest := w_rest w;
            w_pc := match next with Some cmd => Sending cmd 0 | None => AtHead end |}
  end.

(** The command thread (thread 0 of the queue) up to its next blocking point. *)
Definition command_thread (w : world) : outcome world :=
  let g := w_mgr w in
  match w_pc w with
  | NotStarted => Ok {| w_mgr := set_loop true g; w_rest := w_rest w; w_pc := AtHead |}
  | AtHead =>
      if m_loop g then
        match timedPop_enter 0%nat (m_commands g) with
        | (None, q) => Ok {| w_mgr := set_commands q g; w_rest := w_rest w; w_pc := InPop |}
        | (Some popped, q) =>
            after_pop {| w_mgr := set_commands q g; w_rest := w_rest w; w_pc := AtHead |} popped
        end
      else Ok {| w_mgr := g; w_rest := w_rest w; w_pc := Exited |}
  | InPop =>
      if decide (0%nat ∈ awake (m_commands g)) then
        let '(popped, q) := timedPop_resume 0%nat (m_commands g) in
        after_pop {| w_mgr := set_commands q g; w_rest := w_rest w; w_pc := InPop |} popped
      else Ok w
  | Sending cmd i =>
      if i <? m_retries g then
        let '(p, seq) := picard_sendCommand (w_rest w) (sc_command cmd) (negb (i =? 0)) in
        Ok {| w_mgr := set_current (set_seq seq (m_currentCommand g)) g; w_rest := p;
              w_pc := Waiting cmd i |}
      else
        '(g, p) ← finish g (w_rest w) cmd CLIENT_TIMEOUT;
        Ok {| w_mgr := g; w_rest := p; w_pc := AtHead |}
  | Waiting cmd i =>
      let result := sc_result (m_currentCommand g) in
      if decide (result = CLIENT_TIMEOUT)
      then Ok {| w_mgr := g; w_rest := w_rest w; w_pc := Sending cmd (i + 1) |}
      else
        '(g, p) ← finish g (w_rest w) cmd result;
        Ok {| w_mgr := g; w_rest := p; w_pc := AtHead |}
  | Exited => Ok w
  end.

(** ** Events *)

(** What can happen to one client: a read completes, its timer runs out, the
    timer's handler runs. *)
Inductive client_event :=
  | ClientData (data : list Z) | ClientError | ClientExpire | ClientTimer.

Definition client_exec {M} `{ISimpleClientList M} (client : nat) (s : CBoostClient * M)
  (e : client_event) : outcome (CBoostClient * M) :=
  let '(cl, g) := s in
  let c := m_core cl in
  match e with
  | ClientData data =>
      if m_reading cl && bool_decide (data <> []) then handle_read client (cl, g) (ReadData data)
      else Ok (cl, g)
  | ClientError =>
      if m_reading cl then handle_read client (cl, g) ReadError else Ok (cl, g)
  | ClientExpire =>
      Ok (set_core (set_state_timer (m_initState c) (timer_expire (m_authTimeout c)) (m_open c) c) cl, g)
  | ClientTimer =>
      match m_authTimeout c with
      | TimerExpired => Ok (handleAuthTimeout false cl, g)
      | TimerAborted => Ok (handleAuthTimeout true cl, g)
      | _ => Ok (cl, g)
      end
  end.

(** Who holds a [CBoostClient::pointer] to a client: its outstanding read, the
    client list, the queued commands, the command in flight and the loop's [cmd]. *)
Definition pc_command (pc : loop_pc) : option SClientCommand :=
  match pc with Sending cmd _ | Waiting cmd _ => Some cmd | _ => None end.

Definition referenced (g : CBoostClientManager) (pc : loop_pc) (client : nat)
  (cl : CBoostClient) : bool :=
  m_reading cl || bool_decide (client ∈ m_clients g)
  || existsb (fun cmd => bool_decide (sc_client cmd = Some client))
       (m_queue (m_commands g) ++ m_currentCommand g :: option_list (pc_command pc)).

(** The events of a client nobody points to any more: it has been destroyed, its
    timer with it, so an unexpired wait has been aborted.  The handler of the
    timer is bound to [this]: with an error it does nothing, but one queued
    because the time ran out uses the object. *)
Definition destroyed_exec (cl : CBoostClient) (e : client_event) : outcome CBoostClient :=
  match e, m_authTimeout (m_core cl) with
  | ClientTimer, TimerExpired => Undefined UseAfterFree
  | _, _ => Ok cl
  end.

Inductive event :=
  | EvCommandThread                        (* the command thread runs *)
  | EvQueueTimeout                         (* timed_wait of timedPop times out *)
  | EvAccept (client : nat) (authToken : list Z) (version : Z)
  | EvClient (client : nat) (e : client_event)
  | EvComplete (cmdType seqNo respCode : Z) (response : list Z)
  | EvNotif (notifType : Z) (payload : list Z)
  | EvReset                                (* resetConnection from elsewhere *)
  | EvStop.

Definition wake_up (q : CSyncQueue SClientCommand) : CSyncQueue SClientCommand :=
  {| m_queue := m_queue q; asleep := []; awake := awake q ++ asleep q |}.

Definition with_mgr (w : world) (m : outcome CBoostClientManager) : outcome world :=
  g ← m; Ok {| w_mgr := g; w_rest := w_rest w; w_pc := w_pc w |}.

Definition exec (w : world) (e : event) : outcome world :=
  let g := w_mgr w in
  match e with
  | EvCommandThread => command_thread w
  | EvQueueTimeout => with_mgr w (Ok (set_commands (wake_up (m_commands g)) g))
  | EvAccept client authToken version =>
      match m_heap g !! client with
      | None => with_mgr w (Ok (store client (client_start (create authToken version)) g))
      | Some _ => Ok w   (* a new object has a new address *)
      end
  | EvClient client e =>
      match m_heap g !! client with
      | Some cl =>
          if referenced g (w_pc w) client cl then
            '(cl, g) ← client_exec client (cl, g) e;
            with_mgr w (Ok (store client cl g))
          else
            cl ← destroyed_exec cl e;
            with_mgr w (Ok (store client cl g))
      | None => Ok w
      end
  | EvComplete t q r p => with_mgr w (mgr_commandComplete g t q r p)
  | EvNotif t p => with_mgr w (mgr_handleNotif g t p)
  | EvReset =>
      '(g, p) ← mgr_resetConnection g (w_rest w);
      Ok {| w_mgr := g; w_rest := p; w_pc := w_pc w |}
  | EvStop => with_mgr w (Ok (mgr_stop g))
  end.

Definition run_events (w : world) (es : list event) : outcome world := foldM exec w es.

Definition new_world (retries : Z) (p : P) : world :=
  {| w_mgr := new_CBoostClientManager retries; w_rest := p; w_pc := NotStarted |}.
End loop.
Arguments world : clear implicits.

(** ** The operations on a well-formed manager *)

(** A registered client has left the states before registration. *)
Definition active (cl : CBoostClient) : Prop :=
  m_initState (m_core cl) = AUTHENTICATED \/ m_initState (m_core cl) = CLOSED.

Definition subscriber_ok (s : CSubscriber) : Prop :=
  params_ok (m_params s) /\ params_ok (m_newParams s).

Definition client_wf (cl : CBoostClient) : Prop :=
  subscriber_ok (m_subscriber (m_core cl)) /\
  length (m_expectedAuth (m_core cl)) = AUTHENTICATION_LEN.

Definition heap_ok (h : gmap nat CBoostClient) : Prop := map_Forall (fun _ cl => client_wf cl) h.

Definition clients_ok (h : gmap nat CBoostClient) (l : list nat) : Prop :=
  NoDup l /\ forall client, client ∈ l -> exists cl, h !! client = Some cl /\ active cl.

(** An element of the queue: a client's, or a resubscription by the manager. *)
Definition entry_ok (h : gmap nat CBoostClient) (cmd : SClientCommand) : Prop :=
  sc_seq cmd = 0 /\ sc_result cmd = CLIENT_TIMEOUT /\
  match sc_client cmd with
  | Some client => is_Some (h !! client)
  | None => m_type (sc_command cmd) = SUBSCRIBE /\
            length (m_data (sc_command cmd)) = SUBSCRIBE_PARAMS_LENGTH
  end.

Record mgr_inv (g : CBoostClientManager) : Prop := {
  mi_heap : heap_ok (m_heap g);
  mi_clients : clients_ok (m_heap g) (m_clients g);
  mi_queue : Forall (entry_ok (m_heap g)) (m_queue (m_commands g));
  mi_filters : params_ok (m_filterUnion g) /\ params_ok (m_prevfilter g);
}.

(** Clients stay, and stay registered. *)
Definition heap_le (h h' : gmap nat CBoostClient) : Prop :=
  forall client cl, h !! client = Some cl ->
    exists cl', h' !! client = Some cl' /\ (active cl -> active cl').

#[export] Instance heap_le_preorder : PreOrder heap_le.
Proof.
  split.
  - intros h client cl Hcl. by exists cl.
  - intros h1 h2 h3 H12 H23 client cl Hcl.
    destruct (H12 _ _ Hcl) as (cl2 & Hcl2 & Ha2). destruct (H23 _ _ Hcl2) as (cl3 & Hcl3 & Ha3).
    exists cl3. auto.
Qed.

Lemma heap_le_insert h client cl :
  (forall old, h !! client = Some old -> active old -> active cl) -> heap_le h (<[client := cl]> h).
Proof.
  intros Ha c old Hold. destruct (decide (c = client)) as [->|Hne].
  - exists cl. rewrite lookup_insert_eq. eauto.
  - exists old. by rewrite lookup_insert_ne.
Qed.

Lemma heap_le_is_Some h h' client : heap_le h h' -> is_Some (h !! client) -> is_Some (h' !! client).
Proof. intros Hle [cl Hcl]. destruct (Hle _ _ Hcl) as (cl' & Hcl' & _). by exists cl'. Qed.

Lemma clients_ok_le h h' l : heap_le h h' -> clients_ok h l -> clients_ok h' l.
Proof.
  intros Hle [Hnd Hl]. split; [done|]. intros client Hc.
  destruct (Hl _ Hc) as (cl & Hcl & Ha). destruct (Hle _ _ Hcl) as (cl' & Hcl' & Ha').
  exists cl'. auto.
Qed.

Lemma entries_ok_le h h' l : heap_le h h' -> Forall (entry_ok h) l -> Forall (entry_ok h') l.
Proof.
  intros Hle Hl. eapply Forall_impl; [exact Hl|]. intros [c m q r] (Hs & Hr & He).
  split_and!; [done|done|]. cbn in *. destruct c; [by eapply heap_le_is_Some|done].
Qed.

Lemma clients_known g client :
  mgr_inv g -> client ∈ m_clients g -> is_Some (m_heap g !! client).
Proof. intros Hi Hc. destruct (mi_clients _ Hi) as [_ Hl]. destruct (Hl _ Hc) as (cl & ? & _). by exists cl. Qed.

(** A change of the heap alone. *)
Lemma mgr_inv_heap g h :
  mgr_inv g -> heap_le (m_heap g) h -> heap_ok h -> mgr_inv (set_heap h g).
Proof.
  intros [Hh Hc Hq Hf] Hle Hok. split; cbn; [done|by eapply clients_ok_le|by eapply entries_ok_le|done].
Qed.

Lemma mgr_inv_store g client cl :
  mgr_inv g -> client_wf cl ->
  (forall old, m_heap g !! client = Some old -> active old -> active cl) ->
  mgr_inv (store client cl g).
Proof.
  intros Hi Hs Ha. apply mgr_inv_heap; [done|by apply heap_le_insert|].
  apply map_Forall_insert_2; [done|apply Hi].
Qed.

(** Changes to a client that keep it registered and its filters well-formed. *)
Definition client_change (f : CBoostClient -> CBoostClient) : Prop :=
  (forall cl, active cl -> active (f cl)) /\
  (forall cl, client_wf cl -> client_wf (f cl)).

Lemma client_change_write msg : client_change (client_write msg).
Proof. by split. Qed.
Lemma client_change_close : client_change client_close.
Proof. split; [|done]. intros cl _. by right. Qed.
Lemma client_change_set p : params_ok p -> client_change (on_subscriber (setSubscription p)).
Proof. intros Hp. split; [done|]. by intros cl [[? ?] ?]. Qed.
Lemma client_change_reset : client_change (on_subscriber resetFilter).
Proof. split; [done|]. by intros cl [[? ?] ?]. Qed.
Lemma client_change_commit : client_change (on_subscriber commitFilter).
Proof. split; [done|]. by intros cl [[? ?] ?]. Qed.

#[local] Hint Resolve client_change_write client_change_close client_change_set
  client_change_reset client_change_commit : core.

Lemma update_client_Ok f g client :
  is_Some (m_heap g !! client) ->
  update_client f g client = Ok (set_heap (alter f client (m_heap g)) g).
Proof.
  intros [cl Hcl]. unfold update_client, deref, store. rewrite Hcl. step_bind.
  do 2 f_equal. apply map_eq. intros c. destruct (decide (c = client)) as [->|Hne].
  - by rewrite lookup_insert_eq, lookup_alter_eq, Hcl.
  - by rewrite lookup_insert_ne, lookup_alter_ne.
Qed.

Lemma mgr_inv_alter f g client :
  client_change f -> mgr_inv g -> mgr_inv (set_heap (alter f client (m_heap g)) g).
Proof.
  intros [Hfa Hfs] Hi. apply mgr_inv_heap; [done| |].
  - intros c cl Hcl. destruct (decide (c = client)) as [->|Hne].
    + exists (f cl). rewrite lookup_alter_eq, Hcl. auto.
    + exists cl. by rewrite lookup_alter_ne.
  - intros c cl. destruct (decide (c = client)) as [->|Hne].
    + rewrite lookup_alter_eq. intros (cl0 & Hcl0 & ->)%fmap_Some. apply Hfs.
      by apply (mi_heap _ Hi client).
    + rewrite lookup_alter_ne by done. apply (mi_heap _ Hi c).
Qed.

(** [update_client] on every client of a list. *)
Definition alter_all (f : CBoostClient -> CBoostClient) (l : list nat)
  (h : gmap nat CBoostClient) : gmap nat CBoostClient :=
  foldl (fun h client => alter f client h) h l.

Lemma alter_all_lookup f l h client :
  NoDup l ->
  alter_all f l h !! client = if decide (client ∈ l) then f <$> h !! client else h !! client.
Proof.
  intros Hl. revert h. induction Hl as [|x l Hx _ IH]; intros h; [done|].
  cbn. unfold alter_all in IH. rewrite IH. destruct (decide (client = x)) as [->|Hne].
  - rewrite decide_False by done. rewrite lookup_alter_eq, decide_True by set_solver. done.
  - rewrite lookup_alter_ne by done. destruct (decide (client ∈ l)).
    + by rewrite decide_True by set_solver.
    + by rewrite decide_False by set_solver.
Qed.

Lemma update_all_Ok f l g :
  (forall client, client ∈ l -> is_Some (m_heap g !! client)) ->
  foldM (update_client f) g l = Ok (set_heap (alter_all f l (m_heap g)) g).
Proof.
  revert g. induction l as [|x l IH]; intros g Hl; [by destruct g|].
  cbn [foldM]. rewrite update_client_Ok by set_solver. step_bind.
  rewrite IH; [done|]. intros client Hc. cbn. apply lookup_alter_is_Some. apply Hl. set_solver.
Qed.

Lemma mgr_inv_alter_all f l g :
  client_change f -> mgr_inv g -> mgr_inv (set_heap (alter_all f l (m_heap g)) g).
Proof.
  intros Hf. revert g. induction l as [|x l IH]; intros g Hi; [by destruct g|].
  exact (IH _ (mgr_inv_alter f g x Hf Hi)).
Qed.

(** *** The union of the subscriptions *)

Definition reported (s : CSubscriber) : SubscriptionParams :=
  {| filter := getSubscription s; unreliable := getUnreliable s |}.

Definition client_params (h : gmap nat CBoostClient) (client : nat) : SubscriptionParams :=
  match h !! client with
  | Some cl => reported (m_subscriber (m_core cl)) | None => default_params end.

(** The specification: the union over the registered clients. *)
Definition union_of (h : gmap nat CBoostClient) (l : list nat) : SubscriptionParams :=
  foldl (fun u client => params_union u (client_params h client)) default_params l.

Lemma union_fold (g : CBoostClientManager) l u :
  (forall client, client ∈ l -> is_Some (m_heap g !! client)) ->
  foldM (fun u client =>
    cl ← deref g client;
    let s := m_subscriber (m_core cl) in
    Ok {| filter := Z.lor (filter u) (getSubscription s);
          unreliable := Z.lor (unreliable u) (getUnreliable s) |}) u l
  = Ok (foldl (fun u client => params_union u (client_params (m_heap g) client)) u l).
Proof.
  revert u. induction l as [|x l IH]; intros u Hl; [done|]. cbn [foldM foldl].
  destruct (Hl x) as [cl Hcl]; [set_solver|].
  replace (deref g x) with (Ok cl) by (unfold deref; by rewrite Hcl). step_bind.
  rewrite IH by set_solver. f_equal. f_equal. unfold client_params. by rewrite Hcl.
Qed.

Lemma client_params_ok h client : heap_ok h -> params_ok (client_params h client).
Proof.
  intros Hh. unfold client_params. destruct (h !! client) as [cl|] eqn:Hcl; [|done].
  destruct (Hh _ _ Hcl) as [[_ Hn] _]. exact Hn.
Qed.

Lemma union_of_ok h l : heap_ok h -> params_ok (union_of h l).
Proof.
  intros Hh. unfold union_of. generalize default_params, default_params_ok.
  induction l as [|x l IH]; intros u Hu; [done|]. apply IH.
  by apply params_union_ok, client_params_ok.
Qed.

Definition union_changed (u v : SubscriptionParams) : bool :=
  negb (filter u =? filter v) || negb (unreliable u =? unreliable v).

Lemma recompute_Ok g :
  (forall client, client ∈ m_clients g -> is_Some (m_heap g !! client)) ->
  let u := union_of (m_heap g) (m_clients g) in
  recomputeSubscribeFilter g
  = Ok (union_changed u (m_filterUnion g), set_filters u (m_filterUnion g) g).
Proof.
  intros Hl u. unfold recomputeSubscribeFilter, subscription_union.
  by rewrite union_fold.
Qed.

(** *** Each operation on a well-formed manager

    [mgr_ext g g']: [g'] is well-formed, has the clients of [g], the command in
    flight is the same one and the number of tries is unchanged. *)

Definition same_current (g g' : CBoostClientManager) : Prop :=
  sc_client (m_currentCommand g') = sc_client (m_currentCommand g) /\
  sc_command (m_currentCommand g') = sc_command (m_currentCommand g) /\
  (m_currentCommand g = no_command -> m_currentCommand g' = no_command) /\
  m_retries g' = m_retries g.

Definition mgr_ext (g g' : CBoostClientManager) : Prop :=
  mgr_inv g' /\ heap_le (m_heap g) (m_heap g') /\ same_current g g'.

Lemma same_current_refl g g' :
  m_currentCommand g' = m_currentCommand g -> m_retries g' = m_retries g -> same_current g g'.
Proof. unfold same_current. by intros -> ->. Qed.

Lemma mgr_ext_trans g1 g2 g3 : mgr_ext g1 g2 -> mgr_ext g2 g3 -> mgr_ext g1 g3.
Proof.
  intros (_ & H12 & Ha & Hb & Hc & Hd) (Hi & H23 & Ha' & Hb' & Hc' & Hd').
  split_and!; [done|by etrans|]. split_and!; [congruence|congruence|auto|congruence].
Qed.

Lemma heap_le_alter_all f l h :
  (forall cl, active cl -> active (f cl)) -> heap_le h (alter_all f l h).
Proof.
  intros Hf. revert h. induction l as [|x l IH]; intros h; [done|].
  transitivity (alter f x h); [|apply IH]. intros c cl Hcl. destruct (decide (c = x)) as [->|Hne].
  - exists (f cl). rewrite lookup_alter_eq, Hcl. auto.
  - exists cl. by rewrite lookup_alter_ne.
Qed.

Lemma mgr_ext_alter f g client :
  client_change f -> mgr_inv g -> mgr_ext g (set_heap (alter f client (m_heap g)) g).
Proof.
  intros Hf Hi. split_and!; [by apply mgr_inv_alter| |by apply same_current_refl].
  apply (heap_le_alter_all f [client]), Hf.
Qed.

Lemma mgr_inv_filters g u p :
  params_ok u -> params_ok p -> mgr_inv g -> mgr_inv (set_filters u p g).
Proof. intros ? ? [? ? ? ?]. by split. Qed.

Lemma mgr_inv_current g c : mgr_inv g -> mgr_inv (set_current c g).
Proof. intros [? ? ? ?]. by split. Qed.

Lemma mgr_inv_queue g q :
  Forall (entry_ok (m_heap g)) (m_queue q) -> mgr_inv g -> mgr_inv (set_commands q g).
Proof. intros Hq [? ? ? ?]. by split. Qed.

Lemma mgr_inv_push g client m :
  entry_ok (m_heap g) (new_SClientCommand client m) -> mgr_inv g -> mgr_inv (push_command g client m).
Proof.
  intros He Hi. apply mgr_inv_queue; [|done]. rewrite push_queue.
  apply Forall_app. split; [apply Hi|by apply Forall_singleton].
Qed.

Lemma closeClients_Ok g :
  mgr_inv g ->
  closeClients g = Ok (set_clients [] (set_heap (alter_all client_close (m_clients g) (m_heap g)) g)).
Proof.
  intros Hi. unfold closeClients. rewrite update_all_Ok; [done|].
  intros client. by apply clients_known.
Qed.

Lemma closeClients_ext g g' : mgr_inv g -> closeClients g = Ok g' -> mgr_ext g g'.
Proof.
  intros Hi. rewrite closeClients_Ok by done. intros [= <-].
  destruct (mgr_inv_alter_all client_close (m_clients g) g client_change_close Hi) as [Hh Hc Hq Hf].
  split_and!; [|by apply heap_le_alter_all, client_change_close|by apply same_current_refl].
  split; cbn in *; [done| |done|done]. split; [constructor|]. set_solver.
Qed.

Lemma elem_of_erase client x l : NoDup l -> x ∈ erase client l <-> x ∈ l /\ x <> client.
Proof.
  induction 1 as [|y l Hy Hl IH]; [set_solver|]. cbn. case_decide; set_solver.
Qed.

Lemma NoDup_erase client l : NoDup l -> NoDup (erase client l).
Proof.
  induction 1 as [|y l Hy Hl IH]; [constructor|]. cbn. case_decide; [done|].
  constructor; [|done]. rewrite elem_of_erase by done. tauto.
Qed.

Lemma clients_ok_erase h client l : clients_ok h l -> clients_ok h (erase client l).
Proof.
  intros [Hnd Hl]. split; [by apply NoDup_erase|]. intros x.
  rewrite elem_of_erase by done. intros [? _]. by apply Hl.
Qed.

(** [removeClient], as a function. *)
Definition disconnect_current (g : CBoostClientManager) : CBoostClientManager :=
  match sc_client (m_currentCommand g) with
  | Some _ => set_current (set_result CLIENT_DISCONNECT (m_currentCommand g)) g
  | None => g
  end.

Definition removed (g : CBoostClientManager) (client : nat) : CBoostClientManager :=
  if decide (client ∈ m_clients g) then
    let l := erase client (m_clients g) in
    let u := union_of (m_heap g) l in
    let g' := set_filters u (m_filterUnion g) (set_clients l (disconnect_current g)) in
    if union_changed u (m_filterUnion g)
    then push_command g' None (typed_message SUBSCRIBE (filter_bytes u)) else g'
  else disconnect_current g.

Lemma removeClient_Ok g client :
  mgr_inv g -> mgr_removeClient g client = Ok (removed g client).
Proof.
  intros Hi. unfold mgr_removeClient, removed. fold (disconnect_current g).
  assert (Hd : m_clients (disconnect_current g) = m_clients g /\
    m_heap (disconnect_current g) = m_heap g /\
    m_filterUnion (disconnect_current g) = m_filterUnion g)
    by (unfold disconnect_current; by destruct (sc_client _)).
  destruct Hd as (Hdc & Hdh & Hdf). rewrite Hdc. case_decide as Hin; [|done].
  rewrite recompute_Ok.
  - cbn [set_clients m_heap m_clients m_filterUnion]. rewrite Hdh, Hdf. step_bind.
    destruct (union_changed _ _); [|done].
    rewrite filterToVector_long by done. step_bind. by rewrite app_nil_r.
  - cbn. rewrite Hdh. intros x. rewrite elem_of_erase by apply (mi_clients _ Hi).
    intros [Hx _]. by apply clients_known.
Qed.

Lemma disconnect_ext g : mgr_inv g -> mgr_ext g (disconnect_current g).
Proof.
  intros Hi. unfold disconnect_current.
  destruct (sc_client (m_currentCommand g)) as [c|] eqn:Hc.
  - split_and!; [by apply mgr_inv_current|done|]. split_and!; [done|done| |done].
    intros Hn. by rewrite Hn in Hc.
  - split_and!; [done|done|by apply same_current_refl].
Qed.

Lemma removed_ext g client : mgr_inv g -> mgr_ext g (removed g client).
Proof.
  intros Hi. unfold removed. pose proof (disconnect_ext g Hi) as Hd. case_decide as Hin; [|done].
  eapply mgr_ext_trans; [exact Hd|]. destruct Hd as (Hdi & _ & _).
  assert (Hdf : m_filterUnion (disconnect_current g) = m_filterUnion g /\
    m_clients (disconnect_current g) = m_clients g)
    by (unfold disconnect_current; by destruct (sc_client _)).
  destruct Hdf as [Hdf Hdc]. set (u := union_of _ _).
  assert (Hg : mgr_inv (set_filters u (m_filterUnion g)
    (set_clients (erase client (m_clients g)) (disconnect_current g)))).
  { apply mgr_inv_filters; [apply union_of_ok, Hi|apply Hi|]. destruct Hdi as [Hh Hc Hq Hf].
    split; [done| |done|done]. cbn. rewrite <- Hdc. by apply clients_ok_erase. }
  destruct (union_changed _ _); (split_and!; [|done|by apply same_current_refl]); [|done].
  apply mgr_inv_push; [|done]. by split_and!.
Qed.

Lemma sendResponse_ext g client resp :
  (forall c, client = Some c -> is_Some (m_heap g !! c)) -> mgr_inv g ->
  exists g', sendResponse g client resp = Ok g' /\ mgr_ext g g'.
Proof.
  intros Hc Hi. destruct client as [c|]; cbn.
  - rewrite update_client_Ok by auto. eexists. split; [done|]. by apply mgr_ext_alter.
  - exists g. split; [done|]. split_and!; [done|done|by apply same_current_refl].
Qed.

(** The effect of a response that matches the command in flight. *)
Definition completed (g : CBoostClientManager) (respCode : Z) (response : list Z)
  : CBoostClientManager :=
  let cur := m_currentCommand g in
  let type := m_type (sc_command cur) in
  let g := if (type =? SUBSCRIBE) && negb (respCode =? ERR_OK)
           then set_filters (m_prevfilter g) (m_prevfilter g) g else g in
  let g := set_current (set_result CLIENT_OK cur) g in
  match sc_client cur with
  | Some client =>
      let answer cl :=
        let cl := client_write (serialize_output (new_CMuxOutput type 0 respCode response)) cl in
        if type =? SUBSCRIBE then on_subscriber commitFilter cl else cl in
      set_heap (alter answer client (m_heap g)) g
  | None => g
  end.

Lemma commandComplete_Ok g t q rc p :
  (forall c, sc_client (m_currentCommand g) = Some c -> is_Some (m_heap g !! c)) ->
  mgr_commandComplete g t q rc p
  = Ok (if (t =? m_type (sc_command (m_currentCommand g))) && (q =? sc_seq (m_currentCommand g))
        then completed g rc p else g).
Proof.
  intros Hc. unfold mgr_commandComplete, completed.
  destruct (Z.eqb_spec t (m_type (sc_command (m_currentCommand g)))) as [->|]; [|done].
  destruct (q =? _); [|done]. cbn [andb negb orb]. set (g1 := set_current _ _).
  assert (Hh : m_heap g1 = m_heap g) by (unfold g1; by destruct (_ && _)).
  destruct (sc_client (m_currentCommand g)) as [c|]; [|done]. specialize (Hc c eq_refl).
  cbn [sendResponse]. rewrite update_client_Ok by (by rewrite Hh). step_bind.
  destruct (_ =? SUBSCRIBE); [|done]. rewrite update_client_Ok.
  - cbn [m_heap set_heap]. rewrite alter_alter_eq. rewrite ?Hh. reflexivity.
  - cbn [m_heap set_heap]. apply lookup_alter_is_Some. by rewrite ?Hh.
Qed.

Lemma completed_ext g rc p :
  m_currentCommand g <> no_command -> mgr_inv g -> mgr_ext g (completed g rc p).
Proof.
  intros Hn Hi. unfold completed. set (t := m_type _).
  set (g1 := set_current _ _).
  assert (Hg1 : mgr_ext g g1).
  { unfold g1. split_and!; [apply mgr_inv_current| |].
    - destruct (_ && _); [|done]. apply mgr_inv_filters; [apply Hi..|done].
    - by destruct (_ && _).
    - split_and!; [by destruct (_ && _)..| |by destruct (_ && _)]. intros; done. }
  destruct (sc_client (m_currentCommand g)) as [c|]; [|done].
  eapply mgr_ext_trans; [exact Hg1|]. destruct Hg1 as (Hi1 & _).
  replace (m_heap g) with (m_heap g1) by (unfold g1; by destruct (_ && _)).
  apply mgr_ext_alter; [|done].
  destruct (t =? SUBSCRIBE); [|apply client_change_write].
  split; [done|]. by intros cl [[? ?] ?].
Qed.

(** What a notification does to a registered client. *)
Definition deliver_to (t : Z) (p : list Z) (cl : CBoostClient) : CBoostClient :=
  if Z.testbit (filter (m_params (m_subscriber (m_core cl)))) t
  then client_write (serialize_output (new_CMuxOutput NOTIFICATION 0 t p)) cl else cl.

Lemma client_change_deliver t p : client_change (deliver_to t p).
Proof.
  unfold client_change, deliver_to. split; intros cl; by destruct (Z.testbit _ _).
Qed.
#[local] Hint Resolve client_change_deliver : core.

Lemma handleNotif_Ok g t p :
  mgr_inv g -> 0 <= t < 32 ->
  mgr_handleNotif g t p = Ok (set_heap (alter_all (deliver_to t p) (m_clients g) (m_heap g)) g).
Proof.
  intros Hi Ht. unfold mgr_handleNotif.
  assert (Hl : forall client, client ∈ m_clients g -> is_Some (m_heap g !! client))
    by (intros client; by apply clients_known).
  revert Hi Hl. generalize (m_clients g) as l. intros l. revert g.
  induction l as [|x l IH]; intros g Hi Hl; [by destruct g|]. cbn [foldM].
  destruct (Hl x) as [cl Hcl]; [set_solver|].
  assert (Hx : (cl ← deref g x; subscribed ← isSubscribed (m_subscriber (m_core cl)) t;
    if (subscribed : bool)
    then update_client (client_write (serialize_output (new_CMuxOutput NOTIFICATION 0 t p))) g x
    else Ok g) = Ok (set_heap (alter (deliver_to t p) x (m_heap g)) g)).
  { unfold deref. rewrite Hcl. step_bind. cbn [isSubscribed CSubscriber_ISubscriber].
    unfold CSubscriber_isSubscribed.
    rewrite subscribeFilterMatch_testbit by (done || apply (mi_heap _ Hi x cl Hcl)). step_bind.
    destruct (Z.testbit _ t) eqn:Hb.
    - rewrite update_client_Ok by auto. do 2 f_equal. apply alter_ext.
      intros cl'. rewrite Hcl. intros [= <-]. unfold deliver_to. by rewrite Hb.
    - replace (alter (deliver_to t p) x (m_heap g)) with (m_heap g); [by destruct g|].
      symmetry. apply alter_id. intros cl'. rewrite Hcl. intros [= <-].
      unfold deliver_to. by rewrite Hb. }
  rewrite Hx. step_bind. rewrite IH; [done|by apply mgr_inv_alter|].
  intros client Hc. cbn. apply lookup_alter_is_Some. apply Hl. set_solver.
Qed.

Lemma handleNotif_bad g t p :
  mgr_inv g -> ~ 0 <= t < 32 ->
  mgr_handleNotif g t p = match m_clients g with [] => Ok g | _ => Undefined BadShift end.
Proof.
  intros Hi Ht. unfold mgr_handleNotif. destruct (m_clients g) as [|x l] eqn:Hl; [done|].
  cbn [foldM]. destruct (clients_known g x Hi) as [cl Hcl]; [rewrite Hl; set_solver|].
  replace (deref g x) with (Ok cl) by (unfold deref; by rewrite Hcl). step_bind.
  cbn [isSubscribed CSubscriber_ISubscriber]. unfold CSubscriber_isSubscribed.
  by rewrite subscribeFilterMatch_undefined by lia.
Qed.

(** *** Client events *)

(** The manager with a client's object put back; what of the client's members is
    being worked on does not matter. *)
Definition put_back (g0 : CBoostClientManager) (this : nat) (s : client_core * CBoostClientManager)
  : Prop :=
  subscriber_ok (m_subscriber s.1) /\ length (m_expectedAuth s.1) = AUTHENTICATION_LEN /\
  forall p r, mgr_ext g0 (store this {| m_core := s.1; m_parser := p; m_reading := r |} s.2).

Lemma store_core g this cl1 cl2 :
  mgr_inv (store this cl1 g) -> client_wf cl2 -> (active cl1 -> active cl2) ->
  mgr_inv (store this cl2 g).
Proof.
  intros Hi Hwf Ha. replace (store this cl2 g) with (store this cl2 (store this cl1 g)).
  - apply mgr_inv_store; [done|done|]. intros old. cbn. rewrite lookup_insert_eq.
    intros [= <-]. done.
  - unfold store. cbn. by rewrite insert_insert_eq.
Qed.

Lemma put_back_command g0 this s msg :
  put_back g0 this s ->
  exists s', client_handleCommand this s msg = Ok s' /\ put_back g0 this s'.
Proof.
  destruct s as [c g]. intros (Hs & Ha & Hp). cbn [fst snd] in *.
  unfold client_handleCommand, isInitialized. case_bool_decide as Hst; [|case_match eqn:Hw].
  - eexists. split; [done|]. split_and!; [done|done|]. intros p r. cbn [fst snd].
    eapply mgr_ext_trans; [apply (Hp p r)|]. destruct (Hp p r) as (Hi & _).
    split_and!; [|done|by apply same_current_refl].
    apply (mgr_inv_push (store this {| m_core := c; m_parser := p; m_reading := r |} g));
      [|exact Hi].
    split_and!; [done|done|]. cbn. rewrite lookup_insert_eq. by eexists.
  - apply andb_true_iff in Hw as [Hw _]. apply bool_decide_eq_true in Hw.
    destruct (parseHello_defined c msg Ha) as [code ->]. step_bind.
    destruct (code =? ERR_OK); eexists; (split; [reflexivity|]); split_and!; try done;
      intros p r; cbn [fst snd].
    + eapply mgr_ext_trans; [apply (Hp p r)|]. destruct (Hp p r) as (Hi & _).
      match goal with |- mgr_ext _ (store _ ?x _) => set (cl := x) end. assert (Hwf : client_wf cl) by done.
      split_and!; [| |by apply same_current_refl].
      * pose proof (mi_clients _ Hi) as [Hnd Hl].
        assert (Hnew : this ∉ m_clients g).
        { intros Hin. destruct (Hl this Hin) as (old & Hold & Hact). cbn in Hold.
          rewrite lookup_insert_eq in Hold. injection Hold as <-.
          destruct Hact as [Hact|Hact]; cbn in Hact; congruence. }
        assert (Hst1 : mgr_inv (store this cl g)).
        { eapply store_core; [exact Hi|done|]. intros _. by left. }
        destruct Hst1 as [Hh [Hnd1 Hl1] Hq Hf]. split; cbn in *; [done| |done|done].
        split.
        -- apply NoDup_app. split_and!; [done| |apply NoDup_singleton].
           intros x Hx ->%list_elem_of_singleton. done.
        -- intros x [Hx| ->%list_elem_of_singleton]%elem_of_app; [by apply Hl1|].
           exists cl. split; [by rewrite lookup_insert_eq|by left].
      * cbn. intros x old Hold. destruct (decide (x = this)) as [->|Hne].
        -- exists cl. rewrite lookup_insert_eq. split; [done|]. intros _. by left.
        -- exists old. by rewrite lookup_insert_ne in * by done.
    + eapply mgr_ext_trans; [apply (Hp p r)|]. destruct (Hp p r) as (Hi & _).
      assert (Hna : ~ active {| m_core := c; m_parser := p; m_reading := r |}).
      { intros [Hact|Hact]; cbn in Hact; congruence. }
      split_and!; [eapply store_core; [exact Hi|done|by intros ?%Hna]| |by apply same_current_refl].
      cbn. intros x old Hold. destruct (decide (x = this)) as [->|Hne].
      * rewrite lookup_insert_eq in Hold. injection Hold as <-.
        eexists. rewrite lookup_insert_eq. split; [done|]. by intros ?%Hna.
      * exists old. by rewrite lookup_insert_ne in * by done.
  - eexists. split; [done|]. by split_and!.
Qed.

Lemma put_back_start g this cl :
  mgr_inv g -> m_heap g !! this = Some cl -> put_back g this (m_core cl, g).
Proof.
  intros Hi Hcl. destruct (mi_heap _ Hi this cl Hcl) as [Hs Ha]. split_and!; [done|done|].
  intros p r. cbn [fst snd]. split_and!; [|cbn|by apply same_current_refl].
  - apply mgr_inv_store; [done|done|]. rewrite Hcl. by intros old [= <-].
  - apply heap_le_insert. rewrite Hcl. by intros old [= <-].
Qed.

(** Every event of a client is defined and leaves the manager well-formed. *)
Lemma client_exec_Ok g this cl e :
  mgr_inv g -> m_heap g !! this = Some cl ->
  exists cl' g', client_exec this (cl, g) e = Ok (cl', g') /\ mgr_ext g (store this cl' g').
Proof.
  intros Hi Hcl. pose proof (put_back_start g this cl Hi Hcl) as Hput.
  assert (Hself : mgr_ext g (store this cl g)).
  { destruct Hput as (_ & _ & Hp). specialize (Hp (m_parser cl) (m_reading cl)). by destruct cl. }
  assert (Hset : forall f, client_change f -> mgr_ext g (store this (f cl) g)).
  { intros f Hf. replace (store this (f cl) g) with (set_heap (alter f this (m_heap g)) g).
    - by apply mgr_ext_alter.
    - unfold store. f_equal. apply map_eq. intros c. destruct (decide (c = this)) as [->|Hne].
      + by rewrite lookup_insert_eq, lookup_alter_eq, Hcl.
      + by rewrite lookup_insert_ne, lookup_alter_ne. }
  destruct e as [data| | |]; cbn [client_exec].
  - destruct (m_reading cl && _) eqn:Hr; [|by exists cl, g].
    apply andb_true_iff in Hr as [_ Hd]. apply bool_decide_eq_true in Hd.
    destruct data as [|b data]; [done|]. cbn [handle_read].
    destruct (parser_read_defined (H0 := client_ICommandCallback this) (put_back g this)
      (m_parser cl) (m_core cl, g) (b :: data)) as (p' & [c' g'] & -> & Hput'); [|done|].
    { intros h msg. apply put_back_command. }
    step_bind. eexists _, g'. split; [done|]. apply Hput'.
  - destruct (m_reading cl); [|by exists cl, g]. cbn [handle_read m_core].
    case_bool_decide as Ha.
    + cbn [removeClient manager_list]. rewrite removeClient_Ok by done. step_bind.
      eexists _, _. split; [done|]. eapply mgr_ext_trans; [by apply removed_ext|].
      destruct (removed_ext g this Hi) as (Hi' & Hle & _).
      destruct (Hle _ _ Hcl) as (cl' & Hcl' & Hact).
      assert (Hheap : m_heap (removed g this) = m_heap g).
      { unfold removed, disconnect_current. repeat case_match; done. }
      rewrite Hheap in Hcl'. split_and!; [| |by apply same_current_refl].
      * apply mgr_inv_store; [done|exact (mi_heap _ Hi this cl Hcl)|]. intros _ _ _. by left.
      * apply heap_le_insert. intros _ _ _. by left.
    + eexists _, g. split; [done|].
      apply (Hset (fun cl => {| m_core := m_core cl; m_parser := m_parser cl; m_reading := false |})).
      by split.
  - eexists _, g. split; [done|].
    apply (Hset (fun cl => set_core (set_state_timer (m_initState (m_core cl))
      (timer_expire (m_authTimeout (m_core cl))) (m_open (m_core cl)) (m_core cl)) cl)). by split.
  - destruct (m_authTimeout (m_core cl)); try by exists cl, g.
    + eexists _, g. split; [done|]. apply (Hset (handleAuthTimeout false)).
      split; [|done]. intros x _. by right.
    + eexists _, g. split; [done|]. apply (Hset (handleAuthTimeout true)). by split.
Qed.

(** *** The command loop *)

Section loop_facts.
Context {P : Type} `{IPicardIO P}.
Implicit Types (w : world P) (p : P).

(** What is handed to Picard. *)
Definition cmd_ok (h : gmap nat CBoostClient) (cmd : SClientCommand) : Prop :=
  isPicardApiCommand (m_type (sc_command cmd)) = true /\
  message_size (sc_command cmd) <= MAX_SERIAL_API_CMD_LEN /\
  sc_result cmd = CLIENT_TIMEOUT /\
  forall client, sc_client cmd = Some client -> is_Some (h !! client).

Definition pc_ok (g : CBoostClientManager) (pc : loop_pc) : Prop :=
  match pc with
  | Sending cmd i | Waiting cmd i =>
      cmd_ok (m_heap g) cmd /\ 0 <= i /\
      sc_client (m_currentCommand g) = sc_client cmd /\
      sc_command (m_currentCommand g) = sc_command cmd
  | _ => m_currentCommand g = no_command
  end.

Definition world_inv w : Prop := mgr_inv (w_mgr w) /\ pc_ok (w_mgr w) (w_pc w).

Lemma cmd_ok_le h h' cmd : heap_le h h' -> cmd_ok h cmd -> cmd_ok h' cmd.
Proof. intros Hle (? & ? & ? & Hc). split_and!; [done..|]. intros c Hcl. by eapply heap_le_is_Some, Hc. Qed.

Lemma pc_ok_ext g g' pc : mgr_ext g g' -> pc_ok g pc -> pc_ok g' pc.
Proof.
  intros (_ & Hle & Hcl & Hcm & Hno & _). destruct pc; cbn; try exact Hno.
  all: intros (Hc & Hi & H1 & H2); (split_and!; [by eapply cmd_ok_le|done|congruence|congruence]).
Qed.

Lemma rewritten_size u m :
  (SUBSCRIBE_PARAMS_LENGTH <= length (m_data m))%nat ->
  message_size (set_data (filter_bytes u ++ drop 8 (m_data m)) m) = message_size m.
Proof.
  intros Hlen. unfold message_size, SUBSCRIBE_PARAMS_LENGTH in *. cbn [set_data m_data].
  do 2 f_equal. rewrite length_app, length_drop, filter_bytes_length.
  unfold SUBSCRIBE_PARAMS_LENGTH. lia.
Qed.

(** A registered client's subscription that is too short for its rewriting. *)
Definition short_subscribe (g : CBoostClientManager) (cmd : SClientCommand) : Prop :=
  m_type (sc_command cmd) = SUBSCRIBE /\
  (length (m_data (sc_command cmd)) < SUBSCRIBE_PARAMS_LENGTH)%nat /\
  match sc_client cmd with Some client => client ∈ m_clients g | None => False end.

#[export] Instance short_subscribe_dec g cmd : Decision (short_subscribe g cmd).
Proof. unfold short_subscribe. destruct (sc_client cmd); apply _. Defined.

(** [dispatch] of a registered client's subscription, as a function of the
    filter it asks for. *)
Definition subscribed (g : CBoostClientManager) (client : nat) (q : SubscriptionParams)
  : CBoostClientManager :=
  let g1 := set_heap (alter (on_subscriber (setSubscription q)) client (m_heap g)) g in
  set_filters (union_of (m_heap g1) (m_clients g)) (m_filterUnion g) g1.

Definition subscribe_command (u : SubscriptionParams) (cmd : SClientCommand) : SClientCommand :=
  let m := sc_command cmd in
  set_command (set_data (filter_bytes u ++ drop 8 (m_data m)) m) cmd.

Lemma dispatch_subscribe g cmd client q :
  mgr_inv g -> sc_client cmd = Some client -> client ∈ m_clients g ->
  m_type (sc_command cmd) = SUBSCRIBE -> message_size (sc_command cmd) <= MAX_SERIAL_API_CMD_LEN ->
  (SUBSCRIBE_PARAMS_LENGTH <= length (m_data (sc_command cmd)))%nat ->
  vectorToFilter (m_data (sc_command cmd)) = Ok q ->
  let g' := subscribed g client q in
  let cmd' := subscribe_command (m_filterUnion g') cmd in
  dispatch g cmd = Ok (set_current cmd' g', Some cmd') /\ mgr_inv g'.
Proof.
  intros Hi Hc Hin Ht Hsize Hlen Hv g' cmd'. pose proof (vectorToFilter_ok _ _ Hv) as Hq.
  assert (Hg1 : mgr_inv (set_heap (alter (on_subscriber (setSubscription q)) client (m_heap g)) g))
    by (by apply mgr_inv_alter; [auto|]).
  split; [|by apply mgr_inv_filters; [apply union_of_ok, Hg1|apply Hi|]].
  unfold dispatch. rewrite Hc, Ht, bool_decide_eq_true_2 by done.
  rewrite (proj2 (Z.ltb_ge _ _)) by done. cbn [negb].
  change (SUBSCRIBE =? MUX_INFO) with false. change (isPicardApiCommand SUBSCRIBE) with true.
  change (SUBSCRIBE =? SUBSCRIBE) with true. cbn [negb orb]. rewrite Hv. step_bind.
  rewrite update_client_Ok by (by apply clients_known). step_bind.
  rewrite recompute_Ok by (intros x; by apply clients_known). step_bind.
  rewrite filterToVector_long by done. reflexivity.
Qed.

Lemma subscribe_payload g cmd :
  mgr_inv g -> ~ short_subscribe g cmd -> m_type (sc_command cmd) = SUBSCRIBE ->
  forall client, sc_client cmd = Some client -> client ∈ m_clients g ->
  (SUBSCRIBE_PARAMS_LENGTH <= length (m_data (sc_command cmd)))%nat /\
  exists q, vectorToFilter (m_data (sc_command cmd)) = Ok q.
Proof.
  intros Hi Hs Ht client Hc Hin.
  assert (Hl : (SUBSCRIBE_PARAMS_LENGTH <= length (m_data (sc_command cmd)))%nat).
  { destruct (decide (length (m_data (sc_command cmd)) < SUBSCRIBE_PARAMS_LENGTH)%nat); [|lia].
    destruct Hs. split_and!; [done|done|]. by rewrite Hc. }
  split; [done|]. pose proof (vectorToFilter_defined (m_data (sc_command cmd))) as Hd.
  rewrite (proj2 (Nat.leb_le 4 _)) in Hd by (unfold SUBSCRIBE_PARAMS_LENGTH in Hl; lia).
  destruct (vectorToFilter _) as [q|]; [by exists q|done].
Qed.

(** The command that [dispatch] decides to send, and the new state. *)
Definition dispatched (g g' : CBoostClientManager) (next : option SClientCommand) : Prop :=
  mgr_inv g' /\ m_retries g' = m_retries g /\
  match next with
  | Some cmd' => cmd_ok (m_heap g') cmd' /\ m_currentCommand g' = cmd'
  | None => m_currentCommand g' = no_command
  end.

Lemma dispatch_unsent g g' : m_currentCommand g = no_command -> mgr_ext g g' -> dispatched g g' None.
Proof. intros Hcur (Hi & _ & _ & _ & Hno & Hr). unfold dispatched. auto. Qed.

Lemma dispatch_plain g g' cmd :
  m_retries g' = m_retries g -> mgr_inv g' -> cmd_ok (m_heap g') cmd ->
  dispatched g (set_current cmd g') (Some cmd).
Proof. intros Hr Hi Hok. unfold dispatched. split; [by apply mgr_inv_current|done]. Qed.

Lemma dispatch_Ok g cmd :
  mgr_inv g -> m_currentCommand g = no_command -> entry_ok (m_heap g) cmd ->
  ~ short_subscribe g cmd ->
  exists g' next, dispatch g cmd = Ok (g', next) /\ dispatched g g' next.
Proof.
  intros Hi Hcur (Hseq & Hres & He) Hlen.
  assert (Hcl : forall c, sc_client cmd = Some c -> is_Some (m_heap g !! c)).
  { intros c Hc. by rewrite Hc in He. }
  assert (Hself : mgr_ext g g) by (split_and!; [done|done|by apply same_current_refl]).
  unfold dispatch. destruct (negb _) eqn:Hknown.
  { eexists g, None. split; [done|by apply dispatch_unsent]. }
  destruct (Z.eqb_spec (m_type (sc_command cmd)) MUX_INFO) as [Hinfo|Hinfo].
  { destruct (sc_client cmd) as [c|] eqn:Hc; [|destruct He as [He _]; by rewrite Hinfo in He].
    destruct (Hcl c eq_refl) as [cl Hclc]. unfold deref. rewrite Hclc. step_bind.
    cbn [sendResponse]. rewrite update_client_Ok by auto. step_bind.
    eexists _, None. split; [done|]. by apply dispatch_unsent, mgr_ext_alter. }
  destruct (negb (isPicardApiCommand _) || _) eqn:Hbad.
  { destruct (sendResponse_ext g (sc_client cmd)
      (new_CMuxOutput (m_type (sc_command cmd)) 0 ERR_INVALID_CMD [])) as (g' & -> & Hg'); [done..|].
    step_bind. eexists g', None. split; [done|by apply dispatch_unsent]. }
  apply orb_false_iff in Hbad as [Hapi Hsize]. apply negb_false_iff in Hapi.
  apply Z.ltb_ge in Hsize.
  assert (Hplain : dispatched g (set_current cmd g) (Some cmd)) by (apply dispatch_plain; [done|done|by split_and!]).
  destruct (sc_client cmd) as [c|] eqn:Hc; [|by eexists _, (Some cmd)].
  destruct (Z.eqb_spec (m_type (sc_command cmd)) SUBSCRIBE) as [Hsub|Hsub];
    [|by eexists _, (Some cmd)].
  apply negb_false_iff, bool_decide_eq_true in Hknown.
  destruct (subscribe_payload g cmd Hi Hlen Hsub c Hc Hknown) as [Hl [q Hv]].
  destruct (dispatch_subscribe g cmd c q Hi Hc Hknown Hsub Hsize Hl Hv) as [Hd Hg'].
  unfold dispatch in Hd. rewrite Hc, bool_decide_eq_true_2 in Hd by done.
  rewrite (proj2 (Z.eqb_neq _ MUX_INFO)) in Hd by done. rewrite Hapi, (proj2 (Z.ltb_ge _ _)) in Hd by done.
  rewrite (proj2 (Z.eqb_eq _ SUBSCRIBE)) in Hd by done. cbn [negb orb] in Hd.
  eexists _, _. split; [exact Hd|]. apply dispatch_plain; [done|exact Hg'|]. split_and!; [done| |done|].
  - cbn [sc_command subscribe_command set_command]. by rewrite rewritten_size.
  - cbn. intros x Hx. apply lookup_alter_is_Some, Hcl. congruence.
Qed.

(** The answer to a command that Picard did not complete. *)
Definition timeout_answer (type : Z) (cl : CBoostClient) : CBoostClient :=
  client_write (serialize_output (new_CMuxOutput type 0 ERR_COMMAND_TIMEOUT []))
    (if type =? SUBSCRIBE then on_subscriber resetFilter cl else cl).

Lemma client_change_timeout type : client_change (timeout_answer type).
Proof.
  unfold timeout_answer. split; intros cl; destruct (type =? SUBSCRIBE); try done.
  by intros [[? ?] ?].
Qed.

Definition timed_out (g : CBoostClientManager) (client : nat) (type : Z) : CBoostClientManager :=
  let h := alter_all client_close (m_clients g) (alter (timeout_answer type) client (m_heap g)) in
  let f := if type =? SUBSCRIBE then m_prevfilter g else m_filterUnion g in
  set_current no_command (set_clients [] (set_heap h (set_filters f (m_prevfilter g) g))).

Lemma finish_failed g p cmd client r :
  mgr_inv g -> sc_client cmd = Some client -> is_Some (m_heap g !! client) -> r <> CLIENT_OK ->
  finish g p cmd r = Ok (timed_out g client (m_type (sc_command cmd)), reset_rest p).
Proof.
  intros Hi Hc Hcl Hr. unfold finish, timed_out. rewrite Hc, decide_False by done.
  set (type := m_type _).
  assert (Hans : forall c, is_Some (alter (timeout_answer type) client (m_heap g) !! c) <->
    is_Some (m_heap g !! c)) by (intros c; apply lookup_alter_is_Some).
  unfold commandTimeout, mgr_resetConnection, closeClients, timeout_answer in *.
  destruct (type =? SUBSCRIBE); cbn [sendResponse].
  - rewrite update_client_Ok by done. step_bind.
    rewrite update_client_Ok by (cbn; by apply lookup_alter_is_Some). step_bind.
    cbn [m_heap set_heap m_clients set_filters]. rewrite alter_alter_eq.
    rewrite update_all_Ok; [done|]. intros c Hin. cbn. apply lookup_alter_is_Some.
    by apply clients_known.
  - step_bind. rewrite update_client_Ok by done. step_bind. cbn [m_heap set_heap m_clients].
    rewrite update_all_Ok; [by destruct g|]. intros c Hin. cbn. apply Hans.
    by apply clients_known.
Qed.

Lemma timed_out_inv g client type : mgr_inv g -> mgr_inv (timed_out g client type).
Proof.
  intros Hi. apply mgr_inv_current. set (f := if type =? SUBSCRIBE then _ else _).
  assert (Hg0 : mgr_inv (set_filters f (m_prevfilter g) g)).
  { apply mgr_inv_filters; [unfold f; destruct (_ =? _); apply Hi|apply Hi|done]. }
  pose proof (mgr_inv_alter _ _ client (client_change_timeout type) Hg0) as Hg1.
  destruct (mgr_inv_alter_all _ (m_clients g) _ client_change_close Hg1) as [Hh Hc Hq Hf].
  split; [exact Hh| |exact Hq|exact Hf]. split; [constructor|]. set_solver.
Qed.

Lemma finish_Ok g p cmd r :
  mgr_inv g -> cmd_ok (m_heap g) cmd ->
  exists g' p', finish g p cmd r = Ok (g', p') /\ mgr_inv g' /\
    m_currentCommand g' = no_command /\ m_retries g' = m_retries g.
Proof.
  intros Hi (_ & _ & _ & Hcl). destruct (sc_client cmd) as [c|] eqn:Hc.
  - destruct (decide (r = CLIENT_OK)) as [->|Hr].
    + unfold finish. rewrite Hc, decide_True by done. step_bind. eexists _, _.
      split; [done|]. split; [by apply mgr_inv_current|done].
    + rewrite (finish_failed g p cmd c) by auto. eexists _, _. split; [done|].
      split; [by apply timed_out_inv|done].
  - unfold finish. rewrite Hc. step_bind. eexists _, _.
    split; [done|]. split; [by apply mgr_inv_current|done].
Qed.

Lemma dispatch_short g cmd :
  mgr_inv g -> short_subscribe g cmd -> defined (dispatch g cmd) = false.
Proof.
  intros Hi (Ht & Hlen & Hin). unfold dispatch. destruct (sc_client cmd) as [c|]; [|done].
  rewrite Ht.
  rewrite bool_decide_eq_true_2 by done. cbn [negb].
  assert (Hsize : message_size (sc_command cmd) <= MAX_SERIAL_API_CMD_LEN).
  { unfold message_size, SUBSCRIBE_PARAMS_LENGTH, MAX_SERIAL_API_CMD_LEN in *.
    rewrite u16_small by word_range. lia. }
  rewrite (proj2 (Z.ltb_ge _ _)) by done. cbn [SUBSCRIBE MUX_INFO isPicardApiCommand orb].
  change (22 =? 2) with false. change (negb (NOTIFICATION <? 22)) with false.
  change (22 =? 22) with true. cbn iota.
  destruct (vectorToFilter _) as [q|] eqn:Hv; [|done]. step_bind.
  apply vectorToFilter_ok in Hv. rewrite update_client_Ok by (by apply clients_known). step_bind.
  rewrite recompute_Ok.
  - step_bind. by rewrite filterToVector_short.
  - intros x Hx. apply (clients_known _ x) in Hx; [done|]. by apply mgr_inv_alter; [auto|].
Qed.

(** *** The whole system *)

Definition event_ok (e : event) : Prop :=
  match e with
  | EvAccept _ authToken _ => length authToken = AUTHENTICATION_LEN
  | EvComplete cmdType _ _ _ => isPicardApiCommand cmdType = true
  | _ => True
  end.

(** The element the command thread takes from the queue in its next run. *)
Definition next_pop w : option SClientCommand :=
  let g := w_mgr w in
  match w_pc w with
  | AtHead => if m_loop g then head (m_queue (m_commands g)) else None
  | InPop => if decide (0%nat ∈ awake (m_commands g)) then head (m_queue (m_commands g)) else None
  | _ => None
  end.

(** The time of a client ran out, its handler is queued, and the client is gone. *)
Definition dangling_timer w (client : nat) : bool :=
  match m_heap (w_mgr w) !! client with
  | Some cl => negb (referenced (w_mgr w) (w_pc w) client cl)
               && bool_decide (m_authTimeout (m_core cl) = TimerExpired)
  | None => false
  end.

Definition hazard w (e : event) : Prop :=
  match e with
  | EvNotif t _ => ~ 0 <= t < 32 /\ m_clients (w_mgr w) <> []
  | EvCommandThread =>
      match next_pop w with Some cmd => short_subscribe (w_mgr w) cmd | None => False end
  | EvClient client ClientTimer => dangling_timer w client = true
  | _ => False
  end.

#[export] Instance hazard_dec w e : Decision (hazard w e).
Proof. destruct e as [| | |c []| | | |]; cbn; try apply _. destruct (next_pop w); apply _. Defined.

Lemma after_pop_Ok w popped :
  world_inv w -> (w_pc w = AtHead \/ w_pc w = InPop) ->
  (forall cmd, popped = Some cmd -> entry_ok (m_heap (w_mgr w)) cmd /\
     ~ short_subscribe (w_mgr w) cmd) ->
  exists w', after_pop w popped = Ok w' /\ world_inv w'.
Proof.
  intros [Hi Hpc] Hat Hcmd.
  assert (Hcur : m_currentCommand (w_mgr w) = no_command) by (by destruct Hat as [Ha|Ha]; rewrite Ha in Hpc).
  destruct popped as [cmd|]; [|by eexists].
  destruct (Hcmd cmd eq_refl) as [He Hs].
  destruct (dispatch_Ok _ cmd Hi Hcur He Hs) as (g' & next & Hd & Hi' & _ & Hnext).
  cbn [after_pop]. rewrite Hd. step_bind. eexists. split; [done|]. split; [done|].
  destruct next as [cmd'|]; [|done]. destruct Hnext as [Hok Hc]. cbn.
  rewrite Hc. by split_and!.
Qed.

Lemma pop_front_elements {T} (q q' : CSyncQueue T) o :
  pop_front q = (o, q') ->
  o = head (m_queue q) /\ (forall x, x ∈ m_queue q' -> x ∈ m_queue q).
Proof.
  unfold pop_front. destruct (m_queue q) as [|y l] eqn:Hq; intros [= <- <-]; (split; [done|]).
  - intros x Hx. by rewrite ?Hq in Hx.
  - intros x Hx. by apply list_elem_of_further.
Qed.

Lemma timedPop_enter_elements {T} (q q' : CSyncQueue T) t res :
  timedPop_enter t q = (res, q') ->
  res = Some <$> head (m_queue q) /\ (forall x, x ∈ m_queue q' -> x ∈ m_queue q).
Proof.
  unfold timedPop_enter, queue_empty. destruct (m_queue q) as [|y l] eqn:Hq.
  - intros [= <- <-]. split; [done|]. cbn. intros x Hx. exact Hx.
  - destruct (pop_front q) as [o q1] eqn:Hp. intros [= <- <-].
    apply pop_front_elements in Hp as [-> Hp]. rewrite Hq in *. by split.
Qed.

Lemma mgr_inv_sub q g :
  (forall x, x ∈ m_queue q -> x ∈ m_queue (m_commands g)) -> mgr_inv g ->
  mgr_inv (set_commands q g).
Proof.
  intros Hq Hi. apply mgr_inv_queue; [|done].
  apply Forall_forall. intros x Hx. eapply (proj1 (Forall_forall _ _)); [apply Hi|auto].
Qed.

Lemma popped_ok g popped :
  mgr_inv g -> popped = head (m_queue (m_commands g)) ->
  (forall cmd, popped = Some cmd -> ~ short_subscribe g cmd) ->
  forall cmd, popped = Some cmd -> entry_ok (m_heap g) cmd /\ ~ short_subscribe g cmd.
Proof.
  intros Hi -> Hs cmd Hcmd. split; [|auto]. pose proof (mi_queue _ Hi) as Hf.
  destruct (m_queue (m_commands g)); [done|]. injection Hcmd as <-.
  by apply Forall_cons in Hf as [? _].
Qed.

Lemma command_thread_Ok w :
  world_inv w -> ~ hazard w EvCommandThread ->
  exists w', command_thread w = Ok w' /\ world_inv w'.
Proof.
  intros Hw Hz. destruct w as [g p pc]. pose proof Hw as [Hi Hpc]. cbn [w_mgr w_pc] in Hi, Hpc.
  unfold hazard, next_pop in Hz. cbn [w_mgr w_pc] in Hz.
  unfold command_thread. cbn [w_mgr w_rest w_pc].
  destruct pc as [| | |cmd i|cmd i|].
  - eexists. split; [done|]. split; [|done]. destruct Hi. by split.
  - revert Hz. destruct (m_loop g); [|by eexists]. intros Hz.
    destruct (timedPop_enter 0%nat (m_commands g)) as [res q] eqn:He.
    apply timedPop_enter_elements in He as [-> Hq].
    destruct (head (m_queue (m_commands g))) as [cmd|] eqn:Hh; cbn [fmap option_fmap option_map].
    + apply after_pop_Ok; [|by left|].
      * split; [by apply mgr_inv_sub|done].
      * intros cmd' [= <-]. apply (popped_ok g (Some cmd)); [done|done| |done].
        by intros ? [= <-].
    + eexists. split; [done|]. split; [by apply mgr_inv_sub|done].
  - revert Hz. case_decide; [|by eexists]. intros Hz.
    destruct (timedPop_resume 0%nat (m_commands g)) as [popped q] eqn:Hr.
    apply pop_front_elements in Hr as [Hpop Hq]. cbn [m_queue] in Hpop, Hq.
    apply after_pop_Ok; [|by right|].
    + split; [by apply mgr_inv_sub|done].
    + apply (popped_ok g); [done|done|]. intros cmd ->. by rewrite <- Hpop in Hz.
  - destruct Hpc as (Hok & Hn & Hcl & Hcm). destruct (i <? m_retries g).
    + destruct (picard_sendCommand p (sc_command cmd) (negb (i =? 0))) as [p' seq].
      eexists. split; [done|]. split; [by apply mgr_inv_current|]. by split_and!.
    + destruct (finish_Ok g p cmd CLIENT_TIMEOUT Hi Hok) as (g' & p' & -> & Hi' & Hc & _).
      step_bind. eexists. split; [done|]. by split.
  - destruct Hpc as (Hok & Hn & Hcl & Hcm). case_decide.
    + eexists. split; [done|]. split; [done|]. split_and!; [done|cbn; lia|done|done].
    + destruct (finish_Ok g p cmd (sc_result (m_currentCommand g)) Hi Hok) as (g' & p' & -> & Hi' & Hc & _).
      step_bind. eexists. split; [done|]. by split.
  - by eexists.
Qed.

Lemma mgr_ext_queue g q :
  (forall x, x ∈ m_queue q -> x ∈ m_queue (m_commands g)) -> mgr_inv g ->
  mgr_ext g (set_commands q g).
Proof. intros Hq Hi. split_and!; [by apply mgr_inv_sub|done|by apply same_current_refl]. Qed.

Lemma accept_ext g client auth version :
  length auth = AUTHENTICATION_LEN -> m_heap g !! client = None -> mgr_inv g ->
  mgr_ext g (store client (client_start (create auth version)) g).
Proof.
  intros Ha Hn Hi. split_and!; [apply mgr_inv_store| |by apply same_current_refl].
  - done.
  - by split.
  - intros old. by rewrite Hn.
  - apply heap_le_insert. intros old. by rewrite Hn.
Qed.

Lemma complete_ext w t q rc response :
  world_inv w -> isPicardApiCommand t = true ->
  exists g', mgr_commandComplete (w_mgr w) t q rc response = Ok g' /\ mgr_ext (w_mgr w) g'.
Proof.
  intros [Hi Hpc] Ht. rewrite commandComplete_Ok.
  - eexists. split; [done|]. destruct (_ && _) eqn:Hm.
    + apply completed_ext; [|done]. intros Hc. rewrite Hc in Hm.
      apply andb_true_iff in Hm as [Hm _]. apply Z.eqb_eq in Hm as ->. done.
    + split_and!; [done|done|by apply same_current_refl].
  - intros c Hc. destruct (w_pc w) as [| | |cmd i|cmd i|]; try by rewrite Hpc in Hc.
    all: destruct Hpc as ((_ & _ & _ & Hcl) & _ & Hcc & _); apply Hcl; congruence.
Qed.

(** Every event of the other threads but a hazard is defined, extends the manager
    and leaves the command thread where it is. *)
Lemma exec_other w e :
  world_inv w -> event_ok e -> ~ hazard w e -> e <> EvCommandThread ->
  exists g' p', exec w e = Ok {| w_mgr := g'; w_rest := p'; w_pc := w_pc w |} /\
    mgr_ext (w_mgr w) g' /\ (p' = w_rest w \/ p' = reset_rest (w_rest w)).
Proof.
  intros Hw He Hz Hne. pose proof Hw as [Hi _].
  assert (Hself : mgr_ext (w_mgr w) (w_mgr w)) by (split_and!; [done|done|by apply same_current_refl]).
  assert (Hsame : exists g' p', Ok w = Ok {| w_mgr := g'; w_rest := p'; w_pc := w_pc w |} /\
    mgr_ext (w_mgr w) g' /\ (p' = w_rest w \/ p' = reset_rest (w_rest w))).
  { exists (w_mgr w), (w_rest w). destruct w. auto. }
  assert (Hext : forall m, (exists g', m = Ok g' /\ mgr_ext (w_mgr w) g') ->
    exists g' p', with_mgr w m = Ok {| w_mgr := g'; w_rest := p'; w_pc := w_pc w |} /\
      mgr_ext (w_mgr w) g' /\ (p' = w_rest w \/ p' = reset_rest (w_rest w))).
  { intros m (g' & -> & Hext). eexists _, _. split; [done|]. auto. }
  destruct e as [| |client auth version|client e|t q rc p|t p| |]; cbn [exec]; [done|..].
  - apply Hext. eexists. split; [done|]. by apply mgr_ext_queue.
  - destruct (m_heap (w_mgr w) !! client) eqn:Hn; [done|].
    apply Hext. eexists. split; [done|]. by apply accept_ext.
  - destruct (m_heap (w_mgr w) !! client) as [cl|] eqn:Hcl; [|done].
    destruct (referenced (w_mgr w) (w_pc w) client cl) eqn:Href.
    + destruct (client_exec_Ok (w_mgr w) client cl e Hi Hcl) as (cl' & g' & -> & Hg').
      step_bind. apply Hext. by eexists.
    + replace (destroyed_exec cl e) with (Ok cl).
      * step_bind. apply Hext. eexists. split; [done|].
        destruct (put_back_start (w_mgr w) client cl Hi Hcl) as (_ & _ & Hp).
        specialize (Hp (m_parser cl) (m_reading cl)). by destruct cl.
      * cbn [hazard] in Hz. unfold dangling_timer in Hz. rewrite Hcl, Href in Hz.
        unfold destroyed_exec. destruct e; try done. by destruct (m_authTimeout (m_core cl)).
  - apply Hext. by apply complete_ext.
  - apply Hext. cbn in Hz. destruct (decide (0 <= t < 32)) as [Ht|Ht].
    + rewrite handleNotif_Ok by done. eexists. split; [done|].
      split_and!; [by apply mgr_inv_alter_all| |by apply same_current_refl].
      by apply heap_le_alter_all, client_change_deliver.
    + rewrite handleNotif_bad by done. destruct (m_clients (w_mgr w)); [|by destruct Hz].
      by eexists.
  - unfold mgr_resetConnection. pose proof (closeClients_ext (w_mgr w)) as Hcl.
    rewrite closeClients_Ok in * by done. step_bind. eexists _, _. split; [done|]. auto.
  - apply Hext. eexists. split; [done|]. unfold mgr_stop.
    split_and!; [|done|by apply same_current_refl]. destruct Hi as [Hh Hc Hq Hf]. by split.
Qed.

Lemma exec_Ok w e :
  world_inv w -> event_ok e -> ~ hazard w e -> exists w', exec w e = Ok w' /\ world_inv w'.
Proof.
  intros Hw He Hz. assert (Hc : e = EvCommandThread \/ e <> EvCommandThread)
    by (destruct e; auto; by right).
  destruct Hc as [->|Hc]; [by apply command_thread_Ok|].
  destruct (exec_other w e Hw He Hz Hc) as (g' & p' & -> & Hext & _). eexists. split; [done|].
  destruct Hw as [Hi Hpc]. split; [apply Hext|]. by eapply pc_ok_ext.
Qed.

Lemma after_pop_short w g cmd :
  mgr_inv g -> short_subscribe g cmd -> w_mgr w = g ->
  defined (after_pop w (Some cmd)) = false.
Proof.
  intros Hi Hs Hg. cbn [after_pop]. rewrite Hg. apply dispatch_short in Hs; [|done].
  by destruct (dispatch g cmd) as [[? ?]|].
Qed.

Lemma hazard_undefined w e : world_inv w -> hazard w e -> defined (exec w e) = false.
Proof.
  intros [Hi _]. destruct e; cbn [hazard exec]; try done.
  - destruct (next_pop w) as [cmd|] eqn:Hpop; [|done]. intros Hs.
    unfold next_pop in Hpop. unfold command_thread. destruct (w_pc w); try done.
    + destruct (m_loop (w_mgr w)); [|done].
      destruct (timedPop_enter 0%nat (m_commands (w_mgr w))) as [res q] eqn:He.
      apply timedPop_enter_elements in He as [-> Hq]. rewrite Hpop.
      eapply after_pop_short; [by apply mgr_inv_sub|exact Hs|done].
    + case_decide; [|done].
      destruct (timedPop_resume 0%nat (m_commands (w_mgr w))) as [popped q] eqn:Hr.
      apply pop_front_elements in Hr as [-> Hq]. cbn [m_queue] in *. rewrite Hpop.
      eapply after_pop_short; [by apply mgr_inv_sub|exact Hs|done].
  - destruct e; try done. unfold dangling_timer.
    destruct (m_heap (w_mgr w) !! client) as [cl|]; [|done].
    intros [Href%negb_true_iff Ht]%andb_true_iff. rewrite Href. cbn [destroyed_exec].
    apply bool_decide_eq_true_1 in Ht. by rewrite Ht.
  - intros [Ht Hne]. rewrite handleNotif_bad by done. by destruct (m_clients (w_mgr w)).
Qed.

(** Induction over the events from a new manager. *)
Lemma new_world_inv retries p : world_inv (new_world retries p).
Proof.
  split; [|done]. split; [done| |constructor|done]. split; [constructor|]. set_solver.
Qed.

Lemma exec_inv w e w' : world_inv w -> event_ok e -> exec w e = Ok w' -> world_inv w'.
Proof.
  intros Hw He Hx. destruct (decide (hazard w e)) as [Hz|Hz].
  - apply (hazard_undefined w e) in Hz; [|done]. by rewrite Hx in Hz.
  - destruct (exec_Ok w e Hw He Hz) as (w1 & Hw1 & Hi). congruence.
Qed.

Lemma run_inv w es w' : world_inv w -> Forall event_ok es -> run_events w es = Ok w' -> world_inv w'.
Proof.
  intros Hw Hes. revert w Hw. induction Hes as [|e es He _ IH]; intros w Hw; cbn.
  - by intros [= <-].
  - intros Hr. apply bind_Ok_inv in Hr as (w1 & Hw1 & Hr). eapply IH; [|exact Hr].
    by eapply exec_inv.
Qed.

Lemma reachable_inv retries p es w :
  Forall event_ok es -> run_events (new_world retries p) es = Ok w -> world_inv w.
Proof. apply run_inv, new_world_inv. Qed.
End loop_facts.
