(* ===== verification/ManagerSpec.v ===== *)
(** * What the client manager guarantees (properties of [ClientManager])

    Safety of every event sequence, where responses and notifications go, the
    subscription union, the timeout path and the retries, and the behaviours of the
    code that its callers may not expect. *)

From Stdlib Require Import ZArith Lia.
From stdpp Require Import base list gmap.
From S2P Require Import Prelude Common Subscriber SyncQueue MuxMessage BasePicard BoostClient.
From S2P Require Import ClientManager.
#[local] Open Scope Z_scope.

(** ** What the operations leave alone

    Responses, notifications and resets change clients, filters and the command in
    progress, but not the queue and not the loop. *)

(** A client keeps its parser and what it expects of its hello; it may be closed. *)
Definition same_reader (cl cl' : CBoostClient) : Prop :=
  m_parser cl' = m_parser cl /\
  m_expectedAuth (m_core cl') = m_expectedAuth (m_core cl) /\ m_version (m_core cl') = m_version (m_core cl) /\
  (m_initState (m_core cl') = m_initState (m_core cl) \/ m_initState (m_core cl') = CLOSED).

Definition same_readers (h h' : gmap nat CBoostClient) : Prop :=
  forall c cl, h !! c = Some cl -> exists cl', h' !! c = Some cl' /\ same_reader cl cl'.

Definition same_loop (g g' : CBoostClientManager) : Prop :=
  m_commands g' = m_commands g /\ m_loop g' = m_loop g /\ m_retries g' = m_retries g /\
  same_readers (m_heap g) (m_heap g').

#[export] Instance same_reader_preorder : PreOrder same_reader.
Proof.
  split; [intros cl; split_and!; auto|].
  intros c1 c2 c3 (H1 & H2 & H3 & H4) (G1 & G2 & G3 & G4). split_and!; [congruence..|].
  destruct G4 as [->|]; auto.
Qed.

#[export] Instance same_readers_preorder : PreOrder same_readers.
Proof.
  split; [intros h c cl Hcl; by exists cl|]. intros h1 h2 h3 H12 H23 c cl Hcl.
  destruct (H12 c cl Hcl) as (cl2 & Hcl2 & Hs2). destruct (H23 c cl2 Hcl2) as (cl3 & Hcl3 & Hs3).
  exists cl3. split; [done|by etrans].
Qed.

#[export] Instance same_loop_preorder : PreOrder same_loop.
Proof.
  split; [by intros g|]. intros g1 g2 g3 (? & ? & ? & ?) (? & ? & ? & ?).
  split_and!; [congruence..|by etrans].
Qed.

Lemma same_loop_intro g g' :
  m_commands g' = m_commands g -> m_loop g' = m_loop g -> m_retries g' = m_retries g ->
  m_heap g' = m_heap g -> same_loop g g'.
Proof. intros ? ? ? Hh. split_and!; [done..|]. by rewrite Hh. Qed.

Lemma same_readers_insert h client cl cl' :
  h !! client = Some cl -> same_reader cl cl' -> same_readers h (<[client := cl']> h).
Proof.
  intros Hcl Hs c cl1 Hc. destruct (decide (c = client)) as [->|Hne].
  - rewrite lookup_insert_eq. exists cl'. split; [done|]. congruence.
  - exists cl1. by rewrite lookup_insert_ne.
Qed.

Lemma foldM_same_loop {A} (f : CBoostClientManager -> A -> outcome CBoostClientManager) l g g' :
  (forall g x g', f g x = Ok g' -> same_loop g g') -> foldM f g l = Ok g' -> same_loop g g'.
Proof.
  intros Hf. revert g. induction l as [|x l IH]; intros g; [by intros [= <-]|].
  cbn [foldM]. intros Hx. apply bind_Ok_inv in Hx as (g1 & H1 & Hx).
  transitivity g1; [by eapply Hf|by apply IH].
Qed.

Lemma update_client_same f g client g' :
  (forall cl, same_reader cl (f cl)) -> update_client f g client = Ok g' -> same_loop g g'.
Proof.
  intros Hf. unfold update_client, deref. destruct (m_heap g !! client) as [cl|] eqn:Hcl; [|done].
  intros [= <-]. split_and!; [done..|]. by eapply same_readers_insert.
Qed.

Lemma write_same_reader msg cl : same_reader cl (client_write msg cl).
Proof. split_and!; auto. Qed.
Lemma close_same_reader cl : same_reader cl (client_close cl).
Proof. split_and!; auto. Qed.
Lemma subscriber_same_reader f cl : same_reader cl (on_subscriber f cl).
Proof. split_and!; auto. Qed.
#[local] Hint Resolve write_same_reader close_same_reader subscriber_same_reader : core.

Lemma closeClients_same g g' : closeClients g = Ok g' -> same_loop g g'.
Proof.
  unfold closeClients. intros Hx. apply bind_Ok_inv in Hx as (g1 & Hf & [= <-]).
  transitivity g1; [|by apply same_loop_intro].
  refine (foldM_same_loop (update_client client_close) _ _ _ _ Hf). intros ? ? ?. by apply update_client_same.
Qed.

Lemma sendResponse_same g client resp g' : sendResponse g client resp = Ok g' -> same_loop g g'.
Proof. destruct client; [by apply update_client_same|by intros [= <-]]. Qed.

Lemma handleNotif_same g t p g' : mgr_handleNotif g t p = Ok g' -> same_loop g g'.
Proof.
  apply foldM_same_loop. intros g1 client g2 Hx. inv_bind.
  destruct (_ : bool); [|by simplify_eq].
  match goal with Hu : update_client _ _ _ = _ |- _ => eapply update_client_same in Hu; [exact Hu|auto] end.
Qed.

Lemma complete_same g t q rc p g' : mgr_commandComplete g t q rc p = Ok g' -> same_loop g g'.
Proof.
  unfold mgr_commandComplete. destruct (_ || _); [by intros [= <-]|].
  set (g1 := if _ && _ then _ else g). assert (H1 : same_loop g (set_current (set_result CLIENT_OK (m_currentCommand g)) g1))
    by (unfold g1; destruct (_ && _); by apply same_loop_intro).
  destruct (sc_client _) as [client|]; [|by intros [= <-]]. intros Hx.
  apply bind_Ok_inv in Hx as (g2 & H2 & Hx). apply sendResponse_same in H2.
  do 2 (etransitivity; [eassumption|]). destruct (t =? SUBSCRIBE); [|by simplify_eq].
  by eapply update_client_same in Hx; [exact Hx|auto].
Qed.

Lemma dispatch_same g cmd g' next : dispatch g cmd = Ok (g', next) -> same_loop g g'.
Proof.
  unfold dispatch. destruct (negb _); [by intros [= <- _]|]. destruct (_ =? MUX_INFO).
  { destruct (sc_client cmd) as [c|]; [|done]. intros Hx. inv_bind. by eapply sendResponse_same. }
  destruct (_ || _); [intros Hx; inv_bind; by eapply sendResponse_same|].
  intros Hx. apply bind_Ok_inv in Hx as ([g1 cmd1] & Hx & [= <- _]).
  transitivity g1; [|by apply same_loop_intro]. revert Hx.
  destruct (sc_client cmd) as [c|]; [|by intros [= <- _]].
  destruct (_ =? SUBSCRIBE); [|by intros [= <- _]]. intros Hx.
  apply bind_Ok_inv in Hx as (params & _ & Hx). apply bind_Ok_inv in Hx as (g2 & H2 & Hx).
  apply bind_Ok_inv in Hx as ([b g3] & H3 & Hx). apply bind_Ok_inv in Hx as (d & _ & [= <- _]).
  unfold recomputeSubscribeFilter in H3. apply bind_Ok_inv in H3 as (u & _ & [= _ <-]).
  apply update_client_same in H2; [|auto]. etrans; [exact H2|]. by apply same_loop_intro.
Qed.

Lemma finish_same {P} `{IPicardIO P} g (p : P) cmd result g' p' :
  finish g p cmd result = Ok (g', p') -> same_loop g g'.
Proof.
  unfold finish. intros Hx. apply bind_Ok_inv in Hx as ([g1 p1] & Hx & [= <- _]).
  transitivity g1; [|by apply same_loop_intro]. revert Hx.
  destruct (sc_client cmd) as [client|]; [|by intros [= <- _]].
  case_decide; [by intros [= <- _]|]. intros Hx. apply bind_Ok_inv in Hx as (g2 & H2 & Hx).
  unfold commandTimeout, mgr_resetConnection in Hx.
  apply bind_Ok_inv in Hx as (g3 & H3 & Hx). apply bind_Ok_inv in Hx as (g4 & H4 & [= <- _]).
  transitivity g2; [|transitivity g3; [by eapply sendResponse_same|by apply closeClients_same]].
  destruct (_ =? SUBSCRIBE); [|by injection H2 as <-]. apply update_client_same in H2; [|auto].
  etrans; [|exact H2]. by apply same_loop_intro.
Qed.

(** ** An environment that records the commands sent *)

Record picard_recorder := {
  rec_sent : list (CMuxMessage * bool);   (* with the retransmit flag *)
  rec_seq : Z;                            (* Picard's sequence number *)
  rec_resets : nat;
}.

Definition new_recorder (seq : Z) : picard_recorder :=
  {| rec_sent := []; rec_seq := seq; rec_resets := 0 |}.

#[export] Instance recorder_IPicardIO : IPicardIO picard_recorder := {
  picard_sendCommand p m retransmit :=
    ({| rec_sent := push_back (rec_sent p) (m, retransmit); rec_seq := rec_seq p;
        rec_resets := rec_resets p |}, rec_seq p);
  reset_rest p :=
    {| rec_sent := rec_sent p; rec_seq := rec_seq p; rec_resets := S (rec_resets p) |};
}.

(** The sends of one command: the first is not flagged as a retransmission. *)
Definition burst (m : CMuxMessage) (n : nat) : list (CMuxMessage * bool) :=
  match n with O => [] | S n => (m, false) :: replicate n (m, true) end.

Lemma burst_snoc m n : burst m (S n) = burst m n ++ [(m, negb (Z.of_nat n =? 0))].
Proof.
  destruct n as [|n]; [done|]. cbn [burst]. rewrite replicate_S_end. done.
Qed.

(** ** Observations on clients *)

(** What a client has been sent after an operation that writes [frame] to it under
    the condition [b]. *)
Definition frame_if (b : bool) (frame : list Z) (cl : CBoostClient) : list (list Z) :=
  if b && m_open (m_core cl) then [frame] else [].

Definition sent_to (h : gmap nat CBoostClient) (client : nat) : list (list Z) :=
  match h !! client with Some cl => m_sent (m_core cl) | None => [] end.

Lemma write_sent frame cl :
  m_sent (m_core (client_write frame cl)) = m_sent (m_core cl) ++ frame_if true frame cl.
Proof.
  unfold frame_if. cbn. destruct (m_open (m_core cl)); [done|]. by rewrite app_nil_r.
Qed.

Lemma alter_sent (f : CBoostClient -> CBoostClient) h client frame c cl :
  (forall cl, m_sent (m_core (f cl)) = m_sent (m_core cl) ++ frame_if true frame cl) ->
  h !! c = Some cl ->
  sent_to (alter f client h) c
  = m_sent (m_core cl) ++ frame_if (bool_decide (client = c)) frame cl.
Proof.
  intros Hf Hcl. unfold sent_to. destruct (decide (client = c)) as [->|Hne].
  - rewrite lookup_alter_eq, Hcl, bool_decide_eq_true_2 by done. cbn. apply Hf.
  - rewrite lookup_alter_ne, Hcl, bool_decide_eq_false_2 by done. cbn. by rewrite app_nil_r.
Qed.

Lemma close_all_sent l h c : sent_to (alter_all client_close l h) c = sent_to h c.
Proof.
  revert h. induction l as [|x l IH]; intros h; [done|]. cbn. unfold alter_all in IH. rewrite IH.
  unfold sent_to. destruct (decide (x = c)) as [->|Hne].
  - rewrite lookup_alter_eq. by destruct (h !! c).
  - by rewrite lookup_alter_ne.
Qed.

Lemma existsb_agree {A} (f g : A -> bool) l :
  (forall x, x ∈ l -> f x = g x) -> existsb f l = existsb g l.
Proof.
  induction l as [|x l IH]; intros Hfg; [done|]. cbn.
  rewrite Hfg, IH; [done| |by left]. intros y Hy. apply Hfg. by right.
Qed.

(** Bits of the subscription union. *)
Lemma union_of_bit (field : SubscriptionParams -> Z) h l n :
  (forall a b, field (params_union a b) = Z.lor (field a) (field b)) ->
  field default_params = 0 -> 0 <= n ->
  Z.testbit (field (union_of h l)) n
  = existsb (fun c => Z.testbit (field (client_params h c)) n) l.
Proof.
  intros Hor H0 Hn. unfold union_of.
  assert (Hg : forall u, Z.testbit (field (foldl (fun u c => params_union u (client_params h c)) u l)) n
    = Z.testbit (field u) n || existsb (fun c => Z.testbit (field (client_params h c)) n) l).
  { induction l as [|x l IH]; intros u; cbn [foldl existsb]; [by rewrite orb_false_r|].
    by rewrite IH, Hor, Z.lor_spec, orb_assoc. }
  by rewrite Hg, H0, Z.bits_0.
Qed.

Lemma completed_answer g rc p c cl :
  m_heap g !! c = Some cl ->
  sent_to (m_heap (completed g rc p)) c
  = m_sent (m_core cl) ++
    frame_if (bool_decide (sc_client (m_currentCommand g) = Some c))
      (serialize_output (new_CMuxOutput (m_type (sc_command (m_currentCommand g))) 0 rc p)) cl.
Proof.
  intros Hcl. unfold completed. destruct (sc_client (m_currentCommand g)) as [a|].
  - cbn [set_heap m_heap].
    replace (m_heap (set_current _ _)) with (m_heap g) by (by destruct (_ && _)).
    erewrite alter_sent; [|intros cl'|exact Hcl].
    + f_equal. f_equal. by repeat case_bool_decide; congruence.
    + destruct (_ =? SUBSCRIBE); apply write_sent.
  - rewrite bool_decide_eq_false_2 by done. cbn. rewrite app_nil_r. unfold sent_to.
    by destruct (_ && _); cbn; rewrite Hcl.
Qed.

(** The fan-out of a notification on a well-formed manager. *)
Lemma fanout_sent g t payload :
  mgr_inv g -> 0 <= t < 32 ->
  exists g', mgr_handleNotif g t payload = Ok g' /\ m_clients g' = m_clients g /\
  forall c cl, m_heap g !! c = Some cl ->
    sent_to (m_heap g') c = m_sent (m_core cl) ++
      frame_if (bool_decide (c ∈ m_clients g) &&
                Z.testbit (filter (m_params (m_subscriber (m_core cl)))) t)
        (serialize_output (new_CMuxOutput NOTIFICATION 0 t payload)) cl.
Proof.
  intros Hi Ht. rewrite handleNotif_Ok by done. eexists. split; [reflexivity|]. split; [done|].
  intros c cl Hcl. cbn [m_heap set_heap]. unfold sent_to.
  rewrite alter_all_lookup by apply (mi_clients _ Hi). rewrite Hcl. case_decide as Hin.
  - rewrite bool_decide_eq_true_2 by done. cbn [fmap option_fmap option_map andb]. unfold deliver_to.
    destruct (Z.testbit _ t); [by rewrite write_sent|]. cbn. by rewrite app_nil_r.
  - rewrite bool_decide_eq_false_2 by done. cbn. by rewrite app_nil_r.
Qed.

(** ** The command thread after a stop *)

(** A thread in [timedPop] is asleep or has been woken. *)
Definition sleeper (g : CBoostClientManager) : Prop :=
  0%nat ∈ asleep (m_commands g) \/ 0%nat ∈ awake (m_commands g).

Lemma notify_one_sleeper (q : CSyncQueue SClientCommand) t :
  t ∈ asleep q \/ t ∈ awake q -> t ∈ asleep (notify_one q) \/ t ∈ awake (notify_one q).
Proof.
  unfold notify_one. destruct q as [l [|x s] a]; cbn; [done|].
  rewrite elem_of_cons, elem_of_app, list_elem_of_singleton. tauto.
Qed.

Lemma push_sleeper client m g : sleeper g -> sleeper (push_command g client m).
Proof.
  intros Hs. unfold sleeper, push_command, queue_push. cbn [m_commands set_commands].
  destruct (m_queue (m_commands g)); [|exact Hs]. apply notify_one_sleeper. exact Hs.
Qed.

Lemma removed_sleeper g client : sleeper g -> sleeper (removed g client).
Proof.
  unfold removed, disconnect_current. intros Hs. repeat case_match; try apply push_sleeper; done.
Qed.

Lemma client_sleeper g client cl e cl' g' :
  mgr_inv g -> sleeper g -> client_exec client (cl, g) e = Ok (cl', g') -> sleeper g'.
Proof.
  intros Hi Hs. destruct e as [data| | |]; cbn [client_exec].
  - destruct (m_reading cl && _); [|by intros [= _ <-]].
    destruct data as [|b data]; [by intros [= _ <-]|]. cbn [handle_read]. intros Hx.
    apply bind_Ok_inv in Hx as ([p [c gr]] & Hp & [= _ <-]).
    refine (parser_read_invariant (H0 := client_ICommandCallback client)
      (fun s => sleeper s.2) _ _ _ _ _ _ _ Hp); [|done].
    intros [c1 g1] msg [c2 g2] Hs1. cbn [handleCommand client_ICommandCallback client_handleCommand].
    destruct (isInitialized c1); [intros [= _ <-]; by apply push_sleeper|].
    destruct (_ && _); [|by intros [= _ <-]]. intros Hx. inv_bind. by destruct (_ =? ERR_OK); injection Hx as _ <-.
  - destruct (m_reading cl); [|by intros [= _ <-]]. cbn [handle_read].
    case_bool_decide; [|by intros [= _ <-]]. cbn [removeClient manager_list].
    rewrite removeClient_Ok by done. intros [= _ <-]. by apply removed_sleeper.
  - by intros [= _ <-].
  - by destruct (m_authTimeout (m_core cl)); intros [= _ <-].
Qed.

Section after_stop.
Context {P : Type} `{IPicardIO P}.
Implicit Types (w : world P).

Definition waits w : Prop := w_pc w = InPop -> sleeper (w_mgr w).

Lemma command_sleeper w w' : waits w -> command_thread w = Ok w' -> waits w'.
Proof.
  intros Hs. assert (Hpop : forall w0 popped, after_pop w0 popped = Ok w' -> waits w').
  { intros w0 [cmd|]; cbn [after_pop]; [|by intros [= <-]].
    intros Hx. apply bind_Ok_inv in Hx as ([g next] & _ & [= <-]). by destruct next. }
  assert (Hfin : forall cmd r, ('(g, p) ← finish (w_mgr w) (w_rest w) cmd r;
    Ok {| w_mgr := g; w_rest := p; w_pc := AtHead |}) = Ok w' -> waits w').
  { intros cmd r Hx. by apply bind_Ok_inv in Hx as ([g p] & _ & [= <-]). }
  unfold command_thread. destruct (w_pc w) as [| | |cmd i|cmd i|] eqn:Hpc.
  - by intros [= <-].
  - destruct (m_loop (w_mgr w)); [|by intros [= <-]]. unfold timedPop_enter.
    destruct (queue_empty _).
    + intros [= <-] _. left. cbn. apply elem_of_app. right. by apply list_elem_of_singleton.
    + destruct (pop_front _) as [popped q]. apply Hpop.
  - case_decide; [|by intros [= <-]]. destruct (timedPop_resume _ _) as [popped q]. apply Hpop.
  - destruct (i <? _); [|apply Hfin]. destruct (picard_sendCommand _ _ _). by intros [= <-].
  - case_decide; [by intros [= <-]|apply Hfin].
  - intros [= <-]. by unfold waits; rewrite Hpc.
Qed.

Lemma exec_sleeper w e w' :
  world_inv w -> event_ok e -> waits w -> exec w e = Ok w' -> waits w'.
Proof.
  intros [Hi Hpc] He Hs. destruct e as [| |client auth version|client e|t q rc p|t p| |]; cbn [exec];
    [by apply command_sleeper|..]; unfold waits.
  - intros [= <-] Hin. destruct (Hs Hin) as [|]; right; cbn; apply elem_of_app; auto.
  - destruct (m_heap (w_mgr w) !! client); by intros [= <-].
  - destruct (m_heap (w_mgr w) !! client) as [cl|]; [|by intros [= <-]].
    destruct (referenced _ _ _ _); intros Hx.
    + apply bind_Ok_inv in Hx as ([cl' g'] & Hx & [= <-]). intros Hin.
      exact (client_sleeper _ _ _ _ _ _ Hi (Hs Hin) Hx).
    + by apply bind_Ok_inv in Hx as (cl' & _ & [= <-]).
  - rewrite commandComplete_Ok.
    + destruct (_ && _); [|by intros [= <-]]. intros [= <-] Hin. specialize (Hs Hin). unfold sleeper, completed.
      destruct (sc_client _); by destruct (_ && _).
    + intros c Hc. destruct (w_pc w) as [| | |cmd i|cmd i|]; try by rewrite Hpc in Hc.
      all: destruct Hpc as ((_ & _ & _ & Hcl) & _ & Hcc & _); apply Hcl; congruence.
  - destruct (decide (0 <= t < 32)) as [Ht|Ht].
    + rewrite handleNotif_Ok by done. by intros [= <-].
    + rewrite handleNotif_bad by done. destruct (m_clients (w_mgr w)); [by intros [= <-]|done].
  - unfold mgr_resetConnection. rewrite closeClients_Ok by done. by intros [= <-].
  - intros [= <-] Hin. destruct (Hs Hin) as [|]; right; cbn; apply elem_of_app; auto.
Qed.

(** The steps the command thread still takes once the loop is told to stop. *)
Definition command_measure w : nat :=
  match w_pc w with
  | NotStarted | Exited => 0
  | AtHead => 1
  | InPop => 2
  | Sending _ i => 2 * Z.to_nat (m_retries (w_mgr w) - i) + 2
  | Waiting _ i => 2 * Z.to_nat (m_retries (w_mgr w) - i - 1) + 3
  end.

Definition stopping w : Prop :=
  w_pc w <> NotStarted /\ m_loop (w_mgr w) = false /\ m_queue (m_commands (w_mgr w)) = [].

(** One round: the wait of [timedPop] or for a response runs out, the thread runs. *)
Lemma stopping_round w :
  world_inv w -> waits w -> stopping w ->
  exists w', run_events w [EvQueueTimeout; EvCommandThread] = Ok w' /\
    world_inv w' /\ waits w' /\ stopping w' /\
    (w_pc w <> Exited -> (command_measure w' < command_measure w)%nat) /\
    (w_pc w = Exited -> w_pc w' = Exited).
Proof.
  intros Hw Hs Hst. set (w1 := {| w_mgr := set_commands (wake_up (m_commands (w_mgr w))) (w_mgr w);
    w_rest := w_rest w; w_pc := w_pc w |}).
  assert (H1 : exec w EvQueueTimeout = Ok w1) by done.
  assert (Hw1 : world_inv w1) by (by eapply exec_inv; [exact Hw| |exact H1]).
  assert (Hs1 : waits w1) by (by eapply exec_sleeper; [exact Hw| |exact Hs|exact H1]).
  destruct Hst as (Hns & Hl & Hq).
  assert (Hz : ~ hazard w1 EvCommandThread).
  { cbn [hazard]. unfold next_pop. cbn [w1 w_mgr w_pc]. cbn [m_loop set_commands m_commands wake_up m_queue].
    rewrite Hl, Hq. destruct (w_pc w); cbn; try tauto. case_decide; tauto. }
  destruct (exec_Ok w1 EvCommandThread Hw1 I Hz) as (w2 & H2 & Hw2).
  assert (Hs2 : waits w2) by (by eapply exec_sleeper; [exact Hw1| |exact Hs1|exact H2]).
  exists w2. split. { unfold run_events. cbn [foldM]. rewrite H1. step_bind. by rewrite H2. }
  split; [done|]. split; [done|].
  destruct w as [g p pc]. cbn [exec] in H2. unfold command_thread in H2. cbn [w1 w_mgr w_pc w_rest] in *.
  unfold stopping, command_measure. cbn [w_mgr w_pc].
  assert (Hfin : forall cmd r, cmd_ok (m_heap g) cmd ->
    ('(g, p) ← finish (w_mgr w1) p cmd r; Ok {| w_mgr := g; w_rest := p; w_pc := AtHead |}) = Ok w2 ->
    w_pc w2 = AtHead /\ m_loop (w_mgr w2) = false /\ m_queue (m_commands (w_mgr w2)) = []).
  { intros cmd r Hok Hx. apply bind_Ok_inv in Hx as ([g' p'] & Hf & [= <-]).
    apply finish_same in Hf as (Hq2 & Hl2 & _).
    cbn. rewrite Hl2, Hq2. by split_and!. }
  destruct Hw as [_ Hpc]. cbn [w_mgr w_pc] in Hpc.
  destruct pc as [| | |cmd i|cmd i|].
  - done.
  - cbn [m_loop set_commands] in H2. rewrite Hl in H2. injection H2 as <-. cbn. split_and!; try done; lia.
  - cbn [m_commands set_commands] in H2. rewrite decide_True in H2.
    2: { destruct (Hs eq_refl) as [|]; cbn; apply elem_of_app; auto. }
    unfold timedPop_resume, pop_front in H2. cbn [wake_up m_queue] in H2. rewrite Hq in H2.
    cbn in H2. injection H2 as <-. cbn. split_and!; try done; lia.
  - destruct Hpc as (Hok & _). cbn [m_retries set_commands] in H2.
    destruct (Z.ltb_spec i (m_retries g)).
    + destruct (picard_sendCommand _ _ _). injection H2 as <-. cbn. split_and!; try done; lia.
    + apply Hfin in H2 as (-> & Hl2 & Hq2); [|done]. split_and!; try done. intros _. lia.
  - destruct Hpc as (Hok & _). revert H2. case_decide; intros H2.
    + injection H2 as <-. cbn. split_and!; try done. intros _.
      replace (m_retries g - (i + 1)) with (m_retries g - i - 1) by lia. lia.
    + apply Hfin in H2 as (-> & Hl2 & Hq2); [|done]. split_and!; try done. intros _. lia.
  - injection H2 as <-. by split_and!.
Qed.
End after_stop.

(** ** Properties *)

Section properties.
Context {P : Type} `{IPicardIO P}.

(** C7: safety of every interleaving.  From a new manager, after any sequence of
    events of the command thread, the clients, Picard and the main loop, the next
    event runs into undefined behaviour in exactly three cases: a notification type
    outside [0..31] while clients are registered, the command thread taking a
    registered client's [SUBSCRIBE] with fewer than 8 bytes, and the handler of an
    auth timer that ran out just before its client was dropped.  In particular no
    pointer is null when it is used. *)
Theorem manager_safety retries (p : P) es w e :
  Forall event_ok es -> run_events (new_world retries p) es = Ok w -> event_ok e ->
  defined (exec w e) = false <-> hazard w e.
Proof.
  intros Hes Hrun He. assert (Hw : world_inv w) by (by eapply reachable_inv). split.
  - intros Hu. destruct (decide (hazard w e)) as [|Hz]; [done|].
    destruct (exec_Ok w e Hw He Hz) as (w' & Hx & _). by rewrite Hx in Hu.
  - by apply hazard_undefined.
Qed.

(** A client destroyed under its timer.  [handleAuthTimeout] is bound to
    [this], not to a shared pointer.  If the time has run out, and its handler is
    queued, when the client's hello is read and refused, nothing points to the
    client after that read, and the handler uses a destroyed object. *)
Lemma auth_timer_dangling retries (p : P) c token version hello :
  length token = AUTHENTICATION_LEN -> message_ok hello -> m_type hello = MUX_HELLO ->
  hello_code version token (m_data hello) <> ERR_OK ->
  exists w, run_events (new_world retries p)
      [EvAccept c token version; EvClient c ClientExpire;
       EvClient c (ClientData (serialize_message hello))] = Ok w /\
    exec w (EvClient c ClientTimer) = Undefined UseAfterFree.
Proof.
  intros Ha Hok Ht Hcode.
  set (cl0 := client_start (create token version)).
  set (cl1 := set_core (set_state_timer WAITING TimerExpired true (m_core cl0)) cl0).
  destruct (handle_read_hello c cl1 (store c cl1 (store c cl0 (new_CBoostClientManager retries))) hello)
    as [q Hq]; [done..|].
  unfold session_result in Hq. cbn [session] in Hq. rewrite Ht, Z.eqb_refl in Hq.
  change (hello_code (m_version (m_core cl1)) (m_expectedAuth (m_core cl1)) (m_data hello))
    with (hello_code version token (m_data hello)) in Hq.
  rewrite (proj2 (Z.eqb_neq _ _) Hcode) in Hq.
  set (at_ g := {| w_mgr := g; w_rest := p; w_pc := NotStarted |}).
  set (g0 := new_CBoostClientManager retries) in *.
  assert (H1 : exec (at_ g0) (EvAccept c token version) = Ok (at_ (store c cl0 g0))) by done.
  assert (H2 : exec (at_ (store c cl0 g0)) (EvClient c ClientExpire)
    = Ok (at_ (store c cl1 (store c cl0 g0)))).
  { cbn [exec at_ w_mgr]. change (m_heap (store c cl0 g0)) with (<[c := cl0]> (∅ : gmap nat CBoostClient)).
    by rewrite lookup_insert_eq. }
  eexists. split.
  - unfold run_events. cbn [foldM]. change (new_world retries p) with (at_ g0). rewrite H1. step_bind.
    rewrite H2. step_bind. cbn [exec at_ w_mgr].
    change (m_heap (store c cl1 (store c cl0 g0)))
      with (<[c := cl1]> (<[c := cl0]> (∅ : gmap nat CBoostClient))).
    rewrite lookup_insert_eq. cbn [referenced m_reading orb w_pc client_exec].
    change (m_reading cl1) with true. cbn [orb andb].
    rewrite bool_decide_eq_true_2 by done. rewrite Hq. step_bind. reflexivity.
  - cbn [exec w_mgr store set_heap m_heap]. rewrite lookup_insert_eq.
    unfold referenced. cbn [m_reading m_clients m_commands set_heap w_mgr w_pc badInit].
    done.
Qed.

(** C23: invariant of the manager.  At every reachable state the registered clients
    are distinct and have passed the hello, a queued command without a client is a
    [SUBSCRIBE] of 8 bytes, and [m_currentCommand] names the client and the command
    the loop is sending, or is empty when it is not sending. *)
Theorem manager_invariant retries (p : P) es w :
  Forall event_ok es -> run_events (new_world retries p) es = Ok w ->
  let g := w_mgr w in
  NoDup (m_clients g) /\
  (forall client, client ∈ m_clients g -> exists cl, m_heap g !! client = Some cl /\
     (m_initState (m_core cl) = AUTHENTICATED \/ m_initState (m_core cl) = CLOSED)) /\
  (forall cmd, cmd ∈ m_queue (m_commands g) -> sc_client cmd = None ->
     m_type (sc_command cmd) = SUBSCRIBE /\ length (m_data (sc_command cmd)) = 8%nat) /\
  match w_pc w with
  | Sending cmd i | Waiting cmd i =>
      sc_client (m_currentCommand g) = sc_client cmd /\
      sc_command (m_currentCommand g) = sc_command cmd /\
      isPicardApiCommand (m_type (sc_command cmd)) = true
  | _ => m_currentCommand g = no_command
  end.
Proof.
  intros Hes Hrun g. destruct (reachable_inv retries p es w Hes Hrun) as [[_ [Hnd Hl] Hq _] Hpc].
  split_and!; [done|done| |].
  - intros cmd Hin Hc. pose proof (proj1 (Forall_forall _ _) Hq cmd Hin) as (_ & _ & He).
    by rewrite Hc in He.
  - destruct (w_pc w); try done; by destruct Hpc as ((? & _) & _ & ? & ?).
Qed.

(** C11: routing of responses.  A response of a Serial API type has an effect only
    while a command with that type and sequence number is in flight; then the
    command is complete, and the client that issued it, and no other, is sent one
    frame with the response code and payload. *)
Theorem response_routing retries (p : P) es w t q rc response :
  Forall event_ok es -> run_events (new_world retries p) es = Ok w ->
  isPicardApiCommand t = true ->
  let cur := m_currentCommand (w_mgr w) in
  let matches := (t =? m_type (sc_command cur)) && (q =? sc_seq cur) in
  exists w', exec w (EvComplete t q rc response) = Ok w' /\
  (matches = false -> w' = w) /\
  (matches = true ->
    (exists cmd i, w_pc w = Sending cmd i \/ w_pc w = Waiting cmd i) /\
    sc_result (m_currentCommand (w_mgr w')) = CLIENT_OK /\
    forall c cl, m_heap (w_mgr w) !! c = Some cl ->
      sent_to (m_heap (w_mgr w')) c = m_sent (m_core cl) ++
        frame_if (bool_decide (sc_client cur = Some c))
          (serialize_output (new_CMuxOutput t 0 rc response)) cl).
Proof.
  intros Hes Hrun Ht cur matches. pose proof (reachable_inv retries p es w Hes Hrun) as [Hi Hpc].
  cbn [exec]. rewrite commandComplete_Ok.
  2: { intros c Hc. destruct (w_pc w) as [| | |cmd i|cmd i|]; try by rewrite Hpc in Hc.
       all: destruct Hpc as ((_ & _ & _ & Hcl) & _ & Hcc & _); apply Hcl; congruence. }
  fold cur. fold matches. eexists. split; [reflexivity|].
  destruct matches eqn:Hm; [|by destruct w]. split; [done|intros _].
  apply andb_true_iff in Hm as [Hm _]. apply Z.eqb_eq in Hm. split_and!.
  - destruct (w_pc w) as [| | |cmd i|cmd i|]; [..|by eauto|by eauto|];
      unfold cur in Hm; rewrite Hpc in Hm; by subst t.
  - cbn [w_mgr]. unfold completed. fold cur. destruct (sc_client cur), (_ && _); done.
  - intros c cl Hcl. cbn [w_mgr]. rewrite (completed_answer _ _ _ _ _ Hcl). fold cur. by rewrite Hm.
Qed.

(** Fan-out of notifications.  A notification of type [t] in [0..31] is sent,
    one frame each, to exactly the registered clients whose committed filter has
    bit [t], whatever else is going on. *)
Lemma notification_fanout retries (p : P) es w t payload :
  Forall event_ok es -> run_events (new_world retries p) es = Ok w -> 0 <= t < 32 ->
  exists w', exec w (EvNotif t payload) = Ok w' /\ w_pc w' = w_pc w /\
  forall c cl, m_heap (w_mgr w) !! c = Some cl ->
    sent_to (m_heap (w_mgr w')) c = m_sent (m_core cl) ++
      frame_if (bool_decide (c ∈ m_clients (w_mgr w)) &&
                Z.testbit (filter (m_params (m_subscriber (m_core cl)))) t)
        (serialize_output (new_CMuxOutput NOTIFICATION 0 t payload)) cl.
Proof.
  intros Hes Hrun Ht. pose proof (reachable_inv retries p es w Hes Hrun) as [Hi _].
  destruct (fanout_sent (w_mgr w) t payload Hi Ht) as (g & Hg & _ & Hsent).
  cbn [exec]. rewrite Hg. eexists. split; [reflexivity|]. by split.
Qed.

(** C18: subscriptions are sent as their union.  A registered client's [SUBSCRIBE]
    with at least 8 bytes reaches Picard with its length kept and its first 8 bytes
    replaced by a filter whose bits are those that some registered client reports,
    the requesting one with its new filter; which notifications anybody receives
    does not change before the response. *)
Theorem subscription_union_sent retries (p : P) es w cmd client q :
  Forall event_ok es -> run_events (new_world retries p) es = Ok w ->
  sc_client cmd = Some client -> client ∈ m_clients (w_mgr w) ->
  m_type (sc_command cmd) = SUBSCRIBE -> (8 <= length (m_data (sc_command cmd)) <= 128)%nat ->
  vectorToFilter (m_data (sc_command cmd)) = Ok q ->
  let wanted c := if decide (c = client) then q else client_params (m_heap (w_mgr w)) c in
  exists g' cmd' u, dispatch (w_mgr w) cmd = Ok (g', Some cmd') /\
    m_type (sc_command cmd') = SUBSCRIBE /\ sc_client cmd' = Some client /\
    length (m_data (sc_command cmd')) = length (m_data (sc_command cmd)) /\
    vectorToFilter (m_data (sc_command cmd')) = Ok u /\
    (forall n, 0 <= n ->
       Z.testbit (filter u) n = existsb (fun c => Z.testbit (filter (wanted c)) n) (m_clients (w_mgr w)) /\
       Z.testbit (unreliable u) n
       = existsb (fun c => Z.testbit (unreliable (wanted c)) n) (m_clients (w_mgr w))) /\
    (forall c n, (fun cl => isSubscribed (m_subscriber (m_core cl)) n) <$> m_heap g' !! c
               = (fun cl => isSubscribed (m_subscriber (m_core cl)) n) <$> m_heap (w_mgr w) !! c).
Proof.
  intros Hes Hrun Hc Hin Ht Hlen Hv wanted.
  pose proof (reachable_inv retries p es w Hes Hrun) as [Hi _]. set (g := w_mgr w) in *.
  assert (Hsize : message_size (sc_command cmd) <= MAX_SERIAL_API_CMD_LEN).
  { unfold message_size, MAX_SERIAL_API_CMD_LEN. rewrite u16_small by word_range. lia. }
  destruct (dispatch_subscribe g cmd client q Hi Hc Hin Ht Hsize ltac:(apply Hlen) Hv) as [Hd Hg'].
  exists (set_current (subscribe_command (m_filterUnion (subscribed g client q)) cmd) (subscribed g client q)).
  eexists _, (m_filterUnion (subscribed g client q)). split; [exact Hd|].
  assert (Hwant : forall c, c ∈ m_clients g -> client_params
    (alter (on_subscriber (setSubscription q)) client (m_heap g)) c = wanted c).
  { intros c Hcin. unfold wanted, client_params. case_decide as Hcc.
    - subst c. rewrite lookup_alter_eq. destruct (clients_known g client Hi Hin) as [cl ->].
      cbn. by destruct q.
    - by rewrite lookup_alter_ne. }
  split_and!; [done|done| | | |].
  - cbn. rewrite length_drop. lia.
  - cbn [sc_command subscribe_command set_command set_data m_data].
    apply vectorToFilter_bytes, Hg'.
  - intros n Hn. cbn [m_filterUnion subscribed set_filters]. rewrite !union_of_bit by done.
    split; apply existsb_agree; intros c Hcin; by rewrite Hwant.
  - intros c n. cbn. destruct (decide (client = c)) as [->|Hne].
    + rewrite lookup_alter_eq. by destruct (m_heap g !! c).
    + by rewrite lookup_alter_ne.
Qed.

(** C17: the failure path.  When the tries are used up, or the command was marked
    disconnected, the issuing client is sent [ERR_COMMAND_TIMEOUT], every registered
    client is closed and forgotten, the other parts are reset once, and a
    [SUBSCRIBE] is rolled back: the union is the one before it and the client
    reports its committed filter again. *)
Theorem timeout_reset retries (p : P) es w cmd i client :
  Forall event_ok es -> run_events (new_world retries p) es = Ok w ->
  (w_pc w = Sending cmd i /\ m_retries (w_mgr w) <= i \/
   w_pc w = Waiting cmd i /\ sc_result (m_currentCommand (w_mgr w)) = CLIENT_DISCONNECT) ->
  sc_client cmd = Some client ->
  let g := w_mgr w in
  exists w', exec w EvCommandThread = Ok w' /\ w_pc w' = AtHead /\
    w_rest w' = reset_rest (w_rest w) /\ m_clients (w_mgr w') = [] /\
    m_currentCommand (w_mgr w') = no_command /\
    (forall c cl, m_heap g !! c = Some cl -> sent_to (m_heap (w_mgr w')) c = m_sent (m_core cl) ++
       frame_if (bool_decide (client = c))
         (serialize_output (new_CMuxOutput (m_type (sc_command cmd)) 0 ERR_COMMAND_TIMEOUT [])) cl) /\
    (forall c, c ∈ m_clients g -> (fun cl => m_initState (m_core cl)) <$> m_heap (w_mgr w') !! c = Some CLOSED) /\
    (m_type (sc_command cmd) = SUBSCRIBE -> m_filterUnion (w_mgr w') = m_prevfilter g /\
       (fun cl => reported (m_subscriber (m_core cl))) <$> m_heap (w_mgr w') !! client
       = (fun cl => m_params (m_subscriber (m_core cl))) <$> m_heap g !! client).
Proof.
  intros Hes Hrun Hpc0 Hc g. pose proof (reachable_inv retries p es w Hes Hrun) as [Hi Hpc].
  fold g in Hi, Hpc. assert (Hcl : is_Some (m_heap g !! client)).
  { destruct Hpc0 as [[Hp _]|[Hp _]]; rewrite Hp in Hpc; by destruct Hpc as ((_ & _ & _ & Hcl) & _); apply Hcl. }
  exists {| w_mgr := timed_out g client (m_type (sc_command cmd)); w_rest := reset_rest (w_rest w); w_pc := AtHead |}.
  split.
  { cbn [exec]. unfold command_thread. fold g. destruct Hpc0 as [[-> Hi0]|[-> Hr]].
    - fold g in Hi0. rewrite (proj2 (Z.ltb_ge _ _)) by done. by rewrite (finish_failed g _ cmd client).
    - fold g in Hr. rewrite Hr, decide_False by done. by rewrite (finish_failed g _ cmd client). }
  set (type := m_type (sc_command cmd)). unfold timed_out.
  cbn [w_pc w_rest w_mgr m_clients set_clients set_current m_currentCommand m_heap set_heap].
  split_and!; try done.
  - intros c cl Hcc. rewrite close_all_sent. apply alter_sent; [|done].
    intros x. unfold timeout_answer. rewrite write_sent. by destruct (type =? SUBSCRIBE).
  - intros c Hcin. rewrite alter_all_lookup, decide_True by (done || apply (mi_clients _ Hi)).
    destruct (decide (client = c)) as [->|Hne].
    + rewrite lookup_alter_eq. destruct Hcl as [cl ->]. done.
    + rewrite lookup_alter_ne by done. by destruct (clients_known g c Hi Hcin) as [cl ->].
  - intros ->. cbn [Z.eqb SUBSCRIBE]. split; [done|].
    rewrite alter_all_lookup by apply (mi_clients _ Hi). rewrite lookup_alter_eq.
    unfold timeout_answer. change (SUBSCRIBE =? SUBSCRIBE) with true.
    destruct Hcl as [cl ->]. cbn.
    case_decide; cbn; f_equal; unfold reported; cbn;
      unfold CSubscriber_getSubscription, CSubscriber_getUnreliable; cbn; by destruct (m_params _).
Qed.

(** A client that leaves cancels the others' command.  While the loop waits for
    the response to client [a]'s command, a read error of another client [b] marks
    it disconnected although Picard may still answer; the loop then reports a
    timeout to [a] and tears every connection down. *)
Lemma other_disconnect_cancels retries (p : P) es w cmd i a b clb :
  Forall event_ok es -> run_events (new_world retries p) es = Ok w ->
  w_pc w = Waiting cmd i -> sc_client cmd = Some a -> a <> b ->
  m_heap (w_mgr w) !! b = Some clb -> m_initState (m_core clb) = AUTHENTICATED ->
  m_reading clb = true ->
  exists w', run_events w [EvClient b ClientError; EvCommandThread] = Ok w' /\
    m_clients (w_mgr w') = [] /\ w_rest w' = reset_rest (w_rest w) /\
    forall cla, m_heap (w_mgr w) !! a = Some cla ->
      sent_to (m_heap (w_mgr w')) a = m_sent (m_core cla) ++
        frame_if true (serialize_output (new_CMuxOutput (m_type (sc_command cmd)) 0 ERR_COMMAND_TIMEOUT [])) cla.
Proof.
  intros Hes Hrun Hpc0 Ha Hab Hb Hst Hrd.
  pose proof (reachable_inv retries p es w Hes Hrun) as [Hi Hpc]. rewrite Hpc0 in Hpc.
  destruct Hpc as ((Hok1 & Hok2 & Hok3 & Hcl) & _ & Hcur & _).
  set (g := w_mgr w) in *.
  set (g1 := store b {| m_core := m_core clb; m_parser := m_parser clb; m_reading := false |} (removed g b)).
  assert (H1 : exec w (EvClient b ClientError) = Ok {| w_mgr := g1; w_rest := w_rest w; w_pc := w_pc w |}).
  { cbn [exec]. fold g. rewrite Hb. unfold referenced. rewrite Hrd. cbn [orb client_exec handle_read m_core].
    rewrite Hrd, bool_decide_eq_true_2 by done. cbn [removeClient manager_list].
    by rewrite removeClient_Ok. }
  assert (Hcurr : m_currentCommand g1 = set_result CLIENT_DISCONNECT (m_currentCommand g)).
  { unfold g1, removed, disconnect_current. rewrite Hcur, Ha. by repeat case_match. }
  assert (Hheap : m_heap g1 = <[b := {| m_core := m_core clb; m_parser := m_parser clb; m_reading := false |}]> (m_heap g)).
  { unfold g1, store. cbn. f_equal. unfold removed, disconnect_current. by repeat case_match. }
  assert (Hg1 : mgr_inv g1).
  { apply mgr_inv_store; [apply removed_ext, Hi|exact (mi_heap _ Hi b clb Hb)|]. intros _ _ _. by left. }
  unfold run_events. cbn [foldM]. rewrite H1. step_bind. cbn [exec]. unfold command_thread.
  cbn [w_pc w_mgr w_rest]. rewrite Hpc0, Hcurr, decide_False by done.
  rewrite (finish_failed g1 _ cmd a); [|done|done| |done].
  2: { rewrite Hheap, lookup_insert_ne by done. by apply Hcl. }
  step_bind. eexists. split; [reflexivity|]. split; [done|]. split; [done|].
  intros cla Hcla. cbn [w_mgr timed_out set_current set_clients set_heap m_heap].
  rewrite close_all_sent. erewrite (alter_sent _ _ _ _ a cla).
  - by rewrite bool_decide_eq_true_2.
  - intros x. unfold timeout_answer. rewrite write_sent. by destruct (_ =? SUBSCRIBE).
  - by rewrite Hheap, lookup_insert_ne.
Qed.
End properties.

(** A rejected subscription stays in force for its client.  When Picard answers
    a client's [SUBSCRIBE] with an error, the manager restores the union but
    commits the client's filter all the same: the client then receives the
    notifications of the rejected filter. *)
Lemma rejected_subscription_committed g client cl rc response :
  sc_client (m_currentCommand g) = Some client -> m_heap g !! client = Some cl ->
  m_type (sc_command (m_currentCommand g)) = SUBSCRIBE -> rc <> ERR_OK ->
  exists g' cl', mgr_commandComplete g SUBSCRIBE (sc_seq (m_currentCommand g)) rc response = Ok g' /\
    m_filterUnion g' = m_prevfilter g /\ m_heap g' !! client = Some cl' /\
    forall n, isSubscribed (m_subscriber (m_core cl')) n
            = subscribeFilterMatch (m_newParams (m_subscriber (m_core cl))) n.
Proof.
  intros Hc Hcl Ht Hrc. rewrite commandComplete_Ok, Ht, !Z.eqb_refl by (intros c; rewrite Hc; intros [= <-]; by exists cl).
  unfold completed. rewrite Hc, Ht, Z.eqb_refl, (proj2 (Z.eqb_neq _ _)) by done.
  eexists _, _. split; [reflexivity|]. split; [done|]. cbn. rewrite lookup_alter_eq, Hcl. by split.
Qed.

(** A response that arrives twice is passed on twice.  Until the command thread
    runs again, [commandComplete] does not notice that the command is complete: the
    client is sent both frames for its one command. *)
Lemma duplicate_response_forwarded g client cl rc response :
  sc_client (m_currentCommand g) = Some client -> m_heap g !! client = Some cl ->
  m_open (m_core cl) = true ->
  let type := m_type (sc_command (m_currentCommand g)) in
  let seq := sc_seq (m_currentCommand g) in
  let frame := serialize_output (new_CMuxOutput type 0 rc response) in
  exists g1 g2, mgr_commandComplete g type seq rc response = Ok g1 /\
    mgr_commandComplete g1 type seq rc response = Ok g2 /\
    sent_to (m_heap g2) client = m_sent (m_core cl) ++ [frame; frame].
Proof.
  intros Hc Hcl Ho type seq frame.
  assert (Hone : forall g cl, sc_client (m_currentCommand g) = Some client -> m_heap g !! client = Some cl ->
    m_open (m_core cl) = true -> m_type (sc_command (m_currentCommand g)) = type ->
    sc_seq (m_currentCommand g) = seq ->
    exists g' cl', mgr_commandComplete g type seq rc response = Ok g' /\
      m_heap g' !! client = Some cl' /\ m_open (m_core cl') = true /\
      m_sent (m_core cl') = m_sent (m_core cl) ++ [frame] /\
      sc_client (m_currentCommand g') = Some client /\
      m_type (sc_command (m_currentCommand g')) = type /\ sc_seq (m_currentCommand g') = seq).
  { intros g0 cl0 Hc0 Hcl0 Ho0 Ht0 Hs0. rewrite commandComplete_Ok, Ht0, Hs0, !Z.eqb_refl
      by (intros c; rewrite Hc0; intros [= <-]; by exists cl0).
    cbn [andb]. unfold completed. rewrite Hc0, Ht0. cbn zeta.
    eexists _, _. split; [reflexivity|]. cbn [m_heap set_heap]. rewrite lookup_alter_eq.
    replace (m_heap (set_current _ _)) with (m_heap g0) by (by destruct (_ && _)). rewrite Hcl0.
    split; [reflexivity|]. by destruct (type =? SUBSCRIBE), (_ && _); cbn; rewrite Ho0. }
  destruct (Hone g cl) as (g1 & cl1 & H1 & Hcl1 & Ho1 & Hs1 & Hc1 & Ht1 & Hq1); [done..|].
  destruct (Hone g1 cl1) as (g2 & cl2 & H2 & Hcl2 & _ & Hs2 & _); [done..|].
  exists g1, g2. split; [done|]. split; [done|]. unfold sent_to. rewrite Hcl2, Hs2, Hs1.
  by rewrite <- (assoc_L app).
Qed.

(** ** Retries and removal *)

Lemma two_tries w cmd i :
  w_pc w = Sending cmd i -> 0 <= i < m_retries (w_mgr w) ->
  sc_result (m_currentCommand (w_mgr w)) = CLIENT_TIMEOUT ->
  exists w', run_events w [EvCommandThread; EvCommandThread] = Ok w' /\
    w_pc w' = Sending cmd (i + 1) /\ m_retries (w_mgr w') = m_retries (w_mgr w) /\
    sc_result (m_currentCommand (w_mgr w')) = CLIENT_TIMEOUT /\
    rec_sent (w_rest w') = rec_sent (w_rest w) ++ [(sc_command cmd, negb (i =? 0))] /\
    rec_resets (w_rest w') = rec_resets (w_rest w).
Proof.
  intros Hpc Hi Hr. unfold run_events. cbn [foldM exec].
  unfold command_thread at 2. rewrite Hpc, (proj2 (Z.ltb_lt _ _)) by lia.
  cbn [picard_sendCommand recorder_IPicardIO]. step_bind. unfold command_thread. cbn [w_pc w_mgr w_rest].
  rewrite decide_True by done. step_bind. eexists. split; [reflexivity|]. by split_and!.
Qed.

Lemma last_try w cmd i :
  world_inv w -> w_pc w = Sending cmd i -> m_retries (w_mgr w) <= i ->
  exists w', run_events w [EvCommandThread] = Ok w' /\ w_pc w' = AtHead /\
    rec_sent (w_rest w') = rec_sent (w_rest w) /\
    rec_resets (w_rest w')
      = (rec_resets (w_rest w) + if bool_decide (is_Some (sc_client cmd)) then 1 else 0)%nat.
Proof.
  intros [Hi Hp] Hpc Hge. rewrite Hpc in Hp. destruct Hp as ((_ & _ & _ & Hcl) & _).
  unfold run_events. cbn [foldM exec]. unfold command_thread.
  rewrite Hpc, (proj2 (Z.ltb_ge _ _)) by done. destruct (sc_client cmd) as [c|] eqn:Hc.
  - rewrite (finish_failed (w_mgr w) _ cmd c) by auto. step_bind.
    eexists. split; [reflexivity|]. split_and!; [done|done|]. cbn. lia.
  - unfold finish. rewrite Hc. step_bind. eexists. split; [reflexivity|]. split_and!; [done|done|].
    cbn. lia.
Qed.

Lemma burst_drop m n k :
  (n < k)%nat -> drop n (burst m k) = (m, negb (Z.of_nat n =? 0)) :: drop (S n) (burst m k).
Proof.
  intros Hn. destruct k as [|k]; [lia|]. destruct n as [|n]; [done|]. cbn [burst drop].
  rewrite !drop_replicate. replace (k - n)%nat with (S (k - S n)) by lia. done.
Qed.

Lemma burst_length m k : length (burst m k) = k.
Proof. destruct k; [done|]. cbn. by rewrite length_replicate. Qed.

Lemma run_events_app {P} `{IPicardIO P} (w : world P) es1 es2 :
  run_events w (es1 ++ es2) = (w ← run_events w es1; run_events w es2).
Proof. apply foldM_app. Qed.

Lemma tries_terminate k w cmd i :
  world_inv w -> w_pc w = Sending cmd i -> k = Z.to_nat (m_retries (w_mgr w) - i) ->
  sc_result (m_currentCommand (w_mgr w)) = CLIENT_TIMEOUT ->
  exists w', run_events w (replicate (2 * k + 1) EvCommandThread) = Ok w' /\ w_pc w' = AtHead /\
    rec_sent (w_rest w') = rec_sent (w_rest w) ++
      drop (Z.to_nat i) (burst (sc_command cmd) (Z.to_nat (m_retries (w_mgr w)))) /\
    rec_resets (w_rest w')
      = (rec_resets (w_rest w) + if bool_decide (is_Some (sc_client cmd)) then 1 else 0)%nat.
Proof.
  revert w i. induction k as [|k IH]; intros w i Hw Hpc Hk Hr.
  - destruct (last_try w cmd i Hw Hpc) as (w' & Hrun & Hpc' & Hs & Hres); [lia|].
    exists w'. split_and!; [done|done| |done].
    rewrite drop_ge by (rewrite burst_length; lia). by rewrite app_nil_r.
  - assert (Hi0 : 0 <= i) by (destruct Hw as [_ Hp]; rewrite Hpc in Hp; apply Hp).
    destruct (two_tries w cmd i Hpc) as (w1 & Hrun1 & Hpc1 & Hret1 & Hr1 & Hs1 & Hres1); [lia|done|].
    assert (Hw1 : world_inv w1) by (eapply run_inv; [exact Hw| |exact Hrun1]; by repeat constructor).
    destruct (IH w1 (i + 1)) as (w' & Hrun & Hpc' & Hs & Hres); [done|done|rewrite Hret1; lia|done|].
    exists w'. replace (2 * S k + 1)%nat with (2 + (2 * k + 1))%nat by lia.
    rewrite replicate_add. change (replicate 2 EvCommandThread) with [EvCommandThread; EvCommandThread].
    rewrite run_events_app, Hrun1. step_bind. split_and!; [done|done| |by rewrite Hres, Hres1].
    rewrite Hs, Hs1, Hret1, <- (assoc_L app). f_equal.
    rewrite (burst_drop _ (Z.to_nat i)) by lia. rewrite Z2Nat.id by done. cbn [app]. do 3 f_equal. lia.
Qed.

(** C21: the retry loop terminates.  If Picard never answers, the command thread is
    back at the head of the loop after [2 * m_retries + 1] steps, having sent the
    command exactly [m_retries] times and, for a client's command, having reset
    the connection once. *)
Theorem retry_loop_terminates retries seq es w cmd :
  Forall event_ok es -> run_events (new_world retries (new_recorder seq)) es = Ok w ->
  w_pc w = Sending cmd 0 -> sc_result (m_currentCommand (w_mgr w)) = CLIENT_TIMEOUT ->
  let k := Z.to_nat (m_retries (w_mgr w)) in
  exists w', run_events w (replicate (2 * k + 1) EvCommandThread) = Ok w' /\ w_pc w' = AtHead /\
    rec_sent (w_rest w') = rec_sent (w_rest w) ++ burst (sc_command cmd) k /\
    rec_resets (w_rest w')
      = (rec_resets (w_rest w) + if bool_decide (is_Some (sc_client cmd)) then 1 else 0)%nat.
Proof.
  intros Hes Hrun Hpc Hr k.
  apply (tries_terminate k w cmd 0); [by eapply reachable_inv|done|unfold k; f_equal; lia|done].
Qed.

(** C22: a client's departure.  [removeClient] of a registered client forgets it,
    recomputes the union over the clients that remain and, exactly if the union
    changed, queues one [SUBSCRIBE] without a client whose payload is the new
    union. *)
Theorem resubscribe_on_removal {P} `{IPicardIO P} retries (p : P) es w client :
  Forall event_ok es -> run_events (new_world retries p) es = Ok w ->
  client ∈ m_clients (w_mgr w) ->
  let g := w_mgr w in
  exists g', mgr_removeClient g client = Ok g' /\
    (forall c, c ∈ m_clients g' <-> c ∈ m_clients g /\ c <> client) /\
    (forall n, 0 <= n ->
       Z.testbit (filter (m_filterUnion g')) n
       = existsb (fun c => Z.testbit (filter (client_params (m_heap g) c)) n) (m_clients g') /\
       Z.testbit (unreliable (m_filterUnion g')) n
       = existsb (fun c => Z.testbit (unreliable (client_params (m_heap g) c)) n) (m_clients g')) /\
    if decide (m_filterUnion g' = m_filterUnion g) then m_queue (m_commands g') = m_queue (m_commands g)
    else exists payload, vectorToFilter payload = Ok (m_filterUnion g') /\
      m_queue (m_commands g') = m_queue (m_commands g) ++
        [new_SClientCommand None (typed_message SUBSCRIBE payload)].
Proof.
  intros Hes Hrun Hin g. pose proof (reachable_inv retries p es w Hes Hrun) as [Hi _]. fold g in Hi, Hin.
  exists (removed g client). split; [by apply removeClient_Ok|].
  assert (Hf : m_clients (removed g client) = erase client (m_clients g) /\
    m_filterUnion (removed g client) = union_of (m_heap g) (erase client (m_clients g))).
  { unfold removed. rewrite decide_True by done. by destruct (union_changed _ _). }
  destruct Hf as [Hc Hu]. rewrite Hc, Hu. split_and!.
  - intros c. apply elem_of_erase, (mi_clients _ Hi).
  - intros n Hn. by rewrite !union_of_bit.
  - unfold removed. rewrite (decide_True (P := client ∈ m_clients g)) by done.
    set (u := union_of _ _).
    assert (Hd : m_queue (m_commands (disconnect_current g)) = m_queue (m_commands g))
      by (unfold disconnect_current; by destruct (sc_client _)).
    assert (Hch : union_changed u (m_filterUnion g) = negb (bool_decide (u = m_filterUnion g))).
    { unfold union_changed. case_bool_decide as Heq; [by rewrite Heq, !Z.eqb_refl|].
      apply not_false_iff_true. intros [H1 H2]%orb_false_iff. apply negb_false_iff, Z.eqb_eq in H1, H2.
      destruct Heq, u as [uf uu], (m_filterUnion g) as [f0 u0]. cbn in H1, H2. congruence. }
    rewrite Hch. case_decide as Heq.
    + by rewrite bool_decide_eq_true_2.
    + rewrite bool_decide_eq_false_2 by done. exists (filter_bytes u). split.
      * rewrite <- (app_nil_r (filter_bytes u)). apply vectorToFilter_bytes, union_of_ok, Hi.
      * cbn [negb push_command set_commands m_commands]. by rewrite push_queue, <- Hd.
Qed.

(** ** Witnesses: two clients of one manager *)

Definition join (client : nat) : list event :=
  [EvAccept client sample_auth 4; EvClient client (ClientData (serialize_message sample_hello))].
Definition command (client : nat) (m : CMuxMessage) : event :=
  EvClient client (ClientData (serialize_message m)).
Definition subscribe (bits : Z) : CMuxMessage :=
  {| m_data := filter_bytes {| filter := bits; unreliable := 0 |}; m_type := SUBSCRIBE; m_id := 0 |}.

(** Client 1 subscribes to types 1 and 2 with success; client 2's subscription to
    type 3 is then taken from the queue ([prepared]) and sent ([waiting]). *)
Definition prepared_events : list event :=
  [EvCommandThread] ++ join 1 ++ join 2 ++
  [command 1 (subscribe 6); EvCommandThread; EvCommandThread;
   EvComplete SUBSCRIBE 9 ERR_OK []; EvCommandThread;
   command 2 (subscribe 8); EvCommandThread].
Definition waiting_events : list event := prepared_events ++ [EvCommandThread].

Definition reached (es : list event) : world picard_recorder :=
  match run_events (new_world 2 (new_recorder 9)) es with
  | Ok w => w | Undefined _ => new_world 2 (new_recorder 9) end.

Lemma prepared_run : run_events (new_world 2 (new_recorder 9)) prepared_events = Ok (reached prepared_events).
Proof. vm_compute. reflexivity. Qed.
Lemma waiting_run : run_events (new_world 2 (new_recorder 9)) waiting_events = Ok (reached waiting_events).
Proof. vm_compute. reflexivity. Qed.
Lemma waiting_ok : Forall event_ok waiting_events.
Proof. repeat (apply Forall_cons; split; [by vm_compute|]). done. Qed.
Lemma prepared_ok : Forall event_ok prepared_events.
Proof. repeat (apply Forall_cons; split; [by vm_compute|]). done. Qed.

Lemma manager_safety_witness :
  defined (exec (reached waiting_events) (EvNotif 32 [])) = false.
Proof.
  refine (proj2 (manager_safety 2 (new_recorder 9) waiting_events (reached waiting_events)
    (EvNotif 32 []) waiting_ok waiting_run I) _).
  split; [lia|]. vm_compute. discriminate.
Defined.

Lemma manager_invariant_witness :
  m_clients (w_mgr (reached waiting_events)) = [1%nat; 2%nat] /\
  NoDup (m_clients (w_mgr (reached waiting_events))).
Proof.
  split; [vm_compute; reflexivity|].
  exact (proj1 (manager_invariant 2 (new_recorder 9) waiting_events (reached waiting_events)
    waiting_ok waiting_run)).
Defined.

Lemma response_routing_witness :
  exists w', exec (reached waiting_events) (EvComplete SUBSCRIBE 9 ERR_OK [7]) = Ok w' /\
    sc_result (m_currentCommand (w_mgr w')) = CLIENT_OK.
Proof.
  destruct (response_routing 2 (new_recorder 9) waiting_events (reached waiting_events) SUBSCRIBE 9 ERR_OK [7]
    waiting_ok waiting_run eq_refl) as (w' & Hx & _ & Hm).
  exists w'. split; [exact Hx|]. apply Hm. vm_compute. reflexivity.
Defined.

Lemma notification_fanout_witness :
  exists w', exec (reached waiting_events) (EvNotif 1 [5]) = Ok w' /\
    w_pc w' = w_pc (reached waiting_events).
Proof.
  destruct (notification_fanout 2 (new_recorder 9) waiting_events (reached waiting_events) 1 [5] waiting_ok waiting_run)
    as (w' & Hx & Hpc & _); [lia|].
  exists w'. split; [exact Hx|exact Hpc].
Defined.

(** Before the resend the queue is empty; client 1 asks for type 4 instead. *)
Lemma subscription_union_sent_witness :
  exists g' cmd', dispatch (w_mgr (reached waiting_events))
      (new_SClientCommand (Some 1%nat) (subscribe 16)) = Ok (g', Some cmd') /\
    vectorToFilter (m_data (sc_command cmd')) = Ok {| filter := 24; unreliable := 0 |}.
Proof.
  destruct (subscription_union_sent 2 (new_recorder 9) waiting_events (reached waiting_events)
    (new_SClientCommand (Some 1%nat) (subscribe 16)) 1 {| filter := 16; unreliable := 0 |}
    waiting_ok waiting_run) as (g' & cmd' & u & Hd & _).
  - reflexivity.
  - vm_decide.
  - reflexivity.
  - cbn. lia.
  - vm_compute. reflexivity.
  - exists g', cmd'. split; [exact Hd|]. vm_compute in Hd. injection Hd as <- <-.
    vm_compute. reflexivity.
Defined.

Lemma timeout_reset_witness :
  let es := waiting_events ++ [EvCommandThread; EvCommandThread; EvCommandThread] in
  exists w', exec (reached es) EvCommandThread = Ok w' /\
    m_clients (w_mgr w') = [] /\ rec_resets (w_rest w') = 1%nat.
Proof.
  intros es.
  destruct (timeout_reset 2 (new_recorder 9) es (reached es)
    (match w_pc (reached es) with Sending cmd _ => cmd | _ => no_command end) 2 2)
    as (w' & Hx & _ & Hrest & Hcl & _).
  - repeat (apply Forall_cons; split; [by vm_compute|]). done.
  - vm_compute. reflexivity.
  - left. split; [vm_compute; reflexivity|vm_compute; discriminate].
  - vm_compute. reflexivity.
  - exists w'. split; [exact Hx|]. split; [exact Hcl|]. rewrite Hrest. vm_compute. reflexivity.
Defined.

Lemma other_disconnect_cancels_witness :
  exists w', run_events (reached waiting_events) [EvClient 1 ClientError; EvCommandThread] = Ok w' /\
    m_clients (w_mgr w') = [] /\ rec_resets (w_rest w') = 1%nat.
Proof.
  destruct (other_disconnect_cancels 2 (new_recorder 9) waiting_events (reached waiting_events)
    (match w_pc (reached waiting_events) with Waiting cmd _ => cmd | _ => no_command end) 0 2 1
    (match m_heap (w_mgr (reached waiting_events)) !! 1%nat with
     | Some cl => cl | None => create [] 0 end))
    as (w' & Hx & Hcl & Hrest & _).
  - exact waiting_ok.
  - exact waiting_run.
  - vm_compute. reflexivity.
  - vm_compute. reflexivity.
  - discriminate.
  - vm_compute. reflexivity.
  - vm_compute. reflexivity.
  - vm_compute. reflexivity.
  - exists w'. split; [exact Hx|]. split; [exact Hcl|]. rewrite Hrest. vm_compute. reflexivity.
Defined.

Lemma rejected_subscription_committed_witness :
  exists g' cl', mgr_commandComplete (w_mgr (reached waiting_events)) SUBSCRIBE 9 ERR_INVALID_ARG []
      = Ok g' /\ filter (m_filterUnion g') = 6 /\ m_heap g' !! 2%nat = Some cl' /\
    isSubscribed (m_subscriber (m_core cl')) 3 = Ok true.
Proof.
  destruct (rejected_subscription_committed (w_mgr (reached waiting_events)) 2
    (match m_heap (w_mgr (reached waiting_events)) !! 2%nat with
     | Some cl => cl | None => create [] 0 end) ERR_INVALID_ARG [])
    as (g' & cl' & Hx & Hu & Hcl & Hs).
  - vm_compute. reflexivity.
  - vm_compute. reflexivity.
  - vm_compute. reflexivity.
  - discriminate.
  - exists g', cl'. split; [exact Hx|]. split; [rewrite Hu; vm_compute; reflexivity|].
    split; [exact Hcl|]. rewrite Hs. vm_compute. reflexivity.
Defined.

Lemma duplicate_response_forwarded_witness :
  exists g1 g2, mgr_commandComplete (w_mgr (reached waiting_events)) SUBSCRIBE 9 ERR_OK [] = Ok g1 /\
    mgr_commandComplete g1 SUBSCRIBE 9 ERR_OK [] = Ok g2.
Proof.
  destruct (duplicate_response_forwarded (w_mgr (reached waiting_events)) 2
    (match m_heap (w_mgr (reached waiting_events)) !! 2%nat with
     | Some cl => cl | None => create [] 0 end) ERR_OK [])
    as (g1 & g2 & H1 & H2 & _).
  - vm_compute. reflexivity.
  - vm_compute. reflexivity.
  - vm_compute. reflexivity.
  - exists g1, g2. split; [exact H1|exact H2].
Defined.

Lemma retry_loop_terminates_witness :
  exists w', run_events (reached prepared_events) (replicate 5 EvCommandThread) = Ok w' /\
    w_pc w' = AtHead /\ rec_resets (w_rest w') = 1%nat.
Proof.
  destruct (retry_loop_terminates 2 9 prepared_events (reached prepared_events)
    (match w_pc (reached prepared_events) with Sending cmd _ => cmd | _ => no_command end))
    as (w' & Hx & Hpc & _ & Hres).
  - exact prepared_ok.
  - exact prepared_run.
  - vm_compute. reflexivity.
  - vm_compute. reflexivity.
  - exists w'. split; [exact Hx|]. split; [exact Hpc|]. rewrite Hres. vm_compute. reflexivity.
Defined.

Lemma resubscribe_on_removal_witness :
  exists g', mgr_removeClient (w_mgr (reached waiting_events)) 1 = Ok g' /\
    2%nat ∈ m_clients g' /\ filter (m_filterUnion g') = 8.
Proof.
  destruct (resubscribe_on_removal 2 (new_recorder 9) waiting_events (reached waiting_events) 1
    waiting_ok waiting_run) as (g' & Hx & Hc & _).
  - vm_decide.
  - exists g'. split; [exact Hx|]. split; [apply Hc; vm_decide|].
    vm_compute in Hx. injection Hx as <-. vm_compute. reflexivity.
Defined.

(** A hello with the wrong token. *)
Definition refused_hello : CMuxMessage := typed_message MUX_HELLO (4 :: replicate 8 9).

Lemma auth_timer_dangling_witness :
  exists w, run_events (new_world 2 (new_recorder 9))
      [EvAccept 7 sample_auth 4; EvClient 7 ClientExpire;
       EvClient 7 (ClientData (serialize_message refused_hello))] = Ok w /\
    exec w (EvClient 7 ClientTimer) = Undefined UseAfterFree.
Proof.
  apply (auth_timer_dangling 2 (new_recorder 9) 7 sample_auth 4 refused_hello).
  - reflexivity.
  - by apply (bool_decide_unpack _).
  - reflexivity.
  - vm_compute. discriminate.
Defined.
