(* ===== verification/CommandOrder.v ===== *)
(** * What reaches Picard, and in which order

    The commands of the clients go through the queue of the manager one after the
    other: what the command thread takes from it is what the clients' parsers
    delivered, in order, and what it sends is what it took, less the commands it
    answers itself, each a bounded number of times. *)

From Stdlib Require Import ZArith Lia.
From stdpp Require Import base list gmap.
From S2P Require Import Prelude Common Subscriber SyncQueue MuxMessage BasePicard BoostClient.
From S2P Require Import ClientManager ManagerSpec.
#[local] Open Scope Z_scope.

(** ** What goes into the queue *)

(** The calls of [addCommand] among those a client makes. *)
Definition commands_of (log : client_log) : list (nat * CMuxMessage) :=
  omap (fun call => match call with CallCommand c m => Some (c, m) | _ => None end) log.

(** What a client's event calls [addCommand] with. *)
Definition delivered (client : nat) (cl : CBoostClient) (e : client_event) : list (nat * CMuxMessage) :=
  match e with
  | ClientData data =>
      match client_exec client (cl, [] : client_log) (ClientData data) with
      | Ok (_, log) => commands_of log | Undefined _ => []
      end
  | _ => []
  end.

Definition arrived {P} (w : world P) (e : event) : list (nat * CMuxMessage) :=
  match e with
  | EvClient client e =>
      match m_heap (w_mgr w) !! client with Some cl => delivered client cl e | None => [] end
  | _ => []
  end.

Fixpoint arrivals {P} `{IPicardIO P} (w : world P) (es : list event) : list (nat * CMuxMessage) :=
  match es with
  | [] => []
  | e :: es =>
      arrived w e ++ match exec w e with Ok w' => arrivals w' es | Undefined _ => [] end
  end.

(** The commands of clients among queue entries; the manager's own subscriptions
    have no client. *)
Definition client_commands (l : list SClientCommand) : list (nat * CMuxMessage) :=
  omap (fun cmd => c ← sc_client cmd; Some (c, sc_command cmd)) l.

Lemma client_commands_app l1 l2 : client_commands (l1 ++ l2) = client_commands l1 ++ client_commands l2.
Proof. apply omap_app. Qed.

Definition queue_of {P} (w : world P) : list SClientCommand := m_queue (m_commands (w_mgr w)).

(** A read makes the same calls on every client list: the manager does what the
    log says. *)
Definition replay_call (g : CBoostClientManager) (call : client_call) : CBoostClientManager :=
  match call with
  | CallAdd c => mgr_addClient g c
  | CallRemove _ => g
  | CallCommand c m => mgr_addCommand g c m
  end.

Definition logged (g0 : CBoostClientManager) (s : client_core * CBoostClientManager)
  (s' : client_core * client_log) : Prop :=
  s'.1 = s.1 /\ s.2 = foldl replay_call g0 s'.2.

Lemma replay_queue log g :
  client_commands (m_queue (m_commands (foldl replay_call g log)))
  = client_commands (m_queue (m_commands g)) ++ commands_of log.
Proof.
  revert g. induction log as [|call log IH]; intros g; cbn [foldl]; [by rewrite app_nil_r|].
  rewrite IH. destruct call as [c|c|c m]; cbn [replay_call]; [done|done|].
  unfold mgr_addCommand, push_command. cbn [set_commands m_commands].
  by rewrite push_queue, client_commands_app, <- (assoc_L (++)).
Qed.

Lemma command_logged g0 client s s' msg t :
  logged g0 s s' -> client_handleCommand client s msg = Ok t ->
  exists t', client_handleCommand client s' msg = Ok t' /\ logged g0 t t'.
Proof.
  destruct s as [c g], s' as [c' log]. intros [Hc Hg]. cbn [fst snd] in Hc, Hg. subst c' g.
  unfold client_handleCommand. destruct (isInitialized c).
  { intros [= <-]. eexists. split; [done|]. split; [done|]. cbn. unfold push_back. by rewrite foldl_app. }
  destruct (_ && _); [|intros [= <-]; by eexists].
  intros Hx. apply bind_Ok_inv in Hx as (code & Hcode & Hx). rewrite Hcode. step_bind. revert Hx.
  destruct (code =? ERR_OK); intros [= <-]; eexists; (split; [done|]); (split; [done|]); [|done].
  cbn. unfold push_back. by rewrite foldl_app.
Qed.

Lemma exec_data_logged client cl g data cl' g' :
  client_exec client (cl, g) (ClientData data) = Ok (cl', g') ->
  exists log, client_exec client (cl, [] : client_log) (ClientData data) = Ok (cl', log) /\
    g' = foldl replay_call g log.
Proof.
  cbn [client_exec]. destruct (m_reading cl && _); [|intros [= <- <-]; by exists []].
  destruct data as [|b data]; [intros [= <- <-]; by exists []|]. cbn [handle_read]. intros Hx.
  apply bind_Ok_inv in Hx as ([p [c g1]] & Hp & [= <- <-]).
  assert (H0 : logged g (m_core cl, g) (m_core cl, [])) by done.
  destruct (@parser_read_related _ _ (client_ICommandCallback client) (client_ICommandCallback client)
    (logged g) _ _ _ _ _ _ (command_logged g client) H0 Hp) as ([c' log] & Hl & Hc & Hg).
  cbn [fst snd] in Hc, Hg. subst c'. exists log. split; [|done].
  exact (f_equal (mbind _) Hl).
Qed.

(** ** What leaves the queue *)

Lemma pop_front_split {T} (q q' : CSyncQueue T) o :
  pop_front q = (o, q') -> m_queue q = option_list o ++ m_queue q'.
Proof. unfold pop_front. destruct (m_queue q) eqn:Hq; intros [= <- <-]; by rewrite ?Hq. Qed.

Lemma timedPop_enter_queue {T} (q q' : CSyncQueue T) t res :
  timedPop_enter t q = (res, q') -> m_queue q = option_list (default None res) ++ m_queue q'.
Proof.
  unfold timedPop_enter. destruct (queue_empty q); [by intros [= <- <-]|].
  destruct (pop_front q) as [o q1] eqn:Hp. intros [= <- <-]. by apply pop_front_split in Hp.
Qed.

Lemma removed_queue g client :
  client_commands (m_queue (m_commands (removed g client))) = client_commands (m_queue (m_commands g)).
Proof.
  unfold removed, disconnect_current. repeat case_match; try done;
    unfold push_command; cbn [set_commands m_commands];
    by rewrite push_queue, client_commands_app, app_nil_r.
Qed.

Lemma client_exec_queue client cl g e cl' g' :
  mgr_inv g -> client_exec client (cl, g) e = Ok (cl', g') ->
  client_commands (m_queue (m_commands g'))
  = client_commands (m_queue (m_commands g)) ++ delivered client cl e.
Proof.
  intros Hi Hx. destruct e as [data| | |]; cbn [delivered].
  - apply exec_data_logged in Hx as (log & -> & ->). apply replay_queue.
  - rewrite app_nil_r. revert Hx. cbn [client_exec]. destruct (m_reading cl); [|by intros [= _ <-]].
    cbn [handle_read]. case_bool_decide; [|by intros [= _ <-]]. cbn [removeClient manager_list].
    rewrite removeClient_Ok by done. intros [= _ <-]. apply removed_queue.
  - rewrite app_nil_r. by injection Hx as _ <-.
  - rewrite app_nil_r. revert Hx. cbn [client_exec]. by destruct (m_authTimeout (m_core cl)); intros [= _ <-].
Qed.

Lemma destroyed_delivers_nothing client cl e : m_reading cl = false -> delivered client cl e = [].
Proof. intros Hr. destruct e; [|done..]. cbn. by rewrite Hr. Qed.

(** Every other event leaves the queue as it is, adds what arrived and perhaps a
    subscription of the manager's, or clears it. *)
Lemma exec_queue {P} `{IPicardIO P} (w w' : world P) e :
  world_inv w -> e <> EvCommandThread -> exec w e = Ok w' ->
  (e = EvStop /\ queue_of w' = []) \/
  client_commands (queue_of w') = client_commands (queue_of w) ++ arrived w e.
Proof.
  intros [Hi _] Hne. assert (Hsame : forall m, (forall g, m = Ok g -> m_commands g = m_commands (w_mgr w)) ->
    with_mgr w m = Ok w' -> client_commands (queue_of w') = client_commands (queue_of w) ++ []).
  { intros m Hm Hx. unfold with_mgr in Hx. apply bind_Ok_inv in Hx as (g & Hg & [= <-]).
    unfold queue_of. cbn. by rewrite (Hm g Hg), app_nil_r. }
  destruct e as [| |client auth version|client e|t q rc p|t p| |]; cbn [exec arrived]; [done|..].
  - intros [= <-]. right. by rewrite app_nil_r.
  - right. destruct (m_heap (w_mgr w) !! client); [simplify_eq; by rewrite app_nil_r|].
    revert H0. apply Hsame. by intros g [= <-].
  - intros Hx. right. destruct (m_heap (w_mgr w) !! client) as [cl|] eqn:Hcl;
      [|simplify_eq; by rewrite app_nil_r].
    destruct (referenced _ _ _ _) eqn:Href.
    + apply bind_Ok_inv in Hx as ([cl' g'] & Hx & [= <-]). exact (client_exec_queue _ _ _ _ _ _ Hi Hx).
    + apply bind_Ok_inv in Hx as (cl' & _ & [= <-]). unfold referenced in Href.
      apply orb_false_iff in Href as [[Href _]%orb_false_iff _].
      by rewrite destroyed_delivers_nothing, app_nil_r.
  - intros Hx. right. revert Hx. apply Hsame. intros g Hg. by apply complete_same in Hg as (? & _).
  - intros Hx. right. revert Hx. apply Hsame. intros g Hg. by apply handleNotif_same in Hg as (? & _).
  - intros Hx. right. apply bind_Ok_inv in Hx as ([g p] & Hx & [= <-]).
    apply bind_Ok_inv in Hx as (g1 & Hg & [= <- <-]). apply closeClients_same in Hg as (Hg & _).
    unfold queue_of. cbn. by rewrite Hg, app_nil_r.
  - intros [= <-]. by left.
Qed.

(** What is sent for a command: a [SUBSCRIBE] with the union of the filters as its
    data, anything else as it came. *)
Definition passes (cmd : SClientCommand) (m : CMuxMessage) : Prop :=
  m_type m = m_type (sc_command cmd) /\ m_id m = m_id (sc_command cmd) /\
  (m_type m <> SUBSCRIBE -> m = sc_command cmd).

Lemma dispatch_passes g cmd g' cmd' :
  dispatch g cmd = Ok (g', Some cmd') -> passes cmd (sc_command cmd').
Proof.
  unfold dispatch. destruct (negb _); [done|]. destruct (_ =? MUX_INFO).
  { destruct (sc_client cmd); [|done]. intros Hx. by inv_bind. }
  destruct (_ || _); [intros Hx; by inv_bind|].
  intros Hx. apply bind_Ok_inv in Hx as ([g1 cmd1] & Hx & [= _ <-]). revert Hx.
  destruct (sc_client cmd) as [c|]; [|by intros [= _ <-]].
  destruct (Z.eqb_spec (m_type (sc_command cmd)) SUBSCRIBE) as [Hs|Hs]; [|by intros [= _ <-]].
  intros Hx. apply bind_Ok_inv in Hx as (params & _ & Hx). apply bind_Ok_inv in Hx as (g2 & H2 & Hx).
  apply bind_Ok_inv in Hx as ([b g3] & H3 & Hx). apply bind_Ok_inv in Hx as (d & _ & [= _ <-]). by split_and!.
Qed.

(** ** What is sent *)

Definition legal (m : CMuxMessage) : Prop :=
  isPicardApiCommand (m_type m) = true /\ message_size m <= MAX_SERIAL_API_CMD_LEN.

Definition bursts (groups : list (CMuxMessage * nat)) : list (CMuxMessage * bool) :=
  concat ((fun mn => burst mn.1 mn.2) <$> groups).

Definition group_ok (retries : Z) (mn : CMuxMessage * nat) : Prop :=
  legal mn.1 /\ (1 <= mn.2)%nat /\ Z.of_nat mn.2 <= retries.

(** The number of sends of the command in progress. *)
Definition in_progress (pc : loop_pc) : option (CMuxMessage * nat) :=
  match pc with
  | Sending cmd i => Some (sc_command cmd, Z.to_nat i)
  | Waiting cmd i => Some (sc_command cmd, S (Z.to_nat i))
  | _ => None
  end.

(** The commands started, the sends, and the command in progress, whose group is
    the last and may still be empty. *)
Definition sent_groups (retries : Z) (started : list SClientCommand)
  (sent : list (CMuxMessage * bool)) (pc : loop_pc) : Prop :=
  exists groups, Forall (group_ok retries) groups /\
    match in_progress pc with
    | Some (m, n) => Forall2 passes started (groups.*1 ++ [m]) /\ sent = bursts groups ++ burst m n /\
                     legal m /\ Z.of_nat n <= Z.max 0 retries
    | None => Forall2 passes started groups.*1 /\ sent = bursts groups
    end.

Lemma bursts_snoc groups m n : bursts (groups ++ [(m, n)]) = bursts groups ++ burst m n.
Proof. unfold bursts. rewrite fmap_app, concat_app. cbn. by rewrite app_nil_r. Qed.

(** A command taken from the queue is started. *)
Lemma groups_open retries started sent pc cmd cmd' :
  sent_groups retries started sent pc -> in_progress pc = None ->
  passes cmd (sc_command cmd') -> legal (sc_command cmd') ->
  sent_groups retries (started ++ [cmd]) sent (Sending cmd' 0).
Proof.
  intros (groups & Hg & Hp) Hpc Hpass Hm. rewrite Hpc in Hp. destruct Hp as [Hp ->].
  exists groups. split; [done|]. cbn. rewrite app_nil_r. split; [|by split_and!; [| |lia]].
  apply Forall2_app; [done|]. constructor; [exact Hpass|constructor].
Qed.

(** One more send of the command in progress. *)
Lemma groups_send retries started sent cmd i :
  0 <= i < retries -> sent_groups retries started sent (Sending cmd i) ->
  sent_groups retries started (push_back sent (sc_command cmd, negb (i =? 0))) (Waiting cmd i).
Proof.
  intros Hi (groups & Hg & Hp & -> & Hm & Hn). exists groups. split; [done|]. cbn [in_progress].
  split; [done|]. split; [|by split_and!; [|lia]].
  unfold push_back. by rewrite burst_snoc, (assoc_L (++)), Z2Nat.id by lia.
Qed.

Lemma groups_retry retries started sent cmd i :
  0 <= i -> sent_groups retries started sent (Waiting cmd i) ->
  sent_groups retries started sent (Sending cmd (i + 1)).
Proof.
  intros Hi Hs. unfold sent_groups in *. cbn [in_progress] in *.
  by replace (Z.to_nat (i + 1)) with (S (Z.to_nat i)) by lia.
Qed.

(** The command in progress is done: its group is complete, or it was never sent. *)
Lemma groups_close retries started sent pc :
  sent_groups retries started sent pc ->
  exists started', started' `sublist_of` started /\ sent_groups retries started' sent AtHead.
Proof.
  intros (groups & Hg & Hp). unfold sent_groups. cbn [in_progress].
  destruct (in_progress pc) as [[m n]|]; [|by exists started; split; [|exists groups]].
  destruct Hp as (Hp & Hsent & Hm & Hn).
  apply Forall2_app_inv_r in Hp as (l1 & l2 & Hp1 & Hp2 & ->). destruct n as [|n].
  - exists l1. split; [by apply sublist_inserts_r|]. exists groups. rewrite app_nil_r in Hsent. by split_and!.
  - exists (l1 ++ l2). split; [done|]. exists (groups ++ [(m, S n)]). rewrite bursts_snoc, fmap_app. split.
    + apply Forall_app. split; [done|]. apply Forall_singleton. split_and!; [done|cbn; lia|cbn; lia].
    + split; [by apply Forall2_app|done].
Qed.

(** ** The order along a run *)

(** What has been taken from the queue and what is in it are what has arrived; some
    may be missing once the queue has been cleared. *)
Definition in_order (lost : bool) (arr : list (nat * CMuxMessage)) (l : list SClientCommand) : Prop :=
  client_commands l `sublist_of` arr /\ (lost = false -> client_commands l = arr).

Definition order_inv (retries : Z) (lost : bool) (arr : list (nat * CMuxMessage))
  (w : world picard_recorder) : Prop :=
  m_retries (w_mgr w) = retries /\
  exists taken started, started `sublist_of` taken /\
    sent_groups retries started (rec_sent (w_rest w)) (w_pc w) /\
    in_order lost arr (taken ++ queue_of w).

Lemma order_after_pop retries lost arr w popped w' taken started :
  world_inv w -> (w_pc w = AtHead \/ w_pc w = InPop) ->
  (forall cmd, popped = Some cmd -> entry_ok (m_heap (w_mgr w)) cmd /\
     ~ short_subscribe (w_mgr w) cmd) ->
  m_retries (w_mgr w) = retries -> started `sublist_of` taken ->
  sent_groups retries started (rec_sent (w_rest w)) AtHead ->
  in_order lost arr (taken ++ option_list popped ++ queue_of w) ->
  after_pop w popped = Ok w' -> order_inv retries lost arr w'.
Proof.
  intros [Hi Hpc] Hat Hcmd Hr Hst Hsent Hin Heq.
  assert (Hcur : m_currentCommand (w_mgr w) = no_command) by (by destruct Hat as [Ha|Ha]; rewrite Ha in Hpc).
  destruct popped as [cmd|]; cbn [after_pop] in Heq; cbn [option_list app] in Hin.
  2: { injection Heq as <-. split; [done|]. by exists taken, started. }
  destruct (Hcmd cmd eq_refl) as [He Hs].
  destruct (dispatch_Ok _ cmd Hi Hcur He Hs) as (g' & next & Hd & _ & Hr' & Hnext).
  rewrite Hd in Heq. injection Heq as <-. pose proof (dispatch_same _ _ _ _ Hd) as (Hq & _ & _).
  split; [cbn; congruence|]. exists (taken ++ [cmd]). unfold queue_of in *. cbn [w_mgr w_rest w_pc].
  rewrite Hq, <- (assoc_L (++)). destruct next as [cmd'|].
  - exists (started ++ [cmd]). split; [by apply sublist_app|]. split; [|done].
    destruct Hnext as [(Ha & Hsz & _) _].
    eapply groups_open; [exact Hsent|done|by eapply dispatch_passes|by split].
  - exists started. split; [by apply sublist_inserts_r|done].
Qed.

Lemma order_finish retries lost arr g p cmd r w' taken started pc :
  m_retries g = retries -> started `sublist_of` taken ->
  sent_groups retries started (rec_sent p) pc -> mgr_inv g -> cmd_ok (m_heap g) cmd ->
  in_order lost arr (taken ++ m_queue (m_commands g)) ->
  ('(g, p) ← finish g p cmd r; Ok {| w_mgr := g; w_rest := p; w_pc := AtHead |}) = Ok w' ->
  order_inv retries lost arr w'.
Proof.
  intros Hr Hst Hsent Hi (_ & _ & _ & Hcl) Hin Heq.
  apply bind_Ok_inv in Heq as ([g' p'] & Hf & [= <-]).
  destruct (finish_same _ _ _ _ _ _ Hf) as (Hq & _ & Hr' & _).
  assert (Hp : rec_sent p' = rec_sent p).
  { revert Hf. destruct (sc_client cmd) as [c|] eqn:Hc.
    - destruct (decide (r = CLIENT_OK)) as [Hrok|Hrok].
      + unfold finish. rewrite Hc, decide_True by done. by intros [= _ <-].
      + rewrite (finish_failed g p cmd c) by auto. by intros [= _ <-].
    - unfold finish. rewrite Hc. by intros [= _ <-]. }
  split; [cbn; congruence|]. destruct (groups_close _ _ _ _ Hsent) as (started' & Hs' & Hsent').
  exists taken, started'. unfold queue_of. cbn [w_mgr w_rest w_pc]. rewrite Hp, Hq.
  split; [by etrans|done].
Qed.

Lemma order_command_thread retries lost arr w w' :
  world_inv w -> order_inv retries lost arr w -> command_thread w = Ok w' -> order_inv retries lost arr w'.
Proof.
  intros Hw Hs Heq.
  assert (Hz : ~ hazard w EvCommandThread).
  { intros Hz. apply hazard_undefined in Hz; [|done]. cbn [exec] in Hz. by rewrite Heq in Hz. }
  destruct w as [g p pc]. pose proof Hw as [Hi Hpc].
  pose proof Hs as (Hr & taken & started & Hst & Hsent & Hin). unfold queue_of in Hin.
  cbn [w_mgr w_rest w_pc] in *. unfold hazard, next_pop in Hz. cbn [w_mgr w_pc] in Hz.
  unfold command_thread in Heq. cbn [w_mgr w_rest w_pc] in Heq.
  destruct pc as [| | |cmd i|cmd i|].
  - injection Heq as <-. split; [done|]. by exists taken, started.
  - revert Hz Heq. destruct (m_loop g); [|intros _ [= <-]; split; [done|by exists taken, started]].
    intros Hz Heq. destruct (timedPop_enter 0%nat (m_commands g)) as [res q] eqn:He.
    pose proof (timedPop_enter_queue _ _ _ _ He) as Hq.
    apply timedPop_enter_elements in He as [-> Hsub].
    destruct (head (m_queue (m_commands g))) as [cmd|] eqn:Hh;
      cbn [fmap option_fmap option_map default option_list app id] in Heq, Hq.
    + rewrite Hq in Hin. eapply (order_after_pop retries lost arr _ (Some cmd)); [..|exact Heq]; try done.
      * split; [by apply mgr_inv_sub|done].
      * by left.
      * intros cmd' [= <-]. apply (popped_ok g (Some cmd)); [done|done| |done]. by intros ? [= <-].
    + injection Heq as <-. rewrite Hq in Hin. split; [done|]. by exists taken, started.
  - revert Hz Heq. case_decide; [|intros _ [= <-]; by split; [|exists taken, started]]. intros Hz Heq.
    destruct (timedPop_resume 0%nat (m_commands g)) as [popped q] eqn:Hrs.
    pose proof (pop_front_split _ _ _ Hrs) as Hq. cbn [m_queue] in Hq.
    apply pop_front_elements in Hrs as [Hpop Hsub]. cbn [m_queue] in Hpop, Hsub.
    rewrite Hq in Hin. eapply (order_after_pop retries lost arr _ popped); [..|exact Heq]; try done.
    + split; [by apply mgr_inv_sub|done].
    + by right.
    + apply (popped_ok g); [done|done|]. intros cmd ->. by rewrite <- Hpop in Hz.
  - destruct Hpc as (Hok & Hn & _). destruct (Z.ltb_spec i (m_retries g)).
    + injection Heq as <-. split; [done|]. exists taken, started. split; [done|]. split; [|done].
      apply groups_send; [lia|done].
    + by eapply order_finish.
  - destruct Hpc as (Hok & Hn & _). revert Heq. case_decide; intros Heq; [|by eapply order_finish].
    injection Heq as <-. split; [done|]. exists taken, started. split; [done|]. split; [|done].
    by apply groups_retry.
  - injection Heq as <-. split; [done|]. by exists taken, started.
Qed.

Definition is_stop (e : event) : bool := match e with EvStop => true | _ => false end.

Lemma order_exec retries lost arr w e w' :
  world_inv w -> event_ok e -> order_inv retries lost arr w -> exec w e = Ok w' ->
  order_inv retries (lost || is_stop e) (arr ++ arrived w e) w'.
Proof.
  intros Hw He Hs Heq.
  assert (Hc : e = EvCommandThread \/ e <> EvCommandThread) by (destruct e; auto; by right).
  destruct Hc as [->|Hc].
  { rewrite orb_false_r, app_nil_r. by eapply order_command_thread. }
  assert (Hz : ~ hazard w e).
  { intros Hz. apply hazard_undefined in Hz; [|done]. by rewrite Heq in Hz. }
  pose proof (exec_queue w w' e Hw Hc Heq) as Hq.
  destruct (exec_other w e Hw He Hz Hc) as (g' & p' & Hx & (_ & _ & _ & _ & _ & Hr) & Hp).
  rewrite Heq in Hx. injection Hx as ->. destruct Hs as (Hret & taken & started & Hst & Hsent & Hsub & Hall).
  split; [cbn; congruence|]. exists taken, started. split; [done|]. split.
  { cbn [w_pc w_rest]. by destruct Hp as [-> | ->]. }
  rewrite client_commands_app in *. destruct Hq as [[-> Hq]|Hq].
  - rewrite Hq, !app_nil_r, orb_true_r. split; [|done]. etrans; [|exact Hsub]. by apply sublist_inserts_r.
  - unfold in_order. rewrite client_commands_app, Hq, (assoc_L (++)). split; [by apply sublist_app|].
    intros Hl. apply orb_false_iff in Hl as [Hl _]. by rewrite (Hall Hl).
Qed.

Lemma order_run retries es lost arr w w' :
  world_inv w -> Forall event_ok es -> order_inv retries lost arr w -> run_events w es = Ok w' ->
  order_inv retries (lost || existsb is_stop es) (arr ++ arrivals w es) w'.
Proof.
  intros Hw Hes. revert lost arr w Hw. induction Hes as [|e es He _ IH]; intros lost arr w Hw Hs.
  - intros [= <-]. by rewrite orb_false_r, app_nil_r.
  - unfold run_events. cbn [foldM arrivals existsb]. intros Hx. apply bind_Ok_inv in Hx as (w1 & Hw1 & Hx).
    rewrite Hw1, (assoc_L (++)), orb_assoc. apply IH; [by eapply exec_inv|by eapply order_exec|done].
Qed.

(** ** Properties *)

(** C13: what reaches Picard, and in which order.  Over any run, the commands of
    clients taken from the queue, and after them those still in it, are the
    commands the clients' reads have delivered, in the order of their arrival
    (a part of them once [stop] has cleared the queue).  The calls of [sendCommand]
    belong to commands taken, in the order in which they were taken: each has the
    type and identifier of its command and, but for a [SUBSCRIBE], its data; is a
    Serial API command of at most 128 bytes; and is sent between one and
    [m_retries] times, the first time without and then always with the
    retransmission flag. *)
Theorem commands_to_picard retries seq es w :
  Forall event_ok es -> run_events (new_world retries (new_recorder seq)) es = Ok w ->
  exists taken started groups,
    (client_commands (taken ++ queue_of w) `sublist_of` arrivals (new_world retries (new_recorder seq)) es /\
     (existsb is_stop es = false ->
      client_commands (taken ++ queue_of w) = arrivals (new_world retries (new_recorder seq)) es)) /\
    started `sublist_of` taken /\ Forall2 passes started groups.*1 /\
    Forall (group_ok retries) groups /\ rec_sent (w_rest w) = bursts groups.
Proof.
  intros Hes Hrun.
  assert (H0 : order_inv retries false [] (new_world retries (new_recorder seq))).
  { split; [done|]. exists [], []. split; [done|]. split; [by exists []|by split]. }
  destruct (order_run _ _ _ _ _ _ (new_world_inv _ _) Hes H0 Hrun)
    as (_ & taken & started & Hst & Hsent & Hsub & Hall).
  apply groups_close in Hsent as (started' & Hst' & groups & Hg & Hp & Hs).
  exists taken, started', groups. split; [split; [done|]|by split_and!; [etrans|..]].
  intros Hstop. by apply Hall.
Qed.

(** ** Witness: the subscriptions of two clients *)

Lemma commands_to_picard_witness :
  exists taken started groups,
    client_commands (taken ++ queue_of (reached waiting_events)) = [(1%nat, subscribe 6); (2%nat, subscribe 8)] /\
    started `sublist_of` taken /\ Forall2 passes started groups.*1 /\ Forall (group_ok 2) groups /\
    rec_sent (w_rest (reached waiting_events)) = bursts groups /\ length groups = 2%nat.
Proof.
  destruct (commands_to_picard 2 9 waiting_events (reached waiting_events) waiting_ok waiting_run)
    as (taken & started & groups & [_ Ha] & Hst & Hp & Hg & Hs).
  exists taken, started, groups. split; [|split_and!; [exact Hst|exact Hp|exact Hg|exact Hs|]].
  { rewrite Ha; vm_compute; reflexivity. }
  destruct groups as [|[m1 [|[|n1]]] [|[m2 [|[|n2]]] [|[m3 [|n3]] groups]]];
    vm_compute in Hs; try discriminate Hs; try reflexivity;
    rewrite !Forall_cons in Hg; destruct Hg as (Hg1 & Hg2); unfold group_ok in *; cbn in *; lia.
Defined.
