(* ===== verification/ClientStream.v ===== *)
(** * From a client's bytes to the queue

    [CommandOrder] follows commands from the queue to Picard; here are the bytes of
    one client, cut into reads anywhere and interleaved with every other event of
    the manager: what the client's reads deliver is what its byte stream says. *)

From Stdlib Require Import ZArith Lia.
From stdpp Require Import base list gmap.
From S2P Require Import Prelude Common Subscriber SyncQueue MuxMessage BasePicard BoostClient.
From S2P Require Import ClientManager ManagerSpec CommandOrder.
#[local] Open Scope Z_scope.

(** ** The messages of a byte stream *)

Lemma next_command_bytes l c rest :
  bytes_ok l -> next_command l = Some (c, rest) ->
  bytes_ok c /\ bytes_ok rest /\ Z.of_nat (length c) < 65536.
Proof.
  intros Hl. unfold next_command. destruct (_ =? _)%nat; [done|].
  assert (Hd : bytes_ok (drop (search l MAGIC_TOKEN + 4) l)) by (by apply Forall_drop).
  destruct (drop _ l) as [|b1 [|b2 body]]; try done.
  apply Forall_cons in Hd as [H1 Hd]. apply Forall_cons in Hd as [H2 Hd].
  destruct (_ <=? _)%nat; [|done]. intros [= <- <-].
  split; [by apply Forall_take|]. split; [by apply Forall_drop|].
  rewrite length_take. unfold is_u8 in *. lia.
Qed.

Lemma parse_message_ok c :
  bytes_ok c -> Z.of_nat (length c) < 65536 -> message_ok (parse_message c).
Proof.
  intros Hc Hl. unfold parse_message. destruct c as [|d0 [|d1 [|d2 rest]]]; try (by split; [|cbn; lia]).
  apply Forall_cons in Hc as [H0 Hc]. apply Forall_cons in Hc as [H1 _].
  split; cbn [m_id m_data] in *; [|cbn [length] in Hl; lia].
  apply (lor_range 16); [done|unfold u16; apply Z.mod_pos_bound; lia|].
  unfold is_u8 in H1. lia.
Qed.

Lemma commands_bytes l cs r :
  bytes_ok l -> commands l cs r -> bytes_ok r /\ Forall message_ok (parse_message <$> cs).
Proof.
  intros Hl Hc. induction Hc as [l Hn|l c rest cs r Hn _ IH]; [by split|].
  destruct (next_command_bytes l c rest Hl Hn) as (Hb & Hr & Hlen).
  destruct (IH Hr) as [? ?]. split; [done|]. cbn. constructor; [by apply parse_message_ok|done].
Qed.

Lemma trim_bytes l : bytes_ok l -> bytes_ok (trim l).
Proof. intros Hl. unfold trim. destruct (_ && _); [by apply Forall_drop|done]. Qed.

Lemma session_app version auth ms ms' :
  session version auth (ms ++ ms')
  = match session version auth ms with
    | Some (code, rest) => Some (code, rest ++ ms') | None => session version auth ms'
    end.
Proof. induction ms as [|m ms IH]; [done|]. cbn. by destruct (_ =? _). Qed.

(** ** One client *)

(** The messages after an accepted hello. *)
Definition accepted (o : option (Z * list CMuxMessage)) : list CMuxMessage :=
  match o with Some (code, rest) => if code =? ERR_OK then rest else [] | None => [] end.

(** What a client in this state has delivered of a session. *)
Definition heard (st : InitState) (o : option (Z * list CMuxMessage)) (arr : list CMuxMessage) : Prop :=
  match st with
  | WAITING => o = None /\ arr = []
  | AUTHENTICATED => o = Some (ERR_OK, arr)
  | BAD_INIT | CLOSED => arr `prefix_of` accepted o
  end.

Lemma heard_prefix st o arr : heard st o arr -> arr `prefix_of` accepted o.
Proof. destruct st; [intros [-> ->]|intros ->|done|done]; done. Qed.

Lemma accepted_more version auth ms ms' arr :
  arr `prefix_of` accepted (session version auth ms) ->
  arr `prefix_of` accepted (session version auth (ms ++ ms')).
Proof.
  rewrite session_app. destruct (session _ _ ms) as [[code rest]|]; cbn.
  - intros Hp. etrans; [exact Hp|]. destruct (_ =? _); [by apply prefix_app_r|done].
  - intros ->%prefix_nil_inv. apply prefix_nil.
Qed.

Lemma commands_of_forwarded this log ms :
  commands_of (foldl (fun l msg => addCommand l this msg) log ms) = commands_of log ++ ((this,.) <$> ms).
Proof.
  revert log. induction ms as [|m ms IH]; intros log; cbn [foldl]; [by rewrite app_nil_r|].
  rewrite IH. cbn. unfold push_back, commands_of. rewrite omap_app, <- (assoc_L (++)). done.
Qed.

(** The messages of one read. *)
Lemma heard_messages this c ms0 arr ms :
  length (m_expectedAuth c) = AUTHENTICATION_LEN -> Forall message_ok ms ->
  heard (m_initState c) (session (m_version c) (m_expectedAuth c) ms0) arr ->
  exists c' log new, foldM (client_handleCommand this) (c, [] : client_log) ms = Ok (c', log) /\
    commands_of log = (this,.) <$> new /\
    m_expectedAuth c' = m_expectedAuth c /\ m_version c' = m_version c /\
    heard (m_initState c') (session (m_version c) (m_expectedAuth c) (ms0 ++ ms)) (arr ++ new).
Proof.
  intros Ha Hms Hh. destruct (m_initState c) eqn:Hst; cbn [heard] in Hh.
  - destruct Hh as [Hs ->]. rewrite messages_waiting by done. unfold session_result.
    rewrite session_app, Hs. destruct (session _ _ ms) as [[code rest]|] eqn:Hs1.
    + cbn zeta. destruct (code =? ERR_OK) eqn:Hcode.
      * eexists _, _, rest. split; [done|]. split; [by rewrite commands_of_forwarded|].
        split_and!; [done|done|]. cbn. by apply Z.eqb_eq in Hcode as ->.
      * eexists _, _, []. split; [done|]. split_and!; [done..|]. apply prefix_nil.
    + exists c, [], []. split_and!; try done. by rewrite Hst.
  - rewrite messages_authenticated by done. exists c, (foldl (fun m msg => addCommand m this msg) [] ms), ms.
    split; [done|]. split; [by rewrite commands_of_forwarded|]. split_and!; [done|done|].
    rewrite Hst, session_app, Hh. done.
  - rewrite messages_discarded by congruence. exists c, [], []. split_and!; try done.
    rewrite Hst, app_nil_r. by apply accepted_more.
  - rewrite messages_discarded by congruence. exists c, [], []. split_and!; try done.
    rewrite Hst, app_nil_r. by apply accepted_more.
Qed.

(** A client that has taken [bytes] and delivered [arr]: whatever comes next, its
    parser goes on as if it had read everything at once. *)
Record tracks (auth : list Z) (version : Z) (bytes : list Z) (arr : list CMuxMessage)
  (cl : CBoostClient) : Prop := {
  tr_auth : m_expectedAuth (m_core cl) = auth;
  tr_version : m_version (m_core cl) = version;
  tr_length : length auth = AUTHENTICATION_LEN;
  tr_handler : parser_handler (m_parser cl) = true;
  tr_idle : next_command (m_partialInput (m_parser cl)) = None;
  tr_bytes : bytes_ok (m_partialInput (m_parser cl));
  tr_heard : exists cs,
    (forall x cs' r, commands (m_partialInput (m_parser cl) ++ x) cs' r ->
       exists r', commands (m_partialInput (new_CMuxParser true) ++ bytes ++ x) (cs ++ cs') r') /\
    heard (m_initState (m_core cl)) (session version auth (parse_message <$> cs)) arr;
}.

Lemma tracks_start auth version :
  length auth = AUTHENTICATION_LEN -> tracks auth version [] [] (client_start (create auth version)).
Proof.
  intros Ha. split; try done; [by repeat constructor|]. exists []. split; [|done].
  intros x cs' r Hc. by exists r.
Qed.

Lemma tracks_same auth version bytes arr cl cl' :
  same_reader cl cl' -> tracks auth version bytes arr cl -> tracks auth version bytes arr cl'.
Proof.
  intros (Hp & Ha & Hv & Hst) [? ? ? ? ? ? (cs & Hx & Hh)].
  split; rewrite ?Hp, ?Ha, ?Hv; try done. exists cs. split; [done|].
  destruct Hst as [-> | ->]; [done|by apply heard_prefix in Hh].
Qed.

(** A read. *)
Lemma tracks_read this auth version bytes arr cl data cl' log :
  m_reading cl = true -> bytes_ok data -> tracks auth version bytes arr cl ->
  client_exec this (cl, [] : client_log) (ClientData data) = Ok (cl', log) ->
  exists new, commands_of log = (this,.) <$> new /\ tracks auth version (bytes ++ data) (arr ++ new) cl'.
Proof.
  intros Hr Hb [Ha Hv Hl Hp Hn Hpb (cs & Hx & Hh)]. cbn [client_exec]. rewrite Hr. cbn [andb].
  destruct data as [|b data]; [intros [= <- <-]; exists []; rewrite !app_nil_r; split; [done|]|].
  { split; try done. by exists cs. }
  rewrite bool_decide_eq_true_2 by done. cbn [handle_read]. set (d := b :: data) in *.
  destruct (commands_total (m_partialInput (m_parser cl) ++ d)) as (cs2 & last & Hc).
  rewrite (parser_read_commands (H0 := client_ICommandCallback this) _ _ _ _ _ Hp Hc).
  assert (Hpd : bytes_ok (m_partialInput (m_parser cl) ++ d)) by (by apply Forall_app).
  destruct (commands_bytes _ _ _ Hpd Hc) as [Hlast Hms].
  subst auth version.
  destruct (heard_messages this (m_core cl) _ arr (parse_message <$> cs2) Hl Hms Hh)
    as (c' & log' & new & Hf & Hlog & Ha' & Hv' & Hh').
  assert (Hd : deliver (H0 := client_ICommandCallback this) (m_core cl, [] : client_log) cs2 = Ok (c', log')).
  { rewrite <- Hf. unfold deliver. clear. generalize (m_core cl, [] : client_log) as s.
    induction cs2 as [|x cs2 IH]; intros s; [done|]. cbn [foldM fmap list_fmap].
    unfold handleCommand, client_ICommandCallback. destruct (client_handleCommand this s (parse_message x)); [apply IH|done]. }
  rewrite Hd. step_bind. intros [= <- <-]. exists new. split; [done|].
  split; cbn [m_core m_parser set_input m_partialInput parser_handler]; try done.
  - apply next_command_trim. by eapply commands_last.
  - by apply trim_bytes.
  - exists (cs ++ cs2). split; [|by rewrite fmap_app].
    intros x cs3 r H3. apply commands_trim in H3 as [r3 H3].
    rewrite <- !(assoc_L (++)). apply (Hx (d ++ x) (cs2 ++ cs3) r3).
    rewrite (assoc_L (++)). by eapply commands_app.
Qed.

(** The bytes taken so far are those of [commands]. *)
Lemma tracks_messages auth version bytes arr cl cs last :
  tracks auth version bytes arr cl -> commands bytes cs last ->
  heard (m_initState (m_core cl)) (session version auth (parse_message <$> cs)) arr.
Proof.
  intros [_ _ _ _ Hn _ (cs0 & Hx & Hh)] Hc.
  destruct (Hx [] [] (m_partialInput (m_parser cl))) as [r' H0].
  { rewrite app_nil_r. by apply commands_done. }
  rewrite !app_nil_r in H0. destruct (commands_new_parser _ _ _ Hc) as [last' H1].
  by destruct (commands_det _ _ _ _ _ H0 H1) as [-> _].
Qed.

(** ** Every event of the manager *)

Section events.
Context {P : Type} `{IPicardIO P}.
Implicit Types (w : world P).

Lemma after_pop_readers w popped w' :
  after_pop w popped = Ok w' -> same_readers (m_heap (w_mgr w)) (m_heap (w_mgr w')).
Proof.
  destruct popped as [cmd|]; cbn [after_pop]; [|by intros [= <-]].
  intros Hx. apply bind_Ok_inv in Hx as ([g next] & Hd & [= <-]). by apply dispatch_same in Hd as (_ & _ & _ & ?).
Qed.

Lemma command_thread_readers w w' :
  command_thread w = Ok w' -> same_readers (m_heap (w_mgr w)) (m_heap (w_mgr w')).
Proof.
  assert (Hfin : forall cmd r, ('(g, p) ← finish (w_mgr w) (w_rest w) cmd r;
      Ok {| w_mgr := g; w_rest := p; w_pc := AtHead |}) = Ok w' ->
    same_readers (m_heap (w_mgr w)) (m_heap (w_mgr w'))).
  { intros cmd r Hx. apply bind_Ok_inv in Hx as ([g p] & Hf & [= <-]).
    by apply finish_same in Hf as (_ & _ & _ & ?). }
  unfold command_thread. destruct (w_pc w) as [| | |cmd i|cmd i|].
  - by intros [= <-].
  - destruct (m_loop _); [|by intros [= <-]].
    destruct (timedPop_enter _ _) as [[popped|] q]; [|by intros [= <-]]. by intros Hx%after_pop_readers.
  - case_decide; [|by intros [= <-]]. destruct (timedPop_resume _ _) as [popped q].
    by intros Hx%after_pop_readers.
  - destruct (_ <? _); [|apply Hfin]. destruct (picard_sendCommand _ _ _). by intros [= <-].
  - case_decide; [by intros [= <-]|apply Hfin].
  - by intros [= <-].
Qed.

Lemma client_event_readers g client cl e cl' g' :
  mgr_inv g -> (forall data, e <> ClientData data) -> client_exec client (cl, g) e = Ok (cl', g') ->
  same_reader cl cl' /\ m_heap g' = m_heap g.
Proof.
  intros Hi Hne. destruct e as [data| | |]; [by destruct (Hne data)| | |]; cbn [client_exec].
  - destruct (m_reading cl); [|by intros [= <- <-]]. cbn [handle_read m_core].
    case_bool_decide.
    + cbn [removeClient manager_list]. rewrite removeClient_Ok by done. intros [= <- <-].
      split; [split_and!; auto|]. unfold removed, disconnect_current. by repeat case_match.
    + intros [= <- <-]. split; [split_and!; auto|done].
  - intros [= <- <-]. split; [split_and!; auto|done].
  - destruct (m_authTimeout (m_core cl)); intros [= <- <-]; (split; [split_and!; auto|done]).
Qed.

Lemma exec_readers w e w' :
  world_inv w -> (forall client data, e <> EvClient client (ClientData data)) ->
  exec w e = Ok w' -> same_readers (m_heap (w_mgr w)) (m_heap (w_mgr w')).
Proof.
  intros [Hi _] Hne. destruct e as [| |client auth version|client e|t q rc p|t p| |]; cbn [exec].
  - apply command_thread_readers.
  - by intros [= <-].
  - destruct (m_heap (w_mgr w) !! client) eqn:Hn; intros [= <-]; [done|].
    intros c cl Hcl. exists cl. split; [|done]. cbn. rewrite lookup_insert_ne; [done|congruence].
  - destruct (m_heap (w_mgr w) !! client) as [cl|] eqn:Hcl; [|by intros [= <-]].
    destruct (referenced _ _ _ _); intros Hx.
    + apply bind_Ok_inv in Hx as ([cl' g'] & Hx & [= <-]).
      apply client_event_readers in Hx as [Hs Hh]; [|done|intros data ->; by destruct (Hne client data)].
      cbn. rewrite Hh. by eapply same_readers_insert.
    + apply bind_Ok_inv in Hx as (cl' & Hx & [= <-]). cbn. eapply same_readers_insert; [exact Hcl|].
      unfold destroyed_exec in Hx. destruct e; try by simplify_eq.
      destruct (m_authTimeout (m_core cl)); by simplify_eq.
  - intros Hx. apply bind_Ok_inv in Hx as (g & Hg & [= <-]). by apply complete_same in Hg as (_ & _ & _ & ?).
  - intros Hx. apply bind_Ok_inv in Hx as (g & Hg & [= <-]). by apply handleNotif_same in Hg as (_ & _ & _ & ?).
  - intros Hx. apply bind_Ok_inv in Hx as ([g p] & Hx & [= <-]).
    apply bind_Ok_inv in Hx as (g1 & Hg & [= <- <-]). by apply closeClients_same in Hg as (_ & _ & _ & ?).
  - by intros [= <-].
Qed.

(** A read of a client changes that client only. *)
Lemma exec_data w client data cl w' :
  m_heap (w_mgr w) !! client = Some cl -> exec w (EvClient client (ClientData data)) = Ok w' ->
  exists cl' log, client_exec client (cl, [] : client_log) (ClientData data) = Ok (cl', log) /\
    m_heap (w_mgr w') = <[client := cl']> (m_heap (w_mgr w)).
Proof.
  intros Hcl. cbn [exec]. rewrite Hcl. destruct (referenced _ _ _ _) eqn:Href; intros Hx.
  - apply bind_Ok_inv in Hx as ([cl' g'] & Hx & [= <-]).
    apply exec_data_logged in Hx as (log & Hl & ->). exists cl', log. split; [exact Hl|]. cbn. f_equal.
    clear. generalize (w_mgr w) as g. induction log as [|call log IH]; intros g; [done|].
    cbn [foldl]. rewrite IH. by destruct call.
  - apply bind_Ok_inv in Hx as (cl' & [= <-] & [= <-]). exists cl, []. split; [|done].
    unfold referenced in Href. apply orb_false_iff in Href as [[Href _]%orb_false_iff _].
    cbn [client_exec]. by rewrite Href.
Qed.
End events.

(** ** One client along a run *)

(** The bytes an event makes the client take. *)
Definition taken_bytes {P} (client : nat) (w : world P) (e : event) : list Z :=
  match e with
  | EvClient c (ClientData data) =>
      if decide (c = client) then
        match m_heap (w_mgr w) !! client with
        | Some cl => if m_reading cl then data else [] | None => []
        end
      else []
  | _ => []
  end.

Fixpoint byte_stream {P} `{IPicardIO P} (client : nat) (w : world P) (es : list event) : list Z :=
  match es with
  | [] => []
  | e :: es =>
      taken_bytes client w e ++ match exec w e with Ok w' => byte_stream client w' es | Undefined _ => [] end
  end.

Definition from_client (client : nat) (l : list (nat * CMuxMessage)) : list CMuxMessage :=
  omap (fun cm => if decide (cm.1 = client) then Some cm.2 else None) l.

Definition data_ok (e : event) : Prop :=
  match e with EvClient _ (ClientData data) => bytes_ok data | _ => True end.

Lemma from_client_app client l1 l2 : from_client client (l1 ++ l2) = from_client client l1 ++ from_client client l2.
Proof. apply omap_app. Qed.

Lemma from_client_own client ms : from_client client ((client,.) <$> ms) = ms.
Proof.
  unfold from_client. induction ms as [|m ms IH]; [done|]. cbn. rewrite decide_True by done. by f_equal.
Qed.

(** A client's read calls [addCommand] for itself. *)
Lemma delivered_own client cl data cl' log :
  client_exec client (cl, [] : client_log) (ClientData data) = Ok (cl', log) ->
  Forall (fun cm => cm.1 = client) (commands_of log).
Proof.
  cbn [client_exec]. destruct (m_reading cl && _); [|by intros [= _ <-]].
  destruct data as [|b data]; [by intros [= _ <-]|]. cbn [handle_read]. intros Hx.
  apply bind_Ok_inv in Hx as ([p [c l]] & Hp & [= _ <-]).
  refine (parser_read_invariant (H0 := client_ICommandCallback client)
    (fun s => Forall (fun cm => cm.1 = client) (commands_of s.2)) _ _ _ _ _ _ _ Hp); [|constructor].
  intros [c1 l1] msg [c2 l2] Hl. cbn [snd handleCommand client_ICommandCallback client_handleCommand].
  assert (Hsnoc : forall call, Forall (fun cm => cm.1 = client) (commands_of [call]) ->
    Forall (fun cm => cm.1 = client) (commands_of (l1 ++ [call]))).
  { intros call Hc. unfold commands_of. rewrite omap_app. by apply Forall_app. }
  destruct (isInitialized c1); [intros [= _ <-]; by apply Hsnoc, Forall_singleton|].
  destruct (_ && _); [|by intros [= _ <-]]. intros Hx. inv_bind.
  destruct (_ =? ERR_OK); injection Hx as _ <-; [by apply Hsnoc|done].
Qed.

Lemma from_other client d l : d <> client -> Forall (fun cm : nat * CMuxMessage => cm.1 = d) l -> from_client client l = [].
Proof.
  intros Hne Hl. unfold from_client. induction Hl as [|[c m] l Hc _ IH]; [done|]. cbn in *.
  by rewrite decide_False by congruence.
Qed.

Section tracking.
Context {P : Type} `{IPicardIO P}.
Implicit Types (w : world P).

Lemma tracks_exec client auth version bytes arr w e w' cl :
  world_inv w -> data_ok e -> m_heap (w_mgr w) !! client = Some cl ->
  tracks auth version bytes arr cl -> exec w e = Ok w' ->
  exists cl', m_heap (w_mgr w') !! client = Some cl' /\
    tracks auth version (bytes ++ taken_bytes client w e) (arr ++ from_client client (arrived w e)) cl'.
Proof.
  intros Hw Hd Hcl Ht Hx.
  assert (Hdec : (exists d data, e = EvClient d (ClientData data)) \/
    forall d data, e <> EvClient d (ClientData data)).
  { destruct e as [| | |d []| | | |]; try (right; by intros). left. by eexists _, _. }
  destruct Hdec as [(d & data & ->)|Hne].
  - destruct (m_heap (w_mgr w) !! d) as [cld|] eqn:Hcld.
    + destruct (exec_data w d data cld w' Hcld Hx) as (cld' & log & Hlog & Hheap). rewrite Hheap.
      cbn [taken_bytes arrived]. rewrite Hcld. cbn [delivered]. rewrite Hlog.
      destruct (decide (d = client)) as [->|Hdc].
      * rewrite lookup_insert_eq. assert (cld = cl) as -> by congruence. rewrite Hcl.
        exists cld'. split; [done|]. destruct (m_reading cl) eqn:Hr.
        -- destruct (tracks_read _ _ _ _ _ _ _ _ _ Hr Hd Ht Hlog) as (new & -> & Ht').
           by rewrite from_client_own.
        -- revert Hlog. cbn [client_exec]. rewrite Hr. intros [= <- <-]. by rewrite !app_nil_r.
      * exists cl. split; [by rewrite lookup_insert_ne|].
        rewrite (from_other client d) by (done || by eapply delivered_own). by rewrite !app_nil_r.
    + cbn [exec] in Hx. rewrite Hcld in Hx. injection Hx as <-. exists cl. split; [done|].
      cbn [taken_bytes arrived]. rewrite Hcld, decide_False by congruence. by rewrite !app_nil_r.
  - destruct (exec_readers w e w' Hw Hne Hx client cl Hcl) as (cl' & Hcl' & Hs). exists cl'.
    split; [done|]. assert (Hnone : taken_bytes client w e = [] /\ arrived w e = []).
    { destruct e as [| | |d ev| | | |]; try done.
      destruct ev as [data| | |]; [by destruct (Hne d data)|..]; cbn; by destruct (m_heap _ !! d). }
    destruct Hnone as [-> ->]. rewrite !app_nil_r. by eapply tracks_same.
Qed.

Lemma tracks_run client auth version es : forall bytes arr w w' cl,
  world_inv w -> Forall event_ok es -> Forall data_ok es -> m_heap (w_mgr w) !! client = Some cl ->
  tracks auth version bytes arr cl -> run_events w es = Ok w' ->
  exists cl', m_heap (w_mgr w') !! client = Some cl' /\
    tracks auth version (bytes ++ byte_stream client w es) (arr ++ from_client client (arrivals w es)) cl'.
Proof.
  induction es as [|e es IH]; intros bytes arr w w' cl Hw He Hd Hcl Ht.
  - intros [= <-]. exists cl. by rewrite !app_nil_r.
  - apply Forall_cons in He as [He Hes]. apply Forall_cons in Hd as [Hd Hds].
    unfold run_events. cbn [foldM byte_stream arrivals]. intros Hx.
    apply bind_Ok_inv in Hx as (w1 & Hw1 & Hx). rewrite Hw1.
    destruct (tracks_exec _ _ _ _ _ _ _ _ _ Hw Hd Hcl Ht Hw1) as (cl1 & Hcl1 & Ht1).
    rewrite from_client_app, !(assoc_L (++)). by eapply IH; [eapply exec_inv| | | | |].
Qed.

(** Clients stay in the store, and nothing comes from one that is not there. *)
Lemma exec_keeps client w e w' :
  world_inv w -> exec w e = Ok w' -> m_heap (w_mgr w') !! client = None ->
  m_heap (w_mgr w) !! client = None /\ from_client client (arrived w e) = [].
Proof.
  intros Hw Hx Hn.
  assert (Hdec : (exists d data, e = EvClient d (ClientData data)) \/
    forall d data, e <> EvClient d (ClientData data)).
  { destruct e as [| | |d []| | | |]; try (right; by intros). left. by eexists _, _. }
  destruct Hdec as [(d & data & ->)|Hne].
  - destruct (m_heap (w_mgr w) !! d) as [cld|] eqn:Hcld.
    + destruct (exec_data w d data cld w' Hcld Hx) as (cld' & log & Hlog & Hheap).
      rewrite Hheap in Hn. apply lookup_insert_None in Hn as [Hn Hdc]. split; [done|].
      cbn [arrived]. rewrite Hcld. cbn [delivered]. rewrite Hlog. eapply from_other; [exact Hdc|].
      by eapply delivered_own.
    + cbn [exec] in Hx. rewrite Hcld in Hx. injection Hx as <-. split; [done|]. cbn [arrived]. by rewrite Hcld.
  - split.
    + destruct (m_heap (w_mgr w) !! client) as [cl|] eqn:Hcl; [|done].
      destruct (exec_readers w e w' Hw Hne Hx client cl Hcl) as (cl' & Hcl' & _). congruence.
    + destruct e as [| | |d ev| | | |]; try done.
      destruct ev as [data| | |]; [by destruct (Hne d data)|..]; cbn; by destruct (m_heap _ !! d).
Qed.

Lemma absent_run client es : forall w w',
  world_inv w -> Forall event_ok es -> run_events w es = Ok w' -> m_heap (w_mgr w') !! client = None ->
  m_heap (w_mgr w) !! client = None /\ from_client client (arrivals w es) = [].
Proof.
  induction es as [|e es IH]; intros w w' Hw Hes; [by intros [= <-]|].
  apply Forall_cons in Hes as [He Hes]. unfold run_events. cbn [foldM arrivals]. intros Hx Hn.
  apply bind_Ok_inv in Hx as (w1 & Hw1 & Hx). rewrite Hw1, from_client_app.
  destruct (IH w1 w' ltac:(by eapply exec_inv) Hes Hx Hn) as [Hn1 ->].
  destruct (exec_keeps client w e w1 Hw Hw1 Hn1) as [? ->]. done.
Qed.

Lemma arrivals_app w es1 es2 :
  arrivals w (es1 ++ es2)
  = arrivals w es1 ++ match run_events w es1 with Ok w1 => arrivals w1 es2 | Undefined _ => [] end.
Proof.
  revert w. induction es1 as [|e es1 IH]; intros w; [done|]. unfold run_events. cbn [app foldM arrivals].
  rewrite <- (assoc_L (++)). destruct (exec w e) as [w1|]; [|cbn; by rewrite ?app_nil_r].
  step_bind. by rewrite IH.
Qed.
End tracking.

(** ** Property *)

Section properties.
Context {P : Type} `{IPicardIO P}.

(** C14: a client's commands enter the queue as its byte stream says.  Whatever
    else happens in between, the commands a connection delivers, from its accept
    on, are a prefix of the messages after the first hello of the bytes it has
    sent, if that hello is accepted, and none otherwise; while the client is
    authenticated they are all of them.  With [commands_to_picard] this orders
    what reaches Picard by what each client has sent. *)
Theorem commands_from_bytes retries (p : P) es1 w1 client auth version es w cs last :
  Forall event_ok (es1 ++ EvAccept client auth version :: es) -> Forall data_ok es ->
  run_events (new_world retries p) es1 = Ok w1 -> m_heap (w_mgr w1) !! client = None ->
  run_events w1 (EvAccept client auth version :: es) = Ok w ->
  commands (byte_stream client w1 (EvAccept client auth version :: es)) cs last ->
  let delivered := from_client client
    (arrivals (new_world retries p) (es1 ++ EvAccept client auth version :: es)) in
  let messages := accepted (session version auth (parse_message <$> cs)) in
  delivered `prefix_of` messages /\
  exists cl, m_heap (w_mgr w) !! client = Some cl /\
    (m_initState (m_core cl) = AUTHENTICATED -> delivered = messages).
Proof.
  intros Hes Hd Hrun1 Hn Hrun Hc. apply Forall_app in Hes as [Hes1 Hes]. apply Forall_cons in Hes as [He Hes].
  pose proof (new_world_inv retries p) as Hw0.
  destruct (absent_run client es1 _ _ Hw0 Hes1 Hrun1 Hn) as [_ H1].
  cbn zeta. rewrite arrivals_app, Hrun1, from_client_app, H1. cbn [app arrivals].
  unfold run_events in Hrun. cbn [foldM] in Hrun. apply bind_Ok_inv in Hrun as (w2 & Hw2 & Hrun).
  cbn [byte_stream arrived taken_bytes app] in *. rewrite Hw2 in *.
  assert (Hw1 : world_inv w1) by (eapply run_inv; [exact Hw0|exact Hes1|exact Hrun1]).
  assert (Hcl2 : m_heap (w_mgr w2) !! client = Some (client_start (create auth version))).
  { cbn [exec] in Hw2. rewrite Hn in Hw2. injection Hw2 as <-. apply lookup_insert_eq. }
  assert (Hi2 : world_inv w2) by (eapply exec_inv; [exact Hw1|exact He|exact Hw2]).
  destruct (tracks_run client auth version es [] [] w2 w _ Hi2 Hes Hd Hcl2
    (tracks_start auth version He) Hrun) as (cl & Hcl & Ht).
  pose proof (tracks_messages _ _ _ _ _ _ _ Ht Hc) as Hh. cbn [app] in Hh.
  split; [by eapply heard_prefix|]. exists cl. split; [done|]. intros Ha. rewrite Ha in Hh. cbn in Hh. by rewrite Hh.
Qed.
End properties.

(** ** Witness: a hello and two commands, cut in the middle, between the events of
    another client *)

Definition second_command : CMuxMessage := {| m_data := [7; 0x7E]; m_type := 30; m_id := 9 |}.

Definition sample_bytes : list Z :=
  serialize_message sample_hello ++ serialize_message (subscribe 6) ++ serialize_message second_command.

Definition interleaved : list event :=
  [EvClient 1 (ClientData (take 5 sample_bytes))] ++ join 2 ++
  [EvClient 1 (ClientData (take 25 (drop 5 sample_bytes))); command 2 (subscribe 8); EvCommandThread;
   EvClient 1 (ClientData (drop 30 sample_bytes)); EvCommandThread].

Definition started_world : world picard_recorder := reached [EvCommandThread].
Definition interleaved_end : world picard_recorder :=
  match run_events started_world (EvAccept 1 sample_auth 4 :: interleaved) with
  | Ok w => w | Undefined _ => started_world end.

Definition interleaved_arrivals : list (nat * CMuxMessage) :=
  arrivals (new_world 2 (new_recorder 9)) ([EvCommandThread] ++ EvAccept 1 sample_auth 4 :: interleaved).

Lemma commands_from_bytes_witness :
  byte_stream 1 started_world (EvAccept 1 sample_auth 4 :: interleaved) = sample_bytes /\
  interleaved_arrivals = [(2%nat, subscribe 8); (1%nat, subscribe 6); (1%nat, second_command)] /\
  from_client 1 interleaved_arrivals = [subscribe 6; second_command].
Proof.
  split; [vm_compute; reflexivity|]. split; [vm_compute; reflexivity|].
  destruct (commands_from_bytes 2 (new_recorder 9) [EvCommandThread] started_world 1 sample_auth 4
    interleaved interleaved_end (body <$> [sample_hello; subscribe 6; second_command]) [])
    as (_ & cl & Hcl & Hall).
  - repeat (apply Forall_cons; split; [by vm_compute|]). done.
  - repeat (apply Forall_cons; split; [vm_decide|]). done.
  - vm_compute. reflexivity.
  - vm_compute. reflexivity.
  - vm_compute. reflexivity.
  - do 3 (eapply commands_next; [vm_compute; reflexivity|]). by apply commands_done.
  - unfold interleaved_arrivals. rewrite Hall; [vm_compute; reflexivity|].
    vm_compute in Hcl. injection Hcl as <-. reflexivity.
Defined.
