(* ===== verification/SerialMux.v ===== *)
(** * The multiplexer put together ([serial_mux/serial_mux.cpp],
    [BoostClientListener.h], [BoostClientListener.cpp])

    The listener, the thread that starts it, and the system of all components
    over a serial port or a UDP socket: the Picard read loop calls the client manager, the
    manager sends through the connection, and [resetConnection] reaches all of
    them.  The system refines the manager of [ClientManager], so what
    [ManagerSpec] proves of the manager holds of the whole program. *)

From Stdlib Require Import ZArith Lia.
From stdpp Require Import base list gmap.
From S2P Require Import Prelude Hdlc Common Subscriber SyncQueue MuxMessage BasePicard PicardLink.
From S2P Require Import BoostClient ClientManager ManagerSpec.
Import Receiver Encoder Delivery.
#[local] Open Scope Z_scope.

(** ** The listener *)

Record CBoostClientListener := {
  m_listenerPort : Z;
  m_isListening : bool;
  m_loopback : bool;               (* m_listenerEndpoint: loopback or any address *)
  ml_expectedAuth : list Z;
  ml_protocolVersion : Z;
  m_acceptor : bool;               (* is the acceptor open *)
  m_pending : option (list Z * Z); (* the client of the outstanding async_accept *)
}.

Definition new_CBoostClientListener (port : Z) (useLocalhost : bool) (authToken : list Z)
  (protocolVersion : Z) : CBoostClientListener :=
  {| m_listenerPort := port; m_isListening := false; m_loopback := useLocalhost;
     ml_expectedAuth := authToken; ml_protocolVersion := protocolVersion;
     m_acceptor := true; m_pending := None |}.

Definition set_acceptor (open : bool) (pending : option (list Z * Z)) (l : CBoostClientListener)
  : CBoostClientListener :=
  {| m_listenerPort := m_listenerPort l; m_isListening := m_isListening l;
     m_loopback := m_loopback l; ml_expectedAuth := ml_expectedAuth l;
     ml_protocolVersion := ml_protocolVersion l; m_acceptor := open; m_pending := pending |}.

Definition set_protocolVersion (version : Z) (l : CBoostClientListener) : CBoostClientListener :=
  {| m_listenerPort := m_listenerPort l; m_isListening := m_isListening l;
     m_loopback := m_loopback l; ml_expectedAuth := ml_expectedAuth l;
     ml_protocolVersion := version; m_acceptor := m_acceptor l; m_pending := m_pending l |}.

(** [stop]: closing the acceptor ends an outstanding accept with an error, on
    which [handleAccept] does nothing. *)
Definition listener_stop (l : CBoostClientListener) : CBoostClientListener :=
  {| m_listenerPort := m_listenerPort l; m_isListening := false;
     m_loopback := m_loopback l; ml_expectedAuth := ml_expectedAuth l;
     ml_protocolVersion := ml_protocolVersion l; m_acceptor := false; m_pending := None |}.

(** [asyncListen]: a new client with the token and version of now; an accept on
    a closed acceptor completes with an error. *)
Definition asyncListen (l : CBoostClientListener) : CBoostClientListener :=
  if m_acceptor l
  then set_acceptor true (Some (ml_expectedAuth l, ml_protocolVersion l)) l
  else l.

(** ** What the components share *)

(** The parts [resetConnection] reaches besides the Picard connection. *)
Record mux_parts := {
  x_mgr : CBoostClientManager;        (* gClientMgr *)
  x_listener : CBoostClientListener;  (* gListener *)
  x_stopped : bool;                   (* io_service.stop() was called *)
}.

Definition set_mgr (g : CBoostClientManager) (m : mux_parts) : mux_parts :=
  {| x_mgr := g; x_listener := x_listener m; x_stopped := x_stopped m |}.
Definition set_listener (l : CBoostClientListener) (m : mux_parts) : mux_parts :=
  {| x_mgr := x_mgr m; x_listener := l; x_stopped := x_stopped m |}.

(** [gPicardIO->registerCallback(gClientMgr)] *)
#[export] Instance mux_callback : IPicardCallback mux_parts := {
  commandComplete m t q rc p := g ← mgr_commandComplete (x_mgr m) t q rc p; Ok (set_mgr g m);
  handleNotif m t p := g ← mgr_handleNotif (x_mgr m) t p; Ok (set_mgr g m);
}.

(** [resetConnection] after the Picard connection: clients, listener,
    [io_service].  [closeClients] is defined on every reachable manager
    ([closeClients_Ok]). *)
Definition reset_parts (m : mux_parts) : mux_parts :=
  match closeClients (x_mgr m) with
  | Ok g => {| x_mgr := g; x_listener := listener_stop (x_listener m); x_stopped := true |}
  | Undefined _ => m
  end.
#[export] Instance mux_reset : IConnectionReset mux_parts := reset_parts.

(** The thread [listen_thread]: about to test [m_connected], about to wait,
    asleep, back from [waitForHello], done. *)
Inductive listen_pc := LCheck | LWait | LAsleep | LReturned | LFinished.

#[export] Instance listen_pc_eq_dec : EqDecision listen_pc.
Proof. solve_decision. Defined.

(** Its identity among the waiters of [m_connect]. *)
Definition listen_thread_id : nat := 1.

Section system.
Context {P : Type} `{PicardDevice P}.

(** The rest of the system as the manager sees it. *)
Record sys_rest := {
  r_io : CBasePicardIO;
  r_port : P;
  r_listener : CBoostClientListener;
  r_stopped : bool;
}.

(** [gPicardIO->sendCommand], and [resetConnection]. *)
#[export] Instance sys_IPicardIO : IPicardIO sys_rest := {
  picard_sendCommand r m retransmit :=
    let '(w, seq) := sendCommand (r_io r) {| s_port := r_port r; s_mux := tt |} m in
    ({| r_io := r_io r; r_port := s_port w; r_listener := r_listener r;
        r_stopped := r_stopped r |}, seq);
  reset_rest r :=
    {| r_io := picard_stop (picard_reset (r_io r)); r_port := r_port r;
       r_listener := listener_stop (r_listener r); r_stopped := true |};
}.

Record system := {
  y_loop : loop_state (link_world P mux_parts);  (* the Picard thread and all state *)
  y_pc : loop_pc;                                  (* the command thread *)
  y_listen : listen_pc;                            (* the listen thread *)
}.

Definition y_io (y : system) : CBasePicardIO := l_io (y_loop y).
Definition y_env (y : system) : link_world P mux_parts := l_env (y_loop y).
Definition y_parts (y : system) : mux_parts := s_mux (y_env y).
Definition y_mgr (y : system) : CBoostClientManager := x_mgr (y_parts y).

Definition set_loop_state (io : CBasePicardIO) (e : link_world P mux_parts)
  (s : loop_state (link_world P mux_parts)) : loop_state (link_world P mux_parts) :=
  {| l_io := io; l_env := e; l_last := l_last s; l_hellos := l_hellos s |}.

(** The manager and the command thread within the system. *)
Definition mgr_view (y : system) : world sys_rest :=
  {| w_mgr := y_mgr y;
     w_rest := {| r_io := y_io y; r_port := s_port (y_env y);
                  r_listener := x_listener (y_parts y); r_stopped := x_stopped (y_parts y) |};
     w_pc := y_pc y |}.

Definition set_view (w : world sys_rest) (y : system) : system :=
  {| y_loop := set_loop_state (r_io (w_rest w))
       {| s_port := r_port (w_rest w);
          s_mux := {| x_mgr := w_mgr w; x_listener := r_listener (w_rest w);
                      x_stopped := r_stopped (w_rest w) |} |} (y_loop y);
     y_pc := w_pc w; y_listen := y_listen y |}.

Definition mgr_step (y : system) (e : event) : outcome system :=
  w ← exec (mgr_view y) e; Ok (set_view w y).

(** ** Steps of the system *)

Inductive sys_event :=
  | SysPicard (p : pass device_input)          (* one pass of the Picard read loop *)
  | SysCommand                                 (* the command thread runs *)
  | SysQueueTimeout
  | SysClient (client : nat) (e : client_event) (* a handler run by io_service *)
  | SysAccept (client : nat)                   (* a connection is accepted *)
  | SysListen (spurious : bool)                (* the listen thread runs *)
  | SysReset                                   (* serial_mux_stop: resetConnection *)
  | SysShutdown.                               (* the main loop after io_service.run() *)

(** [listen_thread] up to its next blocking point. *)
Definition listen_step (spurious : bool) (y : system) : system :=
  let s := y_loop y in
  let goto pc := {| y_loop := s; y_pc := y_pc y; y_listen := pc |} in
  match y_listen y with
  | LCheck => match waitForHello_check (y_io y) with
              | Some _ => goto LReturned | None => goto LWait end
  | LWait =>
      {| y_loop := set_loop_state (waitForHello_wait listen_thread_id (y_io y)) (y_env y) s;
         y_pc := y_pc y; y_listen := LAsleep |}
  | LAsleep =>
      if decide (listen_thread_id ∈ m_waiters (y_io y)) then
        if spurious
        then {| y_loop := set_loop_state
                  (set_connect (m_connected (y_io y))
                     (base.filter (fun t => t <> listen_thread_id) (m_waiters (y_io y))) (y_io y))
                  (y_env y) s;
                y_pc := y_pc y; y_listen := LReturned |}
        else y
      else goto LReturned
  | LReturned =>   (* picardReady is not looked at *)
      let version := picard_getVersion (y_io y) in
      let listener := asyncListen (set_protocolVersion version (x_listener (y_parts y))) in
      {| y_loop := set_loop_state (y_io y)
           {| s_port := s_port (y_env y); s_mux := set_listener listener (y_parts y) |} s;
         y_pc := y_pc y; y_listen := LFinished |}
  | LFinished => y
  end.

(** [handleAccept] of the outstanding accept, with no error. *)
Definition accept_step (client : nat) (y : system) : outcome system :=
  match m_pending (x_listener (y_parts y)), m_heap (y_mgr y) !! client with
  | Some (token, version), None =>
      y ← mgr_step y (EvAccept client token version);
      Ok {| y_loop := set_loop_state (y_io y)
              {| s_port := s_port (y_env y);
                 s_mux := set_listener (asyncListen (x_listener (y_parts y))) (y_parts y) |}
              (y_loop y);
            y_pc := y_pc y; y_listen := y_listen y |}
  | _, _ => Ok y
  end.

Definition sys_exec (y : system) (e : sys_event) : outcome system :=
  match e with
  | SysPicard p =>
      s ← loop_pass (y_loop y) p; Ok {| y_loop := s; y_pc := y_pc y; y_listen := y_listen y |}
  | SysCommand => mgr_step y EvCommandThread
  | SysQueueTimeout => mgr_step y EvQueueTimeout
  | SysClient client e =>
      if x_stopped (y_parts y) then Ok y else mgr_step y (EvClient client e)
  | SysAccept client => if x_stopped (y_parts y) then Ok y else accept_step client y
  | SysListen spurious => Ok (listen_step spurious y)
  | SysReset => mgr_step y EvReset
  | SysShutdown =>
      if x_stopped (y_parts y)
      then mgr_step {| y_loop := set_loop_state (registerCallback false (y_io y)) (y_env y) (y_loop y);
                       y_pc := y_pc y; y_listen := y_listen y |} EvStop
      else Ok y
  end.

Definition sys_run (y : system) (es : list sys_event) : outcome system := foldM sys_exec y es.

(** The components as [serial_mux_loop] creates and starts them at time [t0]. *)
Definition new_system (retries t0 : Z) (port : P) (listenerPort : Z) (acceptAnyhost : bool)
  (authToken : list Z) : system :=
  {| y_loop := threadMain_start (picard_start (registerCallback true new_CBasePicardIO))
       {| s_port := port;
          s_mux := {| x_mgr := new_CBoostClientManager retries;
                      x_listener := new_CBoostClientListener listenerPort (negb acceptAnyhost)
                                      authToken 0;
                      x_stopped := false |} |} t0;
     y_pc := NotStarted; y_listen := LCheck |}.
End system.
Arguments sys_rest : clear implicits.
Arguments system : clear implicits.

(** ** The manager with any surroundings, and with an oracle *)

(** Surroundings that only say which sequence number the next commands get. *)
#[export] Instance oracle_IPicardIO : IPicardIO (list Z) := {
  picard_sendCommand p m retransmit := (tail p, hd 0 p);
  reset_rest p := p;
}.

Definition W (g : CBoostClientManager) (p : list Z) (pc : loop_pc) : world (list Z) :=
  {| w_mgr := g; w_rest := p; w_pc := pc |}.

Section oracle.
Context {R : Type} `{IPicardIO R}.
Implicit Types (w : world R).

Definition with_oracle (w : world R) (q : list Z) : world (list Z) := W (w_mgr w) q (w_pc w).

Lemma finish_oracle g (r : R) (q : list Z) cmd result :
  finish g q cmd result = ('(g, _) ← finish g r cmd result; Ok (g, q)).
Proof.
  unfold finish, commandTimeout, mgr_resetConnection.
  destruct (sc_client cmd) as [client|]; [|done]. destruct (decide (result = CLIENT_OK)); [done|].
  destruct (if m_type (sc_command cmd) =? SUBSCRIBE then _ else _) as [g1|]; [|done]. step_bind.
  destruct (sendResponse g1 _ _) as [g2|]; [|done]. step_bind.
  by destruct (closeClients g2).
Qed.

Lemma after_pop_oracle w q popped :
  after_pop (with_oracle w q) popped = (w' ← after_pop w popped; Ok (with_oracle w' q)).
Proof.
  destruct popped as [cmd|]; [|done]. cbn [after_pop with_oracle W w_mgr].
  by destruct (dispatch (w_mgr w) cmd) as [[g next]|].
Qed.

Lemma command_oracle w q :
  exists p, command_thread (with_oracle w p) = (w' ← command_thread w; Ok (with_oracle w' q)).
Proof.
  destruct w as [g r pc]. unfold command_thread. cbn [w_mgr w_rest w_pc with_oracle W].
  destruct pc as [| | |cmd i|cmd i|]; [by exists q|..|by exists q].
  - exists q. destruct (m_loop g); [|done].
    destruct (timedPop_enter 0%nat (m_commands g)) as [[popped|] qu]; [|done].
    by rewrite <- after_pop_oracle.
  - exists q. destruct (decide _); [|done].
    destruct (timedPop_resume 0%nat (m_commands g)) as [popped qu].
    by rewrite <- after_pop_oracle.
  - destruct (i <? m_retries g).
    + destruct (picard_sendCommand r _ _) as [r' seq] eqn:Hs. exists (seq :: q). done.
    + exists q. rewrite (finish_oracle g r).
      by destruct (finish g r cmd CLIENT_TIMEOUT) as [[g' r']|].
  - exists q. destruct (decide _); [done|]. rewrite (finish_oracle g r).
    by destruct (finish g r cmd _) as [[g' r']|].
Qed.

(** Every event does the same to the manager whatever surrounds it. *)
Lemma exec_oracle w e q :
  exists p, exec (with_oracle w p) e = (w' ← exec w e; Ok (with_oracle w' q)).
Proof.
  destruct w as [g r pc].
  destruct e as [| |client auth version|client e|t sq rc p|t p| |]; [apply command_oracle|..];
    exists q; cbn [exec with_oracle W w_mgr w_rest w_pc]; unfold with_mgr; cbn [w_rest w_pc].
  - done.
  - by destruct (m_heap g !! client).
  - destruct (m_heap g !! client) as [cl|]; [|done].
    destruct (referenced g pc client cl); [by destruct (client_exec client (cl, g) e) as [[cl' g']|]|].
    by destruct (destroyed_exec cl e).
  - by destruct (mgr_commandComplete g t sq rc p).
  - by destruct (mgr_handleNotif g t p).
  - unfold mgr_resetConnection. by destruct (closeClients g).
  - done.
Qed.
End oracle.

(** ** Explaining an outcome by manager events *)

(** From manager [g] with the command thread at [pc], the outcome [o] is what
    some sequence of manager events gives, for some answers of the oracle. *)
Definition explains (g : CBoostClientManager) (pc : loop_pc)
  (o : outcome (CBoostClientManager * loop_pc)) : Prop :=
  match o with
  | Ok (g', pc') =>
      exists es, Forall event_ok es /\
        forall q, exists p, run_events (W g p pc) es = Ok (W g' q pc')
  | Undefined why =>
      exists es g1 pc1 ev, Forall event_ok es /\ event_ok ev /\
        (forall q, exists p, run_events (W g p pc) es = Ok (W g1 q pc1)) /\
        exists p, exec (W g1 p pc1) ev = Undefined why
  end.

Definition inv_at (g : CBoostClientManager) (pc : loop_pc) : Prop := world_inv (W g [] pc).

Lemma explains_refl g pc : explains g pc (Ok (g, pc)).
Proof. exists []. split; [done|]. intros q. by exists q. Qed.

Lemma explains_trans g pc g1 pc1 o :
  explains g pc (Ok (g1, pc1)) -> explains g1 pc1 o -> explains g pc o.
Proof.
  intros (es1 & Hes1 & H1).
  assert (Hcat : forall es2 g2 pc2,
    (forall q, exists p, run_events (W g1 p pc1) es2 = Ok (W g2 q pc2)) ->
    forall q, exists p, run_events (W g p pc) (es1 ++ es2) = Ok (W g2 q pc2)).
  { intros es2 g2 pc2 H2 q. destruct (H2 q) as [p2 Hp2]. destruct (H1 p2) as [p1 Hp1].
    exists p1. unfold run_events in *. by rewrite foldM_app, Hp1. }
  destruct o as [[g' pc']|why].
  - intros (es2 & Hes2 & H2). exists (es1 ++ es2). split; [by apply Forall_app|by apply Hcat].
  - intros (es2 & g2 & pc2 & ev & Hes2 & Hev & H2 & Hu). exists (es1 ++ es2), g2, pc2, ev.
    split_and!; [by apply Forall_app|done|by apply Hcat|done].
Qed.

Lemma explains_inv g pc g1 pc1 : inv_at g pc -> explains g pc (Ok (g1, pc1)) -> inv_at g1 pc1.
Proof.
  intros Hi (es & Hes & H). destruct (H []) as [p Hp]. unfold inv_at.
  exact (run_inv (W g p pc) es (W g1 [] pc1) Hi Hes Hp).
Qed.

(** One event of the manager explains itself. *)
Lemma explains_exec {R} `{IPicardIO R} (w : world R) e :
  event_ok e ->
  explains (w_mgr w) (w_pc w) (w' ← exec w e; Ok (w_mgr w', w_pc w')).
Proof.
  intros He. pose proof (exec_oracle w e) as Ho.
  destruct (exec w e) as [w'|why]; step_bind.
  - exists [e]. split; [by repeat constructor|]. intros q. destruct (Ho q) as [p Hp].
    exists p. unfold run_events. cbn [foldM]. change (W (w_mgr w) p (w_pc w)) with (with_oracle w p).
    rewrite Hp. done.
  - exists [], (w_mgr w), (w_pc w), e. split_and!; [done|done|intros q; by exists q|].
    destruct (Ho []) as [p Hp]. by exists p.
Qed.

Lemma explains_notif g pc t p :
  explains g pc (g ← mgr_handleNotif g t p; Ok (g, pc)).
Proof.
  pose proof (explains_exec (W g [] pc) (EvNotif t p) I) as He. cbn [exec W w_mgr w_pc] in He.
  unfold with_mgr in He. by destruct (mgr_handleNotif g t p).
Qed.

Lemma explains_complete g pc t q rc p :
  isPicardApiCommand t = true ->
  explains g pc (g ← mgr_commandComplete g t q rc p; Ok (g, pc)).
Proof.
  intros Ht. pose proof (explains_exec (W g [] pc) (EvComplete t q rc p) Ht) as He.
  cbn [exec W w_mgr w_pc] in He. unfold with_mgr in He. by destruct (mgr_commandComplete g t q rc p).
Qed.

Lemma explains_reset m pc :
  inv_at (x_mgr m) pc -> explains (x_mgr m) pc (Ok (x_mgr (resetOthers m), pc)).
Proof.
  intros [Hi _]. pose proof (explains_exec (W (x_mgr m) [] pc) EvReset I) as He.
  cbn [exec W w_mgr w_pc] in He. unfold mgr_resetConnection in He.
  unfold resetOthers, mux_reset, reset_parts. rewrite closeClients_Ok in * by exact Hi. exact He.
Qed.

(** ** The Picard thread *)

Section picard_thread.
Context {P : Type} `{PicardDevice P}.
Implicit Types (io : CBasePicardIO) (e : link_world P mux_parts).

Definition mgr_of (s : CBasePicardIO * link_world P mux_parts) : CBoostClientManager :=
  x_mgr (s_mux s.2).

Definition listener_ok (l : CBoostClientListener) : Prop :=
  length (ml_expectedAuth l) = AUTHENTICATION_LEN /\
  match m_pending l with Some (token, _) => length token = AUTHENTICATION_LEN | None => True end.

(** The listener and [io_service] change only by [resetConnection]. *)
Definition parts_le (m m' : mux_parts) : Prop :=
  (x_listener m' = x_listener m /\ x_stopped m' = x_stopped m) \/
  (x_listener m' = listener_stop (x_listener m) /\ x_stopped m' = true).

Lemma parts_le_refl m : parts_le m m.
Proof. by left. Qed.

Lemma parts_le_trans m1 m2 m3 : parts_le m1 m2 -> parts_le m2 m3 -> parts_le m1 m3.
Proof.
  unfold parts_le. intros [[H1 H2]|[H1 H2]] [[H3 H4]|[H3 H4]]; rewrite H3, H4, ?H1, ?H2; auto.
Qed.

Lemma parts_le_listener m m' : parts_le m m' -> listener_ok (x_listener m) -> listener_ok (x_listener m').
Proof. unfold listener_ok. intros [[-> _]|[-> _]] [Hl Hp]; by split. Qed.

Lemma parts_le_pending m m' :
  parts_le m m' -> m_pending (x_listener m) = None -> m_pending (x_listener m') = None.
Proof. by intros [[-> _]|[-> _]]. Qed.

Lemma parts_le_stopped m m' : parts_le m m' -> x_stopped m = true -> x_stopped m' = true.
Proof. by intros [[_ ->]|[_ ->]]. Qed.

Lemma reset_stopped m pc : inv_at (x_mgr m) pc -> x_stopped (resetOthers m) = true.
Proof. intros [Hi _]. unfold resetOthers, mux_reset, reset_parts. by rewrite closeClients_Ok by exact Hi. Qed.

Lemma parts_le_reset m pc : inv_at (x_mgr m) pc -> parts_le m (resetOthers m).
Proof.
  intros [Hi _]. right. unfold resetOthers, mux_reset, reset_parts. by rewrite closeClients_Ok by exact Hi.
Qed.

(** What a step of the Picard thread does to the rest of the system. *)
Definition thread_explained (pc : loop_pc) (s : CBasePicardIO * link_world P mux_parts)
  (o : outcome (CBasePicardIO * link_world P mux_parts)) : Prop :=
  explains (mgr_of s) pc (s' ← o; Ok (mgr_of s', pc)) /\
  forall s', o = Ok s' -> parts_le (s_mux s.2) (s_mux s'.2).

Lemma thread_explained_same pc s s' :
  s_mux s'.2 = s_mux s.2 -> thread_explained pc s (Ok s').
Proof.
  intros Hm. split.
  - step_bind. unfold mgr_of. rewrite Hm. apply explains_refl.
  - intros s1 [= <-]. rewrite Hm. apply parts_le_refl.
Qed.

Lemma thread_explained_frame pc io e frame :
  inv_at (x_mgr (s_mux e)) pc ->
  thread_explained pc (io, e) (picard_frameComplete (io, e) frame).
Proof.
  intros Hi. destruct (frame_cases (E := link_world P mux_parts) frame) as [Hid|(c & t & q & x & p & ->)].
  { rewrite Hid. by apply thread_explained_same. }
  rewrite frameComplete_frame.
  destruct (_ && _) eqn:Hb1.
  { apply andb_true_iff in Hb1 as [_ Hl]. apply Z.leb_le in Hl.
    do 4 (destruct p as [|? p]; [cbn in Hl; lia|]). rewrite onHelloResponse_frame.
    by apply thread_explained_same. }
  destruct ((t =? MGR_HELLO) && _) eqn:Hb2.
  { rewrite onMgrHello_frame. cbn zeta. destruct (m_connected _); [|by apply thread_explained_same].
    split; [by apply (explains_reset (s_mux e))|].
    intros s' [= <-]. by apply (parts_le_reset (s_mux e) pc). }
  destruct ((t =? NOTIFICATION) && _ && _) eqn:Hb3.
  { unfold onNotification. set (sent := if negb (Z.land c 2 =? 0) then _ else _).
    assert (Hs : s_mux sent.2 = s_mux e) by (unfold sent; by destruct (negb _)).
    destruct sent as [io1 e1]. cbn [snd] in Hs.
    change (vat _ SERIAL_API_HEADER_LEN) with (Ok x). rewrite bind_Ok.
    destruct (m_callback io1 && _); [|by apply thread_explained_same].
    pose proof (explains_notif (x_mgr (s_mux e)) pc x
      (drop (SERIAL_API_HEADER_LEN + 1) (picard_frame c t q (x :: p)))) as He.
    cbn [handleNotif world_callback mux_callback]. rewrite Hs. unfold thread_explained, mgr_of.
    cbn [snd]. destruct (mgr_handleNotif (x_mgr (s_mux e)) x _) as [g|]; [|by split].
    split; [exact He|]. intros s' [= <-]. by left. }
  destruct ((NOTIFICATION <? t) && _ && _) eqn:Hb4; [|by apply thread_explained_same].
  apply andb_true_iff in Hb4 as [Hb4 _]. apply andb_true_iff in Hb4 as [Ht _].
  rewrite onResponse_frame. destruct (m_callback io); [|by apply thread_explained_same].
  pose proof (explains_complete (x_mgr (s_mux e)) pc t q x p Ht) as He.
  cbn [commandComplete world_callback mux_callback]. unfold thread_explained, mgr_of. cbn [snd].
  destruct (mgr_commandComplete (x_mgr (s_mux e)) t q x p) as [g|]; [|by split].
  split; [exact He|]. intros s' [= <-]. by left.
Qed.

Lemma thread_explained_frames pc frames s :
  inv_at (mgr_of s) pc -> thread_explained pc s (foldM picard_frameComplete s frames).
Proof.
  revert s. induction frames as [|f frames IH]; intros [io e] Hi; [by apply thread_explained_same|].
  cbn [foldM]. pose proof (thread_explained_frame pc io e f Hi) as [He Hl].
  destruct (picard_frameComplete (io, e) f) as [s1|why]; [|by split].
  step_bind. rewrite bind_Ok in He.
  assert (Hi1 : inv_at (mgr_of s1) pc) by exact (explains_inv _ _ _ _ Hi He).
  destruct (IH s1 Hi1) as [He2 Hl2]. split; [by apply (explains_trans _ _ (mgr_of s1) pc)|].
  intros s2 Hs2. eapply parts_le_trans; [by apply Hl|by apply Hl2].
Qed.

Lemma device_read_explained pc io e i :
  inv_at (x_mgr (s_mux e)) pc -> hdlc_ok io -> input_ok i -> empty_datagram (s_port e) i = false ->
  thread_explained pc (io, e) (device_read (io, e) i) /\
  forall s', device_read (io, e) i = Ok s' -> hdlc_ok s'.1.
Proof.
  intros Hi Hh Hin Hne. pose proof (device_read_cases io e i Hh Hin) as Hc. rewrite Hne in Hc.
  destruct Hc as [Hc|(p & frames & Hc & Hwf)].
  - rewrite Hc. split; [split|].
    + by apply (explains_reset (s_mux e)).
    + intros s' [= <-]. by apply (parts_le_reset (s_mux e) pc).
    + intros s' [= <-]. exact Hh.
  - rewrite Hc in Hwf |- *. pose proof (thread_explained_frames pc frames (io, e) Hi) as [He Hl].
    destruct (foldM picard_frameComplete (io, e) frames) as [[io1 e1]|why]; step_bind.
    + split; [split; [exact He|]|].
      * intros s' [= <-]. exact (Hl _ eq_refl).
      * intros s' [= <-]. exists p. split; [done|]. by eapply Hwf.
    + split; [split; [exact He|done]|done].
Qed.
End picard_thread.

(** ** The whole system *)

Section whole.
Context {P : Type} `{PicardDevice P}.
Implicit Types (y : system P).

Record sys_inv (y : system P) : Prop := {
  si_world : inv_at (y_mgr y) (y_pc y);
  si_hdlc : hdlc_ok (y_io y);
  si_listener : listener_ok (x_listener (y_parts y));
  (* nothing is accepted before the listen thread has run *)
  si_pending : y_listen y <> LFinished -> m_pending (x_listener (y_parts y)) = None;
}.

Definition sys_event_ok (e : sys_event) : Prop :=
  match e with
  | SysPicard p => input_ok (p_input p)
  | _ => True
  end.

(** A read of an empty datagram. *)
Definition empty_read (y : system P) (e : sys_event) : bool :=
  match e with
  | SysPicard p =>
      m_isRunning (if p_stop p then picard_stop (y_io y) else y_io y) &&
      empty_datagram (s_port (y_env y)) (p_input p)
  | _ => false
  end.

(** An outcome of the system, as the manager sees it. *)
Definition sys_explained (y : system P) (o : outcome (system P)) : Prop :=
  explains (y_mgr y) (y_pc y) (y' ← o; Ok (y_mgr y', y_pc y')) /\
  forall y', o = Ok y' -> sys_inv y'.

Lemma sys_explained_same y y' :
  sys_inv y -> y_mgr y' = y_mgr y -> y_pc y' = y_pc y -> hdlc_ok (y_io y') ->
  listener_ok (x_listener (y_parts y')) ->
  (y_listen y' <> LFinished -> m_pending (x_listener (y_parts y')) = None) ->
  sys_explained y (Ok y').
Proof.
  intros Hy Hm Hpc Hh Hl Hn. split.
  - step_bind. rewrite Hm, Hpc. apply explains_refl.
  - intros y1 [= <-]. split; [|done..]. rewrite Hm, Hpc. apply Hy.
Qed.

(** A hello, if one is due, leaves the rest and the kind of the device. *)
Lemma hello_frame (io : CBasePicardIO) (s : loop_state (link_world P mux_parts)) (p : pass device_input) :
  let hello := if hello_due io (p_now p) (l_last s)
               then (sendHello io (l_env s) 0, p_after p, l_hellos s ++ [p_now p])
               else (l_env s, l_last s, l_hellos s) in
  s_mux hello.1.1 = s_mux (l_env s) /\
  device_udp (s_port hello.1.1) = device_udp (s_port (l_env s)).
Proof. cbn zeta. destruct (hello_due _ _ _); [|done]. split; [done|]. apply device_send_kind. Qed.

Lemma picard_pass_explained y p :
  sys_inv y -> sys_event_ok (SysPicard p) ->
  if empty_read y (SysPicard p) then sys_exec y (SysPicard p) = Undefined BadRange
  else sys_explained y (sys_exec y (SysPicard p)).
Proof.
  intros Hy Hp. pose proof Hy as [Hw Hh Hl Hn]. cbn [sys_exec empty_read]. unfold loop_pass.
  change (y_io y) with (l_io (y_loop y)).
  set (io := if p_stop p then picard_stop (l_io (y_loop y)) else l_io (y_loop y)).
  assert (Hio : hdlc_ok io) by (unfold io; by destruct (p_stop p)).
  destruct (m_isRunning io); cbn [andb].
  2:{ step_bind. by apply sys_explained_same. }
  pose proof (hello_frame io (y_loop y) p) as [Hmux Hkind].
  match type of Hmux with s_mux (?h.1.1) = _ => set (hello := h) in * end.
  destruct hello as [[e last] hellos]. cbn [fst] in Hmux, Hkind.
  assert (Hne : empty_datagram (s_port e) (p_input p) = empty_datagram (s_port (y_env y)) (p_input p))
    by (unfold empty_datagram; by rewrite Hkind).
  assert (Hi : inv_at (x_mgr (s_mux e)) (y_pc y)) by (rewrite Hmux; exact Hw).
  change (@link_read _ (link_world P mux_parts) device_link_read) with (device_read (D := P) (M := mux_parts)).
  rewrite <- Hne. destruct (empty_datagram (s_port e) (p_input p)) eqn:Hemp.
  { pose proof (device_read_cases io e (p_input p) Hio Hp) as Hc. rewrite Hemp in Hc. by rewrite Hc. }
  destruct (device_read_explained (y_pc y) io e (p_input p) Hi Hio Hp Hemp) as [[He Hle] Hhd].
  unfold mgr_of in He. cbn [snd] in He, Hle. rewrite Hmux in He, Hle.
  destruct (device_read (io, e) (p_input p)) as [[io1 e1]|why]; step_bind; [|by split].
  split; [exact He|].
  intros y1 [= <-]. specialize (Hle _ eq_refl). specialize (Hhd _ eq_refl). cbn in Hle, Hhd. split.
  - exact (explains_inv _ _ _ _ Hw He).
  - exact Hhd.
  - exact (parts_le_listener _ _ Hle Hl).
  - intros Hf. exact (parts_le_pending _ _ Hle (Hn Hf)).
Qed.

(** What an event of the manager may do to its surroundings. *)
Definition rest_le (r r' : sys_rest P) : Prop :=
  device_udp (r_port r') = device_udp (r_port r) /\
  ((r_io r' = r_io r /\ r_listener r' = r_listener r /\ r_stopped r' = r_stopped r) \/
   (r_io r' = picard_stop (picard_reset (r_io r)) /\ r_listener r' = listener_stop (r_listener r) /\
    r_stopped r' = true)).

Lemma finish_rest g (r : sys_rest P) cmd result g' r' :
  finish g r cmd result = Ok (g', r') -> rest_le r r'.
Proof.
  unfold finish, commandTimeout, mgr_resetConnection.
  destruct (sc_client cmd) as [client|]; [destruct (decide (result = CLIENT_OK))|]; intros Hx.
  - inv_bind. simplify_eq. by split; [|left].
  - inv_bind. destruct r1 as [g1 r1]. inv_bind. simplify_eq. by split; [|right].
  - inv_bind. simplify_eq. by split; [|left].
Qed.

Lemma exec_rest (w w' : world (sys_rest P)) e :
  exec w e = Ok w' -> rest_le (w_rest w) (w_rest w').
Proof.
  assert (Hrefl : forall r, rest_le r r) by (by split; [|left]).
  assert (Hpop : forall (w w1 : world (sys_rest P)) o, after_pop w o = Ok w1 -> w_rest w1 = w_rest w).
  { intros w1 w2 [cmd|] Hx; cbn in Hx; inv_bind; [|by subst]. destruct r. by inv_bind. }
  destruct e as [| |client auth version|client e|t q rc p|t p| |]; cbn [exec]; unfold with_mgr.
  - unfold command_thread. destruct (w_pc w) as [| | |cmd i|cmd i|].
    + intros [= <-]. apply Hrefl.
    + destruct (m_loop (w_mgr w)); [|by intros [= <-]].
      destruct (timedPop_enter _ _) as [[popped|] qu]; [|by intros [= <-]].
      intros Hx. rewrite (Hpop _ _ _ Hx). apply Hrefl.
    + destruct (decide _); [|by intros [= <-]].
      destruct (timedPop_resume _ _) as [popped qu].
      intros Hx. rewrite (Hpop _ _ _ Hx). apply Hrefl.
    + destruct (i <? _).
      * unfold picard_sendCommand, sys_IPicardIO, sendCommand. intros [= <-].
        split; [apply device_send_kind|by left].
      * intros Hx. apply bind_Ok_inv in Hx as ([g r] & Hf & [= <-]). by eapply finish_rest.
    + destruct (decide _); [by intros [= <-]|].
      intros Hx. apply bind_Ok_inv in Hx as ([g r] & Hf & [= <-]). by eapply finish_rest.
    + intros [= <-]. apply Hrefl.
  - intros [= <-]. apply Hrefl.
  - destruct (m_heap (w_mgr w) !! client); intros [= <-]; apply Hrefl.
  - destruct (m_heap (w_mgr w) !! client) as [cl|]; [|intros [= <-]; apply Hrefl].
    destruct (referenced _ _ client cl); intros Hx.
    + apply bind_Ok_inv in Hx as ([cl' g'] & _ & [= <-]). apply Hrefl.
    + apply bind_Ok_inv in Hx as (cl' & _ & [= <-]). apply Hrefl.
  - intros Hx. apply bind_Ok_inv in Hx as (g' & _ & [= <-]). apply Hrefl.
  - intros Hx. apply bind_Ok_inv in Hx as (g' & _ & [= <-]). apply Hrefl.
  - intros Hx. apply bind_Ok_inv in Hx as ([g' r'] & Hm & [= <-]).
    apply bind_Ok_inv in Hm as (g1 & _ & [= <- <-]). by split; [|right].
  - intros [= <-]. apply Hrefl.
Qed.

Lemma mgr_step_explained y e :
  sys_inv y -> event_ok e -> sys_explained y (mgr_step y e).
Proof.
  intros [Hw Hh Hl Hn] He. unfold mgr_step, sys_explained.
  pose proof (explains_exec (mgr_view y) e He) as Hx. cbn [mgr_view w_mgr w_pc] in Hx.
  destruct (exec (mgr_view y) e) as [w'|why] eqn:Hrun; step_bind; (split; [exact Hx|]); [|done].
  intros y' [= <-]. destruct (exec_rest _ _ _ Hrun) as [_ Hr]. cbn in Hr. split.
  - exact (explains_inv _ _ _ _ Hw Hx).
  - unfold hdlc_ok, y_io. cbn. by destruct Hr as [(-> & _)|(-> & _)].
  - cbn. destruct Hr as [(_ & -> & _)|(_ & -> & _)]; [done|]. split; [apply Hl|done].
  - cbn. by destruct Hr as [(_ & -> & _)|(_ & -> & _)].
Qed.

Lemma view_set (w : world (sys_rest P)) y : mgr_view (set_view w y) = w.
Proof. by destruct w as [g [] pc]. Qed.

Lemma mgr_step_listen y e y' : mgr_step y e = Ok y' -> y_listen y' = y_listen y.
Proof. unfold mgr_step. intros Hx. by apply bind_Ok_inv in Hx as (w & _ & [= <-]). Qed.

Lemma asyncListen_ok l : listener_ok l -> listener_ok (asyncListen l).
Proof. unfold asyncListen. destruct (m_acceptor l); [|done]. intros [Hl _]. by split. Qed.

Lemma other_explained y e :
  sys_inv y -> match e with SysPicard _ => False | _ => True end ->
  sys_explained y (sys_exec y e).
Proof.
  intros Hy He. pose proof Hy as [Hw Hh Hl Hn].
  assert (Hsame : sys_explained y (Ok y)) by (by apply sys_explained_same).
  destruct e as [p| | |client e|client|spurious| |]; cbn [sys_exec].
  - done.
  - by apply mgr_step_explained.
  - by apply mgr_step_explained.
  - destruct (x_stopped (y_parts y)); [done|]. by apply mgr_step_explained.
  - destruct (x_stopped (y_parts y)); [done|]. unfold accept_step.
    destruct (m_pending (x_listener (y_parts y))) as [[token version]|] eqn:Hpend; [|done].
    destruct (m_heap (y_mgr y) !! client); [done|].
    assert (Htok : length token = AUTHENTICATION_LEN).
    { destruct Hl as [_ Hl]. by rewrite Hpend in Hl. }
    destruct (mgr_step_explained y (EvAccept client token version) Hy Htok) as [Hx Hinv].
    destruct (mgr_step y _) as [y1|why] eqn:Hy1; step_bind; (split; [exact Hx|]); [|done].
    intros y' [= <-]. pose proof (Hinv y1 eq_refl) as [Hw1 Hh1 Hl1 _].
    split; [done|done|by apply asyncListen_ok|].
    assert (Hfin : y_listen y = LFinished).
    { destruct (decide (y_listen y = LFinished)) as [|Hne]; [done|]. specialize (Hn Hne). congruence. }
    cbn. by rewrite (mgr_step_listen _ _ _ Hy1), Hfin.
  - destruct (decide (y_listen y = LReturned)) as [Hret|Hret].
    + unfold listen_step. rewrite Hret. apply sys_explained_same; [done..| |done].
      by apply asyncListen_ok.
    + assert (Hparts : y_parts (listen_step spurious y) = y_parts y /\
        m_hdlc (y_io (listen_step spurious y)) = m_hdlc (y_io y) /\
        y_pc (listen_step spurious y) = y_pc y /\
        (y_listen y = LFinished -> y_listen (listen_step spurious y) = LFinished)).
      { unfold listen_step. destruct (y_listen y) eqn:Hpc; try done.
        - destruct (waitForHello_check _); by split_and!.
        - destruct (decide _); [destruct spurious|]; split_and!; done. }
      destruct Hparts as (Hp & Hd & Hpc & Hf).
      apply sys_explained_same; [done|unfold y_mgr; by rewrite Hp|done| | |].
      * unfold hdlc_ok. by rewrite Hd.
      * by rewrite Hp.
      * rewrite Hp. auto.
  - by apply mgr_step_explained.
  - destruct (x_stopped (y_parts y)); [|done].
    set (y1 := {| y_loop := set_loop_state (registerCallback false (y_io y)) (y_env y) (y_loop y);
                  y_pc := y_pc y; y_listen := y_listen y |}).
    assert (Hy1 : sys_inv y1) by (split; [exact Hw|exact Hh|exact Hl|exact Hn]).
    exact (mgr_step_explained y1 EvStop Hy1 I).
Qed.

Lemma sys_exec_explained y e :
  sys_inv y -> sys_event_ok e ->
  if empty_read y e then sys_exec y e = Undefined BadRange else sys_explained y (sys_exec y e).
Proof.
  intros Hy He. destruct e as [p| | | | | | |]; [by apply picard_pass_explained|..].
  all: by apply other_explained.
Qed.

(** What a step or a run that is defined does. *)
Lemma sys_exec_ok y e y' :
  sys_inv y -> sys_event_ok e -> sys_exec y e = Ok y' -> sys_explained y (Ok y').
Proof.
  intros Hy He Hx. pose proof (sys_exec_explained y e Hy He) as Hs. rewrite Hx in Hs.
  by destruct (empty_read y e).
Qed.

Lemma sys_exec_inv y e y' :
  sys_inv y -> sys_event_ok e -> sys_exec y e = Ok y' -> sys_inv y'.
Proof. intros Hy He Hx. by apply (sys_exec_ok y e y' Hy He Hx). Qed.

(** Some step of a run reads an empty datagram. *)
Definition empty_read_in (y : system P) (es : list sys_event) : Prop :=
  exists es1 p es2 y1, es = es1 ++ SysPicard p :: es2 /\ sys_run y es1 = Ok y1 /\
    empty_datagram (s_port (y_env y1)) (p_input p) = true.

Lemma sys_run_explained es y :
  sys_inv y -> Forall sys_event_ok es ->
  sys_explained y (sys_run y es) \/ (sys_run y es = Undefined BadRange /\ empty_read_in y es).
Proof.
  intros Hy Hes. revert y Hy. induction Hes as [|e es He _ IH]; intros y Hy.
  { left. destruct Hy. by apply sys_explained_same. }
  unfold sys_run. cbn [foldM]. pose proof (sys_exec_explained y e Hy He) as Hs.
  destruct (empty_read y e) eqn:Hemp.
  { right. rewrite Hs. split; [done|]. destruct e as [p| | | | | | |]; try done.
    exists [], p, es, y. by apply andb_prop in Hemp as [_ Hemp]. }
  destruct Hs as [Hx Hinv].
  destruct (sys_exec y e) as [y1|why] eqn:Hy1; [|by left; split]. step_bind. rewrite bind_Ok in Hx.
  destruct (IH y1 (Hinv _ eq_refl)) as [[Hx2 Hinv2]|(Hu & es1 & p & es2 & y2 & -> & Hr & Hp)].
  - left. split; [by apply (explains_trans _ _ (y_mgr y1) (y_pc y1))|]. exact Hinv2.
  - right. split; [exact Hu|]. exists (e :: es1), p, es2, y2. split_and!; [done| |done].
    unfold sys_run. cbn [foldM]. rewrite Hy1. exact Hr.
Qed.

Lemma sys_run_inv es y y' :
  sys_inv y -> Forall sys_event_ok es -> sys_run y es = Ok y' -> sys_inv y'.
Proof.
  intros Hy Hes Hr. destruct (sys_run_explained es y Hy Hes) as [[_ Hs]|[Hs _]]; [by apply Hs|congruence].
Qed.

(** The device stays a serial port or a socket. *)
Lemma mgr_step_kind y e y' :
  mgr_step y e = Ok y' -> device_udp (s_port (y_env y')) = device_udp (s_port (y_env y)).
Proof.
  unfold mgr_step. intros Hx. apply bind_Ok_inv in Hx as (w & Hw & [= <-]).
  exact (proj1 (exec_rest _ _ _ Hw)).
Qed.

Lemma sys_exec_kind y e y' :
  sys_inv y -> sys_event_ok e -> sys_exec y e = Ok y' ->
  device_udp (s_port (y_env y')) = device_udp (s_port (y_env y)).
Proof.
  intros Hy He. destruct e as [p| | |client e|client|spurious| |]; cbn [sys_exec].
  - unfold loop_pass. set (io := if p_stop p then _ else _).
    assert (Hio : hdlc_ok io) by (unfold io; destruct (p_stop p); apply Hy).
    destruct (m_isRunning io); [|by intros [= <-]].
    pose proof (hello_frame io (y_loop y) p) as [_ Hkind]. cbn zeta in Hkind.
    destruct (if hello_due _ _ _ then _ else _) as [[e last] hellos]. cbn [fst] in Hkind.
    intros Hx. apply bind_Ok_inv in Hx as (s & Hs & [= <-]).
    apply bind_Ok_inv in Hs as ([io1 e1] & Hr & [= <-]).
    etransitivity; [|exact Hkind]. exact (device_read_kind io e (p_input p) (io1, e1) Hio He Hr).
  - apply mgr_step_kind.
  - apply mgr_step_kind.
  - destruct (x_stopped (y_parts y)); [by intros [= <-]|apply mgr_step_kind].
  - destruct (x_stopped (y_parts y)); [by intros [= <-]|]. unfold accept_step.
    destruct (m_pending _) as [[token version]|]; [|by intros [= <-]].
    destruct (m_heap _ !! client); [by intros [= <-]|].
    intros Hx. apply bind_Ok_inv in Hx as (y1 & Hy1 & [= <-]). exact (mgr_step_kind _ _ _ Hy1).
  - intros [= <-]. unfold listen_step. destruct (y_listen y); try done.
    + by destruct (waitForHello_check _).
    + destruct (decide _); [by destruct spurious|done].
  - apply mgr_step_kind.
  - destruct (x_stopped (y_parts y)); [|by intros [= <-]]. intros Hx. exact (mgr_step_kind _ _ _ Hx).
Qed.

Lemma sys_run_kind es y y' :
  sys_inv y -> Forall sys_event_ok es -> sys_run y es = Ok y' ->
  device_udp (s_port (y_env y')) = device_udp (s_port (y_env y)).
Proof.
  intros Hy Hes. revert y Hy. induction Hes as [|e es He _ IH]; intros y Hy; unfold sys_run; cbn [foldM].
  { by intros [= <-]. }
  intros Hx. apply bind_Ok_inv in Hx as (y1 & H1 & Hx). rewrite (IH y1); [by eapply sys_exec_kind| |done].
  by eapply sys_exec_inv.
Qed.

Lemma new_system_inv retries t0 port lp any token :
  length token = AUTHENTICATION_LEN -> sys_inv (new_system retries t0 port lp any token).
Proof.
  intros Ht. split.
  - exact (new_world_inv retries ([] : list Z)).
  - eexists. split; [done|]. apply new_wf.
  - by split.
  - done.
Qed.
(** *** A hello that nobody waits for yet *)

(** One frame on a connected link: no waiter is woken unless everything is reset. *)
Lemma frame_keeps_waiters pc (io : CBasePicardIO) (e : link_world P mux_parts) frame s' :
  inv_at (x_mgr (s_mux e)) pc -> m_connected io = true ->
  picard_frameComplete (io, e) frame = Ok s' ->
  x_stopped (s_mux s'.2) = true \/
  (m_connected s'.1 = true /\ m_waiters s'.1 = m_waiters io).
Proof.
  intros Hi Hc. destruct (frame_cases (E := link_world P mux_parts) frame) as [Hid|(c & t & q & x & p & ->)].
  { rewrite Hid. intros [= <-]. auto. }
  assert (Hrec : forall v, m_waiters (record_protocol v io) = m_waiters io)
    by (intros v; unfold record_protocol; by destruct (checkProtocol v)).
  rewrite frameComplete_frame.
  destruct (_ && _) eqn:Hb1.
  { apply andb_true_iff in Hb1 as [_ Hl]. apply Z.leb_le in Hl.
    do 4 (destruct p as [|? p]; [cbn in Hl; lia|]). rewrite onHelloResponse_frame.
    intros [= <-]. right. cbn [fst]. destruct (_ && _); cbn; rewrite ?m_connected_record, Hc; cbn;
      rewrite ?m_connected_record; auto. }
  destruct ((t =? MGR_HELLO) && _).
  { rewrite onMgrHello_frame. cbn zeta. rewrite m_connected_record, Hc. intros [= <-]. left.
    exact (reset_stopped (s_mux e) pc Hi). }
  destruct ((t =? NOTIFICATION) && _ && _).
  { unfold onNotification. destruct (negb (Z.land c 2 =? 0)); cbn [sendAck];
      change (vat _ SERIAL_API_HEADER_LEN) with (Ok x); rewrite bind_Ok;
      intros Hx; apply bind_Ok_inv in Hx as (e' & _ & [= <-]); auto. }
  destruct ((NOTIFICATION <? t) && _ && _); [|intros [= <-]; auto].
  rewrite onResponse_frame. intros Hx. apply bind_Ok_inv in Hx as (e' & _ & [= <-]). auto.
Qed.

Lemma frames_keep_waiters pc frames (s s' : CBasePicardIO * link_world P mux_parts) :
  inv_at (mgr_of s) pc -> m_connected s.1 = true ->
  foldM picard_frameComplete s frames = Ok s' ->
  x_stopped (s_mux s'.2) = true \/
  (m_connected s'.1 = true /\ m_waiters s'.1 = m_waiters s.1).
Proof.
  revert s. induction frames as [|f frames IH]; intros [io e] Hi Hc; cbn [foldM].
  { intros [= <-]. auto. }
  intros Hx. apply bind_Ok_inv in Hx as (s1 & H1 & Hx).
  destruct (thread_explained_frame pc io e f Hi) as [He Hl]. rewrite H1, bind_Ok in He.
  pose proof (explains_inv _ _ _ _ Hi He) as Hi1.
  destruct (frame_keeps_waiters pc io e f s1 Hi Hc H1) as [Hs|[Hc1 Hw1]].
  - left. destruct (thread_explained_frames pc frames s1 Hi1) as [_ Hl2].
    exact (parts_le_stopped _ _ (Hl2 _ Hx) Hs).
  - destruct (IH s1 Hi1 Hc1 Hx) as [Hs|[Hc2 Hw2]]; [by left|].
    right. by rewrite Hw2.
Qed.

(** The listen thread has missed the hello: it is about to wait, or asleep. *)
Definition missed (y : system P) : Prop :=
  x_stopped (y_parts y) = true \/
  (m_connected (y_io y) = true /\
   (y_listen y = LWait \/ (y_listen y = LAsleep /\ listen_thread_id ∈ m_waiters (y_io y)))).

Lemma device_read_keeps_waiters pc io e i s' :
  inv_at (x_mgr (s_mux e)) pc -> hdlc_ok io -> input_ok i -> m_connected io = true ->
  device_read (io, e) i = Ok s' ->
  x_stopped (s_mux s'.2) = true \/ (m_connected s'.1 = true /\ m_waiters s'.1 = m_waiters io).
Proof.
  intros Hi Hh Hin Hc Hr. pose proof (device_read_cases io e i Hh Hin) as Hx.
  destruct (empty_datagram _ _); [congruence|]. destruct Hx as [Hx|(p & frames & Hx & _)].
  - rewrite Hx in Hr. injection Hr as <-. left. exact (reset_stopped (s_mux e) _ Hi).
  - rewrite Hx in Hr. apply bind_Ok_inv in Hr as (s1 & Hs1 & [= <-]).
    exact (frames_keep_waiters pc frames (io, e) s1 Hi Hc Hs1).
Qed.

Lemma missed_picard y p y' :
  sys_inv y -> sys_event_ok (SysPicard p) -> missed y -> sys_exec y (SysPicard p) = Ok y' -> missed y'.
Proof.
  intros [Hw Hh _ _] Hp Hm. cbn [sys_event_ok] in Hp. cbn [sys_exec]. unfold loop_pass.
  set (io := if p_stop p then picard_stop (l_io (y_loop y)) else l_io (y_loop y)).
  assert (Hio : m_connected io = m_connected (y_io y) /\ m_waiters io = m_waiters (y_io y) /\ hdlc_ok io)
    by (unfold io; destruct (p_stop p); by split_and!).
  destruct Hio as (Hcio & Hwio & Hok).
  destruct (m_isRunning io).
  2:{ step_bind. intros [= <-]. unfold missed, y_io, y_parts, y_env. cbn.
      rewrite Hcio, Hwio. exact Hm. }
  pose proof (hello_frame io (y_loop y) p) as [Hmux _]. cbn zeta in Hmux.
  destruct (if hello_due _ _ _ then _ else _) as [[e last] hellos]. cbn [fst] in Hmux.
  assert (Hi : inv_at (x_mgr (s_mux e)) (y_pc y)) by (rewrite Hmux; exact Hw).
  intros Hx. apply bind_Ok_inv in Hx as (s1 & Hs1 & [= <-]).
  apply bind_Ok_inv in Hs1 as ([io1 e1] & Hr & [= <-]).
  change (device_read (io, e) (p_input p) = Ok (io1, e1)) in Hr.
  unfold missed, y_io, y_parts, y_env. cbn [y_loop l_io l_env y_listen].
  destruct Hm as [Hs|[Hc Hl]].
  { left. pose proof (device_read_cases io e (p_input p) Hok Hp) as Hemp.
    destruct (empty_datagram _ _) eqn:Hed; [congruence|].
    destruct (device_read_explained (y_pc y) io e (p_input p) Hi Hok Hp Hed) as [[_ Hle] _].
    apply (parts_le_stopped _ _ (Hle _ Hr)). cbn. by rewrite Hmux. }
  rewrite <- Hcio in Hc. rewrite <- Hwio in Hl.
  destruct (device_read_keeps_waiters (y_pc y) io e _ _ Hi Hok Hp Hc Hr) as [Hs|[Hc1 Hw1]]; [by left|].
  cbn in Hc1, Hw1. right. rewrite Hw1. auto.
Qed.

Lemma missed_mgr y e y' : missed y -> mgr_step y e = Ok y' -> missed y'.
Proof.
  intros Hm Hx. pose proof (mgr_step_listen _ _ _ Hx) as Hl. unfold mgr_step in Hx.
  apply bind_Ok_inv in Hx as (w & Hw & [= <-]). destruct (exec_rest _ _ _ Hw) as [_ Hr].
  cbn in Hr. unfold missed. destruct Hr as [(Hio & _ & Hs)|(_ & _ & Hs)].
  - unfold y_io, y_parts, y_env. cbn. rewrite Hio, Hs. exact Hm.
  - left. exact Hs.
Qed.

Lemma missed_exec y e y' :
  sys_inv y -> sys_event_ok e -> e <> SysListen true -> missed y ->
  sys_exec y e = Ok y' -> missed y'.
Proof.
  intros Hy He Hne Hm. destruct e as [p| | |client e|client|spurious| |].
  - by apply missed_picard.
  - by apply missed_mgr.
  - by apply missed_mgr.
  - cbn [sys_exec]. destruct (x_stopped (y_parts y)); [by intros [= <-]|]. by apply missed_mgr.
  - cbn [sys_exec]. destruct (x_stopped (y_parts y)) eqn:Hs; [by intros [= <-]|].
    destruct Hm as [?|[Hc Hl]]; [congruence|].
    assert (Hf : y_listen y <> LFinished) by (destruct Hl as [->|[-> _]]; done).
    unfold accept_step. rewrite (si_pending y Hy Hf). intros [= <-]. by right.
  - cbn [sys_exec]. intros [= <-]. destruct spurious; [done|].
    destruct Hm as [Hs|[Hc [Hl|[Hl Hin]]]].
    + left. unfold listen_step. destruct (y_listen y); try done.
      * by destruct (waitForHello_check _).
      * by destruct (decide _).
    + right. unfold listen_step. rewrite Hl. split; [exact Hc|]. right. split; [done|].
      cbn. set_solver.
    + right. unfold listen_step. rewrite Hl, decide_True by done. auto.
  - by apply missed_mgr.
  - cbn [sys_exec]. destruct (x_stopped (y_parts y)) eqn:Hs; [|by intros [= <-]].
    apply missed_mgr. by left.
Qed.

Lemma missed_run es y y' :
  sys_inv y -> Forall sys_event_ok es -> SysListen true ∉ es -> missed y ->
  sys_run y es = Ok y' -> sys_inv y' /\ missed y'.
Proof.
  intros Hy Hes. revert y Hy. induction Hes as [|e es He _ IH]; intros y Hy Hn Hm; unfold sys_run.
  { by intros [= <-]. }
  apply not_elem_of_cons in Hn as [Hne Hn].
  cbn [foldM]. intros Hx. apply bind_Ok_inv in Hx as (y1 & H1 & Hx).
  apply (IH y1); [by eapply sys_exec_inv|done| |exact Hx].
  eapply missed_exec; [exact Hy|exact He|congruence|exact Hm|exact H1].
Qed.
End whole.

(** ** Properties *)

Section properties.
Context {P : Type} `{PicardDevice P}.

(** C3: the multiplexer refines the client manager.  Whatever the serial port or
    the socket delivers, cut into reads in any way, and however the Picard thread,
    the command thread, the listen thread, the client handlers, a reset and the
    shutdown interleave, the state of the manager and of the command thread is one
    that manager events alone reach; and if a step of the whole program runs into
    undefined behaviour, then at a point those events reach, with an event that is
    one of the three hazards of the manager, or it reads an empty datagram, which
    only the UDP link can. *)
Theorem system_refines_manager retries t0 (port : P) lp any token es :
  length token = AUTHENTICATION_LEN -> Forall sys_event_ok es ->
  match sys_run (new_system retries t0 port lp any token) es with
  | Ok y =>
      exists evs (p : list Z), Forall event_ok evs /\
        run_events (new_world retries p) evs = Ok (W (y_mgr y) [] (y_pc y))
  | Undefined why =>
      (exists evs (p : list Z) w ev, Forall event_ok evs /\ event_ok ev /\
         run_events (new_world retries p) evs = Ok w /\
         exec w ev = Undefined why /\ hazard w ev) \/
      (why = BadRange /\ device_udp port = true /\
       empty_read_in (new_system retries t0 port lp any token) es)
  end.
Proof.
  intros Ht Hes. pose proof (new_system_inv retries t0 port lp any token Ht) as Hy.
  destruct (sys_run_explained es _ Hy Hes) as [[Hx _]|[Hu Hemp]].
  - destruct (sys_run _ es) as [y|why]; [rewrite bind_Ok in Hx|left].
    + destruct Hx as (evs & Hevs & Hrun). destruct (Hrun []) as [p Hp]. by exists evs, p.
    + destruct Hx as (evs & g & pc & ev & Hevs & Hev & Hrun & p1 & Hu).
      destruct (Hrun p1) as [p Hp]. exists evs, p, (W g p1 pc), ev. split_and!; [done..|].
      assert (Hw : world_inv (W g p1 pc)) by exact (reachable_inv retries p evs _ Hevs Hp).
      destruct (decide (hazard (W g p1 pc) ev)) as [Hz|Hz]; [done|].
      destruct (exec_Ok _ ev Hw Hev Hz) as (w' & Hw' & _). congruence.
  - rewrite Hu. right. split; [done|]. split; [|exact Hemp].
    destruct Hemp as (es1 & p & es2 & y1 & -> & Hr & Hp).
    apply Forall_app in Hes as [Hes1 _]. pose proof (sys_run_kind es1 _ y1 Hy Hes1 Hr) as Hk.
    cbn in Hk. rewrite <- Hk. by apply andb_prop in Hp as [Hp _].
Qed.
End properties.

Section end_to_end.
Context {A B : Type} `{SerialPort A} `{UdpSocket B}.

(** A frame read on a running, connected link. *)
Lemma frame_pass (y : system (picard_device A B)) p frame :
  m_isRunning (y_io y) = true -> m_connected (y_io y) = true -> p_stop p = false ->
  bytes_ok frame -> frame <> [] -> frame_input (s_port (y_env y)) (y_io y) frame (p_input p) ->
  sys_exec y (SysPicard p)
  = ('(io, e) ← picard_frameComplete (y_io y, y_env y) frame;
     Ok {| y_loop := set_loop_state io e (y_loop y); y_pc := y_pc y; y_listen := y_listen y |}).
Proof.
  intros Hr Hc Hst Hb Hne Hin. unfold y_io in Hr, Hc. cbn [sys_exec]. unfold loop_pass.
  rewrite Hst, Hr. unfold hello_due. rewrite Hc. cbn [negb andb]. unfold link_read, device_link_read.
  rewrite (device_read_frame (l_io (y_loop y)) (l_env (y_loop y)) frame (p_input p) Hb Hne Hin).
  change (l_io (y_loop y)) with (y_io y). change (l_env (y_loop y)) with (y_env y).
  by destruct (picard_frameComplete (y_io y, y_env y) frame) as [[io e]|].
Qed.

(** C1: a notification end to end.  In any state the system reaches, over a serial
    port or a socket, in which the read loop runs, connected and with the manager
    registered: a read of a notification frame (type [0..31], at least one byte of
    payload, the response bit of its control byte clear), in HDLC at a receiver
    between frames or in a datagram, writes the acknowledgement to the link if the
    frame is reliable and nothing if not, and sends the notification, as one
    message, to exactly the registered clients whose committed filter has its bit.
    The sequence number makes no difference: a reliable notification that Picard
    repeats with the number of the last one is delivered again, although the
    comment in [frameComplete] says that duplicates are filtered out. *)
Theorem notification_end_to_end retries t0 (port : picard_device A B) lp any token es y p
  control seqNo t payload :
  length token = AUTHENTICATION_LEN -> Forall sys_event_ok es ->
  sys_run (new_system retries t0 port lp any token) es = Ok y ->
  m_isRunning (y_io y) = true -> m_connected (y_io y) = true -> m_callback (y_io y) = true ->
  let frame := picard_frame control NOTIFICATION seqNo (t :: payload) in
  bytes_ok frame -> 0 <= t < 32 -> payload <> [] -> Z.land control 1 = 0 ->
  p_stop p = false -> frame_input (s_port (y_env y)) (y_io y) frame (p_input p) ->
  exists y', sys_exec y (SysPicard p) = Ok y' /\
    s_port (y_env y') = (if Z.land control 2 =? 0 then s_port (y_env y)
                         else frame_written (s_port (y_env y)) [3; NOTIFICATION; seqNo; 1; 0]) /\
    forall c cl, m_heap (y_mgr y) !! c = Some cl ->
      sent_to (m_heap (y_mgr y')) c = m_sent (m_core cl) ++
        frame_if (bool_decide (c ∈ m_clients (y_mgr y)) &&
                  Z.testbit (filter (m_params (m_subscriber (m_core cl)))) t)
          (serialize_output (new_CMuxOutput NOTIFICATION 0 t payload)) cl.
Proof.
  intros Ht Hes Hrun Hr Hc Hcb frame Hb Hty Hp Hctl Hst Hin.
  destruct (sys_run_inv es _ y (new_system_inv retries t0 port lp any token Ht) Hes Hrun)
    as [[Hi _] _ _ _]. unfold y_io in Hr, Hc, Hcb.
  assert (Hq : is_u8 seqNo) by (unfold frame, picard_frame in Hb; by decompose_Forall_hyps).
  rewrite (frame_pass y p frame Hr Hc Hst Hb ltac:(done) Hin). unfold y_io.
  unfold frame. rewrite notification_frame by done.
  destruct (fanout_sent (y_mgr y) t payload Hi Hty) as (g & Hg & _ & Hsent).
  set (e := if Z.land control 2 =? 0 then _ else _).
  assert (He : s_mux e = y_parts y) by (unfold e; by destruct (_ =? _)).
  cbn [handleNotif world_callback mux_callback]. rewrite He.
  unfold y_mgr in Hg. rewrite Hg. step_bind. eexists. split; [reflexivity|]. split; [|exact Hsent].
  unfold e, y_env. cbn. destruct (_ =? _); [done|]. cbn. by destruct (s_port (l_env (y_loop y))).
Qed.
End end_to_end.

Section missed_hello.
Context {P : Type} `{PicardDevice P}.

(** A hello that is lost.  [waitForHello] tests [m_connected] before it takes
    the lock.  If the hello response arrives between that test and the wait, the
    link is connected but nothing wakes the listen thread, further hello
    responses included: until a reset stops everything (or a spurious wake-up),
    the mux never listens and no client can connect. *)
Lemma lost_hello retries t0 (port : P) lp any token es0 y es y' :
  length token = AUTHENTICATION_LEN -> Forall sys_event_ok es0 ->
  sys_run (new_system retries t0 port lp any token) es0 = Ok y ->
  y_listen y = LWait -> m_connected (y_io y) = true ->
  Forall sys_event_ok es -> SysListen true ∉ es -> sys_run y es = Ok y' ->
  x_stopped (y_parts y') = true \/
  (m_connected (y_io y') = true /\ y_listen y' <> LFinished /\
   forall client, sys_exec y' (SysAccept client) = Ok y').
Proof.
  intros Ht Hes0 Hrun0 Hl Hc Hes Hn Hrun.
  pose proof (sys_run_inv es0 _ y (new_system_inv retries t0 port lp any token Ht) Hes0 Hrun0) as Hy.
  destruct (missed_run es y y' Hy Hes Hn) as [Hy' Hm]; [by right; auto|done|].
  destruct Hm as [Hs|[Hc' Hl']]; [by left|right].
  assert (Hf : y_listen y' <> LFinished) by (destruct Hl' as [->|[-> _]]; done).
  split_and!; [done|done|]. intros client. cbn [sys_exec].
  destruct (x_stopped (y_parts y')); [done|]. unfold accept_step.
  by rewrite (si_pending y' Hy' Hf).
Qed.
End missed_hello.

(** ** Witnesses: from power-up to a delivered notification *)

Definition read_pass (bytes : list Z) : sys_event :=
  SysPicard {| p_stop := false; p_now := 0; p_after := 0; p_input := DeviceBytes bytes |}.

(** Hello response, listening, one client; the client subscribes to type 1 and
    Picard accepts. *)
Definition up_events : list sys_event :=
  [read_pass (encodeHDLC hello_ok); SysListen false; SysListen false; SysAccept 5;
   SysClient 5 (ClientData (serialize_message sample_hello));
   SysClient 5 (ClientData (serialize_message (subscribe 2)));
   SysCommand; SysCommand; SysCommand;
   read_pass (encodeHDLC (picard_frame 3 SUBSCRIBE 0 [ERR_OK])); SysCommand].

Abbreviation sample_device := (picard_device port_log datagram_log).
Definition sample_system : system sample_device :=
  new_system 2 100 (SerialDevice []) 9900 false sample_auth.

Definition system_after (es : list sys_event) : system sample_device :=
  match sys_run sample_system es with Ok y => y | Undefined _ => sample_system end.

Definition sys_event_okb (e : sys_event) : bool :=
  match e with
  | SysPicard p =>
      match p_input p with
      | DeviceBytes bs => forallb (fun b => (0 <=? b) && (b <? 256)) bs | DeviceException => true
      end
  | _ => true
  end.

Lemma sys_events_ok es : forallb sys_event_okb es = true -> Forall sys_event_ok es.
Proof.
  rewrite forallb_forall. intros Hes. apply Forall_forall. intros e He.
  apply list_elem_of_In in He. specialize (Hes e He). destruct e as [p| | | | | | |]; try done.
  cbn in *. destruct (p_input p) as [bs|]; [|done]. rewrite forallb_forall in Hes.
  apply Forall_forall. intros b Hb. apply list_elem_of_In in Hb. specialize (Hes b Hb).
  apply andb_prop in Hes as [H1 H2]. unfold is_u8. lia.
Qed.

Example up_reached : m_clients (y_mgr (system_after up_events)) = [5%nat].
Proof. vm_compute. reflexivity. Qed.
Example up_pc : y_pc (system_after up_events) = AtHead.
Proof. vm_compute. reflexivity. Qed.
Example up_filter : (fun cl => filter (m_params (m_subscriber (m_core cl)))) <$> m_heap (y_mgr (system_after up_events)) !! 5%nat = Some 2.
Proof. vm_compute. reflexivity. Qed.

Lemma up_ok : Forall sys_event_ok up_events.
Proof. apply sys_events_ok. vm_compute. reflexivity. Qed.

Lemma up_run : sys_run sample_system up_events = Ok (system_after up_events).
Proof. vm_compute. reflexivity. Qed.

(** The same start over UDP, and then an empty datagram. *)
Definition udp_pass (frame : list Z) : sys_event :=
  SysPicard {| p_stop := false; p_now := 0; p_after := 0; p_input := DeviceBytes (0 :: frame) |}.
Definition udp_events : list sys_event :=
  [udp_pass hello_ok; SysListen false; SysListen false; SysAccept 5;
   SysClient 5 (ClientData (serialize_message sample_hello));
   SysClient 5 (ClientData (serialize_message (subscribe 2)));
   SysCommand; SysCommand; SysCommand;
   udp_pass (picard_frame 3 SUBSCRIBE 0 [ERR_OK]); SysCommand].
Definition udp_system : system sample_device :=
  new_system 2 100 (UdpDevice []) 9900 false sample_auth.
Definition udp_up : system sample_device :=
  match sys_run udp_system udp_events with Ok y => y | Undefined _ => udp_system end.

Lemma udp_ok : Forall sys_event_ok udp_events.
Proof. apply sys_events_ok. vm_compute. reflexivity. Qed.

Lemma udp_run : sys_run udp_system udp_events = Ok udp_up.
Proof. vm_compute. reflexivity. Qed.

Lemma empty_udp_run : sys_run udp_system (udp_events ++ [read_pass []]) = Undefined BadRange.
Proof. vm_compute. reflexivity. Qed.

Lemma system_refines_manager_witness :
  (exists evs (p : list Z), Forall event_ok evs /\
     run_events (new_world 2 p) evs
     = Ok (W (y_mgr (system_after up_events)) [] (y_pc (system_after up_events)))) /\
  ((exists evs (p : list Z) w ev, Forall event_ok evs /\ event_ok ev /\
      run_events (new_world 2 p) evs = Ok w /\ exec w ev = Undefined BadRange /\ hazard w ev) \/
   empty_read_in udp_system (udp_events ++ [read_pass []])).
Proof.
  split.
  - pose proof (system_refines_manager 2 100 (SerialDevice [] : sample_device) 9900 false sample_auth
      up_events eq_refl up_ok) as Hx.
    change (new_system _ _ _ _ _ _) with sample_system in Hx. rewrite up_run in Hx. exact Hx.
  - pose proof (system_refines_manager 2 100 (UdpDevice [] : sample_device) 9900 false sample_auth
      (udp_events ++ [read_pass []]) eq_refl) as Hx.
    change (new_system _ _ _ _ _ _) with udp_system in Hx. rewrite empty_udp_run in Hx.
    destruct Hx as [Hx|(_ & _ & Hx)]; [|by left|by right].
    apply Forall_app. split; [exact udp_ok|]. apply sys_events_ok. vm_compute. reflexivity.
Defined.

(** The notification, of type 1, is acknowledged and reaches client 5. *)
Definition sample_notification : list Z := picard_frame 2 NOTIFICATION 7 [1; 0x7E].

Definition sample_ack : list Z := [3; NOTIFICATION; 7; 1; 0].

(** The state is up, over either link, and client 5 is subscribed to type 1. *)
Definition sample_up (y : system sample_device) : bool :=
  m_isRunning (y_io y) && m_connected (y_io y) && m_callback (y_io y) &&
  bool_decide (5%nat ∈ m_clients (y_mgr y)) &&
  match m_heap (y_mgr y) !! 5%nat with
  | Some cl => Z.testbit (filter (m_params (m_subscriber (m_core cl)))) 1 && m_open (m_core cl)
  | None => false
  end.

(** Client 5 gets the notification and the device its acknowledgement. *)
Definition sample_delivered (y y' : system sample_device) : Prop :=
  s_port (y_env y') = frame_written (s_port (y_env y)) sample_ack /\
  sent_to (m_heap (y_mgr y')) 5 = sent_to (m_heap (y_mgr y)) 5
    ++ [serialize_output (new_CMuxOutput NOTIFICATION 0 1 [0x7E])].

Lemma notification_end_to_end_witness :
  (exists y', sys_exec (system_after up_events) (read_pass (encodeHDLC sample_notification)) = Ok y' /\
     sample_delivered (system_after up_events) y') /\
  (exists y', sys_exec udp_up (udp_pass sample_notification) = Ok y' /\ sample_delivered udp_up y').
Proof.
  assert (Hgen : forall port es y p, Forall sys_event_ok es ->
    sys_run (new_system 2 100 port 9900 false sample_auth) es = Ok y -> sample_up y = true ->
    p_stop p = false -> frame_input (s_port (y_env y)) (y_io y) sample_notification (p_input p) ->
    exists y', sys_exec y (SysPicard p) = Ok y' /\ sample_delivered y y').
  { intros port es y p Hes Hrun Hup Hst Hin. unfold sample_up in Hup.
    destruct (m_heap (y_mgr y) !! 5%nat) as [cl|] eqn:Hcl; [|by rewrite andb_false_r in Hup].
    rewrite !andb_true_iff in Hup. destruct Hup as [[[[Hr Hc] Hcb] Hm] [Hbit Hop]].
    edestruct (notification_end_to_end 2 100 port 9900 false sample_auth es y p 2 7 1 [0x7E])
      as (y' & Hx & Hport & Hsent);
      [reflexivity|exact Hes|exact Hrun|exact Hr|exact Hc|exact Hcb|vm_decide|lia|done|
       reflexivity|exact Hst|exact Hin|].
    exists y'. split; [exact Hx|]. split; [exact Hport|].
    rewrite (Hsent 5%nat cl Hcl), Hm, Hbit. unfold sent_to, frame_if. by rewrite Hcl, Hop. }
  split.
  - apply (Hgen (SerialDevice []) up_events); [exact up_ok|exact up_run|vm_compute; reflexivity|done|].
    vm_compute. by split.
  - apply (Hgen (UdpDevice []) udp_events); [exact udp_ok|exact udp_run|vm_compute; reflexivity|done|].
    cbn [p_input]. assert (Hd : device_udp (s_port (y_env udp_up)) = true) by (vm_compute; reflexivity).
    destruct (s_port (y_env udp_up)); [discriminate Hd|]. split; [vm_decide|by exists 0].
Defined.

Lemma no_spurious es :
  forallb (fun e => match e with SysListen true => false | _ => true end) es = true ->
  SysListen true ∉ es.
Proof. rewrite forallb_forall. intros Hes Hin. by apply list_elem_of_In, Hes in Hin. Qed.

(** The hello response comes after the test of [m_connected]; a second one, and
    the arrival of a client, change nothing. *)
Definition missed_events : list sys_event := [SysListen false; read_pass (encodeHDLC hello_ok)].
Definition later_events : list sys_event :=
  [SysListen false; read_pass (encodeHDLC hello_ok); SysListen false; SysAccept 5; SysListen false].

Definition later_system : system sample_device :=
  match sys_run (system_after missed_events) later_events with
  | Ok y => y | Undefined _ => sample_system
  end.

Lemma later_run : sys_run (system_after missed_events) later_events = Ok later_system.
Proof. vm_compute. reflexivity. Qed.

Lemma missed_run_ok : sys_run sample_system missed_events = Ok (system_after missed_events).
Proof. vm_compute. reflexivity. Qed.

Lemma lost_hello_witness :
  x_stopped (y_parts later_system) = false /\ m_connected (y_io later_system) = true /\
  y_listen later_system <> LFinished.
Proof.
  assert (Hs : x_stopped (y_parts later_system) = false) by (vm_compute; reflexivity).
  split; [exact Hs|].
  destruct (lost_hello 2 100 (SerialDevice [] : sample_device) 9900 false sample_auth missed_events
    (system_after missed_events) later_events later_system) as [Hx|(Hc & Hf & _)].
  - reflexivity.
  - apply sys_events_ok. vm_compute. reflexivity.
  - exact missed_run_ok.
  - vm_compute. reflexivity.
  - vm_compute. reflexivity.
  - apply sys_events_ok. vm_compute. reflexivity.
  - apply no_spurious. vm_compute. reflexivity.
  - exact later_run.
  - congruence.
  - by split.
Defined.
