(* ===== verification/EndToEnd.v ===== *)
(** * A command from a client to Picard and back

    [SerialMux] puts the components together; here they carry one command: the
    bytes of a client's message go through its parser and the queue, the command
    thread hands them to the connection, which frames them for the link; the
    response comes back through the receiver to the client's socket. *)

From Stdlib Require Import ZArith Lia.
From stdpp Require Import base list gmap.
From S2P Require Import Prelude Hdlc Common Subscriber SyncQueue MuxMessage BasePicard PicardLink.
From S2P Require Import BoostClient ClientManager ManagerSpec SerialMux.
Import Receiver Encoder Delivery.
#[local] Open Scope Z_scope.

(** ** Manager events within the system *)

Section views.
Context {P : Type} `{PicardDevice P}.
Implicit Types (y : system P).

Lemma set_view_view y : set_view (mgr_view y) y = y.
Proof. by destruct y as [[io [port [g l st]] last hellos] pc listen]. Qed.

Lemma set_view_set (w w' : world (sys_rest P)) y : set_view w' (set_view w y) = set_view w' y.
Proof. done. Qed.

(** A run of manager steps is a run of the manager's events. *)
Lemma mgr_steps y es :
  foldM mgr_step y es = (w ← run_events (mgr_view y) es; Ok (set_view w y)).
Proof.
  revert y. induction es as [|e es IH]; intros y.
  - unfold run_events. cbn [foldM]. by rewrite bind_Ok, set_view_view.
  - unfold run_events in *. cbn [foldM].
    assert (Hs : mgr_step y e = (w ← exec (mgr_view y) e; Ok (set_view w y))) by done.
    rewrite Hs. destruct (exec (mgr_view y) e) as [w|]; [|done]. rewrite !bind_Ok, IH, view_set.
    by destruct (foldM exec w es).
Qed.
End views.

(** ** A command of an idle manager *)

(** The command thread is at the head of its loop and has nothing to do. *)
Definition idle (g : CBoostClientManager) (pc : loop_pc) : Prop :=
  pc = AtHead /\ m_loop g = true /\ m_queue (m_commands g) = [].

(** A registered client between two messages. *)
Definition ready (g : CBoostClientManager) (c : nat) (cl : CBoostClient) : Prop :=
  m_heap g !! c = Some cl /\ c ∈ m_clients g /\ m_initState (m_core cl) = AUTHENTICATED /\
  m_reading cl = true /\ parser_handler (m_parser cl) = true /\
  token_free (m_partialInput (m_parser cl)).

(** A message the manager passes on as it is. *)
Definition plain_command (m : CMuxMessage) : Prop :=
  message_ok m /\ isPicardApiCommand (m_type m) = true /\ m_type m <> MUX_INFO /\
  m_type m <> SUBSCRIBE /\ Z.of_nat (length (m_data m)) <= MAX_SERIAL_API_CMD_LEN.

Lemma read_one_message {M} `{ISimpleClientList M} this (cl : CBoostClient) (l : M) m :
  m_reading cl = true -> m_initState (m_core cl) = AUTHENTICATED ->
  parser_handler (m_parser cl) = true -> token_free (m_partialInput (m_parser cl)) ->
  message_ok m ->
  client_exec this (cl, l) (ClientData (serialize_message m))
  = Ok ({| m_core := m_core cl; m_parser := set_input [] (m_parser cl); m_reading := true |},
        addCommand l this m).
Proof.
  intros Hr Hst Hp Hf Hm.
  assert (Hc : commands (m_partialInput (m_parser cl) ++ serialize_message m) [body m] []).
  { eapply (commands_next _ (body m) []); [|by apply commands_done].
    rewrite serialize_message_frame by done.
    pose proof (next_command_frame (m_partialInput (m_parser cl)) (body m) []) as Hn.
    rewrite app_nil_r in Hn. apply Hn; [done|]. rewrite body_length. destruct Hm as [_ Hm]. lia. }
  assert (Hread : parser_read (H0 := client_ICommandCallback this) (m_parser cl, (m_core cl, l)) (serialize_message m)
    = Ok (set_input [] (m_parser cl), (m_core cl, addCommand l this m))).
  { rewrite (parser_read_commands _ _ _ _ _ Hp Hc). unfold deliver. cbn [foldM].
    rewrite parse_message_body by done.
    assert (Hh : client_handleCommand this (m_core cl, l) m = Ok (m_core cl, addCommand l this m)).
    { cbn. unfold isInitialized. by rewrite bool_decide_eq_true_2. }
    unfold handleCommand, client_ICommandCallback. by rewrite Hh. }
  unfold client_exec. rewrite Hr. cbn [andb].
  destruct (serialize_message m) as [|b bytes] eqn:Hs; [done|].
  rewrite bool_decide_eq_true_2 by done. cbn [handle_read]. rewrite Hread. step_bind.
  unfold badInit. by rewrite bool_decide_eq_false_2 by congruence.
Qed.

Lemma dispatch_command g c m :
  c ∈ m_clients g -> plain_command m ->
  dispatch g (new_SClientCommand (Some c) m)
  = Ok (set_current (new_SClientCommand (Some c) m) g, Some (new_SClientCommand (Some c) m)).
Proof.
  intros Hc ((_ & Hu) & Hapi & Hinfo & Hsub & Hlen). unfold dispatch. cbn [new_SClientCommand sc_client sc_command].
  rewrite bool_decide_eq_true_2 by done. cbn [negb].
  rewrite (proj2 (Z.eqb_neq _ _)) by done. rewrite Hapi.
  unfold message_size. rewrite u16_small by word_range. rewrite (proj2 (Z.ltb_ge _ _)) by done.
  cbn [negb orb]. by rewrite (proj2 (Z.eqb_neq _ SUBSCRIBE)).
Qed.

(** From the client's bytes to the first send. *)
Definition request_events (c : nat) (m : CMuxMessage) : list event :=
  [EvClient c (ClientData (serialize_message m)); EvCommandThread; EvCommandThread].

Lemma request_run {R} `{IPicardIO R} (w : world R) c cl m :
  idle (w_mgr w) (w_pc w) -> ready (w_mgr w) c cl -> plain_command m -> 0 < m_retries (w_mgr w) ->
  let cmd := new_SClientCommand (Some c) m in
  let '(r, seq) := picard_sendCommand (w_rest w) m false in
  exists g, run_events w (request_events c m)
      = Ok {| w_mgr := g; w_rest := r; w_pc := Waiting cmd 0 |} /\
    m_loop g = true /\ m_queue (m_commands g) = [] /\ m_clients g = m_clients (w_mgr w) /\
    m_currentCommand g = set_seq seq cmd /\
    m_heap g = <[c := {| m_core := m_core cl; m_parser := set_input [] (m_parser cl);
                         m_reading := true |}]> (m_heap (w_mgr w)).
Proof.
  destruct w as [g r pc]. cbn [w_mgr w_rest w_pc]. intros Hid Hrd Hm Hret. set (cmd := new_SClientCommand (Some c) m). destruct Hid as (-> & Hloop & Hq).
  pose proof Hrd as (Hcl & Hin & Hst & Hr & Hp & Hf).
  destruct (picard_sendCommand r m false) as [r' seq] eqn:Hsend.
  set (cl' := {| m_core := m_core cl; m_parser := set_input [] (m_parser cl); m_reading := true |}).
  set (g1 := store c cl' (addCommand g c m)).
  assert (H1 : exec {| w_mgr := g; w_rest := r; w_pc := AtHead |} (EvClient c (ClientData (serialize_message m)))
    = Ok {| w_mgr := g1; w_rest := r; w_pc := AtHead |}).
  { cbn [exec w_mgr w_pc w_rest]. rewrite Hcl. unfold referenced. rewrite Hr. cbn [orb].
    by rewrite (read_one_message c cl g m Hr Hst Hp Hf (proj1 Hm)). }
  assert (Hq1 : m_queue (m_commands g1) = [cmd]) by (cbn; by rewrite push_queue, Hq).
  set (g2 := set_commands (pop_front (m_commands g1)).2 g1).
  assert (H2 : exec {| w_mgr := g1; w_rest := r; w_pc := AtHead |} EvCommandThread
    = Ok {| w_mgr := set_current cmd g2; w_rest := r; w_pc := Sending cmd 0 |}).
  { cbn [exec]. unfold command_thread. cbn [w_pc w_mgr w_rest].
    assert (Hl1 : m_loop g1 = true) by exact Hloop. rewrite Hl1.
    assert (Hpop : timedPop_enter 0%nat (m_commands g1) = (Some (Some cmd), (pop_front (m_commands g1)).2)).
    { unfold timedPop_enter, queue_empty, pop_front. by rewrite Hq1. }
    rewrite Hpop. cbn [after_pop w_mgr w_rest]. fold g2.
    pose proof (dispatch_command g2 c m Hin Hm) as Hd. fold cmd in Hd. by rewrite Hd. }
  assert (H3 : exec {| w_mgr := set_current cmd g2; w_rest := r; w_pc := Sending cmd 0 |} EvCommandThread
    = Ok {| w_mgr := set_current (set_seq seq cmd) (set_current cmd g2); w_rest := r'; w_pc := Waiting cmd 0 |}).
  { cbn [exec]. unfold command_thread. cbn [w_pc w_mgr w_rest].
    assert (Hr2 : m_retries (set_current cmd g2) = m_retries g) by done.
    rewrite Hr2, (proj2 (Z.ltb_lt _ _)) by done. cbn [Z.eqb negb].
    change (sc_command cmd) with m. by rewrite Hsend. }
  eexists. split.
  { unfold run_events, request_events. cbn [foldM]. rewrite H1, bind_Ok, H2, bind_Ok, H3. done. }
  split_and!; [exact Hloop| |done|done|done]. unfold g2, pop_front. cbn [set_current m_commands set_commands].
  by rewrite Hq1.
Qed.

(** Once the response has been recorded the command thread is idle again. *)
Lemma answered {R} `{IPicardIO R} (w : world R) cmd i :
  w_pc w = Waiting cmd i -> sc_result (m_currentCommand (w_mgr w)) = CLIENT_OK ->
  command_thread w
  = Ok {| w_mgr := set_current no_command (w_mgr w); w_rest := w_rest w; w_pc := AtHead |}.
Proof.
  destruct w as [g r pc]. cbn [w_mgr w_pc w_rest]. intros -> Hres. unfold command_thread. cbn [w_pc w_mgr w_rest].
  rewrite Hres. rewrite decide_False by done. unfold finish.
  by destruct (sc_client cmd).
Qed.

(** ** Over a link *)

Section link.
Context {A B : Type} `{SerialPort A} `{UdpSocket B}.

Lemma response_frame (io : CBasePicardIO) (e : link_world (picard_device A B) mux_parts) t q rc payload :
  isPicardApiCommand t = true -> m_callback io = true ->
  picard_frameComplete (io, e) (picard_frame 3 t q (rc :: payload))
  = (e ← commandComplete e t q rc payload; Ok (set_seqs (u8 (q + 1)) (m_mgrSeqNo io) io, e)).
Proof.
  intros Ht Hcb. rewrite frameComplete_frame. unfold isPicardApiCommand in Ht. rewrite Ht.
  apply Z.ltb_lt in Ht.
  rewrite !(proj2 (Z.eqb_neq t _)) by (unfold HELLO_RESPONSE, MGR_HELLO, NOTIFICATION in *; lia).
  rewrite (proj2 (Z.leb_le 1 _)) by (cbn; lia). cbn [andb]. change (3 =? 3) with true. cbn iota.
  by rewrite onResponse_frame, Hcb.
Qed.

(** What the first send does to the connection and the link. *)
Lemma send_request (r : sys_rest (picard_device A B)) m :
  (length (m_data m) <= 255)%nat ->
  picard_sendCommand r m false
  = ({| r_io := r_io r;
        r_port := frame_written (r_port r) (picard_frame 2 (m_type m) (m_seqNo (r_io r)) (m_data m));
        r_listener := r_listener r; r_stopped := r_stopped r |}, m_seqNo (r_io r)).
Proof.
  intros Hlen. unfold picard_sendCommand, sys_IPicardIO, sendCommand, message_size.
  rewrite u16_small, land_255, u8_small by word_range. rewrite Nat2Z.id, take_ge by lia.
  cbn. by destruct (r_port r).
Qed.

(** Reading the response to the command the thread waits for, and the thread's next
    step. *)
Lemma response_run (y : system (picard_device A B)) c m seq i p rc payload :
  m_isRunning (y_io y) = true -> m_connected (y_io y) = true -> m_callback (y_io y) = true ->
  y_pc y = Waiting (new_SClientCommand (Some c) m) i ->
  m_currentCommand (y_mgr y) = set_seq seq (new_SClientCommand (Some c) m) ->
  is_Some (m_heap (y_mgr y) !! c) -> isPicardApiCommand (m_type m) = true -> p_stop p = false ->
  bytes_ok (picard_frame 3 (m_type m) seq (rc :: payload)) ->
  frame_input (s_port (y_env y)) (y_io y) (picard_frame 3 (m_type m) seq (rc :: payload)) (p_input p) ->
  exists y', sys_run y [SysPicard p; SysCommand] = Ok y' /\
    s_port (y_env y') = s_port (y_env y) /\ m_seqNo (y_io y') = u8 (seq + 1) /\ y_pc y' = AtHead /\
    y_mgr y' = set_current no_command (completed (y_mgr y) rc payload).
Proof.
  intros Hr Hc Hcb Hpc Hcur Hcl Hapi Hps Hb Hin.
  assert (Hpass := frame_pass y p _ Hr Hc Hps Hb ltac:(done) Hin). rewrite response_frame in Hpass by done.
  assert (Hcomp : mgr_commandComplete (y_mgr y) (m_type m) seq rc payload = Ok (completed (y_mgr y) rc payload)).
  { rewrite commandComplete_Ok by (intros a; rewrite Hcur; by intros [= <-]). rewrite Hcur.
    cbn [sc_command sc_seq set_seq new_SClientCommand]. by rewrite !Z.eqb_refl. }
  cbn [commandComplete world_callback mux_callback] in Hpass.
  change (x_mgr (s_mux (y_env y))) with (y_mgr y) in Hpass. rewrite Hcomp in Hpass. cbn [mbind outcome_bind] in Hpass.
  match type of Hpass with _ = Ok ?x => set (y' := x) in * end.
  assert (Hres : sc_result (m_currentCommand (completed (y_mgr y) rc payload)) = CLIENT_OK).
  { unfold completed. rewrite Hcur. done. }
  pose proof (answered (mgr_view y') (new_SClientCommand (Some c) m) i Hpc Hres) as Hans.
  eexists. split.
  - unfold sys_run. cbn [foldM]. rewrite Hpass, bind_Ok. cbn [sys_exec]. unfold mgr_step. cbn [exec].
    rewrite Hans. reflexivity.
  - by split_and!.
Qed.

(** C2: a command end to end, when nothing else is under way.  In any state with the
    connection up, over a serial port or a socket, the command thread idle with an
    empty queue ([idle]) and a registered client between two messages ([ready]):
    when the client's bytes of a command Picard knows arrive (of at most 128
    bytes, no SUBSCRIBE, [plain_command]) and the command thread runs, one request
    frame with the command's type and payload and the connection's sequence number
    is written to the link.  When the response frame with that number is read and
    the command thread runs, that client, and nobody else, is sent one message with
    the response's code and payload, the command thread is idle again, and the next
    command gets another sequence number.  (Commands that have to wait, and those
    answered without Picard, are those of [CommandOrder] and [ClientManager].) *)
Theorem command_end_to_end (y : system (picard_device A B)) c cl m :
  m_isRunning (y_io y) = true -> m_connected (y_io y) = true -> m_callback (y_io y) = true ->
  x_stopped (y_parts y) = false -> 0 < m_retries (y_mgr y) ->
  idle (y_mgr y) (y_pc y) -> ready (y_mgr y) c cl -> plain_command m ->
  let seq := m_seqNo (y_io y) in
  exists y1,
    sys_run y [SysClient c (ClientData (serialize_message m)); SysCommand; SysCommand] = Ok y1 /\
    s_port (y_env y1) = frame_written (s_port (y_env y)) (picard_frame 2 (m_type m) seq (m_data m)) /\
    y_io y1 = y_io y /\
    forall p rc payload,
      let response := picard_frame 3 (m_type m) seq (rc :: payload) in
      p_stop p = false -> bytes_ok response ->
      frame_input (s_port (y_env y1)) (y_io y1) response (p_input p) ->
      exists y2, sys_run y1 [SysPicard p; SysCommand] = Ok y2 /\
        s_port (y_env y2) = s_port (y_env y1) /\ idle (y_mgr y2) (y_pc y2) /\
        m_seqNo (y_io y2) = u8 (seq + 1) /\
        forall a cla, m_heap (y_mgr y) !! a = Some cla ->
          sent_to (m_heap (y_mgr y2)) a = m_sent (m_core cla) ++
            frame_if (bool_decide (a = c))
              (serialize_output (new_CMuxOutput (m_type m) 0 rc payload)) cla.
Proof.
  intros Hr Hc Hcb Hst Hret Hid Hrd Hm seq.
  pose proof (request_run (mgr_view y) c cl m Hid Hrd Hm Hret) as Hreq.
  destruct Hm as ((_ & Hu) & Hapi & _ & Hsub & Hlen). unfold MAX_SERIAL_API_CMD_LEN in Hlen.
  rewrite send_request in Hreq by lia. cbn [mgr_view w_rest r_io r_port r_listener r_stopped] in Hreq.
  fold seq in Hreq. destruct Hreq as (g & Hev & Hloop & Hq & Hcls & Hcur & Hheap).
  pose proof (mgr_steps y (request_events c m)) as Hsteps. rewrite Hev, bind_Ok in Hsteps.
  match type of Hsteps with _ = Ok ?x => set (y1 := x) in * end.
  exists y1. split; [|split; [done|split; [done|]]].
  { rewrite <- Hsteps. unfold sys_run, request_events. cbn [foldM sys_exec]. by rewrite Hst. }
  intros p rc payload response Hps Hb Hin.
  destruct (response_run y1 c m seq 0 p rc payload) as (y2 & Hrun & Hport & Hseq & Hpc & Hg2); try done.
  { cbn. rewrite Hheap, lookup_insert_eq. by eexists. }
  change (y_mgr y1) with g in Hg2. exists y2. split; [done|]. split; [done|]. rewrite Hpc, Hg2.
  split; [|split; [done|]].
  - split_and!; [done| |]; cbn; unfold completed; rewrite Hcur; cbn;
      rewrite (proj2 (Z.eqb_neq (m_type m) _)) by done; done.
  - intros a cla Ha.
    assert (Hclb : exists clb, m_heap g !! a = Some clb /\ m_core clb = m_core cla).
    { rewrite Hheap. destruct (decide (a = c)) as [->|Hne].
      - destruct Hrd as (Hrd & _). rewrite Hrd in Ha. injection Ha as <-.
        rewrite lookup_insert_eq. by eexists.
      - rewrite lookup_insert_ne by done. by exists cla. }
    destruct Hclb as (clb & Hclb & Hcore).
    pose proof (completed_answer g rc payload a clb Hclb) as Hsent. rewrite Hcur in Hsent.
    cbn [sc_client sc_command set_seq new_SClientCommand] in Hsent. cbn [set_current m_heap].
    rewrite Hsent, Hcore. unfold frame_if. rewrite Hcore. f_equal. by repeat case_bool_decide; congruence.
Qed.
End link.

(** ** Witnesses: from power-up to an answered command *)

(** Up as in [SerialMux], with a second client that has said hello. *)
Definition second_client : list sys_event :=
  [SysAccept 6; SysClient 6 (ClientData (serialize_message sample_hello))].
Definition sample_command : CMuxMessage := {| m_data := [7; 0x7E]; m_type := 30; m_id := 9 |}.

Definition after_second (y : system sample_device) : system sample_device :=
  match sys_run y second_client with Ok y => y | Undefined _ => y end.

(** The state is up, over either link, and client 6 can send a command. *)
Definition client_up (y : system sample_device) : bool :=
  m_isRunning (y_io y) && m_connected (y_io y) && m_callback (y_io y) && negb (x_stopped (y_parts y)) &&
  (0 <? m_retries (y_mgr y)) &&
  bool_decide (y_pc y = AtHead) && m_loop (y_mgr y) && queue_empty (m_commands (y_mgr y)) &&
  bool_decide (6%nat ∈ m_clients (y_mgr y)) &&
  match m_heap (y_mgr y) !! 6%nat with
  | Some cl => bool_decide (m_initState (m_core cl) = AUTHENTICATED) && m_reading cl &&
      parser_handler (m_parser cl) && bool_decide (m_partialInput (m_parser cl) = []) && m_open (m_core cl)
  | None => false
  end.

(** The request is on the link, and client 6 gets the answer to it. *)
Definition sample_answered (y y1 y2 : system sample_device) : Prop :=
  s_port (y_env y1) = frame_written (s_port (y_env y)) (picard_frame 2 30 (m_seqNo (y_io y)) [7; 0x7E]) /\
  sent_to (m_heap (y_mgr y2)) 6 = sent_to (m_heap (y_mgr y)) 6
    ++ [serialize_output (new_CMuxOutput 30 0 0 [1; 2])] /\
  sent_to (m_heap (y_mgr y2)) 5 = sent_to (m_heap (y_mgr y)) 5.

Definition response_pass (i : device_input) : pass device_input :=
  {| p_stop := false; p_now := 0; p_after := 0; p_input := i |}.
Definition sample_response (seq : Z) : list Z := picard_frame 3 30 seq [0; 1; 2].

Lemma command_end_to_end_witness :
  (exists y1 y2,
    sys_run (after_second (system_after up_events))
      [SysClient 6 (ClientData (serialize_message sample_command)); SysCommand; SysCommand] = Ok y1 /\
    sys_run y1 [SysPicard (response_pass (DeviceBytes (encodeHDLC (sample_response 1)))); SysCommand] = Ok y2 /\
    sample_answered (after_second (system_after up_events)) y1 y2) /\
  (exists y1 y2,
    sys_run (after_second udp_up)
      [SysClient 6 (ClientData (serialize_message sample_command)); SysCommand; SysCommand] = Ok y1 /\
    sys_run y1 [SysPicard (response_pass (DeviceBytes (9 :: sample_response 1))); SysCommand] = Ok y2 /\
    sample_answered (after_second udp_up) y1 y2).
Proof.
  assert (Hgen : forall y i, client_up y = true ->
    m_seqNo (y_io y) = 1 -> is_Some (m_heap (y_mgr y) !! 5%nat) ->
    (forall frame, frame_input (frame_written (s_port (y_env y)) frame) (y_io y) (sample_response 1) i) ->
    exists y1 y2,
      sys_run y [SysClient 6 (ClientData (serialize_message sample_command)); SysCommand; SysCommand] = Ok y1 /\
      sys_run y1 [SysPicard (response_pass i); SysCommand] = Ok y2 /\ sample_answered y y1 y2).
  { intros y i Hup Hseq [cl5 Hcl5] Hin. unfold client_up in Hup.
    destruct (m_heap (y_mgr y) !! 6%nat) as [cl|] eqn:Hcl; [|by rewrite andb_false_r in Hup].
    rewrite !andb_true_iff, !bool_decide_eq_true in Hup.
    destruct Hup as [[[[[[[[[Hr Hc] Hcb] Hst] Hret] Hpc] Hl] Hq] Hm] [[[[Ha Hrd] Hp] Hpi] Hop]].
    apply negb_true_iff in Hst. apply Z.ltb_lt in Hret. unfold queue_empty in Hq.
    destruct (m_queue (m_commands (y_mgr y))) eqn:Hque; [|done].
    destruct (command_end_to_end y 6 cl sample_command)
      as (y1 & Hy1 & Hport & Hio & Hresp);
      [exact Hr|exact Hc|exact Hcb|exact Hst|exact Hret| | | |].
    - by split_and!.
    - split_and!; [done..|by rewrite Hpi].
    - split_and!; [vm_decide|reflexivity|discriminate|discriminate|vm_decide].
    - rewrite Hseq in Hresp. destruct (Hresp (response_pass i) 0 [1; 2]) as (y2 & Hy2 & _ & _ & _ & Hsent);
        [reflexivity|vm_decide|rewrite Hport, Hio; apply Hin|].
      exists y1, y2. split; [exact Hy1|split; [exact Hy2|split; [exact Hport|split]]].
      + rewrite (Hsent 6%nat cl Hcl). unfold sent_to, frame_if. by rewrite Hcl, Hop.
      + rewrite (Hsent 5%nat cl5 Hcl5). unfold sent_to, frame_if. cbn. by rewrite Hcl5, app_nil_r. }
  split.
  - apply Hgen; [vm_compute; reflexivity|vm_compute; reflexivity
      |apply (bool_decide_unpack _); vm_compute; reflexivity|].
    intros frame. vm_compute. by split.
  - apply Hgen; [vm_compute; reflexivity|vm_compute; reflexivity
      |apply (bool_decide_unpack _); vm_compute; reflexivity|].
    intros frame. assert (Hd : device_udp (s_port (y_env (after_second udp_up))) = true) by (vm_compute; reflexivity).
    destruct (s_port (y_env (after_second udp_up))); [discriminate Hd|]. split; [vm_decide|by exists 9].
Defined.
