(* ===== verification/Main.v ===== *)
(** * The main loop ([serial_mux/serial_mux.h], [serial_mux.cpp])

    [serial_mux_loop] creates the components, runs [io_service] until it is
    stopped, takes the components down and starts again; [serial_mux_stop] ends it
    from another thread; [main] runs it.  The process is modelled around the
    [system] of [SerialMux]: the main thread at its blocking points, the global
    pointers and flags, the thread in [serial_mux_stop], and the client objects
    that outlive the components because [io_service] still holds their handlers.

    [resetConnection] and each operation of the main thread between two blocking
    points are single steps; the connection is the one [useSerial] asks for. *)

From Stdlib Require Import ZArith Lia.
From stdpp Require Import base list gmap strings.
From S2P Require Import Prelude Hdlc Common Subscriber SyncQueue MuxMessage BasePicard PicardLink.
From S2P Require Import BoostClient Options ClientManager ManagerSpec SerialMux.
Import Receiver Encoder Delivery.
#[local] Open Scope Z_scope.

(** ** Clients of deleted components

    Their [m_clientMgr] and [m_expectedAuth] refer to freed objects.  A call on the
    client list sets the flag; a token that has been freed has no bytes. *)

Definition dangling_list := bool.
#[export] Instance dangling_client_list : ISimpleClientList dangling_list := {
  addClient _ _ := true;
  removeClient _ _ := Ok true;
  addCommand _ _ _ := true;
}.

Definition free_token (cl : CBoostClient) : CBoostClient :=
  let c := m_core cl in
  set_core {| m_initState := m_initState c; m_expectedAuth := []; m_version := m_version c;
              m_authTimeout := m_authTimeout c; m_open := m_open c; m_sent := m_sent c;
              m_subscriber := m_subscriber c |} cl.

(** An event of such a client.  Only its outstanding read keeps it alive. *)
Definition stale_exec (cl : CBoostClient) (e : client_event) : outcome CBoostClient :=
  if m_reading cl then
    match client_exec (M := dangling_list) 0 (free_token cl, false) e with
    | Ok (cl, false) => Ok cl
    | _ => Undefined UseAfterFree
    end
  else destroyed_exec cl e.

(** The clients for which [io_service] still holds a handler. *)
Definition has_handlers (cl : CBoostClient) : bool :=
  m_reading cl || match m_authTimeout (m_core cl) with TimerIdle => false | _ => true end.

Definition survivors (g : CBoostClientManager) : list CBoostClient :=
  base.filter has_handlers (map_to_list (m_heap g)).*2.

(** ** The threads *)

(** The main thread in [serial_mux_loop]: at the test of [muxRunning], about to
    reset [io_service], to connect, to listen, in [run], taking the components
    down one by one, about to notify, returned, or left by an exception. *)
Inductive main_pc :=
  | MHead | MReset | MConnect | MListen | MRun
  | MStopping | MJoinCommand | MJoinListen | MStopPicard | MJoinPicard
  | MDeleteMgr | MDeleteListener | MDeletePicard
  | MNotify | MDone | MThrown.

#[export] Instance main_pc_eq_dec : EqDecision main_pc.
Proof. solve_decision. Defined.

(** A thread in [serial_mux_stop]: not yet, about to reset, about to wait,
    waiting, returned. *)
Inductive stop_pc := SIdle | SFlagged | SBeforeWait | SWaiting | SReturned.

#[export] Instance stop_pc_eq_dec : EqDecision stop_pc.
Proof. solve_decision. Defined.

(** ** Parts of the components *)

Section parts.
Context {P : Type} `{PicardDevice P} (opts : SerialMuxOptions).

Definition with_parts (io : CBasePicardIO) (m : mux_parts) (y : system P) : system P :=
  {| y_loop := set_loop_state io {| s_port := s_port (y_env y); s_mux := m |} (y_loop y);
     y_pc := y_pc y; y_listen := y_listen y |}.

(** [new CBoostClientListener]; [listen_thread] starts at its first test. *)
Definition create_listener (y : system P) : system P :=
  with_parts (y_io y)
    (set_listener (new_CBoostClientListener (listenerPort opts) (negb (acceptAnyhost opts))
                     (authToken opts) 0) (y_parts y)) y.

(** [gPicardIO->registerCallback(NULL); gClientMgr->stop()], and [gPicardIO->stop()] *)
Definition stop_commands (y : system P) : system P :=
  with_parts (registerCallback false (y_io y)) (set_mgr (mgr_stop (y_mgr y)) (y_parts y)) y.
Definition stop_picard (y : system P) : system P :=
  with_parts (picard_stop (y_io y)) (y_parts y) y.
End parts.

(** ** The process *)

Section process.
Context {A B : Type} `{SerialPort A} `{UdpSocket B} (opts : SerialMuxOptions).
#[local] Abbreviation P := (picard_device A B).

Record process := {
  muxRunning : bool;
  pr_main : main_pc;
  pr_sys : option (system P);      (* gPicardIO, gClientMgr, gListener and threads *)
  pr_stopped : bool;               (* io_service is stopped, while there is none *)
  pr_stale : list CBoostClient;
  pr_stop : stop_pc;
}.

Definition new_process : process :=
  {| muxRunning := true; pr_main := MHead; pr_sys := None; pr_stopped := false; pr_stale := [];
     pr_stop := SIdle |}.

Definition goto (pc : main_pc) (x : process) : process :=
  {| muxRunning := muxRunning x; pr_main := pc; pr_sys := pr_sys x; pr_stopped := pr_stopped x;
     pr_stale := pr_stale x; pr_stop := pr_stop x |}.
Definition with_sys (y : option (system P)) (x : process) : process :=
  {| muxRunning := muxRunning x; pr_main := pr_main x; pr_sys := y; pr_stopped := pr_stopped x;
     pr_stale := pr_stale x; pr_stop := pr_stop x |}.
Definition with_stopped (b : bool) (x : process) : process :=
  {| muxRunning := muxRunning x; pr_main := pr_main x; pr_sys := pr_sys x; pr_stopped := b;
     pr_stale := pr_stale x; pr_stop := pr_stop x |}.
Definition with_stale (l : list CBoostClient) (x : process) : process :=
  {| muxRunning := muxRunning x; pr_main := pr_main x; pr_sys := pr_sys x;
     pr_stopped := pr_stopped x; pr_stale := l; pr_stop := pr_stop x |}.
Definition with_stop (s : stop_pc) (x : process) : process :=
  {| muxRunning := muxRunning x; pr_main := pr_main x; pr_sys := pr_sys x;
     pr_stopped := pr_stopped x; pr_stale := pr_stale x; pr_stop := s |}.
Definition stop_running (x : process) : process :=
  {| muxRunning := false; pr_main := pr_main x; pr_sys := pr_sys x; pr_stopped := pr_stopped x;
     pr_stale := pr_stale x; pr_stop := pr_stop x |}.

(** [resetConnection] with the pointers that are not null.  The components are
    created in one step, so there are all of them or none, until the main thread
    deletes them one by one; then no other thread of theirs is left. *)
Definition mux_resetConnection (x : process) : outcome process :=
  match pr_sys x with
  | None => Ok (with_stopped true x)
  | Some y =>
      let stopped m := {| x_mgr := x_mgr m; x_listener := x_listener m; x_stopped := true |} in
      let io := picard_stop (picard_reset (y_io y)) in
      match pr_main x with
      | MDeletePicard => Ok (with_sys (Some (with_parts io (stopped (y_parts y)) y)) x)
      | MDeleteListener =>
          let m := set_listener (listener_stop (x_listener (y_parts y))) (y_parts y) in
          Ok (with_sys (Some (with_parts io (stopped m) y)) x)
      | _ => y ← sys_exec y SysReset; Ok (with_sys (Some y) x)
      end
  end.

(** ** Steps *)

(** What the surroundings give the main thread: the serial port and the socket
    that open and the time, or none, and whether the listener's address can be
    bound. *)
Record surroundings := {
  sr_serial : option (A * Z);
  sr_socket : option (B * Z);
  sr_bind : bool;
}.

(** The connection to Picard, [new CPicardBoost_Serial] or [new CPicardBoost_UDP];
    none when the constructor throws. *)
Definition connect_picard (sr : surroundings) : option (P * Z) :=
  if useSerial opts
  then '(port, t0) ← sr_serial sr; Some (SerialDevice port, t0)
  else '(socket, t0) ← sr_socket sr; Some (UdpDevice socket, t0).

(** [serial_mux_loop] up to the next blocking point.  [io_service.reset()] before
    the joins is left out: nothing runs [io_service] before the one at [MReset]. *)
Definition main_step (sr : surroundings) (x : process) : process :=
  match pr_main x, pr_sys x with
  | MHead, _ => goto (if muxRunning x then MReset else MNotify) x
  | MReset, _ => goto MConnect (with_stopped false x)
  | MConnect, _ =>
      match connect_picard sr with
      | None => goto MHead x
      | Some (port, t0) =>
          let y := new_system (picardRetries opts) t0 port (listenerPort opts)
                     (acceptAnyhost opts) (authToken opts) in
          let m := {| x_mgr := y_mgr y; x_listener := x_listener (y_parts y);
                      x_stopped := pr_stopped x |} in
          goto MListen (with_sys (Some (with_parts (y_io y) m y)) x)
      end
  | MListen, Some y =>
      if sr_bind sr then goto MRun (with_sys (Some (create_listener opts y)) x) else goto MThrown x
  | MRun, Some y => if x_stopped (y_parts y) then goto MStopping x else x
  | MStopping, Some y => goto MJoinCommand (with_sys (Some (stop_commands y)) x)
  | MJoinCommand, Some y => if decide (y_pc y = Exited) then goto MJoinListen x else x
  | MJoinListen, Some y => if decide (y_listen y = LFinished) then goto MStopPicard x else x
  | MStopPicard, Some y => goto MJoinPicard (with_sys (Some (stop_picard y)) x)
  | MJoinPicard, Some y => if m_isRunning (y_io y) then x else goto MDeleteMgr x
  | MDeleteMgr, Some y =>
      goto MDeleteListener (with_stale (pr_stale x ++ survivors (y_mgr y)) x)
  | MDeleteListener, Some y => goto MDeletePicard x
  | MDeletePicard, Some y => goto MHead (with_stopped (x_stopped (y_parts y)) (with_sys None x))
  | MNotify, _ =>
      goto MDone (if decide (pr_stop x = SWaiting) then with_stop SReturned x else x)
  | _, _ => x
  end.

(** [serial_mux_stop] up to its next blocking point; the wait can end spuriously. *)
Definition stop_step (spurious : bool) (x : process) : outcome process :=
  match pr_stop x with
  | SIdle => Ok (with_stop SFlagged (stop_running x))
  | SFlagged => x ← mux_resetConnection x; Ok (with_stop SBeforeWait x)
  | SBeforeWait => Ok (with_stop SWaiting x)
  | SWaiting => Ok (if spurious then with_stop SReturned x else x)
  | SReturned => Ok x
  end.

Inductive process_event :=
  | PMain (sr : surroundings)
  | PStop (spurious : bool)
  | PThread (e : sys_event)                  (* a thread of the components *)
  | PStale (i : nat) (e : client_event).     (* a handler left from deleted ones *)

(** When a thread of the components can take a step: handlers run in
    [io_service.run()], [listen_thread] exists from [MRun] on, and the reset and
    the shutdown belong to the threads above. *)
Definition thread_enabled (pc : main_pc) (e : sys_event) : bool :=
  match e with
  | SysPicard _ | SysCommand | SysQueueTimeout => true
  | SysListen _ => negb (bool_decide (pc = MListen))
  | SysClient _ _ | SysAccept _ => bool_decide (pc = MRun)
  | SysReset | SysShutdown => false
  end.

Definition process_exec (x : process) (e : process_event) : outcome process :=
  match e with
  | PMain sr => Ok (main_step sr x)
  | PStop spurious => stop_step spurious x
  | PThread e =>
      match pr_sys x with
      | Some y =>
          if thread_enabled (pr_main x) e
          then y ← sys_exec y e; Ok (with_sys (Some y) x) else Ok x
      | None => Ok x
      end
  | PStale i e =>
      match pr_main x, pr_sys x, pr_stale x !! i with
      | MRun, Some y, Some cl =>
          if x_stopped (y_parts y) then Ok x
          else cl ← stale_exec cl e; Ok (with_stale (<[i := cl]> (pr_stale x)) x)
      | _, _, _ => Ok x
      end
  end.

Definition process_run (x : process) (es : list process_event) : outcome process :=
  foldM process_exec x es.
End process.
Arguments process : clear implicits.
Arguments surroundings : clear implicits.
Arguments process_event : clear implicits.

(** ** [main] *)

Inductive main_start := Exit (code : Z) | RunLoop (opts : SerialMuxOptions) | RunService (opts : SerialMuxOptions).

(** [main] up to the main loop, given whether the log opens and the platform.
    After the loop it returns 0. *)
Definition main (win32 : bool) (openLog : SerialMuxOptions -> bool) (parser : option_parser)
  (h : host) (args : list string) : outcome main_start :=
  result ← parseConfiguration parser h new_SerialMuxOptions args;
  Ok (match result with
      | Throws _ => Exit 1
      | Returned1 _ => Exit 0
      | Returned0 opts =>
          if negb (openLog opts) then Exit 1
          else if runAsDaemon opts then (if win32 then RunService opts else Exit 1)
          else RunLoop opts
      end).

(** ** Invariants of the system that a shutdown relies on *)

Section system_facts.
Context {P : Type} `{PicardDevice P}.
Implicit Types (y : system P).

Definition sys_waits y : Prop := y_pc y = InPop -> sleeper (y_mgr y).

Lemma run_waits (w : world (list Z)) es w' :
  world_inv w -> Forall event_ok es -> waits w -> run_events w es = Ok w' -> waits w'.
Proof.
  intros Hw Hes. revert w Hw. induction Hes as [|e es He _ IH]; intros w Hw Hs.
  - by intros [= <-].
  - intros Hr. apply bind_Ok_inv in Hr as (w1 & Hw1 & Hr). eapply IH; [| |exact Hr].
    + by eapply exec_inv.
    + by eapply exec_sleeper.
Qed.

Lemma explains_waits g pc g' pc' :
  inv_at g pc -> (pc = InPop -> sleeper g) -> explains g pc (Ok (g', pc')) -> pc' = InPop -> sleeper g'.
Proof.
  intros Hi Hs (es & Hes & Hx). destruct (Hx []) as [p Hp].
  exact (run_waits (W g p pc) es (W g' [] pc') Hi Hes Hs Hp).
Qed.

Lemma sys_exec_waits y e y' :
  sys_inv y -> sys_event_ok e -> sys_waits y -> sys_exec y e = Ok y' -> sys_waits y'.
Proof.
  intros Hy He Hs Hx. destruct (sys_exec_ok y e y' Hy He Hx) as [Hexp _].
  exact (explains_waits _ _ _ _ (si_world _ Hy) Hs Hexp).
Qed.

(** A change outside the manager and the receiver. *)
Lemma with_parts_inv y io m :
  sys_inv y -> m_hdlc io = m_hdlc (y_io y) -> x_mgr m = y_mgr y -> listener_ok (x_listener m) ->
  (y_listen y <> LFinished -> m_pending (x_listener m) = None) ->
  sys_inv (with_parts io m y).
Proof.
  intros [Hw Hh Hl Hn] Hd Hm Hl' Hn'. split; [|unfold hdlc_ok, y_io; cbn; by rewrite Hd|done|done].
  unfold y_mgr, y_parts, y_env; cbn. by rewrite Hm.
Qed.

Lemma stop_commands_inv y : sys_inv y -> sys_inv (stop_commands y).
Proof.
  intros Hy. pose proof (mgr_step_explained y EvStop Hy I) as [_ Hs].
  assert (H1 : sys_inv (set_view {| w_mgr := mgr_stop (y_mgr y); w_rest := w_rest (mgr_view y);
    w_pc := y_pc y |} y)) by (by apply Hs).
  destruct H1 as [Hw Hh Hl Hn]. by split.
Qed.
End system_facts.

Section facts.
Context {A B : Type} `{SerialPort A} `{UdpSocket B} (opts : SerialMuxOptions).
#[local] Abbreviation P := (picard_device A B).
Hypothesis token_length : length (authToken opts) = AUTHENTICATION_LEN.
Implicit Types (x : process A B) (y : system P).

Definition process_event_ok (e : process_event A B) : Prop :=
  match e with PThread e => sys_event_ok e | _ => True end.

(** The components between their creation and their deletion. *)
Definition has_components (pc : main_pc) : bool :=
  match pc with
  | MHead | MReset | MConnect | MNotify | MDone => false
  | _ => true
  end.

Definition process_inv x : Prop :=
  match pr_sys x with
  | Some y => has_components (pr_main x) = true /\ sys_inv y /\ sys_waits y /\
              (pr_main x = MListen -> y_listen y = LCheck)
  | None => has_components (pr_main x) = false
  end.

Lemma new_process_inv : process_inv new_process.
Proof. done. Qed.

Lemma connect_inv t0 (port : P) :
  sys_inv (new_system (picardRetries opts) t0 port (listenerPort opts) (acceptAnyhost opts)
             (authToken opts)).
Proof. by apply new_system_inv. Qed.

Lemma main_step_inv sr x : process_inv x -> process_inv (main_step opts sr x).
Proof.
  intros Hx. pose proof Hx as Hi. unfold process_inv in Hi. unfold main_step.
  destruct (pr_sys x) as [y|] eqn:Hy.
  - destruct Hi as (Hpc & Hi & Hs & Hl). destruct (pr_main x) eqn:Hm; try done.
    + destruct (sr_bind sr); unfold process_inv; cbn; [|rewrite Hy; by split_and!].
      split_and!; [done| |done|done]. apply with_parts_inv; try done.
    + destruct (x_stopped (y_parts y)); [|done]. unfold process_inv; cbn. by rewrite Hy.
    + unfold process_inv; cbn. split_and!; [done|by apply stop_commands_inv| |done].
      intros Hin. destruct (Hs Hin) as [|]; right; cbn; apply elem_of_app; auto.
    + case_decide; [|done]. unfold process_inv; cbn. by rewrite Hy.
    + case_decide; [|done]. unfold process_inv; cbn. by rewrite Hy.
    + unfold process_inv; cbn. split_and!; [done| |done|done]. apply with_parts_inv; try done; apply Hi.
    + destruct (m_isRunning (y_io y)); [done|]. unfold process_inv; cbn. by rewrite Hy.
    + unfold process_inv; cbn. by rewrite Hy.
    + unfold process_inv; cbn. by rewrite Hy.
  - destruct (pr_main x) eqn:Hm; try done.
    + destruct (muxRunning x); unfold process_inv; cbn; by rewrite Hy.
    + unfold process_inv; cbn. by rewrite Hy.
    + destruct (connect_picard opts sr) as [[port t0]|]; unfold process_inv; cbn; [|by rewrite Hy].
      split_and!; [done| |done|done].
      apply (with_parts_inv (new_system (picardRetries opts) t0 port (listenerPort opts)
        (acceptAnyhost opts) (authToken opts))); [apply connect_inv|done..].
    + case_decide; unfold process_inv; cbn; by rewrite Hy.
Qed.

Lemma reset_inv x x' : process_inv x -> mux_resetConnection x = Ok x' ->
  process_inv x' /\ pr_main x' = pr_main x.
Proof.
  intros Hx. unfold mux_resetConnection. unfold process_inv in Hx.
  destruct (pr_sys x) as [y|] eqn:Hy; [|intros [= <-]; split; [|done]; unfold process_inv; cbn; by rewrite Hy].
  destruct Hx as (Hpc & Hi & Hs & Hl).
  assert (Hreset : (y ← sys_exec y SysReset; Ok (with_sys (Some y) x)) = Ok x' ->
    process_inv x' /\ pr_main x' = pr_main x).
  { intros Hr. apply bind_Ok_inv in Hr as (y' & Hy' & [= <-]). split; [|done].
    unfold process_inv; cbn. split_and!; [done| |by eapply (sys_exec_waits _ SysReset)|].
    - by eapply (sys_exec_inv y SysReset).
    - intros Hm. by rewrite (mgr_step_listen _ _ _ Hy'), Hl. }
  destruct (pr_main x) eqn:Hm; try exact Hreset; intros [= <-]; split; try done;
    unfold process_inv; cbn; rewrite ?Hm; (split_and!; [done| |done|done]);
    (apply with_parts_inv; try done; try apply Hi).
  split; [apply (si_listener _ Hi)|done].
Qed.

Lemma process_exec_inv x e x' :
  process_inv x -> process_event_ok e -> process_exec opts x e = Ok x' -> process_inv x'.
Proof.
  intros Hx He. destruct e as [sr|spurious|e|i e]; cbn [process_exec].
  - intros [= <-]. by apply main_step_inv.
  - unfold stop_step. destruct (pr_stop x); try by intros [= <-].
    + intros Hr. apply bind_Ok_inv in Hr as (x1 & Hx1 & [= <-]).
      by apply reset_inv in Hx1 as [? _].
    + intros [= <-]. by destruct spurious.
  - destruct (pr_sys x) as [y|] eqn:Hy; [|by intros [= <-]].
    destruct (thread_enabled _ _) eqn:Hen; [|by intros [= <-]].
    intros Hr. apply bind_Ok_inv in Hr as (y' & Hy' & [= <-]).
    unfold process_inv in *. cbn. rewrite Hy in Hx. destruct Hx as (Hpc & Hi & Hs & Hl).
    split_and!; [done| |by eapply sys_exec_waits|].
    + by eapply (sys_exec_inv y e).
    + intros Hm. rewrite Hm in Hen. specialize (Hl Hm). destruct e as [p| | |c e|c|sp| |]; try done.
      * cbn in Hy'. by apply bind_Ok_inv in Hy' as (s & _ & [= <-]).
      * by rewrite (mgr_step_listen y EvCommandThread y' Hy').
      * by rewrite (mgr_step_listen y EvQueueTimeout y' Hy').
  - destruct (pr_main x) eqn:Hm, (pr_sys x) as [y|] eqn:Hy, (pr_stale x !! i);
      try by intros [= <-]. destruct (x_stopped _); [by intros [= <-]|].
    intros Hr. apply bind_Ok_inv in Hr as (cl & _ & [= <-]).
    unfold process_inv in *. cbn. by rewrite Hy, Hm in *.
Qed.

Lemma process_run_inv es x x' :
  process_inv x -> Forall process_event_ok es -> process_run opts x es = Ok x' -> process_inv x'.
Proof.
  intros Hx Hes. revert x Hx. induction Hes as [|e es He _ IH]; intros x Hx; [by intros [= <-]|].
  intros Hr. apply bind_Ok_inv in Hr as (x1 & Hx1 & Hr). eapply IH; [|exact Hr].
  by eapply process_exec_inv.
Qed.

(** ** Taking the components down *)

(** The listen thread comes to an end without Picard: it is done, back from the
    wait, or will not wait. *)
Definition listen_free y : bool :=
  match y_listen y with
  | LFinished | LReturned => true
  | LAsleep => bool_decide (listen_thread_id ∉ m_waiters (y_io y))
  | LCheck => m_connected (y_io y)
  | LWait => false
  end.

Definition listen_measure y : nat :=
  match y_listen y with LFinished => 0 | LReturned => 1 | _ => 2 end.

Definition main_measure (pc : main_pc) : nat :=
  match pc with
  | MJoinCommand => 7 | MJoinListen => 6 | MStopPicard => 5 | MJoinPicard => 4
  | MDeleteMgr => 3 | MDeleteListener => 2 | MDeletePicard => 1 | _ => 0
  end.

Record closing x y : Prop := {
  cl_sys : pr_sys x = Some y;
  cl_inv : sys_inv y;
  cl_waits : sys_waits y;
  cl_stopping : stopping (mgr_view y);
  cl_free : listen_free y = true;
  cl_main : main_measure (pr_main x) <> 0%nat;
  cl_picard : pr_main x = MJoinPicard -> m_isRunning (y_io y) = false;
}.

Definition closing_measure x y : nat :=
  command_measure (mgr_view y) + listen_measure y + main_measure (pr_main x).

Lemma rest_le_free (w : world (sys_rest P)) y :
  rest_le (w_rest (mgr_view y)) (w_rest w) -> listen_free y = true -> listen_free (set_view w y) = true.
Proof.
  unfold listen_free. change (y_io (set_view w y)) with (r_io (w_rest w)).
  change (y_listen (set_view w y)) with (y_listen y).
  intros [_ [(-> & _)|(-> & _)]]; [done|]. by destruct (y_listen y).
Qed.

Lemma rest_le_stopped (w : world (sys_rest P)) y :
  rest_le (w_rest (mgr_view y)) (w_rest w) -> m_isRunning (y_io y) = false ->
  m_isRunning (y_io (set_view w y)) = false.
Proof.
  change (y_io (set_view w y)) with (r_io (w_rest w)). by intros [_ [(-> & _)|(-> & _)]].
Qed.

(** The command thread runs once, after its wait has run out. *)
Lemma command_round y :
  sys_inv y -> sys_waits y -> stopping (mgr_view y) -> listen_free y = true ->
  exists y', sys_run y [SysQueueTimeout; SysCommand] = Ok y' /\
    sys_inv y' /\ sys_waits y' /\ stopping (mgr_view y') /\ listen_free y' = true /\
    y_listen y' = y_listen y /\
    (m_isRunning (y_io y) = false -> m_isRunning (y_io y') = false) /\
    (y_pc y <> Exited -> (command_measure (mgr_view y') < command_measure (mgr_view y))%nat) /\
    (y_pc y = Exited -> y_pc y' = Exited).
Proof.
  intros Hi Hs Hst Hf.
  assert (Hw : world_inv (mgr_view y)) by exact (si_world _ Hi).
  destruct (stopping_round (mgr_view y) Hw Hs Hst) as (w' & Hr & Hw' & Hs' & Hst' & Hlt & Hex).
  unfold run_events in Hr. cbn [foldM] in Hr. apply bind_Ok_inv in Hr as (w1 & H1 & Hr).
  apply bind_Ok_inv in Hr as (w2 & H2 & [= <-]).
  assert (Hy1 : sys_exec y SysQueueTimeout = Ok (set_view w1 y)).
  { cbn [sys_exec]. unfold mgr_step. by rewrite H1. }
  assert (Hy2 : sys_exec (set_view w1 y) SysCommand = Ok (set_view w2 y)).
  { cbn [sys_exec]. unfold mgr_step. rewrite view_set, H2. done. }
  assert (Hi1 : sys_inv (set_view w1 y)) by (by eapply (sys_exec_inv y SysQueueTimeout)).
  exists (set_view w2 y). split_and!.
  - unfold sys_run. cbn [foldM]. rewrite Hy1. step_bind. by rewrite Hy2.
  - by eapply (sys_exec_inv (set_view w1 y) SysCommand).
  - exact Hs'.
  - by rewrite view_set.
  - pose proof (exec_rest _ _ _ H1) as Hr1. pose proof (exec_rest _ _ _ H2) as Hr2.
    apply (rest_le_free w2 (set_view w1 y)); [by rewrite view_set|]. by apply rest_le_free.
  - done.
  - intros Hrun. pose proof (exec_rest _ _ _ H1) as Hr1. pose proof (exec_rest _ _ _ H2) as Hr2.
    apply (rest_le_stopped w2 (set_view w1 y)); [by rewrite view_set|]. by apply rest_le_stopped.
  - intros Hne. rewrite view_set. by apply Hlt.
  - exact Hex.
Qed.

Lemma listen_round y :
  listen_free y = true ->
  let y' := listen_step false y in
  y_mgr y' = y_mgr y /\ y_pc y' = y_pc y /\ listen_free y' = true /\
  m_isRunning (y_io y') = m_isRunning (y_io y) /\
  (listen_measure y' <= listen_measure y)%nat /\
  (y_listen y <> LFinished -> (listen_measure y' < listen_measure y)%nat).
Proof.
  intros Hf. unfold listen_free, listen_measure, listen_step, waitForHello_check in *.
  destruct (y_listen y) eqn:Hl; try done.
  - rewrite Hf. cbn. split_and!; done || lia.
  - apply bool_decide_eq_true_1 in Hf. rewrite decide_False by done. cbn. split_and!; done || lia.
  - cbn. split_and!; done || lia.
  - rewrite Hl. split_and!; done || lia.
Qed.

Definition shutdown_round sr : list (process_event A B) :=
  [PThread SysQueueTimeout; PThread SysCommand; PThread (SysListen false); PMain sr].

(** What a round leaves: the components deleted, or closer to it. *)
Definition closed x : Prop := pr_main x = MHead /\ pr_sys x = None.

Definition same_control x x' : Prop :=
  pr_stop x' = pr_stop x /\ muxRunning x' = muxRunning x.

Lemma closing_main sr x y :
  closing x y ->
  let x' := main_step opts sr x in
  same_control x x' /\
  (closed x' \/ exists y', closing x' y' /\ y_pc y' = y_pc y /\
     (closing_measure x' y' <= closing_measure x y)%nat /\
     (y_pc y = Exited -> y_listen y = LFinished -> (closing_measure x' y' < closing_measure x y)%nat)).
Proof.
  intros [Hy Hi Hs Hst Hf Hm Hp]. unfold same_control, closed, main_step, closing_measure. rewrite Hy.
  destruct (pr_main x) eqn:Hpc; cbn [main_measure] in *; try done; clear Hm.
  - case_decide as He; (split; [done|]; right; exists y).
    + split; [by split|]. cbn. split_and!; done || lia.
    + split; [by split; rewrite ?Hpc|]. rewrite Hpc. cbn. split_and!; done || lia.
  - case_decide as He; (split; [done|]; right; exists y).
    + split; [by split|]. cbn. split_and!; done || lia.
    + split; [by split; rewrite ?Hpc|]. rewrite Hpc. cbn. split_and!; done || lia.
  - split; [done|]. right. exists (stop_picard y). split.
    2: { change (command_measure (mgr_view (stop_picard y))) with (command_measure (mgr_view y)).
         change (listen_measure (stop_picard y)) with (listen_measure y). cbn [main_measure pr_main goto].
         split_and!; done || lia. }
    split; try done. apply with_parts_inv; try done; apply Hi.
  - rewrite Hp by done. split; [done|]. right. exists y. split; [by split|]. cbn. split_and!; done || lia.
  - split; [done|]. right. exists y. split; [by split|]. cbn. split_and!; done || lia.
  - split; [done|]. right. exists y. split; [by split|]. cbn. split_and!; done || lia.
  - split; [done|]. by left.
Qed.

Lemma closing_round sr x y :
  closing x y ->
  exists x', process_run opts x (shutdown_round sr) = Ok x' /\ same_control x x' /\
    (closed x' \/ exists y', closing x' y' /\ (closing_measure x' y' < closing_measure x y)%nat).
Proof.
  intros [Hy Hi Hs Hst Hf Hm Hp].
  destruct (command_round y Hi Hs Hst Hf) as (y1 & Hr & Hi1 & Hs1 & Hst1 & Hf1 & Hl1 & Hrun1 & Hlt1 & Hex1).
  set (y2 := listen_step false y1).
  destruct (listen_round y1 Hf1) as (Hg2 & Hpc2 & Hf2 & Hrun2 & Hle2 & Hlt2). fold y2 in Hg2, Hpc2, Hf2, Hrun2, Hle2, Hlt2.
  assert (Hi2 : sys_inv y2) by (by eapply (sys_exec_inv y1 (SysListen false))).
  set (x2 := with_sys (Some y2) x).
  assert (Hview : command_measure (mgr_view y2) = command_measure (mgr_view y1)).
  { unfold command_measure, mgr_view. cbn. by rewrite Hg2, Hpc2. }
  assert (Hcl : closing x2 y2).
  { split; try done.
    - unfold sys_waits. rewrite Hg2, Hpc2. exact Hs1.
    - unfold stopping, mgr_view in *. cbn in *. by rewrite Hg2, Hpc2.
    - intros Hj. rewrite Hrun2. by apply Hrun1, Hp. }
  destruct (closing_main sr x2 y2 Hcl) as [Hsame Hnext].
  exists (main_step opts sr x2). split_and!; [|done|].
  - unfold sys_run in Hr. cbn [foldM] in Hr. apply bind_Ok_inv in Hr as (ya & Ha & Hr).
    apply bind_Ok_inv in Hr as (yb & Hb & [= <-]).
    unfold process_run, shutdown_round. cbn [foldM process_exec]. rewrite Hy. cbn [thread_enabled].
    rewrite Ha. step_bind. cbn [pr_sys with_sys thread_enabled]. rewrite Hb. step_bind.
    cbn [pr_sys with_sys thread_enabled pr_main].
    rewrite bool_decide_eq_false_2 by (intros Hx; by rewrite Hx in Hm). done.
  - destruct Hnext as [Hcd|(y' & Hcl' & Hpc' & Hle & Hlt)]; [by left|right].
    exists y'. split; [done|]. unfold closing_measure in *. cbn [pr_main x2 with_sys] in *.
    destruct (decide (y_pc y = Exited)) as [He|He]; [|specialize (Hlt1 He); rewrite Hview in Hle;
      assert (listen_measure y1 = listen_measure y) by (unfold listen_measure; by rewrite Hl1); lia].
    assert (He1 : y_pc y1 = Exited) by auto.
    assert (Hmeas : command_measure (mgr_view y1) = 0%nat) by (unfold command_measure; cbn; by rewrite He1).
    assert (listen_measure y1 = listen_measure y) by (unfold listen_measure; by rewrite Hl1).
    destruct (decide (y_listen y1 = LFinished)) as [Hfin|Hfin]; [|specialize (Hlt2 Hfin); lia].
    assert (Hfin2 : y_listen y2 = LFinished) by (unfold y2, listen_step; by rewrite Hfin).
    rewrite Hpc2 in Hlt. specialize (Hlt He1 Hfin2). lia.
Qed.

Definition shutdown_rounds sr (n : nat) : list (process_event A B) :=
  concat (replicate n (shutdown_round sr)).

(** How a shutdown starts. *)
Lemma closing_start sr x y :
  process_inv x -> pr_main x = MRun -> pr_sys x = Some y -> x_stopped (y_parts y) = true ->
  y_pc y <> NotStarted -> listen_free y = true ->
  let x1 := goto MJoinCommand (with_sys (Some (stop_commands y)) x) in
  main_step opts sr x = goto MStopping x /\ main_step opts sr (goto MStopping x) = x1 /\
  closing x1 (stop_commands y) /\
  (closing_measure x1 (stop_commands y) <= 2 * Z.to_nat (m_retries (y_mgr y)) + 12)%nat.
Proof.
  intros Hinv Hm Hy Hstop Hpc Hf x1.
  unfold process_inv in Hinv. rewrite Hy in Hinv. destruct Hinv as (_ & Hi & Hs & _).
  split_and!.
  - unfold main_step. by rewrite Hm, Hy, Hstop.
  - unfold main_step. cbn. by rewrite Hy.
  - split; try done.
    + by apply stop_commands_inv.
    + intros Hin. destruct (Hs Hin) as [|]; right; cbn; apply elem_of_app; auto.
  - unfold closing_measure, command_measure, listen_measure.
    change (y_listen (stop_commands y)) with (y_listen y).
    change (w_pc (mgr_view (stop_commands y))) with (y_pc y).
    change (m_retries (w_mgr (mgr_view (stop_commands y)))) with (m_retries (y_mgr y)).
    cbn [main_measure x1 goto pr_main].
    pose proof (si_world _ Hi) as [_ Hok]. cbn [w_pc W] in Hok.
    destruct (y_pc y) as [| | |cmd i|cmd i|]; try (destruct (y_listen y); lia).
    all: destruct Hok as (_ & Hpos & _); destruct (y_listen y); lia.
Qed.

Lemma closing_ends sr k x y :
  closing x y -> (closing_measure x y <= k)%nat ->
  exists n x', (n <= k)%nat /\ process_run opts x (shutdown_rounds sr n) = Ok x' /\
    same_control x x' /\ closed x'.
Proof.
  revert x y. induction k as [|k IH]; intros x y Hcl Hk.
  - pose proof (cl_main _ _ Hcl). unfold closing_measure in Hk. lia.
  - destruct (closing_round sr x y Hcl) as (x1 & H1 & [Hs1 Hm1] & [Hcd|(y1 & Hcl1 & Hlt)]).
    + exists 1%nat, x1. split_and!; [lia| |done|done]. unfold shutdown_rounds. cbn [replicate concat].
      by rewrite app_nil_r.
    + destruct (IH x1 y1 Hcl1) as (n & x' & Hn & Hr & [Hs Hm] & Hcd); [lia|].
      exists (S n), x'. split_and!; [lia| |split; congruence|done].
      unfold shutdown_rounds, process_run in *. cbn [replicate concat]. rewrite foldM_app, H1. exact Hr.
Qed.
End facts.

(** ** Shutdowns that do not end *)

Section loop_flag.
Context {R : Type} `{IPicardIO R}.

(** Once it has started and not been stopped, or not even started, the command
    thread never leaves its loop. *)
Definition looping (w : world R) : Prop :=
  w_pc w <> Exited /\ (w_pc w = NotStarted \/ m_loop (w_mgr w) = true).

Lemma command_looping w w' : looping w -> command_thread w = Ok w' -> looping w'.
Proof.
  intros [Hne Hl]. unfold command_thread.
  assert (Hpop : forall g popped pc, m_loop g = true ->
    after_pop {| w_mgr := g; w_rest := w_rest w; w_pc := pc |} popped = Ok w' -> looping w').
  { intros g [cmd|] pc Hg; cbn [after_pop]; [|by intros [= <-]; split; [|right]].
    intros Hx. apply bind_Ok_inv in Hx as ([g1 next] & Hd & [= <-]).
    apply dispatch_same in Hd as (_ & Hd & _). cbn in Hd. split; [by destruct next|]. right. cbn. congruence. }
  assert (Hfin : forall cmd r, m_loop (w_mgr w) = true ->
    ('(g, p) ← finish (w_mgr w) (w_rest w) cmd r;
     Ok {| w_mgr := g; w_rest := p; w_pc := AtHead |}) = Ok w' -> looping w').
  { intros cmd r Hg Hx. apply bind_Ok_inv in Hx as ([g p] & Hf & [= <-]).
    apply finish_same in Hf as (_ & Hf & _). split; [done|]. right. cbn. congruence. }
  destruct (w_pc w) as [| | |cmd i|cmd i|] eqn:Hpc; try done;
    [intros [= <-]; split; [done|by right]|destruct Hl as [|Hl]; [done|]..].
  - rewrite Hl. destruct (timedPop_enter _ _) as [[popped|] q]; [by apply Hpop|].
    intros [= <-]. split; [done|by right].
  - case_decide; [|intros [= <-]; split; [by rewrite Hpc|by right]].
    destruct (timedPop_resume _ _) as [popped q]. by apply Hpop.
  - destruct (i <? _); [|by apply Hfin]. destruct (picard_sendCommand _ _ _).
    intros [= <-]. split; [done|by right].
  - case_decide; [|by apply Hfin]. intros [= <-]. split; [done|by right].
Qed.
End loop_flag.

Section hangs.
Context {A B : Type} `{SerialPort A} `{UdpSocket B} (opts : SerialMuxOptions).
#[local] Abbreviation P := (picard_device A B).
Implicit Types (x : process A B) (y : system P).

Definition no_spurious_wake (e : process_event A B) : bool :=
  match e with PStop true | PThread (SysListen true) => false | _ => true end.

(** The listen thread has missed every wake-up. *)
Definition listen_stuck y : Prop :=
  y_listen y = LWait \/ (y_listen y = LAsleep /\ listen_thread_id ∈ m_waiters (y_io y)).

Definition join_stuck x : Prop :=
  exists y, pr_sys x = Some y /\ m_isRunning (y_io y) = false /\
    ((pr_main x = MJoinCommand /\ looping (mgr_view y)) \/
     (pr_main x = MJoinListen /\ y_pc y = Exited /\ listen_stuck y /\
      pr_stop x <> SIdle /\ pr_stop x <> SFlagged)).

Lemma stopped_pass y p :
  m_isRunning (y_io y) = false ->
  exists y', sys_exec y (SysPicard p) = Ok y' /\ m_isRunning (y_io y') = false /\
    y_env y' = y_env y /\ y_pc y' = y_pc y /\ y_listen y' = y_listen y /\
    m_waiters (y_io y') = m_waiters (y_io y).
Proof.
  intros Hr. cbn [sys_exec]. unfold loop_pass. fold (y_io y).
  assert (Hf : m_isRunning (if p_stop p then picard_stop (y_io y) else y_io y) = false)
    by (by destruct (p_stop p)).
  rewrite Hf. step_bind. eexists. split; [done|]. unfold y_io, y_env in *. cbn.
  by destruct (p_stop p).
Qed.

Lemma stuck_thread x y e y' :
  no_spurious_wake (PThread (A := A) (B := B) e) = true -> thread_enabled (pr_main x) e = true ->
  pr_main x <> MRun -> m_isRunning (y_io y) = false -> sys_exec y e = Ok y' ->
  m_isRunning (y_io y') = false /\
  (looping (mgr_view y) -> looping (mgr_view y')) /\
  (y_pc y = Exited -> listen_stuck y -> y_pc y' = Exited /\ listen_stuck y').
Proof.
  intros Hns Hen Hm Hrun He. destruct e as [p| | |c e|c|sp| |]; try done.
  - destruct (stopped_pass y p Hrun) as (y1 & H1 & Hr & Hv & Hpc & Hl & Hw).
    rewrite He in H1. injection H1 as ->. split; [done|].
    unfold looping, listen_stuck, mgr_view, y_mgr, y_parts. cbn. by rewrite Hv, Hpc, Hl, Hw.
  - cbn [sys_exec] in He. unfold mgr_step in He. apply bind_Ok_inv in He as (w & Hw & [= <-]).
    pose proof (exec_rest _ _ _ Hw) as Hle. split; [by apply (rest_le_stopped w y)|]. rewrite view_set. split.
    + intros Hl. by eapply command_looping.
    + intros Hex Hls. cbn [exec] in Hw. unfold command_thread in Hw. cbn [mgr_view w_pc] in Hw.
      rewrite Hex in Hw. injection Hw as <-. by split.
  - cbn [sys_exec] in He. injection He as <-. by split_and!.
  - by apply bool_decide_eq_true_1 in Hen.
  - by apply bool_decide_eq_true_1 in Hen.
  - destruct sp; [done|]. cbn [sys_exec] in He. injection He as <-.
    assert (Hkeep : y_mgr (listen_step false y) = y_mgr y /\ y_pc (listen_step false y) = y_pc y /\
      m_isRunning (y_io (listen_step false y)) = m_isRunning (y_io y)).
    { unfold listen_step, waitForHello_check. destruct (y_listen y); try done.
      - by destruct (m_connected (y_io y)).
      - by case_decide. }
    destruct Hkeep as (Hg & Hpc & Hr). rewrite Hr. split; [done|].
    unfold looping, mgr_view. cbn [w_pc w_mgr]. rewrite Hg, Hpc. split; [done|].
    intros Hex Hls. split; [done|]. unfold listen_step, listen_stuck.
    destruct Hls as [->|[Hl Hin]]; right.
    + cbn. split; [done|]. apply elem_of_app. right. by apply list_elem_of_singleton.
    + rewrite Hl, decide_True by done. by split.
Qed.

Lemma stuck_stop x y x' :
  pr_sys x = Some y -> m_isRunning (y_io y) = false ->
  join_stuck x -> stop_step false x = Ok x' ->
  join_stuck x' /\ pr_main x' = pr_main x /\ (pr_stop x' = SReturned -> pr_stop x = SReturned).
Proof.
  intros Hy Hrun (y0 & Hy0 & _ & Hst). rewrite Hy in Hy0. injection Hy0 as <-.
  unfold stop_step. destruct (pr_stop x) eqn:Hs.
  - destruct Hst as [Hst|(_ & _ & _ & Hp & _)]; [|done]. intros [= <-]. split; [|done].
    exists y. split_and!; [done|done|by left].
  - destruct Hst as [[Hm Hlo]|(_ & _ & _ & _ & Hp)]; [|done]. intros Hx.
    apply bind_Ok_inv in Hx as (x1 & Hx & [= <-]). unfold mux_resetConnection in Hx.
    rewrite Hy, Hm in Hx. apply bind_Ok_inv in Hx as (y' & Hx & [= <-]). split; [|done].
    cbn [sys_exec] in Hx. unfold mgr_step in Hx. apply bind_Ok_inv in Hx as (w & Hw & [= <-]).
    exists (set_view w y). split; [done|]. split; [by apply (rest_le_stopped w y); [by eapply exec_rest|]|].
    left. split; [done|]. rewrite view_set. cbn [exec] in Hw. unfold mgr_resetConnection in Hw.
    apply bind_Ok_inv in Hw as ([g r] & Hw & [= <-]). apply bind_Ok_inv in Hw as (g1 & Hg & [= <- _]).
    apply closeClients_same in Hg as (_ & Hg & _). destruct Hlo as [Hne Hl]. split; [done|].
    destruct Hl as [Hl|Hl]; [by left|right]. cbn in *. congruence.
  - intros [= <-]. split; [|done]. exists y. split_and!; [done|done|].
    destruct Hst as [Hst|(Hm & Hex & Hls & _)]; [by left|right]. by split_and!.
  - intros [= <-]. rewrite Hs. split; [|done]. by exists y; rewrite Hs in *.
  - intros [= <-]. rewrite Hs. split; [|done]. by exists y; rewrite Hs in *.
Qed.

Lemma stuck_exec x e x' :
  no_spurious_wake e = true -> join_stuck x -> process_exec opts x e = Ok x' ->
  join_stuck x' /\ pr_main x' = pr_main x /\ (pr_stop x' = SReturned -> pr_stop x = SReturned).
Proof.
  intros Hns Hj. pose proof Hj as (y & Hy & Hrun & Hst).
  assert (Hnew : forall y', m_isRunning (y_io y') = false ->
    (looping (mgr_view y) -> looping (mgr_view y')) ->
    (y_pc y = Exited -> listen_stuck y -> y_pc y' = Exited /\ listen_stuck y') ->
    join_stuck (with_sys (Some y') x) /\ pr_main (with_sys (Some y') x) = pr_main x /\
    (pr_stop (with_sys (Some y') x) = SReturned -> pr_stop x = SReturned)).
  { intros y' Hr' Hl Hs. split; [|done]. exists y'. split; [done|]. split; [done|].
    destruct Hst as [[Hm Hlo]|(Hm & Hex & Hls & Hp)]; [left; auto|right].
    destruct (Hs Hex Hls) as [? ?]. auto. }
  destruct e as [sr|[|]|e|i e]; cbn [process_exec]; [..|].
  - intros [= <-]. destruct Hst as [[Hm [Hlo _]]|(Hm & Hex & Hls & Hp)]; unfold main_step; rewrite Hm, Hy.
    + rewrite decide_False by done. split_and!; [exact Hj|done|done].
    + rewrite decide_False; [split_and!; [exact Hj|done|done]|]. by destruct Hls as [->|[-> _]].
  - done.
  - by eapply stuck_stop.
  - rewrite Hy. destruct (thread_enabled _ e) eqn:Hen; [|by intros [= <-]]. intros Hx.
    apply bind_Ok_inv in Hx as (y' & He & [= <-]).
    destruct (stuck_thread x y e y') as (Hr' & Hl' & Hs'); [exact Hns|exact Hen|by destruct Hst as [[-> _]|[-> _]]|exact Hrun|exact He|].
    by apply Hnew.
  - destruct Hst as [[Hm _]|[Hm _]]; rewrite Hm; by intros [= <-].
Qed.

Lemma stuck_run x es x' :
  forallb no_spurious_wake es = true -> join_stuck x -> process_run opts x es = Ok x' ->
  join_stuck x' /\ pr_main x' = pr_main x /\ (pr_stop x' = SReturned -> pr_stop x = SReturned).
Proof.
  unfold process_run. revert x. induction es as [|e es IH]; intros x Hes Hj; [by intros [= <-]|].
  cbn [forallb] in Hes. apply andb_true_iff in Hes as [He Hes]. intros Hx.
  apply bind_Ok_inv in Hx as (x1 & H1 & Hx). destruct (stuck_exec x e x1 He Hj H1) as (Hj1 & Hm1 & Hs1).
  destruct (IH x1 Hes Hj1 Hx) as (Hj2 & Hm2 & Hs2). split_and!; [done|congruence|auto].
Qed.
End hangs.

(** ** What becomes of a client of deleted components *)

(** Rewrite with an equation for the [parser_read] of the goal, up to unfolding. *)
Ltac rewrite_read Hread :=
  match goal with |- context [parser_read ?s ?d] =>
    match type of Hread with _ = ?r =>
      let Hu := fresh in assert (Hu : parser_read s d = r) by exact Hread; rewrite Hu; clear Hu
    end
  end.

Lemma stale_hello (cl : CBoostClient) hello :
  m_reading cl = true -> m_initState (m_core cl) = WAITING -> m_parser cl = new_CMuxParser true ->
  message_ok hello -> m_type hello = MUX_HELLO -> length (m_data hello) = 9%nat ->
  stale_exec cl (ClientData (serialize_message hello)) = Undefined UseAfterFree.
Proof.
  intros Hr Hw Hp Hok Ht Hlen. unfold stale_exec. rewrite Hr. cbn [client_exec].
  change (m_reading (free_token cl)) with (m_reading cl). rewrite Hr. cbn [andb].
  rewrite bool_decide_eq_true_2 by done. set (c := m_core (free_token cl)).
  assert (Hcmd : client_handleCommand (M := dangling_list) 0 (c, false) hello = Undefined OutOfBounds).
  { cbn [client_handleCommand]. unfold isInitialized.
    change (m_initState c) with (m_initState (m_core cl)). rewrite Hw.
    rewrite (bool_decide_eq_false_2 (WAITING = AUTHENTICATED)), bool_decide_eq_true_2 by done.
    rewrite Ht. cbn [andb]. rewrite Z.eqb_refl. unfold parseHello, message_size. rewrite Hlen.
    change (u16 (Z.of_nat 9) =? EXPECTED_HELLO_LEN) with true. cbn iota.
    by destruct (m_data hello) as [|v data]. }
  destruct (read_all_noisy (H0 := client_ICommandCallback (M := dangling_list) 0) (c, false)
    [([], hello)] [serialize_message hello]) as [input Hread].
  { apply Forall_cons. split; [|done]. by split. }
  { unfold noisy. cbn. by rewrite app_nil_r. }
  change (foldM handleCommand (c, false) [([], hello)].*2)
    with (foldM (client_handleCommand (M := dangling_list) 0) (c, false) [hello]) in Hread.
  cbn [foldM] in Hread. rewrite Hcmd in Hread. unfold read_all in Hread. cbn [foldM] in Hread.
  destruct (serialize_message hello) as [|b bytes] eqn:Hser; [done|]. cbn [handle_read].
  change (m_parser (free_token cl)) with (m_parser cl). rewrite Hp. fold c.
  rewrite bind_ret in Hread.
  by rewrite_read Hread.
Qed.

Lemma stale_closed (cl : CBoostClient) e :
  m_reading cl = true -> m_initState (m_core cl) = CLOSED ->
  exists cl', stale_exec cl e = Ok cl' /\ m_initState (m_core cl') = CLOSED.
Proof.
  intros Hr Hc. unfold stale_exec. rewrite Hr. destruct e as [data| | |]; cbn [client_exec].
  - change (m_reading (free_token cl)) with (m_reading cl). rewrite Hr. cbn [andb].
    case_bool_decide as Hd; [|by eexists]. destruct data as [|b data]; [done|]. cbn [handle_read].
    set (s0 := (m_core (free_token cl), false) : client_core * dangling_list).
    destruct (parser_read_defined (H0 := client_ICommandCallback (M := dangling_list) 0) (eq s0)
      (m_parser (free_token cl)) s0 (b :: data)) as (q & s1 & Hp & <-); [|done|].
    { intros h msg <-. exists s0. split; [|done]. apply message_discarded; cbn; congruence. }
    rewrite_read Hp. step_bind. by eexists.
  - change (m_reading (free_token cl)) with (m_reading cl). rewrite Hr. cbn [handle_read m_core].
    rewrite bool_decide_eq_false_2 by (cbn; congruence). by eexists.
  - by eexists.
  - destruct (m_authTimeout _); by eexists.
Qed.

(** ** Properties *)

Section properties.
Context {A B : Type} `{SerialPort A} `{UdpSocket B} (opts : SerialMuxOptions).
#[local] Abbreviation P := (picard_device A B).
Implicit Types (x : process A B) (y : system P).

Lemma run_main sr x es :
  process_run opts x (PMain sr :: es) = process_run opts (main_step opts sr x) es.
Proof. done. Qed.

(** C6: a shutdown completes.  From any state the process reaches, once
    [io_service] has been stopped while the main loop runs it, if the command
    thread has started and the listen thread is not about to miss its wake-up, the
    components are joined and deleted after a bounded number of rounds in which
    every thread runs once, without anything from Picard or a client.  A thread
    waiting in [serial_mux_stop] then returns; otherwise the loop starts again
    with new components, as at power-up. *)
Theorem shutdown_completes es x y sr :
  length (authToken opts) = AUTHENTICATION_LEN ->
  Forall process_event_ok es -> process_run opts new_process es = Ok x ->
  pr_main x = MRun -> pr_sys x = Some y -> x_stopped (y_parts y) = true ->
  y_pc y <> NotStarted -> listen_free y = true ->
  exists n x', (n <= 2 * Z.to_nat (m_retries (y_mgr y)) + 12)%nat /\
    process_run opts x ([PMain sr; PMain sr] ++ shutdown_rounds sr n) = Ok x' /\
    pr_main x' = MHead /\ pr_sys x' = None /\
    (muxRunning x = false -> pr_stop x = SWaiting ->
       exists x'', process_run opts x' [PMain sr; PMain sr] = Ok x'' /\
         pr_main x'' = MDone /\ pr_stop x'' = SReturned) /\
    (forall port t0, muxRunning x = true -> connect_picard opts sr = Some (port, t0) -> sr_bind sr = true ->
       exists x'', process_run opts x' (replicate 4 (PMain sr)) = Ok x'' /\
         pr_main x'' = MRun /\
         pr_sys x'' = Some (new_system (picardRetries opts) t0 port (listenerPort opts)
                              (acceptAnyhost opts) (authToken opts))).
Proof.
  intros Htok Hes Hrun Hm Hy Hstop Hpc Hf.
  pose proof (process_run_inv opts Htok es new_process x new_process_inv Hes Hrun) as Hinv.
  destruct (closing_start opts Htok sr x y Hinv Hm Hy Hstop Hpc Hf) as (Ha & Hb & Hcl & Hk).
  set (y1 := stop_commands y) in *. set (x1 := goto MJoinCommand (with_sys (Some y1) x)) in *.
  assert (H1 : process_run opts x [PMain sr; PMain sr] = Ok x1) by (by rewrite !run_main, Ha, Hb).
  destruct (closing_ends opts Htok sr (closing_measure x1 y1) x1 y1 Hcl) as (n & x' & Hn & Hr & [Hst Hmux] & Hcd & Hnone);
    [done|].
  change (pr_stop x1) with (pr_stop x) in Hst. change (muxRunning x1) with (muxRunning x) in Hmux.
  exists n, x'. split; [by etrans|]. split; [|split; [done|split; [done|split]]].
  - unfold process_run in *. rewrite foldM_app, H1. exact Hr.
  - intros Hmr Hsw. rewrite Hmr in Hmux. rewrite Hsw in Hst.
    assert (Hc : main_step opts sr x' = goto MNotify x').
    { unfold main_step. rewrite Hcd. by rewrite Hmux. }
    rewrite !run_main, Hc. eexists. split; [done|]. unfold main_step. cbn. by rewrite Hst.
  - intros port t0 Hmr Hport Hbind. rewrite Hmr in Hmux.
    assert (Hc : main_step opts sr x' = goto MReset x').
    { unfold main_step. rewrite Hcd. by rewrite Hmux. }
    cbn [replicate]. rewrite !run_main, Hc. eexists. split; [done|].
    unfold main_step. cbn. rewrite Hport. cbn. by rewrite Hbind.
Qed.

(** C31: shutdowns that never end, unless a wait ends spuriously.  (1) If
    [gClientMgr->stop()] runs before the command thread has entered its loop, the
    loop sets [m_isRunning] again and [clientThread.join()] waits for ever.  (2) If
    the listen thread is between its test of [m_connected] and its wait when the
    connection is reset, and [serial_mux_stop] has no reset of its own still to make
    (which would wake the listen thread once it waits), as when the reset is that of
    [serial_mux_stop], [listenThread.join()] waits for ever.  Either way
    [serial_mux_stop] does not return. *)
Theorem shutdown_hangs x y es x' :
  pr_sys x = Some y -> m_isRunning (y_io y) = false ->
  (pr_main x = MJoinCommand /\ y_pc y = NotStarted) \/
  (pr_main x = MJoinListen /\ y_pc y = Exited /\ y_listen y = LWait /\
   pr_stop x <> SIdle /\ pr_stop x <> SFlagged) ->
  forallb no_spurious_wake es = true -> process_run opts x es = Ok x' ->
  pr_main x' = pr_main x /\ (pr_stop x' = SReturned -> pr_stop x = SReturned).
Proof.
  intros Hy Hrun Hst Hes Hx.
  assert (Hj : join_stuck x).
  { exists y. split_and!; [done|done|]. destruct Hst as [[Hm Hpc]|(Hm & Hex & Hl & Hp)]; [left|right].
    - split; [done|]. split; [|by left]. unfold mgr_view. cbn. by rewrite Hpc.
    - split_and!; [done|done|by left|apply Hp|apply Hp]. }
  by destruct (stuck_run opts x es x' Hes Hj Hx) as (_ & ? & ?).
Qed.

(** A stop that gets lost.  (1) If [serial_mux_stop] runs between the test of
    [muxRunning] and [io_service.reset()], the reset erases its stop: the mux
    comes up although it has been told to end, and the caller waits until some
    other reset.  (2) If the main loop has finished before [serial_mux_stop] waits
    for [gMuxLoopComplete], the caller never returns. *)
Lemma stop_lost x :
  (forall sr port t0, pr_main x = MReset -> pr_sys x = None -> pr_stop x = SFlagged ->
     muxRunning x = false -> connect_picard opts sr = Some (port, t0) -> sr_bind sr = true ->
     exists x' y, process_run opts x ([PStop false; PStop false] ++ replicate 3 (PMain sr)) = Ok x' /\
       pr_main x' = MRun /\ pr_sys x' = Some y /\ x_stopped (y_parts y) = false /\
       muxRunning x' = false /\ pr_stop x' = SWaiting /\ main_step opts sr x' = x') /\
  (forall es x', pr_main x = MDone -> pr_sys x = None -> pr_stop x <> SReturned ->
     forallb no_spurious_wake es = true -> process_run opts x es = Ok x' ->
     pr_main x' = MDone /\ pr_stop x' <> SReturned).
Proof.
  split.
  - intros sr port t0 Hm Hy Hs Hr Hport Hbind. destruct x as [r pc sys st stale sp]. cbn in *. subst.
    eexists _, _. split.
    { unfold process_run. cbn. unfold main_step. cbn. rewrite Hport. cbn. by rewrite Hbind. }
    by split_and!.
  - intros es x' Hm Hy Hs Hes. revert x Hm Hy Hs. unfold process_run.
    induction es as [|e es IH]; intros x Hm Hy Hs; [by intros [= <-]|].
    cbn [forallb] in Hes. apply andb_true_iff in Hes as [He Hes]. cbn [foldM]. intros Hx.
    apply bind_Ok_inv in Hx as (x1 & H1 & Hx). revert Hx.
    assert (Hx1 : pr_main x1 = MDone /\ pr_sys x1 = None /\ pr_stop x1 <> SReturned).
    { destruct e as [sr|[|]|e|i e]; cbn [process_exec] in H1; [| done | | |].
      - injection H1 as <-. unfold main_step. by rewrite Hm, Hy.
      - unfold stop_step, mux_resetConnection in H1. rewrite Hy in H1.
        destruct (pr_stop x) eqn:Hst; [..|done]; injection H1 as <-; cbn; by rewrite ?Hst.
      - rewrite Hy in H1. by injection H1 as <-.
      - rewrite Hm in H1. by injection H1 as <-. }
    destruct Hx1 as (? & ? & ?). by apply IH.
Qed.

(** C32: clients that outlive the components.  After a restart [io_service] still
    holds the handlers of the clients of before.  One that had not said hello is
    still connected: a hello of the right length makes it compare tokens in the
    deleted listener.  One that was accepted but had not been closed calls the
    deleted manager as soon as its socket fails.  One that was closed is
    harmless. *)
Theorem stale_clients x y i cl :
  pr_main x = MRun -> pr_sys x = Some y -> x_stopped (y_parts y) = false ->
  pr_stale x !! i = Some cl -> m_reading cl = true ->
  (forall hello, m_initState (m_core cl) = WAITING -> m_parser cl = new_CMuxParser true ->
     message_ok hello -> m_type hello = MUX_HELLO -> length (m_data hello) = 9%nat ->
     process_exec opts x (PStale i (ClientData (serialize_message hello))) = Undefined UseAfterFree) /\
  (m_initState (m_core cl) = AUTHENTICATED ->
     process_exec opts x (PStale i ClientError) = Undefined UseAfterFree) /\
  (m_initState (m_core cl) = CLOSED -> forall e, exists cl',
     process_exec opts x (PStale i e) = Ok (with_stale (<[i := cl']> (pr_stale x)) x) /\
     m_initState (m_core cl') = CLOSED).
Proof.
  intros Hm Hy Hs Hcl Hr.
  assert (Hx : forall e, process_exec opts x (PStale i e)
    = (cl ← stale_exec cl e; Ok (with_stale (<[i := cl]> (pr_stale x)) x))).
  { intros e. cbn [process_exec]. by rewrite Hm, Hy, Hcl, Hs. }
  split_and!.
  - intros hello Hw Hp Hok Ht Hlen. by rewrite Hx, stale_hello.
  - intros Ha. rewrite Hx. unfold stale_exec. rewrite Hr. cbn [client_exec].
    change (m_reading (free_token cl)) with (m_reading cl). rewrite Hr. cbn [handle_read m_core].
    by rewrite bool_decide_eq_true_2.
  - intros Hc e. rewrite Hx. destruct (stale_closed cl e Hr Hc) as (cl' & -> & Hc'). by eexists.
Qed.
End properties.

(** ** Witnesses: power-up, a reset by Picard, and what comes of it *)

Definition sample_opts : SerialMuxOptions := new_SerialMuxOptions.
Definition sample_sr : surroundings port_log datagram_log :=
  {| sr_serial := Some ([], 100); sr_socket := None; sr_bind := true |}.
Abbreviation threads := (fmap (PThread (A := port_log) (B := datagram_log))).

(** Up, connected, listening, and a connection that has not said hello. *)
Definition power_up : list (process_event port_log datagram_log) :=
  replicate 4 (PMain sample_sr) ++
  threads [SysCommand; read_pass (encodeHDLC hello_ok); SysListen false; SysListen false; SysAccept 5].

(** The manager says hello again: the connection is reset. *)
Definition reset_by_picard : list (process_event port_log datagram_log) :=
  threads [read_pass (encodeHDLC (picard_frame 0 MGR_HELLO 0 [4; 0]))].

Definition process_after (es : list (process_event port_log datagram_log)) : process port_log datagram_log :=
  match process_run sample_opts new_process es with Ok x => x | Undefined _ => new_process end.

Definition default_system : system sample_device := sample_system.
Definition sys_of (x : process port_log datagram_log) : system sample_device := default default_system (pr_sys x).

Definition process_events_okb (es : list (process_event port_log datagram_log)) : bool :=
  forallb (fun e => match e with PThread e => sys_event_okb e | _ => true end) es.

Lemma process_events_ok es : process_events_okb es = true -> Forall process_event_ok es.
Proof.
  unfold process_events_okb. rewrite forallb_forall. intros Hes. apply Forall_forall. intros e He.
  apply list_elem_of_In in He. specialize (Hes e He). destruct e as [| |e|]; try done.
  apply (Forall_singleton sys_event_ok). apply sys_events_ok. cbn. by rewrite Hes.
Qed.

Definition before_reset : process port_log datagram_log := process_after (power_up ++ reset_by_picard).

Lemma before_reset_run :
  process_run sample_opts new_process (power_up ++ reset_by_picard) = Ok before_reset.
Proof. vm_compute. reflexivity. Qed.

Lemma before_reset_sys : pr_sys before_reset = Some (sys_of before_reset).
Proof. vm_compute. reflexivity. Qed.

Lemma shutdown_completes_witness :
  exists n x', process_run sample_opts before_reset
      ([PMain sample_sr; PMain sample_sr] ++ shutdown_rounds sample_sr n) = Ok x' /\
    pr_main x' = MHead /\
    exists x'', process_run sample_opts x' (replicate 4 (PMain sample_sr)) = Ok x'' /\
      pr_main x'' = MRun.
Proof.
  destruct (shutdown_completes sample_opts (power_up ++ reset_by_picard) before_reset
    (sys_of before_reset) sample_sr) as (n & x' & _ & Hr & Hm & _ & _ & Hnext);
    [reflexivity|apply process_events_ok; vm_compute; reflexivity|exact before_reset_run
    |vm_compute; reflexivity|exact before_reset_sys|vm_compute; reflexivity
    |vm_compute; discriminate|vm_compute; reflexivity|].
  destruct (Hnext (SerialDevice []) 100) as (x'' & Hx & Hrun & _); [vm_compute; reflexivity|reflexivity|reflexivity|].
  exists n, x'. split; [exact Hr|]. split; [exact Hm|]. by exists x''.
Defined.

(** [serial_mux_stop] right after power-up, before the command thread has run. *)
Definition early_stop : list (process_event port_log datagram_log) :=
  replicate 4 (PMain sample_sr) ++ [PStop false; PStop false; PMain sample_sr; PMain sample_sr].
Definition after_early_stop : list (process_event port_log datagram_log) :=
  PStop false :: concat (replicate 5 [PThread SysCommand; PThread SysQueueTimeout;
    PThread (SysListen false); PMain sample_sr; PStop false]).

(** The same after the listen thread has tested [m_connected]. *)
Definition stop_before_wait : list (process_event port_log datagram_log) :=
  replicate 4 (PMain sample_sr) ++
  [PThread SysCommand; PThread (SysListen false); PStop false; PStop false; PMain sample_sr; PMain sample_sr;
   PThread SysQueueTimeout; PThread SysCommand; PMain sample_sr].

Definition hung es : process port_log datagram_log :=
  match process_run sample_opts (process_after es) after_early_stop with
  | Ok x => x
  | Undefined _ => new_process
  end.

Lemma shutdown_hangs_witness :
  (pr_main (hung early_stop) = MJoinCommand /\ pr_stop (hung early_stop) <> SReturned) /\
  (pr_main (hung stop_before_wait) = MJoinListen /\ pr_stop (hung stop_before_wait) <> SReturned).
Proof.
  split.
  - destruct (shutdown_hangs sample_opts (process_after early_stop) (sys_of (process_after early_stop))
      after_early_stop (hung early_stop)) as [Hm Hs];
      [vm_compute; reflexivity|vm_compute; reflexivity|left; split; vm_compute; reflexivity
      |vm_compute; reflexivity|vm_compute; reflexivity|].
    split; [rewrite Hm; vm_compute; reflexivity|]. intros Hx. specialize (Hs Hx). vm_compute in Hs.
    discriminate Hs.
  - destruct (shutdown_hangs sample_opts (process_after stop_before_wait) (sys_of (process_after stop_before_wait))
      after_early_stop (hung stop_before_wait)) as [Hm Hs];
      [vm_compute; reflexivity|vm_compute; reflexivity
      |right; split_and!; vm_compute; (reflexivity || discriminate)
      |vm_compute; reflexivity|vm_compute; reflexivity|].
    split; [rewrite Hm; vm_compute; reflexivity|]. intros Hx. specialize (Hs Hx). vm_compute in Hs.
    discriminate Hs.
Defined.

(** [serial_mux_stop] between the test of [muxRunning] and the reset. *)
Lemma stop_lost_witness :
  exists x' y, process_run sample_opts (process_after [PMain sample_sr; PStop false])
      ([PStop false; PStop false] ++ replicate 3 (PMain sample_sr)) = Ok x' /\
    pr_main x' = MRun /\ pr_sys x' = Some y /\ x_stopped (y_parts y) = false /\
    muxRunning x' = false /\ pr_stop x' = SWaiting /\ main_step sample_opts sample_sr x' = x'.
Proof.
  refine (proj1 (stop_lost sample_opts (process_after [PMain sample_sr; PStop false]))
    sample_sr (SerialDevice []) 100 _ _ _ _ _ _); vm_compute; reflexivity.
Defined.

(** The connection of before the restart, and its late hello. *)
Definition restarted : process port_log datagram_log :=
  process_after (power_up ++ reset_by_picard ++ [PMain sample_sr; PMain sample_sr] ++
                 shutdown_rounds sample_sr 7 ++ replicate 4 (PMain sample_sr)).

Lemma stale_clients_witness :
  process_exec sample_opts restarted (PStale 0 (ClientData (serialize_message sample_hello)))
  = Undefined UseAfterFree.
Proof.
  set (cl := match pr_stale restarted with cl :: _ => cl | [] => create [] 0 end).
  destruct (stale_clients sample_opts restarted (sys_of restarted) 0 cl) as (Hw & _ & _);
    [vm_compute; reflexivity..|].
  apply Hw; try (vm_compute; reflexivity). by apply (bool_decide_unpack _).
Defined.
