(* ===== verification/NtService.v ===== *)
(** * The Windows service ([ext-tools/NTService/bitmask.h], [stdh.h],
    [nt_service.h], [nt_service.cpp] and the daemon branch of [main] in
    [serial_mux/serial_mux.cpp])

    [nt_service] keeps the status the service reports, the handlers registered for
    the controls and the mask of accepted controls, all static.  The service
    control manager calls [nt_service_main] on one thread and
    [service_control_handler] on another; the multiplexer runs [serial_mux_loop] in
    the former and [serial_mux_stop] in the latter.  The values of the Windows
    constants are a parameter; [SetServiceStatus] records what is reported. *)

From Stdlib Require Import ZArith Lia.
From stdpp Require Import base list gmap.
From S2P Require Import Prelude Hdlc BasePicard PicardLink BoostClient Options ClientManager SerialMux Main.
#[local] Open Scope Z_scope.

(** ** [bitmask] *)

Record bitmask := { m_flag : Z }.

Definition bitmask_add (b : bitmask) (flag : Z) : bitmask := {| m_flag := Z.lor (m_flag b) flag |}.
Definition bitmask_toggle (b : bitmask) (flag : Z) : bitmask := {| m_flag := Z.lxor (m_flag b) flag |}.
Definition to_dword (b : bitmask) : Z := u32 (m_flag b).
Definition contains (b : bitmask) (flag : Z) : bool := negb (Z.land flag (m_flag b) =? 0).

(** ** Controls, accept flags, states *)

Inductive service_control :=
  | CONTROL_STOP | CONTROL_PAUSE | CONTROL_CONTINUE | CONTROL_INTERROGATE | CONTROL_SHUTDOWN
  | CONTROL_PARAMCHANGE | CONTROL_NETBINDADD | CONTROL_NETBINDREMOVE | CONTROL_NETBINDENABLE
  | CONTROL_NETBINDDISABLE | CONTROL_DEVICEEVENT | CONTROL_HARDWAREPROFILECHANGE
  | CONTROL_POWEREVENT | CONTROL_SESSIONCHANGE
  | CONTROL_OTHER (code : Z).

#[export] Instance service_control_eq_dec : EqDecision service_control.
Proof. solve_decision. Defined.

Inductive service_accept :=
  | ACCEPT_STOP | ACCEPT_PAUSE_CONTINUE | ACCEPT_SHUTDOWN | ACCEPT_PARAMCHANGE
  | ACCEPT_NETBINDCHANGE | ACCEPT_HARDWAREPROFILECHANGE | ACCEPT_POWEREVENT
  | ACCEPT_SESSIONCHANGE.

#[export] Instance service_accept_eq_dec : EqDecision service_accept.
Proof. solve_decision. Defined.

(** [dwCurrentState]; the static member starts as zero. *)
Inductive service_state :=
  | STATE_ZERO | STATE_START_PENDING | STATE_RUNNING | STATE_PAUSED | STATE_STOPPED.

#[export] Instance service_state_eq_dec : EqDecision service_state.
Proof. solve_decision. Defined.

Record SERVICE_STATUS := {
  dwCurrentState : service_state;
  dwControlsAccepted : Z;
  dwWin32ExitCode : Z;
}.

Section nt_service.
Context {C : Type}.   (* the callback functions *)
Variable accept_bit : service_accept -> Z.   (* SERVICE_ACCEPT_... of the Windows headers *)

Record nt_service := {
  m_status : SERVICE_STATUS;
  m_handle : bool;                             (* whether it is set *)
  m_callback_map : list (service_control * C);
  m_accepted_controls : bitmask;
  sv_reported : list SERVICE_STATUS;           (* SetServiceStatus, in order *)
}.

Definition new_nt_service : nt_service :=
  {| m_status := {| dwCurrentState := STATE_ZERO; dwControlsAccepted := 0; dwWin32ExitCode := 0 |};
     m_handle := false; m_callback_map := []; m_accepted_controls := {| m_flag := 0 |};
     sv_reported := [] |}.

Definition with_status (st : service_state) (accepted code : Z) (s : nt_service) : nt_service :=
  {| m_status := {| dwCurrentState := st; dwControlsAccepted := accepted; dwWin32ExitCode := code |};
     m_handle := m_handle s; m_callback_map := m_callback_map s;
     m_accepted_controls := m_accepted_controls s; sv_reported := sv_reported s |}.
Definition with_handle (b : bool) (s : nt_service) : nt_service :=
  {| m_status := m_status s; m_handle := b; m_callback_map := m_callback_map s;
     m_accepted_controls := m_accepted_controls s; sv_reported := sv_reported s |}.

(** [SetServiceStatus(m_handle, &m_status)] *)
Definition SetServiceStatus (s : nt_service) : nt_service :=
  {| m_status := m_status s; m_handle := m_handle s; m_callback_map := m_callback_map s;
     m_accepted_controls := m_accepted_controls s;
     sv_reported := push_back (sv_reported s) (m_status s) |}.

Definition convert_control_to_accept (control : service_control) : Z :=
  match control with
  | CONTROL_STOP => accept_bit ACCEPT_STOP
  | CONTROL_PAUSE | CONTROL_CONTINUE => accept_bit ACCEPT_PAUSE_CONTINUE
  | CONTROL_SHUTDOWN => accept_bit ACCEPT_SHUTDOWN
  | CONTROL_PARAMCHANGE => accept_bit ACCEPT_PARAMCHANGE
  | CONTROL_NETBINDADD | CONTROL_NETBINDREMOVE | CONTROL_NETBINDENABLE
  | CONTROL_NETBINDDISABLE => accept_bit ACCEPT_NETBINDCHANGE
  | CONTROL_HARDWAREPROFILECHANGE => accept_bit ACCEPT_HARDWAREPROFILECHANGE
  | CONTROL_POWEREVENT => accept_bit ACCEPT_POWEREVENT
  | CONTROL_SESSIONCHANGE => accept_bit ACCEPT_SESSIONCHANGE
  | CONTROL_INTERROGATE | CONTROL_DEVICEEVENT | CONTROL_OTHER _ => 0
  end.

(** [m_callback_map[control]]: an assignment replaces the entry. *)
Fixpoint find_callback (control : service_control) (l : list (service_control * C)) : option C :=
  match l with
  | [] => None
  | (c, f) :: l => if decide (c = control) then Some f else find_callback control l
  end.
Definition set_callback (control : service_control) (f : C) (l : list (service_control * C)) :=
  (control, f) :: base.filter (fun cf => cf.1 <> control) l.

Definition accept_control (control : Z) (s : nt_service) : nt_service :=
  {| m_status := m_status s; m_handle := m_handle s; m_callback_map := m_callback_map s;
     m_accepted_controls := bitmask_add (m_accepted_controls s) control;
     sv_reported := sv_reported s |}.

Definition register_control_handler (control : service_control) (handler : option C)
  (s : nt_service) : nt_service :=
  match handler with
  | Some f =>
      accept_control (convert_control_to_accept control)
        {| m_status := m_status s; m_handle := m_handle s;
           m_callback_map := set_callback control f (m_callback_map s);
           m_accepted_controls := m_accepted_controls s; sv_reported := sv_reported s |}
  | None => s
  end.

(** [stop] *)
Definition service_stop (exit_code : Z) (s : nt_service) : nt_service :=
  if m_handle s
  then SetServiceStatus (with_status STATE_STOPPED (dwControlsAccepted (m_status s)) (u32 exit_code) s)
  else s.

(** [service_control_handler] once the callback has returned.  The case of
    [PAUSE] falls through to the default. *)
Definition state_after_control (control : service_control) : service_state :=
  match control with
  | CONTROL_STOP => STATE_STOPPED
  | CONTROL_SHUTDOWN => STATE_STOPPED
  | _ => STATE_RUNNING
  end.
Definition control_handler_end (control : service_control) (s : nt_service) : nt_service :=
  SetServiceStatus
    (with_status (state_after_control control) (dwControlsAccepted (m_status s)) 0 s).

(** [nt_service_main] up to its worker loop: whether the handler could be
    registered; what [m_service_init_fcn], if there is one, does. *)
Inductive init_result := NoInit | InitDone | InitThrows.

Definition nt_service_main_begin (registered : bool) (init : init_result) (s : nt_service)
  : nt_service * bool :=
  let s := with_status STATE_START_PENDING (to_dword (m_accepted_controls s))
             (dwWin32ExitCode (m_status s)) s in
  let s := with_handle registered s in
  if negb registered then (s, false)
  else
    match init with
    | InitThrows => (service_stop (-1) s, false)
    | _ =>
        (SetServiceStatus (with_status STATE_RUNNING (dwControlsAccepted (m_status s))
           (dwWin32ExitCode (m_status s)) s), true)
    end.
End nt_service.
Arguments nt_service : clear implicits.

(** ** The multiplexer as a service *)

(** The callbacks [main] registers are all [serial_mux_stop]. *)
Inductive service_callback := CallSerialMuxStop.

(** The service thread in [nt_service_main]: not called, at the test of the worker
    loop, in [serial_mux_start], returned. *)
Inductive worker_pc := WNotStarted | WHead | WInMain | WReturned.

#[export] Instance worker_pc_eq_dec : EqDecision worker_pc.
Proof. solve_decision. Defined.

Section service.
Context {A B : Type} `{SerialPort A} `{UdpSocket B} (opts : SerialMuxOptions).
Variable accept_bit : service_accept -> Z.

Record service := {
  sv_nt : nt_service service_callback;
  sv_process : process A B;
  sv_worker : worker_pc;
  sv_handler : option service_control;   (* the control whose callback is running *)
}.

(** The daemon branch of [main], up to [nts.start()]. *)
Definition main_service : service :=
  {| sv_nt := register_control_handler accept_bit CONTROL_SHUTDOWN (Some CallSerialMuxStop)
                (register_control_handler accept_bit CONTROL_STOP (Some CallSerialMuxStop)
                   new_nt_service);
     sv_process := new_process; sv_worker := WNotStarted; sv_handler := None |}.

Inductive service_event :=
  | SvStart (registered : bool)             (* nt_service_main is called *)
  | SvWorker                                (* its loop *)
  | SvControl (control : service_control)   (* service_control_handler is called *)
  | SvHandler                               (* its callback has returned *)
  | SvProcess (e : process_event A B).

(** Who runs what: the main loop only inside [serial_mux_start], and
    [serial_mux_stop] only inside a handler. *)
Definition process_enabled (v : service) (e : process_event A B) : bool :=
  match e with
  | PMain _ => bool_decide (sv_worker v = WInMain)
  | PStop _ => match sv_handler v with Some _ => true | None => false end
  | PThread _ | PStale _ _ => true
  end.

Definition service_exec (v : service) (e : service_event) : outcome service :=
  let step nt worker := {| sv_nt := nt; sv_process := sv_process v; sv_worker := worker;
                           sv_handler := sv_handler v |} in
  match e with
  | SvStart registered =>
      match sv_worker v with
      | WNotStarted =>
          let '(nt, proceed) := nt_service_main_begin registered NoInit (sv_nt v) in
          Ok (step nt (if proceed then WHead else WReturned))
      | _ => Ok v
      end
  | SvWorker =>
      match sv_worker v with
      | WHead =>
          if decide (dwCurrentState (m_status (sv_nt v)) = STATE_RUNNING)
          then Ok {| sv_nt := sv_nt v; sv_process := goto MHead (sv_process v);
                     sv_worker := WInMain; sv_handler := sv_handler v |}
          else Ok (step (sv_nt v) WReturned)
      | WInMain =>
          match pr_main (sv_process v) with
          | MDone => Ok (step (sv_nt v) WHead)
          | MThrown => Ok (step (service_stop (-1) (sv_nt v)) WHead)   (* catch(...) *)
          | _ => Ok v
          end
      | _ => Ok v
      end
  | SvControl control =>
      match sv_handler v with
      | Some _ => Ok v
      | None =>
          match find_callback control (m_callback_map (sv_nt v)) with
          | Some CallSerialMuxStop =>
              Ok {| sv_nt := sv_nt v; sv_process := with_stop SIdle (sv_process v);
                    sv_worker := sv_worker v; sv_handler := Some control |}
          | None => Ok (step (control_handler_end control (sv_nt v)) (sv_worker v))
          end
      end
  | SvHandler =>
      match sv_handler v with
      | Some control =>
          if decide (pr_stop (sv_process v) = SReturned)
          then Ok {| sv_nt := control_handler_end control (sv_nt v); sv_process := sv_process v;
                     sv_worker := sv_worker v; sv_handler := None |}
          else Ok v
      | None => Ok v
      end
  | SvProcess e =>
      if process_enabled v e then
        x ← process_exec opts (sv_process v) e;
        Ok {| sv_nt := sv_nt v; sv_process := x; sv_worker := sv_worker v;
              sv_handler := sv_handler v |}
      else Ok v
  end.

Definition service_run (v : service) (es : list service_event) : outcome service :=
  foldM service_exec v es.
End service.
Arguments service : clear implicits.
Arguments service_event : clear implicits.

(** ** Registered controls *)

Section registration.
Context {C : Type} (accept_bit : service_accept -> Z).

Definition register_all (cs : list (service_control * option C)) (s : nt_service C) : nt_service C :=
  foldl (fun s cf => register_control_handler accept_bit cf.1 cf.2 s) s cs.

Lemma find_set_callback c c' (f : C) l :
  find_callback c (set_callback c' f l) = if decide (c' = c) then Some f else find_callback c l.
Proof.
  unfold set_callback. cbn [find_callback]. case_decide as He; [done|].
  induction l as [|[c1 f1] l IH]; [done|]. rewrite filter_cons. cbn [fst find_callback].
  destruct (decide (c1 = c')) as [->|Hne].
  - rewrite decide_False by (by intros []). rewrite IH. by rewrite decide_False.
  - rewrite decide_True by done. cbn [find_callback]. by rewrite IH.
Qed.

(** A bit is accepted when it was, or when a control with it was given a handler. *)
Lemma register_all_bits cs s n :
  0 <= n ->
  Z.testbit (m_flag (m_accepted_controls (register_all cs s))) n
  = Z.testbit (m_flag (m_accepted_controls s)) n ||
    existsb (fun cf => match cf.2 with
                       | Some _ => Z.testbit (convert_control_to_accept accept_bit cf.1) n
                       | None => false end) cs.
Proof.
  intros Hn. unfold register_all. revert s. induction cs as [|[c [f|]] cs IH]; intros s.
  - by rewrite orb_false_r.
  - cbn [foldl existsb fst snd]. rewrite IH. cbn. by rewrite Z.lor_spec, orb_assoc.
  - cbn [foldl existsb fst snd]. by rewrite IH.
Qed.

(** The last handler registered for a control is the one called. *)
Lemma register_snoc cs c (f : C) s c' :
  find_callback c' (m_callback_map (register_all (cs ++ [(c, Some f)]) s))
  = if decide (c = c') then Some f else find_callback c' (m_callback_map (register_all cs s)).
Proof. unfold register_all. rewrite foldl_app. cbn. apply find_set_callback. Qed.
End registration.

Section runs.
Context {A B : Type} `{SerialPort A} `{UdpSocket B} (opts : SerialMuxOptions).
Implicit Types (v : service A B).

(** The components are gone, and the main loop is about to end. *)
Definition loop_over (x : process A B) : Prop :=
  pr_sys x = None /\ muxRunning x = false /\
  (pr_main x = MHead \/ pr_main x = MNotify \/ pr_main x = MDone).

Lemma loop_over_exec (x : process A B) e x' :
  loop_over x -> (forall b, e <> PStop b) -> process_exec opts x e = Ok x' -> loop_over x'.
Proof.
  intros Hx He. pose proof Hx as (Hy & Hr & Hm). destruct e as [sr|b|e|i e]; cbn [process_exec].
  - intros [= <-]. unfold loop_over, main_step. rewrite Hy, Hr.
    destruct Hm as [Hm|[Hm|Hm]]; rewrite Hm; cbn; [by auto| |by auto].
    case_decide; cbn; by auto.
  - by specialize (He b).
  - rewrite Hy. by intros [= <-].
  - destruct Hm as [Hm|[Hm|Hm]]; rewrite Hm; intros [= <-]; exact Hx.
Qed.

Lemma state_after_other control :
  control <> CONTROL_STOP -> control <> CONTROL_SHUTDOWN -> state_after_control control = STATE_RUNNING.
Proof. by destruct control. Qed.

(** Running the ended main loop over and over. *)
Definition spinning (nt : nt_service service_callback) v : Prop :=
  loop_over (sv_process v) /\ sv_handler v = None /\
  m_callback_map (sv_nt v) = m_callback_map nt /\
  dwCurrentState (m_status (sv_nt v)) = STATE_RUNNING /\
  (sv_worker v = WHead \/ sv_worker v = WInMain).

Lemma spinning_exec nt v e v' :
  (forall c, e = SvControl c -> find_callback c (m_callback_map nt) = None /\
     c <> CONTROL_STOP /\ c <> CONTROL_SHUTDOWN) ->
  spinning nt v -> service_exec opts v e = Ok v' -> spinning nt v'.
Proof.
  intros He Hv. pose proof Hv as (Hlo & Hh & Hm & Hst & Hw). destruct e as [registered| |c| |e].
  - cbn. destruct Hw as [Hw|Hw]; rewrite Hw; by intros [= <-].
  - cbn [service_exec]. destruct Hw as [Hw|Hw]; rewrite Hw.
    + rewrite decide_True by done. intros [= <-]. destruct Hlo as (? & ? & _).
      unfold spinning, loop_over. cbn. split_and!; auto.
    + destruct Hlo as (Hy & Hr & [Hp|[Hp|Hp]]); rewrite Hp; intros [= <-]; [exact Hv|exact Hv|].
      unfold spinning, loop_over. cbn. split_and!; auto.
  - destruct (He c eq_refl) as (Hc & Hc1 & Hc2). cbn [service_exec]. rewrite Hh, Hm, Hc. intros [= <-].
    unfold spinning. cbn. rewrite state_after_other by done. by split_and!.
  - cbn. rewrite Hh. by intros [= <-].
  - cbn [service_exec]. destruct (process_enabled v e) eqn:Hen; [|by intros [= <-]].
    intros Hx. apply bind_Ok_inv in Hx as (x & Hx & [= <-]). unfold spinning. cbn.
    split_and!; [|done..]. apply (loop_over_exec (sv_process v) e); [done| |done].
    intros b ->. cbn in Hen. by rewrite Hh in Hen.
Qed.

Lemma spinning_run nt es v v' :
  (forall c, SvControl c ∈ es -> find_callback c (m_callback_map nt) = None /\
     c <> CONTROL_STOP /\ c <> CONTROL_SHUTDOWN) ->
  spinning nt v -> foldM (service_exec opts) v es = Ok v' -> spinning nt v'.
Proof.
  intros Hes. revert v. induction es as [|e es IH]; intros v Hv; [by intros [= <-]|].
  cbn [foldM]. intros Hx. apply bind_Ok_inv in Hx as (v1 & H1 & Hx).
  apply (IH ltac:(intros c Hc; apply Hes; by right) v1); [|done].
  eapply spinning_exec; [|exact Hv|exact H1]. intros c ->. apply Hes. by left.
Qed.

(** A handler waiting in [serial_mux_stop] after the main loop was left by an
    exception. *)
Definition thrown control v : Prop :=
  sv_worker v = WReturned /\ sv_handler v = Some control /\ pr_stop (sv_process v) <> SReturned.

Lemma thrown_exec control v e v' :
  (forall e', e = SvProcess e' -> no_spurious_wake e' = true) ->
  thrown control v -> service_exec opts v e = Ok v' -> thrown control v'.
Proof.
  intros He Hv. pose proof Hv as (Hw & Hh & Hs). destruct e as [registered| |c| |e]; cbn [service_exec].
  - rewrite Hw. by intros [= <-].
  - rewrite Hw. by intros [= <-].
  - rewrite Hh. by intros [= <-].
  - rewrite Hh, decide_False by done. by intros [= <-].
  - destruct (process_enabled v e) eqn:Hen; [|by intros [= <-]].
    intros Hx. apply bind_Ok_inv in Hx as (x & Hx & [= <-]). split_and!; [done|done|]. cbn.
    specialize (He e eq_refl). destruct e as [sr|b|e|i e]; cbn [process_exec] in Hx.
    + cbn in Hen. by rewrite Hw in Hen.
    + destruct b; [done|]. unfold stop_step in Hx. destruct (pr_stop (sv_process v)) eqn:Hp; try done.
      * by injection Hx as <-.
      * apply bind_Ok_inv in Hx as (x1 & _ & [= <-]). done.
      * by injection Hx as <-.
      * injection Hx as <-. by rewrite Hp.
    + destruct (pr_sys (sv_process v)) as [y|]; [|by injection Hx as <-].
      destruct (thread_enabled _ _); [|by injection Hx as <-].
      by apply bind_Ok_inv in Hx as (y' & _ & [= <-]).
    + destruct (pr_main (sv_process v)), (pr_sys (sv_process v)), (pr_stale (sv_process v) !! i);
        try by injection Hx as <-.
      destruct (x_stopped _); [by injection Hx as <-|].
      by apply bind_Ok_inv in Hx as (cl & _ & [= <-]).
Qed.

Lemma thrown_run control es v v' :
  (forall e, SvProcess e ∈ es -> no_spurious_wake e = true) ->
  thrown control v -> service_run opts v es = Ok v' -> sv_handler v' = Some control.
Proof.
  intros Hes. revert v. unfold service_run.
  induction es as [|e es IH]; intros v Hv; [intros [= <-]; apply Hv|].
  cbn [foldM]. intros Hx. apply bind_Ok_inv in Hx as (v1 & H1 & Hx).
  apply (IH ltac:(intros e' He'; apply Hes; by right) v1); [|done].
  eapply thrown_exec; [|exact Hv|exact H1]. intros e' ->. apply Hes. by left.
Qed.
End runs.

(** ** Properties *)

Section properties.
Context {A B : Type} `{SerialPort A} `{UdpSocket B} (opts : SerialMuxOptions).
Implicit Types (v : service A B).

(** Every thread once: the one in [serial_mux_stop], the main loop, the worker
    loop, the control handler. *)
Definition service_round (sr : surroundings A B) : list (service_event A B) :=
  [SvProcess (PStop false); SvProcess (PMain sr); SvWorker; SvHandler].

(** C12: a stop control ends the service.  The control's handler waits in
    [serial_mux_stop]; once the components are gone, whether or not the main loop
    notified before the wait began, the worker loop runs [serial_mux_loop] again,
    which notifies again, so within eight rounds the handler returns, the
    service is reported stopped with exit code 0 and its thread has returned. *)
Theorem service_stops v sr control :
  sv_worker v = WInMain -> loop_over (sv_process v) ->
  dwCurrentState (m_status (sv_nt v)) = STATE_RUNNING ->
  control = CONTROL_STOP \/ control = CONTROL_SHUTDOWN -> sv_handler v = Some control ->
  pr_stop (sv_process v) = SBeforeWait \/ pr_stop (sv_process v) = SWaiting ->
  exists v', service_run opts v (concat (replicate 8 (service_round sr))) = Ok v' /\
    sv_worker v' = WReturned /\ sv_handler v' = None /\
    let stopped := {| dwCurrentState := STATE_STOPPED;
                      dwControlsAccepted := dwControlsAccepted (m_status (sv_nt v));
                      dwWin32ExitCode := 0 |} in
    m_status (sv_nt v') = stopped /\ sv_reported (sv_nt v') = sv_reported (sv_nt v) ++ [stopped].
Proof.
  destruct v as [[[state accepted code] handle cbs mask reported] [running pc sys st stale stop] worker handler].
  unfold loop_over. cbn. intros -> (-> & -> & Hm) -> Hc -> Hs. apply Ok_sat.
  destruct Hc as [-> | ->], Hm as [-> | [-> | ->]], Hs as [-> | ->]; by vm_compute.
Qed.

(** An interrogation undoes a stop.  Every control but [STOP] and [SHUTDOWN],
    [INTERROGATE] and [PAUSE] included, marks the service running.  If one arrives
    after the service was marked stopped and before its thread has looked, the
    thread runs the ended main loop again and again, and never returns unless the
    service is asked to stop once more. *)
Lemma interrogation_undoes_stop v control es v' :
  loop_over (sv_process v) -> sv_worker v = WHead -> sv_handler v = None ->
  dwCurrentState (m_status (sv_nt v)) = STATE_STOPPED ->
  find_callback control (m_callback_map (sv_nt v)) = None ->
  control <> CONTROL_STOP -> control <> CONTROL_SHUTDOWN ->
  (forall c, SvControl c ∈ es -> find_callback c (m_callback_map (sv_nt v)) = None /\
     c <> CONTROL_STOP /\ c <> CONTROL_SHUTDOWN) ->
  service_run opts v (SvControl control :: es) = Ok v' ->
  dwCurrentState (m_status (sv_nt v')) = STATE_RUNNING /\ sv_worker v' <> WReturned /\
  pr_sys (sv_process v') = None.
Proof.
  intros Hlo Hw Hh Hst Hcb Hc1 Hc2 Hes Hrun. unfold service_run in Hrun. cbn [foldM service_exec] in Hrun.
  rewrite Hh, Hcb, Hw in Hrun. rewrite bind_Ok in Hrun.
  match type of Hrun with foldM _ ?u _ = _ => assert (Hu : spinning (sv_nt v) u) end.
  { unfold spinning. cbn. rewrite state_after_other by done. split_and!; [done|done|done|done|by left]. }
  destruct (spinning_run opts (sv_nt v) es _ v' Hes Hu Hrun) as ((? & _) & _ & _ & ? & [-> | ->]); done.
Qed.

(** An exception that leaves [serial_mux_loop], as when the listener's port is
    taken, stops the service with exit code 0xFFFFFFFF.  It leaves the global
    pointers as they were, and a stop control after it never completes: nobody
    notifies the caller of [serial_mux_stop]. *)
Lemma service_main_throws v sr :
  sv_worker v = WInMain -> pr_main (sv_process v) = MListen -> is_Some (pr_sys (sv_process v)) ->
  sr_bind sr = false -> m_handle (sv_nt v) = true ->
  exists v', service_run opts v [SvProcess (PMain sr); SvWorker; SvWorker] = Ok v' /\
    sv_worker v' = WReturned /\ pr_sys (sv_process v') = pr_sys (sv_process v) /\
    dwCurrentState (m_status (sv_nt v')) = STATE_STOPPED /\
    dwWin32ExitCode (m_status (sv_nt v')) = 0xFFFFFFFF /\
    forall control es v'', sv_handler v' = Some control -> pr_stop (sv_process v') <> SReturned ->
      (forall e, SvProcess e ∈ es -> no_spurious_wake e = true) ->
      service_run opts v' es = Ok v'' -> sv_handler v'' = Some control.
Proof.
  destruct v as [[status handle cbs mask reported] [running pc sys st stale stop] worker handler].
  destruct sr as [port socket bind]. cbn. intros -> -> [y ->] -> ->. eexists. split; [reflexivity|].
  cbn. split_and!; [done..|]. intros control es v'' Hc Hs Hes Hrun.
  refine (thrown_run opts control es _ v'' Hes _ Hrun). by split_and!.
Qed.
End properties.

(** ** Witnesses *)

(** The bits of the Windows headers. *)
Definition winsvc_bits (a : service_accept) : Z :=
  match a with
  | ACCEPT_STOP => 1 | ACCEPT_PAUSE_CONTINUE => 2 | ACCEPT_SHUTDOWN => 4 | ACCEPT_PARAMCHANGE => 8
  | ACCEPT_NETBINDCHANGE => 16 | ACCEPT_HARDWAREPROFILECHANGE => 32 | ACCEPT_POWEREVENT => 64
  | ACCEPT_SESSIONCHANGE => 128
  end.

Example accepted_by_the_mux :
  to_dword (m_accepted_controls (sv_nt (main_service (A := port_log) (B := datagram_log) winsvc_bits))) = 5.
Proof. reflexivity. Qed.

Definition service_after (es : list (service_event port_log datagram_log)) : service port_log datagram_log :=
  match service_run sample_opts (main_service winsvc_bits) es with
  | Ok v => v | Undefined _ => main_service winsvc_bits
  end.

(** The service comes up, is told to stop, and takes its components down. *)
Definition service_up : list (service_event port_log datagram_log) :=
  [SvStart true; SvWorker] ++ (SvProcess <$> power_up).
Definition service_down : list (service_event port_log datagram_log) :=
  [SvControl CONTROL_STOP; SvProcess (PStop false); SvProcess (PStop false)] ++
  (SvProcess <$> ([PMain sample_sr; PMain sample_sr] ++ shutdown_rounds sample_sr 7)).

Definition going_down : service port_log datagram_log := service_after (service_up ++ service_down).

Lemma going_down_run :
  service_run sample_opts (main_service winsvc_bits) (service_up ++ service_down) = Ok going_down.
Proof. vm_compute. reflexivity. Qed.

Lemma going_down_over : loop_over (sv_process going_down).
Proof. split_and!; [vm_compute; reflexivity..|left; vm_compute; reflexivity]. Qed.

Lemma service_stops_witness :
  exists v', service_run sample_opts going_down (concat (replicate 8 (service_round sample_sr))) = Ok v' /\
    sv_worker v' = WReturned /\ dwCurrentState (m_status (sv_nt v')) = STATE_STOPPED.
Proof.
  destruct (service_stops sample_opts going_down sample_sr CONTROL_STOP) as (v' & Hr & Hw & _ & Hs & _);
    [vm_compute; reflexivity|exact going_down_over|vm_compute; reflexivity|by left
    |vm_compute; reflexivity|left; vm_compute; reflexivity|].
  exists v'. split; [exact Hr|]. split; [exact Hw|]. by rewrite Hs.
Defined.

(** The handler has marked the service stopped, the worker has not looked. *)
Definition marked_stopped : service port_log datagram_log :=
  service_after (service_up ++ service_down ++
    (SvProcess <$> [PStop false; PMain sample_sr; PMain sample_sr]) ++ [SvWorker; SvHandler]).

Lemma no_controls (es : list (service_event port_log datagram_log)) c :
  forallb (fun e => match e with SvControl _ => false | _ => true end) es = true -> SvControl c ∉ es.
Proof. rewrite forallb_forall. intros Hes Hin. by apply list_elem_of_In, Hes in Hin. Qed.

Lemma interrogation_undoes_stop_witness :
  exists v', service_run sample_opts marked_stopped
      (SvControl CONTROL_INTERROGATE :: concat (replicate 9 (service_round sample_sr))) = Ok v' /\
    dwCurrentState (m_status (sv_nt v')) = STATE_RUNNING /\ sv_worker v' <> WReturned.
Proof.
  set (es := concat (replicate 9 (service_round sample_sr))).
  set (v' := match service_run sample_opts marked_stopped (SvControl CONTROL_INTERROGATE :: es) with
             | Ok v => v | Undefined _ => marked_stopped end).
  assert (Hr : service_run sample_opts marked_stopped (SvControl CONTROL_INTERROGATE :: es) = Ok v')
    by (vm_compute; reflexivity).
  exists v'. split; [exact Hr|].
  destruct (interrogation_undoes_stop sample_opts marked_stopped CONTROL_INTERROGATE es v')
    as (Hs & Hw & _); [..|by split].
  - split_and!; [vm_compute; reflexivity..|right; right; vm_compute; reflexivity].
  - vm_compute; reflexivity.
  - vm_compute; reflexivity.
  - vm_compute; reflexivity.
  - vm_compute; reflexivity.
  - done.
  - done.
  - intros c Hc. exfalso.
    assert (Hf : forallb (fun e => match e with SvControl _ => false | _ => true end) es = true)
      by (vm_compute; reflexivity).
    exact (no_controls es c Hf Hc).
  - exact Hr.
Defined.

(** The listener's port is taken. *)
Definition port_taken : surroundings port_log datagram_log := 
  {| sr_serial := Some ([], 100); sr_socket := None; sr_bind := false |}.
Definition about_to_listen : service port_log datagram_log :=
  service_after ([SvStart true; SvWorker] ++ (SvProcess <$> replicate 3 (PMain port_taken))).

Lemma service_main_throws_witness :
  exists v', service_run sample_opts about_to_listen [SvProcess (PMain port_taken); SvWorker; SvWorker]
      = Ok v' /\ dwCurrentState (m_status (sv_nt v')) = STATE_STOPPED.
Proof.
  destruct (service_main_throws sample_opts about_to_listen port_taken) as (v' & Hr & _ & _ & Hs & _);
    [vm_compute; reflexivity..| |reflexivity|vm_compute; reflexivity|].
  - apply (bool_decide_unpack _). vm_compute. reflexivity.
  - by exists v'.
Defined.
