(* ===== verification/ServiceDemo.v ===== *)
(** * The demonstration service ([ext-tools/NTService/main.cpp])

    A program around [nt_service] that counts in a log file every five seconds
    until it is told to stop.  It is also where the rest of the framework's
    interface is used: [instance], [register_service_main],
    [register_init_function] and [start].  The log file opens or not at every
    attempt; its streams do not throw, so the [catch] clauses of the program are
    unreachable.  The counter is an [int] that is counted up at most once every
    five seconds; its overflow, after some 340 years, is left out. *)

From Stdlib Require Import ZArith Lia.
From stdpp Require Import base list strings pretty.
From S2P Require Import Prelude NtService.
#[local] Open Scope Z_scope.

(** ** The framework's registrations *)

Section framework.
Context {C Main Init : Type}.

Record framework := {
  m_name : option string;
  m_user_service_main : option Main;
  m_service_init_fcn : option Init;
  fw_service : nt_service C;
}.

Definition new_framework : framework :=
  {| m_name := None; m_user_service_main := None; m_service_init_fcn := None;
     fw_service := new_nt_service |}.

(** [instance], without the log stream *)
Definition instance (name : string) (f : framework) : framework :=
  {| m_name := Some name; m_user_service_main := m_user_service_main f;
     m_service_init_fcn := m_service_init_fcn f; fw_service := fw_service f |}.
Definition register_service_main (service_main : Main) (f : framework) : framework :=
  {| m_name := m_name f; m_user_service_main := Some service_main;
     m_service_init_fcn := m_service_init_fcn f; fw_service := fw_service f |}.
Definition register_init_function (init : Init) (f : framework) : framework :=
  {| m_name := m_name f; m_user_service_main := m_user_service_main f;
     m_service_init_fcn := Some init; fw_service := fw_service f |}.
Definition with_service (s : nt_service C) (f : framework) : framework :=
  {| m_name := m_name f; m_user_service_main := m_user_service_main f;
     m_service_init_fcn := m_service_init_fcn f; fw_service := s |}.

(** [start]: the table given to the dispatcher, with its terminating entry; the
    procedure is [nt_service_main]. *)
Inductive service_proc := NtServiceMain.

Definition start (f : framework) : list (option string * option service_proc) :=
  [(m_name f, Some NtServiceMain); (None, None)].

(** The entries the dispatcher looks at. *)
Fixpoint table_entries (table : list (option string * option service_proc)) : list (string * service_proc) :=
  match table with
  | (Some name, Some proc) :: table => (name, proc) :: table_entries table
  | _ => []
  end.
End framework.
Arguments framework : clear implicits.

(** ** The program *)

Inductive demo_callback := MyShutdown.
Inductive demo_main := MyServiceMain.
Inductive demo_init := MyInit.

#[local] Abbreviation demo_framework := (framework demo_callback demo_main demo_init).

Section demo.
Variable accept_bit : service_accept -> Z.

(** [wmain], up to [service.start()] *)
Definition wmain : demo_framework :=
  let f := instance "test_service" new_framework in
  let f := register_service_main MyServiceMain f in
  let f := register_init_function MyInit f in
  let f := with_service (accept_control (accept_bit ACCEPT_STOP) (fw_service f)) f in
  with_service (register_control_handler accept_bit CONTROL_SHUTDOWN (Some MyShutdown) (fw_service f)) f.

(** The service thread: not called, at the test of its loop, in the [Sleep] of
    [my_service_main], returned. *)
Inductive demo_pc := DNotStarted | DHead | DSleep | DReturned.

Record demo := {
  d_framework : demo_framework;
  d_pc : demo_pc;
  d_count : Z;              (* the static i of my_service_main *)
  d_file : list string;     (* what has been appended to the log file *)
  d_beeps : nat;
}.

Definition new_demo : demo :=
  {| d_framework := wmain; d_pc := DNotStarted; d_count := 0; d_file := []; d_beeps := 0 |}.

Definition d_nt (d : demo) : nt_service demo_callback := fw_service (d_framework d).
Definition d_state (d : demo) : service_state := dwCurrentState (m_status (d_nt d)).

Definition with_nt (s : nt_service demo_callback) (pc : demo_pc) (d : demo) : demo :=
  {| d_framework := with_service s (d_framework d); d_pc := pc; d_count := d_count d;
     d_file := d_file d; d_beeps := d_beeps d |}.

Definition count_line (i : Z) : string := "Service main: counting: [" +:+ pretty i +:+ "]".
Definition init_line : string := "Service Initializing...".

(** [my_service_main] up to its [Sleep], [my_init_fcn] and [my_shutdown_fcn]. *)
Definition my_service_main (opens : bool) (d : demo) : demo :=
  if opens
  then {| d_framework := d_framework d; d_pc := d_pc d; d_count := d_count d + 1;
          d_file := push_back (d_file d) (count_line (d_count d + 1)); d_beeps := d_beeps d |}
  else d.
Definition my_init_fcn (opens : bool) (d : demo) : demo :=
  if opens
  then {| d_framework := d_framework d; d_pc := d_pc d; d_count := d_count d;
          d_file := push_back (d_file d) init_line; d_beeps := d_beeps d |}
  else d.
Definition my_shutdown_fcn (d : demo) : demo :=
  {| d_framework := d_framework d; d_pc := d_pc d; d_count := d_count d; d_file := d_file d;
     d_beeps := S (d_beeps d) |}.

Definition call_main (main : demo_main) : bool -> demo -> demo :=
  match main with MyServiceMain => my_service_main end.
Definition call_init (init : demo_init) : bool -> demo -> demo :=
  match init with MyInit => my_init_fcn end.
Definition call_handler (callback : demo_callback) : demo -> demo :=
  match callback with MyShutdown => my_shutdown_fcn end.

Inductive demo_event :=
  | DStart (registered opens : bool)       (* the dispatcher calls nt_service_main *)
  | DWorker (opens : bool)                 (* the service thread goes on *)
  | DControl (control : service_control).  (* service_control_handler is called *)

Definition demo_exec (d : demo) (e : demo_event) : outcome demo :=
  match e with
  | DStart registered opens =>
      match d_pc d, table_entries (start (d_framework d)) with
      | DNotStarted, (_, NtServiceMain) :: _ =>
          let init := m_service_init_fcn (d_framework d) in
          let '(nt, proceed) :=
            nt_service_main_begin registered (match init with Some _ => InitDone | None => NoInit end) (d_nt d) in
          let d := with_nt nt (if proceed then DHead else DReturned) d in
          Ok (match init with
              | Some init => if proceed then call_init init opens d else d
              | None => d
              end)
      | _, _ => Ok d
      end
  | DWorker opens =>
      match d_pc d with
      | DHead =>
          if decide (d_state d = STATE_RUNNING) then
            match m_user_service_main (d_framework d) with
            | Some main => Ok (call_main main opens (with_nt (d_nt d) DSleep d))
            | None => Undefined NullDeref
            end
          else Ok (with_nt (d_nt d) DReturned d)
      | DSleep => Ok (with_nt (d_nt d) DHead d)
      | _ => Ok d
      end
  | DControl control =>
      let d := match find_callback control (m_callback_map (d_nt d)) with
               | Some callback => call_handler callback d | None => d end in
      Ok (with_nt (control_handler_end control (d_nt d)) (d_pc d) d)
  end.

Definition demo_run (d : demo) (es : list demo_event) : outcome demo := foldM demo_exec d es.

(** ** The log and the controls *)

(** The framework stays as [wmain] has set it up, but for its status; the log is an
    optional first line and the numbers from one. *)
Record demo_inv (d : demo) : Prop := {
  di_main : m_user_service_main (d_framework d) = Some MyServiceMain;
  di_init : m_service_init_fcn (d_framework d) = Some MyInit;
  di_map : m_callback_map (d_nt d) = [(CONTROL_SHUTDOWN, MyShutdown)];
  di_mask : m_accepted_controls (d_nt d) = m_accepted_controls (fw_service wmain);
  di_fresh : d_pc d = DNotStarted -> d_file d = [];
  di_count : exists n, d_count d = Z.of_nat n /\
    exists first, (first = [] \/ first = [init_line]) /\
      d_file d = first ++ ((fun i => count_line (Z.of_nat i)) <$> seq 1 n);
}.

Lemma new_demo_inv : demo_inv new_demo.
Proof. split; try done. exists 0%nat. split; [done|]. exists []. split; [by left|done]. Qed.

Lemma with_nt_inv s pc d :
  m_callback_map s = m_callback_map (d_nt d) -> m_accepted_controls s = m_accepted_controls (d_nt d) ->
  (pc = DNotStarted -> d_pc d = DNotStarted) -> demo_inv d -> demo_inv (with_nt s pc d).
Proof. intros Hm Ha Hpc [? ? ? ? ? ?]. split; cbn; auto; etrans; eauto. Qed.

Lemma my_service_main_inv opens d :
  d_pc d <> DNotStarted -> demo_inv d -> demo_inv (my_service_main opens d).
Proof.
  intros Hpc Hi. destruct opens; [|exact Hi]. destruct Hi as [? ? ? ? ? (n & Hn & first & Hf & Hd)].
  split; try done. exists (S n). split; [cbn; lia|]. exists first. split; [done|].
  rewrite seq_S, fmap_app, (assoc_L (++)), <- Hd. cbn [my_service_main d_file].
  unfold push_back. rewrite Hn. cbn [fmap list_fmap]. do 3 f_equal. lia.
Qed.

Lemma demo_exec_inv d e d' : demo_inv d -> demo_exec d e = Ok d' -> demo_inv d'.
Proof.
  intros Hi. destruct e as [registered opens|opens|control]; cbn [demo_exec].
  - destruct (d_pc d) eqn:Hpc; try by intros [= <-].
    destruct (table_entries _) as [|[name []] tl]; [by intros [= <-]|].
    rewrite (di_init _ Hi). destruct registered.
    + cbn. intros [= <-]. destruct opens.
      * destruct Hi as [? ? ? ? Hfr (n & Hn & first & Hf & Hd)]. split; try done.
        exists 0%nat. cbn. rewrite (Hfr Hpc) in *. destruct n as [|n].
        -- split; [done|]. exists [init_line]. by split; [right|].
        -- exfalso. by destruct first.
      * by apply with_nt_inv.
    + cbn. intros [= <-]. by apply with_nt_inv.
  - destruct (d_pc d) eqn:Hpc; try by intros [= <-].
    + destruct (decide _); [|intros [= <-]; by apply with_nt_inv].
      rewrite (di_main _ Hi). intros [= <-]. apply my_service_main_inv; [done|]. by apply with_nt_inv.
    + intros [= <-]. by apply with_nt_inv.
  - rewrite (di_map _ Hi). cbn [find_callback]. intros [= <-].
    destruct (decide _); (apply with_nt_inv; [done..|]); [|done].
    destruct Hi. by split.
Qed.

Lemma demo_run_inv es d d' : demo_inv d -> demo_run d es = Ok d' -> demo_inv d'.
Proof.
  revert d. induction es as [|e es IH]; intros d Hi; [by intros [= <-]|].
  unfold demo_run. cbn [foldM]. intros Hx. apply bind_Ok_inv in Hx as (d1 & H1 & Hx).
  eapply IH; [|exact Hx]. by eapply demo_exec_inv.
Qed.

(** The service accepts [STOP] and [SHUTDOWN]. *)
Lemma demo_accepts : m_flag (m_accepted_controls (fw_service wmain))
  = Z.lor (accept_bit ACCEPT_STOP) (accept_bit ACCEPT_SHUTDOWN).
Proof. reflexivity. Qed.

(** A [STOP], which has no handler, and a [SHUTDOWN], which beeps, are reported as a
    stop with exit code 0 at once; the thread finishes its five seconds, writes
    nothing more and returns. *)
Lemma demo_stops es d control opens1 opens2 :
  demo_run new_demo es = Ok d -> d_pc d = DHead \/ d_pc d = DSleep ->
  control = CONTROL_STOP \/ control = CONTROL_SHUTDOWN ->
  exists d', demo_run d [DControl control; DWorker opens1; DWorker opens2] = Ok d' /\
    d_pc d' = DReturned /\ d_state d' = STATE_STOPPED /\ dwWin32ExitCode (m_status (d_nt d')) = 0 /\
    d_file d' = d_file d /\
    d_beeps d' = (if decide (control = CONTROL_SHUTDOWN) then S (d_beeps d) else d_beeps d).
Proof.
  intros Hrun Hpc Hc. pose proof (di_map _ (demo_run_inv _ _ _ new_demo_inv Hrun)) as Hm.
  destruct d as [[name main init nt] pc count file beeps]. cbn in Hpc, Hm. unfold d_nt in Hm. cbn in Hm.
  apply Ok_sat. unfold demo_run. cbn. unfold d_nt. cbn. rewrite Hm.
  destruct Hpc as [-> | ->], Hc as [-> | ->]; by vm_compute.
Qed.
End demo.

(** The service for ten seconds. *)
Example demo_output :
  match demo_run (new_demo winsvc_bits)
    [DStart true true; DWorker true; DWorker true; DWorker true; DControl CONTROL_SHUTDOWN;
     DWorker true; DWorker true] with
  | Ok d => (d_pc d, d_file d, d_beeps d, dwControlsAccepted (m_status (d_nt d)))
  | Undefined _ => (DNotStarted, [], O, 0)
  end
  = (DReturned, [init_line; "Service main: counting: [1]"; "Service main: counting: [2]"], 1%nat, 5).
Proof. vm_compute. reflexivity. Qed.
