(* ===== verification/SocketErrors.v ===== *)
(** * Connections that break ([BoostClient.cpp], [BoostClientListener.cpp],
    [BoostClientManager.cpp], [serial_mux.cpp])

    [shutdown] and [remote_endpoint] throw when the peer has reset the connection
    and the program calls them without an error code.  [BoostClient],
    [ClientManager] and [Main] leave these exceptions out; here the operations that
    can throw are modelled with them, given which connections are broken, compared
    with those, and followed to where they are caught: in [serial_mux_stop] and in
    the Picard thread, or nowhere.

    A connection that is broken stays so; the handler of its outstanding read has
    not run yet, so its client may still be registered. *)

From Stdlib Require Import ZArith Lia.
From stdpp Require Import base list gmap strings.
From S2P Require Import Prelude Hdlc Common Subscriber SyncQueue MuxMessage BasePicard PicardLink.
From S2P Require Import SerialRead BoostClient Options ClientManager ManagerSpec SerialMux Main.
Import Receiver Encoder Delivery.
#[local] Open Scope Z_scope.

(** ** Exceptions *)

(** A call with an effect: it returns, or an exception leaves it with the effects
    so far. *)
Inductive attempt (S : Type) := Done (s : S) | Thrown (s : S).
Arguments Done {S} s. Arguments Thrown {S} s.

(** [remoteName]: the name and, in the same variable, [m_name]; [endpoint] is what
    [remote_endpoint] gives, none if it throws. *)
Definition remoteName (endpoint : option (string * string)) (m_name : string) : option string :=
  match m_name with
  | EmptyString => '(address, port) ← endpoint; Some (address +:+ ":" +:+ port)
  | _ => Some m_name
  end.

(** Only the first call, that of [start], can throw: afterwards the name is kept,
    whatever becomes of the connection. *)
Lemma remoteName_kept endpoint endpoint' name :
  remoteName endpoint "" = Some name -> remoteName endpoint' name = Some name.
Proof.
  destruct endpoint as [[address port]|]; [|done]. cbn. intros [= <-]. by destruct address.
Qed.

Section broken.
(** The connections of which [getpeername] and [shutdown] fail. *)
Variable broken : nat -> bool.

(** ** A client *)

(** [CBoostClient::close]: cancel the timer; [shutdown] of an open socket throws
    if the connection is broken, before [m_socket.close] and the new state. *)
Definition try_close (client : nat) (cl : CBoostClient) : attempt CBoostClient :=
  let c := m_core cl in
  let c := set_state_timer (m_initState c) (timer_cancel (m_authTimeout c)) (m_open c) c in
  if m_open c && broken client then Thrown (set_core c cl)
  else Done (set_core (set_state_timer CLOSED (m_authTimeout c) false c) cl).

(** [start]: the log line asks for [remoteName] first, with an empty [m_name]. *)
Definition try_start (client : nat) (cl : CBoostClient) : attempt CBoostClient :=
  if broken client then Thrown cl else Done (client_start cl).

(** [handleAuthTimeout] *)
Definition try_handleAuthTimeout (client : nat) (error : bool) (cl : CBoostClient) : attempt CBoostClient :=
  let c := m_core cl in
  let c := set_state_timer (m_initState c) TimerIdle (m_open c) c in
  if error then Done (set_core c cl)
  else try_close client (set_core (set_state_timer BAD_INIT TimerIdle (m_open c) c) cl).

(** ** The manager *)

Fixpoint try_close_all (l : list nat) (g : CBoostClientManager) : outcome (attempt CBoostClientManager) :=
  match l with
  | [] => Ok (Done g)
  | client :: l =>
      cl ← deref g client;
      match try_close client cl with
      | Done cl => try_close_all l (store client cl g)
      | Thrown cl => Ok (Thrown (store client cl g))
      end
  end.

(** [closeClients]: the exception releases [m_lock] and skips [m_clients.clear()]. *)
Definition try_closeClients (g : CBoostClientManager) : outcome (attempt CBoostClientManager) :=
  r ← try_close_all (m_clients g) g;
  Ok (match r with Done g => Done (set_clients [] g) | Thrown g => Thrown g end).

(** ** The multiplexer *)

Section system.
Context {P : Type} `{PicardDevice P}.

(** [resetConnection]: the connection, the clients, the listener, [io_service]. *)
Definition try_resetConnection (y : system P) : outcome (attempt (system P)) :=
  let io := picard_stop (picard_reset (y_io y)) in
  r ← try_closeClients (y_mgr y);
  Ok (match r with
      | Done g =>
          Done (with_parts io {| x_mgr := g; x_listener := listener_stop (x_listener (y_parts y));
                                 x_stopped := true |} y)
      | Thrown g => Thrown (with_parts io (set_mgr g (y_parts y)) y)
      end).

(** The Picard thread in [resetConnection] called from [frameComplete]: the serial
    read catches, logs and calls [resetConnection] once more, and [threadMain]
    catches what leaves that; the UDP read catches and goes on.  The thread lives
    until its loop sees [m_isRunning]. *)
Definition picard_thread_reset (y : system P) : outcome (system P) :=
  r ← try_resetConnection y;
  match r with
  | Done y => Ok y
  | Thrown y =>
      if device_udp (s_port (y_env y)) then Ok y
      else r ← try_resetConnection y; Ok (match r with Done y | Thrown y => y end)
  end.
End system.

(** The steps of the process that can end in an exception of a socket. *)
Section process.
Context {A B : Type} `{SerialPort A} `{UdpSocket B} (opts : SerialMuxOptions).

(** [handleAccept]: [start] of the new connection, then [asyncListen].  An exception
    of [start] leaves [io_service.run()] and [serial_mux_loop]: the connection is
    dropped and nothing listens. *)
Definition try_accept (client : nat) (x : process A B) : outcome (process A B) :=
  match pr_sys x with
  | Some y =>
      match pr_main x, x_stopped (y_parts y), m_pending (x_listener (y_parts y)),
            m_heap (y_mgr y) !! client with
      | MRun, false, Some (token, version), None =>
          match try_start client (create token version) with
          | Done cl =>
              let m := set_listener (asyncListen (x_listener (y_parts y)))
                         (set_mgr (store client cl (y_mgr y)) (y_parts y)) in
              Ok (with_sys (Some (with_parts (y_io y) m y)) x)
          | Thrown _ =>
              let l := set_acceptor (m_acceptor (x_listener (y_parts y))) None
                         (x_listener (y_parts y)) in
              Ok (goto MThrown (with_sys (Some (with_parts (y_io y)
                   (set_listener l (y_parts y)) y)) x))
          end
      | _, _, _, _ => Ok x
      end
  | None => Ok x
  end.

(** [serial_mux_stop] about to reset: it catches, logs and goes on to wait. *)
Definition try_stop (x : process A B) : outcome (process A B) :=
  match pr_stop x, pr_main x, pr_sys x with
  | SFlagged, MRun, Some y =>
      r ← try_resetConnection y;
      Ok (with_stop SBeforeWait (with_sys (Some (match r with Done y | Thrown y => y end)) x))
  | _, _, _ => stop_step false x
  end.
End process.
End broken.

(** ** Facts *)

Section facts.
Variable broken : nat -> bool.
Implicit Types (g : CBoostClientManager) (l : list nat).

(** [close] on the client returns. *)
Definition closable (h : gmap nat CBoostClient) (client : nat) : Prop :=
  exists cl, h !! client = Some cl /\ m_open (m_core cl) && broken client = false.

(** What an exception in [close] leaves of the client. *)
Definition cancelled (cl : CBoostClient) : CBoostClient :=
  let c := m_core cl in
  set_core (set_state_timer (m_initState c) (timer_cancel (m_authTimeout c)) (m_open c) c) cl.

Lemma cancelled_twice cl : cancelled (cancelled cl) = cancelled cl.
Proof. by destruct cl as [[? ? ? [] ? ? ?] ? ?]. Qed.

Lemma try_close_Done client cl :
  m_open (m_core cl) && broken client = false -> try_close broken client cl = Done (client_close cl).
Proof. intros Ho. unfold try_close. cbn [m_open set_state_timer]. rewrite Ho. reflexivity. Qed.

Lemma try_close_Thrown client cl :
  m_open (m_core cl) = true -> broken client = true ->
  try_close broken client cl = Thrown (cancelled cl).
Proof. intros Ho Hb. unfold try_close, cancelled. cbn [m_open set_state_timer]. by rewrite Ho, Hb. Qed.

(** An authentication timeout: it throws before the state says so. *)
Lemma try_handleAuthTimeout_eq client error cl :
  try_handleAuthTimeout broken client error cl
  = if negb error && (m_open (m_core cl) && broken client)
    then Thrown (set_core (set_state_timer BAD_INIT TimerIdle true (m_core cl)) cl)
    else Done (handleAuthTimeout error cl).
Proof.
  unfold try_handleAuthTimeout, handleAuthTimeout. destruct error; [done|]. unfold try_close. cbn.
  by destruct (m_open (m_core cl)), (broken client).
Qed.

Lemma store_alter f g client cl :
  m_heap g !! client = Some cl -> store client (f cl) g = set_heap (alter f client (m_heap g)) g.
Proof.
  intros Hcl. enough (Hu : Ok (store client (f cl) g) = Ok (set_heap (alter f client (m_heap g)) g))
    by congruence.
  rewrite <- update_client_Ok by done. unfold update_client, deref. by rewrite Hcl.
Qed.

Lemma closable_alter f h client c :
  (forall cl, m_open (m_core (f cl)) = true -> m_open (m_core cl) = true) ->
  closable h c -> closable (alter f client h) c.
Proof.
  intros Hf (cl & Hcl & Ho). destruct (decide (client = c)) as [->|Hne].
  - exists (f cl). rewrite lookup_alter_eq, Hcl. split; [done|].
    specialize (Hf cl). destruct (m_open (m_core (f cl))); [by rewrite Hf in Ho by done|done].
  - exists cl. by rewrite lookup_alter_ne.
Qed.

(** The closable clients in front are closed. *)
Lemma try_close_all_app l1 l2 g :
  Forall (closable (m_heap g)) l1 ->
  try_close_all broken (l1 ++ l2) g
  = try_close_all broken l2 (set_heap (alter_all client_close l1 (m_heap g)) g).
Proof.
  revert g. induction l1 as [|c l1 IH]; intros g Hl; [by destruct g|].
  apply Forall_cons in Hl as [(cl & Hcl & Ho) Hl]. cbn [app try_close_all].
  unfold deref at 1. rewrite Hcl. step_bind. rewrite try_close_Done by done.
  rewrite (store_alter client_close) by done. rewrite IH; [done|].
  eapply Forall_impl; [exact Hl|]. intros c'. cbn. by apply closable_alter.
Qed.

Lemma try_closeClients_Done g :
  Forall (closable (m_heap g)) (m_clients g) ->
  try_closeClients broken g
  = Ok (Done (set_clients [] (set_heap (alter_all client_close (m_clients g) (m_heap g)) g))).
Proof.
  intros Hl. unfold try_closeClients.
  pose proof (try_close_all_app (m_clients g) [] g Hl) as Ha. rewrite app_nil_r in Ha. by rewrite Ha.
Qed.

(** The first client that is not stops the loop. *)
Lemma try_closeClients_Thrown g l1 client l2 cl :
  NoDup (m_clients g) -> m_clients g = l1 ++ client :: l2 ->
  Forall (closable (m_heap g)) l1 -> m_heap g !! client = Some cl ->
  m_open (m_core cl) = true -> broken client = true ->
  try_closeClients broken g
  = Ok (Thrown (set_heap (alter cancelled client (alter_all client_close l1 (m_heap g))) g)).
Proof.
  intros Hnd Hg Hl Hcl Ho Hb. unfold try_closeClients. rewrite Hg in *. rewrite try_close_all_app by done.
  apply NoDup_app in Hnd as (Hnd1 & Hdis & _).
  set (g1 := set_heap _ g). assert (H1 : m_heap g1 !! client = Some cl).
  { cbn. rewrite alter_all_lookup by done. rewrite decide_False; [done|]. intros Hin.
    by apply (Hdis _ Hin), list_elem_of_here. }
  cbn [try_close_all]. unfold deref. rewrite H1. step_bind. rewrite try_close_Thrown by done. step_bind.
  by rewrite (store_alter cancelled).
Qed.

Section system.
Context {A B : Type} `{SerialPort A} `{UdpSocket B}.
#[local] Abbreviation P := (picard_device A B).
Implicit Types (y : system P).

(** With clients that can be closed, the operations are those of the other files. *)
Lemma try_reset_Done y :
  Forall (closable (m_heap (y_mgr y))) (m_clients (y_mgr y)) ->
  exists y', try_resetConnection broken y = Ok (Done y') /\ sys_exec y SysReset = Ok y' /\
    m_clients (y_mgr y') = [] /\ x_stopped (y_parts y') = true.
Proof.
  intros Hl. unfold try_resetConnection. rewrite try_closeClients_Done by done. step_bind.
  eexists. split; [done|]. split; [|done]. cbn [sys_exec]. unfold mgr_step, exec, mgr_resetConnection.
  cbn [mgr_view w_mgr]. unfold closeClients. rewrite update_all_Ok; [done|].
  rewrite Forall_forall in Hl. intros c Hc. by destruct (Hl c Hc) as (cl & -> & _).
Qed.

Lemma with_sys_same (x : process A B) y : pr_sys x = Some y -> with_sys (Some y) x = x.
Proof. destruct x. cbn. by intros ->. Qed.

Lemma try_accept_Done (opts : SerialMuxOptions) client (x : process A B) :
  broken client = false ->
  try_accept broken client x = process_exec opts x (PThread (SysAccept client)).
Proof.
  intros Hb. unfold try_accept, try_start, process_exec. rewrite Hb.
  destruct (pr_sys x) as [y|] eqn:Hy; [|done]. cbn [thread_enabled sys_exec].
  destruct (pr_main x); try done. rewrite bool_decide_eq_true_2 by done.
  unfold accept_step, mgr_step. cbn [exec mgr_view w_mgr].
  destruct (x_stopped (y_parts y)); [|destruct (m_pending _) as [[token version]|]];
    [step_bind; by rewrite with_sys_same| |step_bind; by rewrite with_sys_same].
  destruct (m_heap (y_mgr y) !! client) eqn:Hc; step_bind; [by rewrite with_sys_same|].
  unfold with_mgr. step_bind. reflexivity.
Qed.

(** A connection that breaks before it is accepted ends the main loop by an
    exception, with no accept outstanding. *)
Lemma accept_thrown client (x : process A B) y token version :
  pr_sys x = Some y -> pr_main x = MRun -> x_stopped (y_parts y) = false ->
  m_pending (x_listener (y_parts y)) = Some (token, version) -> m_heap (y_mgr y) !! client = None ->
  broken client = true ->
  exists x' y', try_accept broken client x = Ok x' /\ pr_main x' = MThrown /\ pr_sys x' = Some y' /\
    m_pending (x_listener (y_parts y')) = None /\ m_heap (y_mgr y') = m_heap (y_mgr y).
Proof.
  intros Hy Hm Hs Hp Hh Hb. unfold try_accept, try_start. rewrite Hy, Hm, Hs, Hp, Hh, Hb.
  eexists _, _. by split_and!.
Qed.

(** Nothing starts the Picard loop again. *)
Lemma stopped_view (w w' : world (sys_rest P)) e :
  m_isRunning (r_io (w_rest w)) = false -> exec w e = Ok w' -> m_isRunning (r_io (w_rest w')) = false.
Proof.
  intros Hr Hx. destruct (exec_rest w w' e Hx) as [_ [(Hio & _)|(Hio & _)]]; by rewrite Hio.
Qed.

Lemma stopped_exec y e y' :
  m_isRunning (y_io y) = false -> sys_exec y e = Ok y' -> m_isRunning (y_io y') = false.
Proof.
  intros Hr. assert (Hm : forall y e y', m_isRunning (y_io y) = false -> mgr_step y e = Ok y' ->
    m_isRunning (y_io y') = false).
  { intros y1 e1 y2 H1 Hx. apply bind_Ok_inv in Hx as (w & Hw & [= <-]).
    exact (stopped_view (mgr_view y1) w e1 H1 Hw). }
  destruct e as [p| | |client e|client|spurious| |]; cbn [sys_exec].
  - destruct (stopped_pass y p Hr) as (y1 & Hy1 & Hr1 & _). cbn [sys_exec] in Hy1. rewrite Hy1.
    by intros [= <-].
  - by apply Hm.
  - by apply Hm.
  - destruct (x_stopped _); [by intros [= <-]|]. by apply Hm.
  - destruct (x_stopped _); [by intros [= <-]|]. unfold accept_step.
    destruct (m_pending _) as [[token version]|]; [|by intros [= <-]].
    destruct (m_heap _ !! client); [by intros [= <-]|].
    intros Hx. apply bind_Ok_inv in Hx as (y1 & H1 & [= <-]). exact (Hm y _ y1 Hr H1).
  - intros [= <-]. unfold listen_step.
    destruct (y_listen y); [by destruct (waitForHello_check _)|done| |done|done].
    destruct (decide _); [by destruct spurious|done].
  - by apply Hm.
  - destruct (x_stopped _); [|by intros [= <-]]. intros Hx.
    by eapply (Hm {| y_loop := _; y_pc := _; y_listen := _ |}); [|exact Hx].
Qed.

Lemma stopped_run es y y' :
  m_isRunning (y_io y) = false -> sys_run y es = Ok y' -> m_isRunning (y_io y') = false.
Proof.
  revert y. induction es as [|e es IH]; intros y Hr; [by intros [= <-]|].
  unfold sys_run. cbn [foldM]. intros Hx. apply bind_Ok_inv in Hx as (y1 & H1 & Hx).
  eapply IH; [|exact Hx]. by eapply stopped_exec.
Qed.

(** ** An interrupted reset *)

(** The clients after it: those before the broken one are closed. *)
Definition interrupted_heap (l1 : list nat) (client : nat) (h : gmap nat CBoostClient) :=
  alter cancelled client (alter_all client_close l1 h).

Definition interrupted l1 client y : system P :=
  with_parts (picard_stop (picard_reset (y_io y)))
    (set_mgr (set_heap (interrupted_heap l1 client (m_heap (y_mgr y))) (y_mgr y)) (y_parts y)) y.

Lemma interrupted_lookup l1 client h c :
  NoDup l1 -> client ∉ l1 ->
  interrupted_heap l1 client h !! c
  = (if decide (c = client) then cancelled else if decide (c ∈ l1) then client_close else id) <$> h !! c.
Proof.
  intros Hnd Hin. unfold interrupted_heap. destruct (decide (c = client)) as [->|Hne].
  - by rewrite lookup_alter_eq, alter_all_lookup, decide_False by done.
  - rewrite lookup_alter_ne, alter_all_lookup by done. case_decide; [done|]. by rewrite option_fmap_id.
Qed.

Lemma close_twice cl : client_close (client_close cl) = client_close cl.
Proof. by destruct cl as [[? ? ? [] ? ? ?] ? ?]. Qed.

(** Another one finds what the first has left. *)
Lemma interrupted_twice l1 client y :
  NoDup l1 -> client ∉ l1 -> interrupted l1 client (interrupted l1 client y) = interrupted l1 client y.
Proof.
  intros Hnd Hin.
  assert (Hh : interrupted_heap l1 client (interrupted_heap l1 client (m_heap (y_mgr y)))
    = interrupted_heap l1 client (m_heap (y_mgr y))).
  { apply map_eq. intros c. rewrite !interrupted_lookup by done. destruct (m_heap (y_mgr y) !! c); [|done].
    cbn. repeat case_decide; cbn; by rewrite ?cancelled_twice, ?close_twice. }
  unfold interrupted at 1. cbn. rewrite Hh. reflexivity.
Qed.

Record at_broken l1 client l2 y : Prop := {
  ab_clients : m_clients (y_mgr y) = l1 ++ client :: l2;
  ab_nodup : NoDup (m_clients (y_mgr y));
  ab_before : Forall (closable (m_heap (y_mgr y))) l1;
  ab_broken : broken client = true;
  ab_open : exists cl, m_heap (y_mgr y) !! client = Some cl /\ m_open (m_core cl) = true;
}.

Lemma at_broken_disjoint l1 client l2 y : at_broken l1 client l2 y -> NoDup l1 /\ client ∉ l1.
Proof.
  intros [Hc Hnd _ _ _]. rewrite Hc in Hnd. apply NoDup_app in Hnd as (Hnd & Hdis & _).
  split; [done|]. intros Hin. by apply (Hdis _ Hin), list_elem_of_here.
Qed.

Lemma try_reset_Thrown l1 client l2 y :
  at_broken l1 client l2 y -> try_resetConnection broken y = Ok (Thrown (interrupted l1 client y)).
Proof.
  intros [Hc Hnd Hl Hb (cl & Hcl & Ho)]. unfold try_resetConnection.
  by rewrite (try_closeClients_Thrown _ l1 client l2 cl).
Qed.

Lemma interrupted_broken l1 client l2 y :
  at_broken l1 client l2 y -> at_broken l1 client l2 (interrupted l1 client y).
Proof.
  intros Hab. destruct (at_broken_disjoint _ _ _ _ Hab) as [Hnd1 Hin].
  destruct Hab as [Hc Hnd Hl Hb (cl & Hcl & Ho)]. split; [done|done| |done|].
  - cbn. apply Forall_forall. intros c Hc1. rewrite Forall_forall in Hl.
    destruct (Hl c Hc1) as (cl1 & Hcl1 & _). exists (client_close cl1).
    rewrite interrupted_lookup, decide_False, decide_True, Hcl1 by (done || congruence). done.
  - exists (cancelled cl). cbn. by rewrite interrupted_lookup, decide_True, Hcl by done.
Qed.

(** The handler of the broken client's read takes it out of the list. *)
Lemma broken_leaves y client cl :
  mgr_inv (y_mgr y) -> client ∈ m_clients (y_mgr y) -> m_heap (y_mgr y) !! client = Some cl ->
  m_initState (m_core cl) = AUTHENTICATED -> m_reading cl = true -> x_stopped (y_parts y) = false ->
  exists y', sys_exec y (SysClient client ClientError) = Ok y' /\
    m_clients (y_mgr y') = erase client (m_clients (y_mgr y)) /\
    forall c, c <> client -> m_heap (y_mgr y') !! c = m_heap (y_mgr y) !! c.
Proof.
  intros Hi Hin Hcl Ha Hr Hs. cbn [sys_exec]. rewrite Hs. unfold mgr_step.
  cbn [exec mgr_view w_mgr w_pc]. rewrite Hcl. unfold referenced. rewrite Hr. cbn [orb client_exec].
  rewrite Hr. cbn [handle_read m_core]. rewrite bool_decide_eq_true_2 by done.
  cbn [removeClient manager_list]. rewrite removeClient_Ok by done. unfold with_mgr. step_bind.
  eexists. split; [done|].
  assert (Hrm : m_clients (removed (y_mgr y) client) = erase client (m_clients (y_mgr y)) /\
    m_heap (removed (y_mgr y) client) = m_heap (y_mgr y)).
  { unfold removed, disconnect_current. rewrite decide_True by done.
    by destruct (union_changed _ _), (sc_client _). }
  destruct Hrm as [Hc Hh]. split; [exact Hc|]. intros c Hne. cbn. rewrite Hh. by apply lookup_insert_ne.
Qed.

Lemma client_change_cancelled : client_change cancelled.
Proof. by split. Qed.

Lemma interrupted_inv l1 client y : mgr_inv (y_mgr y) -> mgr_inv (y_mgr (interrupted l1 client y)).
Proof.
  intros Hi. apply (mgr_inv_alter_all client_close l1 _ client_change_close) in Hi.
  exact (mgr_inv_alter cancelled _ client client_change_cancelled Hi).
Qed.

Lemma erase_middle (l1 l2 : list nat) client :
  NoDup (l1 ++ client :: l2) -> erase client (l1 ++ client :: l2) = l1 ++ l2.
Proof.
  induction l1 as [|c l1 IH]; cbn; intros Hnd.
  - by rewrite decide_True.
  - apply NoDup_cons in Hnd as [Hc Hnd]. rewrite decide_False by set_solver. by rewrite IH.
Qed.

Lemma interrupted_recovers l1 client l2 y cl :
  at_broken l1 client l2 y -> mgr_inv (y_mgr y) -> m_heap (y_mgr y) !! client = Some cl ->
  m_initState (m_core cl) = AUTHENTICATED -> m_reading cl = true ->
  Forall (closable (m_heap (y_mgr y))) l2 -> x_stopped (y_parts y) = false ->
  exists y1 y2, sys_exec (interrupted l1 client y) (SysClient client ClientError) = Ok y1 /\
    try_resetConnection broken y1 = Ok (Done y2) /\ m_clients (y_mgr y2) = [] /\
    x_stopped (y_parts y2) = true.
Proof.
  intros Hab Hi Hcl Ha Hr Hl2 Hs. pose proof (at_broken_disjoint _ _ _ _ Hab) as [Hnd1 Hin].
  pose proof (interrupted_broken _ _ _ _ Hab) as Hab'.
  pose proof (ab_clients _ _ _ _ Hab') as Hc'. pose proof (ab_nodup _ _ _ _ Hab') as Hnd.
  destruct (broken_leaves (interrupted l1 client y) client (cancelled cl)) as (y1 & H1 & Hc1 & Hh1);
    [by apply interrupted_inv|rewrite Hc'; set_solver
    |cbn; by rewrite interrupted_lookup, decide_True, Hcl by done|done..|].
  rewrite Hc' in Hnd, Hc1. rewrite erase_middle in Hc1 by done.
  destruct (try_reset_Done y1) as (y2 & H2 & _ & Hc2 & Hs2); [|by exists y1, y2].
  rewrite Hc1. apply NoDup_app in Hnd as (_ & Hdis & Hnd2). apply NoDup_cons in Hnd2 as [Hn2 _].
  assert (Hcl2 : Forall (closable (m_heap (y_mgr (interrupted l1 client y)))) l2).
  { eapply Forall_impl; [exact Hl2|]. intros c Hc. cbn. apply closable_alter; [done|].
    revert Hc. generalize (m_heap (y_mgr y)). clear. induction l1 as [|x l1 IH]; intros h Hc; [done|].
    by apply IH, closable_alter. }
  pose proof (ab_before _ _ _ _ Hab') as Hcl1.
  assert (Hsame : forall c, c <> client -> closable (m_heap (y_mgr (interrupted l1 client y))) c ->
    closable (m_heap (y_mgr y1)) c) by (intros c Hne; unfold closable; by rewrite Hh1).
  rewrite Forall_forall in Hcl1, Hcl2.
  apply Forall_app_2; apply Forall_forall; intros c Hc; (apply Hsame; [intros ->; set_solver|auto]).
Qed.

(** [serial_mux_stop] with a broken client swallows the exception and waits for
    the main loop, which nothing has woken. *)
Lemma stop_interrupted (opts : SerialMuxOptions) l1 client l2 (x : process A B) y :
  at_broken l1 client l2 y -> pr_sys x = Some y -> pr_main x = MRun -> pr_stop x = SFlagged ->
  x_stopped (y_parts y) = false ->
  exists x', try_stop broken x = Ok x' /\ pr_stop x' = SBeforeWait /\
    pr_sys x' = Some (interrupted l1 client y) /\ forall sr, main_step opts sr x' = x'.
Proof.
  intros Hab Hy Hm Hp Hs. unfold try_stop. rewrite Hy, Hm, Hp, (try_reset_Thrown l1 client l2) by done.
  step_bind. eexists. split; [done|]. split; [done|]. split; [done|].
  intros sr. unfold main_step. cbn [with_stop with_sys pr_main pr_sys]. rewrite Hm. cbn. by rewrite Hs.
Qed.
End system.
End facts.

(** ** Properties *)

Lemma sys_inv_mgr {P} `{PicardDevice P} (y : system P) : sys_inv y -> mgr_inv (y_mgr y).
Proof. intros Hi. exact (proj1 (si_world _ Hi)). Qed.

Section properties.
Context {A B : Type} `{SerialPort A} `{UdpSocket B}.
Variable broken : nat -> bool.
Implicit Types (y : system (picard_device A B)).

(** C30: a reset that a broken connection interrupts.  [close] of the first
    registered client whose connection is broken throws: the clients before it are
    closed, it and those after it stay open and registered, and the listener and
    [io_service] keep running.  The Picard thread's second attempt changes nothing
    more.  The read loop has ended and never runs again, so the mux answers no
    command and forwards no notification; only when the broken client's handler has
    taken it off the list does another reset complete. *)
Theorem reset_interrupted y l1 client l2 cl :
  mgr_inv (y_mgr y) -> m_clients (y_mgr y) = l1 ++ client :: l2 ->
  Forall (closable broken (m_heap (y_mgr y))) l1 -> broken client = true ->
  m_heap (y_mgr y) !! client = Some cl -> m_open (m_core cl) = true ->
  exists y', try_resetConnection broken y = Ok (Thrown y') /\
    m_clients (y_mgr y') = m_clients (y_mgr y) /\
    (forall c, m_heap (y_mgr y') !! c =
       (if decide (c = client) then cancelled else if decide (c ∈ l1) then client_close else id)
         <$> m_heap (y_mgr y) !! c) /\
    x_listener (y_parts y') = x_listener (y_parts y) /\
    x_stopped (y_parts y') = x_stopped (y_parts y) /\
    picard_thread_reset broken y = Ok y' /\
    (forall es y'', sys_run y' es = Ok y'' -> m_isRunning (y_io y'') = false) /\
    (m_initState (m_core cl) = AUTHENTICATED -> m_reading cl = true ->
       Forall (closable broken (m_heap (y_mgr y))) l2 -> x_stopped (y_parts y) = false ->
       exists y1 y2, sys_exec y' (SysClient client ClientError) = Ok y1 /\
         try_resetConnection broken y1 = Ok (Done y2) /\ m_clients (y_mgr y2) = [] /\
         x_stopped (y_parts y2) = true).
Proof.
  intros Hi Hc Hl Hb Hcl Ho.
  assert (Hab : at_broken broken l1 client l2 y).
  { split; [done|apply (mi_clients _ Hi)|done|done|by exists cl]. }
  destruct (at_broken_disjoint _ _ _ _ _ Hab) as [Hnd Hin].
  pose proof (try_reset_Thrown _ _ _ _ _ Hab) as Ht.
  exists (interrupted l1 client y). split; [done|]. split; [done|].
  split; [intros c; by apply interrupted_lookup|]. split; [done|]. split; [done|]. split; [|split].
  - unfold picard_thread_reset. rewrite Ht. step_bind. destruct (device_udp _); [done|].
    rewrite (try_reset_Thrown _ _ _ _ _ (interrupted_broken _ _ _ _ _ Hab)).
    by rewrite interrupted_twice.
  - intros es y''. by apply stopped_run.
  - intros Ha Hr Hl2 Hs. by eapply interrupted_recovers.
Qed.
End properties.

(** ** Witness: three clients, of which the second is broken *)

Definition three_clients : list sys_event :=
  up_events ++ [SysAccept 6; SysClient 6 (ClientData (serialize_message sample_hello));
                SysAccept 7; SysClient 7 (ClientData (serialize_message sample_hello))].

Definition three_up : system sample_device := system_after three_clients.

Lemma three_run : sys_run sample_system three_clients = Ok three_up.
Proof. vm_compute. reflexivity. Qed.

Definition sample_client : CBoostClient := client_start (create sample_auth 0).
Definition client_of (y : system sample_device) (c : nat) : CBoostClient :=
  default sample_client (m_heap (y_mgr y) !! c).

Definition open_clients (y : system sample_device) : list bool :=
  (fun c => m_open (m_core (client_of y c))) <$> [5; 6; 7]%nat.

Lemma reset_interrupted_witness :
  (exists y', try_resetConnection (Nat.eqb 6) three_up = Ok (Thrown y') /\
     open_clients y' = [false; true; true] /\ x_stopped (y_parts y') = false /\
     m_pending (x_listener (y_parts y')) <> None) /\
  (exists y' y1 y2, try_resetConnection (Nat.eqb 6) three_up = Ok (Thrown y') /\
     sys_exec y' (SysClient 6 ClientError) = Ok y1 /\
     try_resetConnection (Nat.eqb 6) y1 = Ok (Done y2) /\ x_stopped (y_parts y2) = true).
Proof.
  assert (Hc : forall c, bool_decide (is_Some (m_heap (y_mgr three_up) !! c)) = true ->
    Nat.eqb 6 c = false -> closable (Nat.eqb 6) (m_heap (y_mgr three_up)) c).
  { intros c Hc Hb. apply bool_decide_eq_true in Hc as [cl Hc]. exists cl. split; [done|].
    rewrite Hb. apply andb_false_r. }
  destruct (reset_interrupted (Nat.eqb 6) three_up [5%nat] 6 [7%nat] (client_of three_up 6))
    as (y' & Ht & _ & Hh & Hl & Hs & _ & _ & Hrec);
    [|vm_compute; reflexivity|apply Forall_singleton, Hc; vm_compute; reflexivity|reflexivity
    |vm_compute; reflexivity|vm_compute; reflexivity|].
  { apply sys_inv_mgr. eapply sys_run_inv; [|shelve|exact three_run]. by apply new_system_inv.
    Unshelve. apply sys_events_ok. vm_compute. reflexivity. }
  split.
  - exists y'. split; [exact Ht|]. split; [|split].
    + unfold open_clients, client_of. cbn [fmap list_fmap]. rewrite !Hh. vm_compute. reflexivity.
    + rewrite Hs. vm_compute. reflexivity.
    + rewrite Hl. vm_compute. discriminate.
  - destruct Hrec as (y1 & y2 & H1 & H2 & _ & Hst);
      [vm_compute; reflexivity|vm_compute; reflexivity
      |apply Forall_singleton, Hc; vm_compute; reflexivity|vm_compute; reflexivity|].
    exists y', y1, y2. split_and!; [exact Ht|exact H1|exact H2|exact Hst].
Defined.
