(* ===== verification/Locks.v ===== *)
(** * Threads, locks and shared members

    What a thread does to locks and to the members it shares, as a program whose
    branches are left open ([stmt]); the steps of several such threads ([cstep]);
    two facts about every run of them: threads that take their locks in the order
    of a rank never deadlock, and a member whose accesses always have a lock in
    common has no data race.  Both are decided by looking at the programs
    ([ordered], [may_race]); [find_race] looks for a run with a race. *)

From Stdlib Require Import Lia.
From stdpp Require Import base list relations.
From S2P Require Import Prelude.

Section locks.
Context {mutex field : Type} `{EqDecision mutex} `{EqDecision field}.

(** ** Programs *)

(** [Locked l s] is a scope with a [scoped_lock] of [l]; [WaitOn l] waits on a
    condition variable with it, which releases it and takes it again; [JoinOn i] waits
    for the end of thread [i]. *)
Inductive stmt :=
  | Skip
  | Access (write : bool) (x : field)
  | Seq (s1 s2 : stmt)
  | Choice (s1 s2 : stmt)
  | Loop (s : stmt)
  | Locked (l : mutex) (s : stmt)
  | WaitOn (l : mutex)
  | JoinOn (i : nat)
  | Unlock (l : mutex)      (* what is left of a scope at its end *)
  | Relock (l : mutex).     (* what is left of a wait *)

(** A thread: the locks it holds, the last one first, and what it has to do. *)
Record thread := { t_held : list mutex; t_todo : list stmt }.
#[local] Abbreviation config := (list thread).

Definition start (s : stmt) : thread := {| t_held := []; t_todo := [s] |}.

Definition is_free (c : config) (l : mutex) : bool := forallb (fun t => bool_decide (l ∉ t_held t)) c.

Definition finished (t : thread) : bool := bool_decide (t_todo t = []).

Definition ended (c : config) (i : nat) : bool :=
  match c !! i with Some t => finished t | None => true end.

(** A step of a thread of [c]; [b] says which branch it takes. *)
Definition thread_step (c : config) (t : thread) (b : bool) : option thread :=
  let go held todo := Some {| t_held := held; t_todo := todo |} in
  let held := t_held t in
  let release l todo :=
    match held with l' :: h => if decide (l' = l) then go h todo else None | [] => None end in
  match t_todo t with
  | [] => None
  | Skip :: k | Access _ _ :: k => go held k
  | Seq s1 s2 :: k => go held (s1 :: s2 :: k)
  | Choice s1 s2 :: k => go held ((if b then s1 else s2) :: k)
  | Loop s :: k => go held (if b then s :: Loop s :: k else k)
  | Locked l s :: k => if is_free c l then go (l :: held) (s :: Unlock l :: k) else None
  | WaitOn l :: k => release l (Relock l :: k)
  | JoinOn i :: k => if ended c i then go held k else None
  | Unlock l :: k => release l k
  | Relock l :: k => if is_free c l then go (l :: held) k else None
  end.

Definition cstep (c c' : config) : Prop :=
  exists i b t t', c !! i = Some t /\ thread_step c t b = Some t' /\ c' = <[i := t']> c.

Definition reaches : config -> config -> Prop := rtc cstep.

(** ** Races *)

(** What the next step of a thread accesses. *)
Definition next_access (t : thread) : option (bool * field) :=
  match t_todo t with Access w x :: _ => Some (w, x) | _ => None end.

(** Two threads are about to access [x], and one of them to write it. *)
Definition race (c : config) (x : field) : Prop :=
  exists i j ti tj w w', i <> j /\ c !! i = Some ti /\ c !! j = Some tj /\
    next_access ti = Some (w, x) /\ next_access tj = Some (w', x) /\ w || w' = true.

(** ** Looking at the programs *)

Context (rank : mutex -> nat).

Definition above (l : mutex) (held : list mutex) : bool :=
  forallb (fun l' => rank l' <? rank l)%nat held.

(** Locks are taken above those held, a wait gives up the last one taken, and no lock
    is held while another thread is joined. *)
Fixpoint ordered (held : list mutex) (s : stmt) : bool :=
  match s with
  | Skip | Access _ _ => true
  | Seq s1 s2 | Choice s1 s2 => ordered held s1 && ordered held s2
  | Loop s => ordered held s
  | Locked l s => above l held && ordered (l :: held) s
  | WaitOn l =>
      match held with l' :: h => bool_decide (l' = l) && above l h | [] => false end
  | JoinOn _ => bool_decide (held = [])
  | Unlock _ | Relock _ => false
  end.

(** The threads a program joins. *)
Fixpoint joins (s : stmt) : list nat :=
  match s with
  | Seq s1 s2 | Choice s1 s2 => joins s1 ++ joins s2
  | Loop s | Locked _ s => joins s
  | JoinOn i => [i]
  | _ => []
  end.

(** Those that are joined join no others. *)
Definition joins_leaves (ss : list stmt) : bool :=
  forallb (fun s => forallb (fun i => bool_decide (joins (default Skip (ss !! i)) = [])) (joins s)) ss.

Definition access : Type := bool * field * list mutex.

(** The accesses of a program, each with the locks held. *)
Fixpoint accesses (held : list mutex) (s : stmt) : list access :=
  match s with
  | Access w x => [(w, x, held)]
  | Seq s1 s2 | Choice s1 s2 => accesses held s1 ++ accesses held s2
  | Loop s => accesses held s
  | Locked l s => accesses (l :: held) s
  | _ => []
  end.

(** Two accesses that can be a race: to one member, one a write, no lock in
    common. *)
Definition conflict (x : field) (a a' : access) : bool :=
  let '(w, y, held) := a in
  let '(w', y', held') := a' in
  bool_decide (y = x) && bool_decide (y' = x) && (w || w') &&
  forallb (fun l => bool_decide (l ∉ held')) held.

(** All pairs of different threads. *)
Fixpoint pairwise {A} (f : A -> A -> bool) (l : list A) : bool :=
  match l with [] => false | a :: l => existsb (f a) l || pairwise f l end.

Definition may_race (x : field) (ss : list stmt) : bool :=
  pairwise (fun l l' => existsb (fun a => existsb (conflict x a) l') l) (accesses [] <$> ss).

(** ** Looking for a race *)

(** The branches that lead past a program, and to its accesses of kind [w] to [x]. *)
Fixpoint past (s : stmt) : list bool :=
  match s with
  | Seq s1 s2 => past s1 ++ past s2
  | Choice _ s2 => false :: past s2
  | Loop _ => [false]
  | Locked _ s => past s
  | _ => []
  end.

Fixpoint paths (w : bool) (x : field) (s : stmt) : list (list bool) :=
  match s with
  | Access w' y => if decide (w' = w /\ y = x) then [[]] else []
  | Seq s1 s2 => paths w x s1 ++ (app (past s1) <$> paths w x s2)
  | Choice s1 s2 => (cons true <$> paths w x s1) ++ (cons false <$> paths w x s2)
  | Loop s => cons true <$> paths w x s
  | Locked _ s => paths w x s
  | _ => []
  end.

(** Run thread [i] along branches [bs] until they are used up and it is about to
    access [x]. *)
Fixpoint drive (fuel : nat) (i : nat) (x : field) (bs : list bool) (c : config) : option config :=
  match fuel, c !! i with
  | S fuel, Some t =>
      match bs, next_access t with
      | [], Some (_, y) =>
          if decide (y = x) then Some c
          else t' ← thread_step c t false; drive fuel i x bs (<[i := t']> c)
      | _, _ =>
          let branch := match t_todo t with Choice _ _ :: _ | Loop _ :: _ => true | _ => false end in
          t' ← thread_step c t (branch && hd false bs);
          drive fuel i x (if branch then tail bs else bs) (<[i := t']> c)
      end
  | _, _ => None
  end.

Definition raceb (x : field) (i j : nat) (c : config) : bool :=
  match c !! i ≫= next_access, c !! j ≫= next_access with
  | Some (w, y), Some (w', y') => bool_decide (i <> j /\ y = x /\ y' = x) && (w || w')
  | _, _ => false
  end.

(** Run thread [i] to its end, past its branches and loops. *)
Fixpoint run_out (fuel : nat) (i : nat) (c : config) : config :=
  match fuel, c !! i with
  | S fuel, Some t =>
      match thread_step c t false with
      | Some t' => run_out fuel i (<[i := t']> c)
      | None => c
      end
  | _, _ => c
  end.

(** After the threads [js] have ended, thread [i] first, then thread [j]. *)
Definition find_race (fuel : nat) (js : list nat) (x : field) (ss : list stmt) : bool :=
  let c0 := foldl (fun c j => run_out fuel j c) (start <$> ss) js in
  existsb (fun i => existsb (fun j => existsb (fun w =>
    existsb (fun bs => existsb (fun bs' =>
      match c ← drive fuel i x bs c0; drive fuel j x bs' c with
      | Some c => raceb x i j c
      | None => false
      end)
      (flat_map (fun w' => if w || w' then paths w' x (default Skip (ss !! j)) else []) [true; false]))
      (paths w x (default Skip (ss !! i)))) [true; false])
    (seq 0 (length ss))) (seq 0 (length ss)).

(** ** The invariant *)

(** What a thread still has to do, from the locks it holds, is ordered and ends
    with none. *)
Fixpoint todo_ok (held : list mutex) (k : list stmt) : Prop :=
  match k with
  | [] => held = []
  | Unlock l :: k => match held with l' :: h => l' = l /\ todo_ok h k | [] => False end
  | Relock l :: k => above l held = true /\ todo_ok (l :: held) k
  | s :: k => ordered held s = true /\ todo_ok held k
  end.

(** The accesses still to come. *)
Fixpoint todo_accesses (held : list mutex) (k : list stmt) : list access :=
  match k with
  | [] => []
  | Unlock l :: k => todo_accesses (tail held) k
  | Relock l :: k => todo_accesses (l :: held) k
  | s :: k => accesses held s ++ todo_accesses held k
  end.

Definition thread_ok (t : thread) : Prop := todo_ok (t_held t) (t_todo t).

(** No lock is held twice. *)
Definition exclusive (c : config) : Prop :=
  forall i j ti tj l, i <> j -> c !! i = Some ti -> c !! j = Some tj ->
    l ∈ t_held ti -> l ∈ t_held tj -> False.

Lemma todo_ok_cons held s k :
  ordered held s = true -> todo_ok held k -> todo_ok held (s :: k).
Proof. by destruct s. Qed.

Lemma todo_accesses_cons held s k :
  ordered held s = true -> todo_accesses held (s :: k) = accesses held s ++ todo_accesses held k.
Proof. by destruct s. Qed.

Lemma is_free_spec c l : is_free c l = true <-> forall i t, c !! i = Some t -> l ∉ t_held t.
Proof.
  unfold is_free. rewrite forallb_forall. split.
  - intros Hc i t Ht. specialize (Hc t). rewrite bool_decide_eq_true in Hc.
    apply Hc, list_elem_of_In. by eapply list_elem_of_lookup_2.
  - intros Hc t Ht. apply list_elem_of_In, list_elem_of_lookup in Ht as [i Ht].
    rewrite bool_decide_eq_true. by eapply Hc.
Qed.

(** A step keeps a thread in order, adds no access and takes no lock but a free one. *)
Lemma thread_step_ok c t b t' :
  thread_ok t -> thread_step c t b = Some t' ->
  thread_ok t' /\
  (todo_accesses (t_held t') (t_todo t') ⊆ todo_accesses (t_held t) (t_todo t)) /\
  (forall l, l ∈ t_held t' -> l ∈ t_held t \/ is_free c l = true).
Proof.
  unfold thread_ok, thread_step. destruct t as [held [|s k]]; cbn [t_held t_todo]; [done|].
  destruct s as [|w x|s1 s2|s1 s2|s|l s|l|i|l|l]; cbn [todo_ok ordered].
  - intros [_ Hk] [= <-]. split_and!; [done|set_solver|auto].
  - intros [_ Hk] [= <-]. split_and!; [done|cbn; set_solver|auto].
  - intros [Hs Hk] [= <-]. apply andb_true_iff in Hs as [H1 H2]. cbn [t_held t_todo].
    split_and!; [apply todo_ok_cons; [done|by apply todo_ok_cons]| |auto].
    rewrite !todo_accesses_cons by done. cbn [todo_accesses accesses]. set_solver.
  - intros [Hs Hk] [= <-]. apply andb_true_iff in Hs as [H1 H2]. cbn [t_held t_todo].
    assert (Hb : ordered held (if b then s1 else s2) = true) by by destruct b.
    split_and!; [by apply todo_ok_cons| |auto]. rewrite todo_accesses_cons by done.
    cbn [todo_accesses accesses]. destruct b; set_solver.
  - intros [Hs Hk] [= <-]. cbn [t_held t_todo]. split_and!; [| |auto].
    + destruct b; [|done]. by apply todo_ok_cons.
    + destruct b; [|set_solver]. rewrite todo_accesses_cons by done.
      cbn [todo_accesses accesses]. set_solver.
  - intros [Hs Hk]. destruct (is_free c l) eqn:Hf; [|done]. intros [= <-].
    apply andb_true_iff in Hs as [H1 H2]. cbn [t_held t_todo]. split_and!.
    + by apply todo_ok_cons.
    + rewrite todo_accesses_cons by done. cbn [todo_accesses accesses tail]. set_solver.
    + intros l' [->|?]%elem_of_cons; auto.
  - intros [Hs Hk]. destruct held as [|l' h]; [done|]. apply andb_true_iff in Hs as [H1 H2].
    apply bool_decide_eq_true_1 in H1 as ->. rewrite decide_True by done. intros [= <-].
    cbn [t_held t_todo]. split_and!; [done|cbn; set_solver|]. intros l' ?. left. by right.
  - intros [_ Hk]. destruct (ended c i); [|done]. intros [= <-]. split_and!; [done|cbn; set_solver|auto].
  - destruct held as [|l' h]; [done|]. intros [-> Hk]. rewrite decide_True by done. intros [= <-].
    cbn [t_held t_todo]. split_and!; [done|done|]. intros l' ?. left. by right.
  - intros [Ha Hk]. destruct (is_free c l) eqn:Hf; [|done]. intros [= <-].
    cbn [t_held t_todo]. split_and!; [done|done|]. intros l' [->|?]%elem_of_cons; auto.
Qed.

(** It joins no thread that it did not. *)
Definition todo_joins (t : thread) : list nat := flat_map joins (t_todo t).

Lemma thread_step_joins c t b t' : thread_step c t b = Some t' -> todo_joins t' ⊆ todo_joins t.
Proof.
  unfold thread_step, todo_joins. destruct t as [held [|s k]]; cbn [t_held t_todo]; [done|].
  destruct s as [|w x|s1 s2|s1 s2|s|l s|l|i|l|l]; repeat case_match; intros Hs; simplify_eq; cbn;
    set_solver.
Qed.

(** What every run keeps, from threads that start with programs [ss]. *)
Definition locks_inv (ss : list stmt) (c : config) : Prop :=
  exclusive c /\
  forall i t, c !! i = Some t -> thread_ok t /\
    exists s, ss !! i = Some s /\ todo_accesses (t_held t) (t_todo t) ⊆ accesses [] s /\
      todo_joins t ⊆ joins s.

Lemma start_inv ss : forallb (ordered []) ss = true -> locks_inv ss (start <$> ss).
Proof.
  intros Ho. rewrite forallb_forall in Ho. split.
  - intros i j ti tj l _ Hi _ Hl. rewrite list_lookup_fmap in Hi.
    destruct (ss !! i); [|done]. injection Hi as <-. by apply not_elem_of_nil in Hl.
  - intros i t Ht. rewrite list_lookup_fmap in Ht. destruct (ss !! i) as [s|] eqn:Hs; [|done].
    injection Ht as <-. assert (Hord : ordered [] s = true).
    { apply Ho, list_elem_of_In. by eapply list_elem_of_lookup_2. }
    split; [by apply todo_ok_cons|]. exists s. split; [done|]. cbn [t_held t_todo start].
    rewrite todo_accesses_cons by done. unfold todo_joins. cbn. by rewrite !app_nil_r.
Qed.

Lemma step_inv ss c c' : locks_inv ss c -> cstep c c' -> locks_inv ss c'.
Proof.
  intros [Hx Ht] (i & b & t & t' & Hi & Hs & ->).
  destruct (Ht i t Hi) as (Hok & s & Hss & Hsub & Hjo).
  pose proof (thread_step_joins c t b t' Hs) as Hj'.
  destruct (thread_step_ok c t b t' Hok Hs) as (Hok' & Hsub' & Hheld).
  assert (Hlt : (i < length c)%nat) by (by eapply lookup_lt_Some).
  assert (Hnew : forall j tj l, i <> j -> c !! j = Some tj -> l ∈ t_held t' -> l ∈ t_held tj -> False).
  { intros j tj l Hij Hj [Hl|Hl]%Hheld Hlj; [by eapply (Hx i j)|].
    rewrite is_free_spec in Hl. by eapply Hl. }
  split.
  - intros i1 i2 t1 t2 l Hne H1 H2 Hl1 Hl2.
    destruct (decide (i = i1)) as [<-|Hi1]; [|destruct (decide (i = i2)) as [<-|Hi2]].
    + rewrite list_lookup_insert_eq in H1 by done. injection H1 as <-.
      rewrite list_lookup_insert_ne in H2 by done. by eapply Hnew.
    + rewrite list_lookup_insert_eq in H2 by done. injection H2 as <-.
      rewrite list_lookup_insert_ne in H1 by done. by eapply Hnew.
    + rewrite !list_lookup_insert_ne in H1, H2 by done. by eapply (Hx i1 i2).
  - intros j tj Hjt. destruct (decide (i = j)) as [<-|Hij].
    + rewrite list_lookup_insert_eq in Hjt by done. injection Hjt as <-. split; [done|].
      exists s. split_and!; [done|by etrans..].
    + rewrite list_lookup_insert_ne in Hjt by done. by apply Ht.
Qed.

Lemma reaches_inv ss c c' : locks_inv ss c -> reaches c c' -> locks_inv ss c'.
Proof. intros Hc Hr. induction Hr; [done|]. eauto using step_inv. Qed.

(** ** No deadlock *)

(** A thread that cannot step wants a lock above those it holds, or holds none and
    waits for a thread that has not ended. *)
Lemma blocked_wants c t :
  thread_ok t -> finished t = false -> (forall b, thread_step c t b = None) ->
  (exists l, is_free c l = false /\ above l (t_held t) = true) \/
  (t_held t = [] /\ exists i ti, i ∈ todo_joins t /\ c !! i = Some ti /\ finished ti = false).
Proof.
  unfold thread_ok, thread_step, todo_joins, finished at 1. destruct t as [held [|s k]]; cbn [t_held t_todo]; [done|].
  intros Hok _ Hs. specialize (Hs false).
  destruct s as [|w x|s1 s2|s1 s2|s|l s|l|i|l|l]; cbn [todo_ok ordered] in Hok; try done.
  - destruct Hok as [Hl _]. apply andb_true_iff in Hl as [Hl _]. left. exists l.
    by destruct (is_free c l).
  - destruct held as [|l' h]; [by destruct Hok|]. destruct Hok as [Hl _].
    apply andb_true_iff in Hl as [Hl _]. apply bool_decide_eq_true_1 in Hl as ->.
    by rewrite decide_True in Hs by done.
  - destruct Hok as [Hl _]. apply bool_decide_eq_true_1 in Hl. right. split; [done|].
    unfold ended in Hs. destruct (c !! i) as [ti|] eqn:Hi; [|done]. destruct (finished ti) eqn:Hf; [done|].
    exists i, ti. split_and!; [cbn; set_solver|done|done].
  - destruct held as [|l' h]; [done|]. destruct Hok as [-> _]. by rewrite decide_True in Hs by done.
  - left. exists l. by destruct (is_free c l), Hok.
Qed.

Lemma above_lt l l' held : above l held = true -> l' ∈ held -> (rank l' < rank l)%nat.
Proof.
  unfold above. rewrite forallb_forall. intros Ha Hl. apply list_elem_of_In in Hl.
  apply Nat.ltb_lt. by apply Ha.
Qed.

Lemma no_deadlock ss c (bound : nat) :
  (forall l, rank l < bound)%nat -> joins_leaves ss = true -> locks_inv ss c ->
  existsb (fun t => negb (finished t)) c = true ->
  exists c', cstep c c'.
Proof.
  intros Hb Hleaf [Hx Ht] Hun.
  destruct (decide (Exists (fun t => exists b, is_Some (thread_step c t b)) c)) as [Hex|Hno].
  { rewrite Exists_exists in Hex. destruct Hex as (t & Hin & b & t' & Hs).
    apply list_elem_of_lookup in Hin as [i Hi]. eexists. by exists i, b, t, t'. }
  exfalso.
  assert (Hstuck : forall i t b, c !! i = Some t -> thread_step c t b = None).
  { intros i t b Hi. destruct (thread_step c t b) as [t'|] eqn:Hs; [|done]. destruct Hno.
    rewrite Exists_exists. exists t. split; [by eapply list_elem_of_lookup_2|]. exists b. by eexists. }
  assert (Hwant : forall i t, c !! i = Some t -> finished t = false ->
    (exists l, is_free c l = false /\ above l (t_held t) = true) \/
    (t_held t = [] /\ exists i ti, i ∈ todo_joins t /\ c !! i = Some ti /\ finished ti = false)).
  { intros i t Hi Hf. apply blocked_wants; [apply (Ht i t Hi)|done|]. intros b. by eapply Hstuck. }
  assert (Hclimb : forall n l, (bound <= rank l + n)%nat -> is_free c l = false -> False).
  { induction n as [|n IH]; intros l Hn Hl; [specialize (Hb l); lia|].
    assert (Howner : exists i t, c !! i = Some t /\ l ∈ t_held t).
    { apply not_true_iff_false in Hl. rewrite is_free_spec in Hl.
      destruct (decide (Exists (fun t => l ∈ t_held t) c)) as [Hex|Hne].
      - rewrite Exists_exists in Hex. destruct Hex as (t & [i Hi]%list_elem_of_lookup & Hlt). eauto.
      - destruct Hl. intros i t Hi Hlt. apply Hne. rewrite Exists_exists. exists t.
        split; [by eapply list_elem_of_lookup_2|done]. }
    destruct Howner as (i & t & Hi & Hlt).
    assert (Hf : finished t = false).
    { apply bool_decide_eq_false_2. intros He. destruct (Ht i t Hi) as [Hok _].
      unfold thread_ok in Hok. rewrite He in Hok. cbn in Hok. rewrite Hok in Hlt.
      by apply not_elem_of_nil in Hlt. }
    destruct (Hwant i t Hi Hf) as [(l' & Hl' & Ha)|[He _]].
    - apply (IH l'); [|done]. pose proof (above_lt _ _ _ Ha Hlt). lia.
    - rewrite He in Hlt. by apply not_elem_of_nil in Hlt. }
  apply existsb_exists in Hun as (t & Hin & Hf). apply list_elem_of_In, list_elem_of_lookup in Hin as [i Hi].
  apply negb_true_iff in Hf. destruct (Hwant i t Hi Hf) as [(l & Hl & _)|(_ & j & tj & Hj & Htj & Hfj)];
    [by apply (Hclimb bound l); [lia|]|].
  destruct (Hwant j tj Htj Hfj) as [(l & Hl & _)|(_ & j' & _ & Hj' & _)]; [by apply (Hclimb bound l); [lia|]|].
  destruct (Ht i t Hi) as (_ & s & Hs & _ & Hsj). destruct (Ht j tj Htj) as (_ & s' & Hs' & _ & Hsj').
  unfold joins_leaves in Hleaf. rewrite forallb_forall in Hleaf.
  specialize (Hleaf s ltac:(apply list_elem_of_In; by eapply list_elem_of_lookup_2)).
  rewrite forallb_forall in Hleaf. specialize (Hleaf j ltac:(apply list_elem_of_In; set_solver)).
  rewrite Hs', bool_decide_eq_true in Hleaf. cbn in Hleaf. apply Hsj' in Hj'. rewrite Hleaf in Hj'.
  by apply not_elem_of_nil in Hj'.
Qed.

(** ** Every thread can run to its end *)

(** The steps of a program whose loops are left at once. *)
Fixpoint size (s : stmt) : nat :=
  match s with
  | Seq s1 s2 | Choice s1 s2 => S (size s1 + size s2)
  | Loop s => S (size s)
  | Locked _ s => S (S (size s))
  | WaitOn _ => 2
  | _ => 1
  end.

Definition todo_size (t : thread) : nat := sum_list_with size (t_todo t).

Lemma step_branch c t b t' : thread_step c t b = Some t' -> is_Some (thread_step c t false).
Proof.
  unfold thread_step. destruct (t_todo t) as [|[] k]; try by eauto.
  all: intros ->; by eexists.
Qed.

Lemma step_size c t t' : thread_step c t false = Some t' -> (todo_size t' < todo_size t)%nat.
Proof.
  unfold thread_step, todo_size. destruct t as [held k]. cbn [t_held t_todo].
  destruct k as [|s k]; [done|]. destruct s as [|w x|s1 s2|s1 s2|s|l s|l|i|l|l].
  all: repeat case_match; intros Hs; simplify_eq; cbn; lia.
Qed.

Lemma insert_size (c : config) i t t' :
  c !! i = Some t -> (todo_size t' < todo_size t)%nat ->
  (sum_list_with todo_size (<[i := t']> c) < sum_list_with todo_size c)%nat.
Proof.
  intros Hi Hlt. rewrite <- (take_drop_middle c i t Hi) at 2.
  rewrite insert_take_drop by (by eapply lookup_lt_Some).
  rewrite !sum_list_with_app. cbn [sum_list_with]. lia.
Qed.

Lemma all_can_finish ss c (bound : nat) :
  (forall l, rank l < bound)%nat -> joins_leaves ss = true -> locks_inv ss c ->
  exists c', reaches c c' /\ forallb finished c' = true.
Proof.
  intros Hb Hleaf. remember (sum_list_with todo_size c) as n eqn:Hn. revert c Hn.
  induction (lt_wf n) as [n _ IH]. intros c -> Hc.
  destruct (existsb (fun t => negb (finished t)) c) eqn:Hun.
  - destruct (no_deadlock ss c bound Hb Hleaf Hc Hun) as (c1 & i & b & t & t1 & Hi & Hs & _).
    apply step_branch in Hs as [t' Hs]. set (c' := <[i := t']> c).
    assert (Hstep : cstep c c') by (by exists i, false, t, t').
    destruct (IH (sum_list_with todo_size c')) with (c := c') as (c2 & Hr & Hf); [|done| |].
    + by apply (insert_size c i t); [|by eapply step_size].
    + by eapply step_inv.
    + exists c2. split; [by eapply rtc_l|done].
  - exists c. split; [done|]. rewrite forallb_forall. intros t Ht.
    apply not_true_iff_false in Hun. rewrite existsb_exists in Hun.
    destruct (finished t) eqn:Hf; [done|]. destruct Hun. exists t. by rewrite Hf.
Qed.

(** ** Data races *)

Lemma pairwise_spec {A} (f : A -> A -> bool) (l : list A) i j a a' :
  (i < j)%nat -> l !! i = Some a -> l !! j = Some a' -> f a a' = true -> pairwise f l = true.
Proof.
  revert i j. induction l as [|b l IH]; intros i j Hij Hi Hj Hf; [done|]. cbn [pairwise].
  destruct j as [|j]; [lia|]. destruct i as [|i].
  - injection Hi as <-. apply orb_true_iff. left. apply existsb_exists. exists a'.
    split; [|done]. apply list_elem_of_In. by eapply (list_elem_of_lookup_2 _ j).
  - apply orb_true_iff. right. apply (IH i j); [lia|done..].
Qed.

Lemma conflict_sym x a a' : conflict x a a' = true -> conflict x a' a = true.
Proof.
  destruct a as [[w y] held], a' as [[w' y'] held']. unfold conflict.
  rewrite !andb_true_iff, !bool_decide_eq_true, !forallb_forall.
  intros [[[-> ->] Hw] Hd]. split_and!; [done|done|by rewrite orb_comm|].
  intros l Hl. rewrite bool_decide_eq_true. intros Hl'. apply list_elem_of_In in Hl'.
  specialize (Hd l Hl'). rewrite bool_decide_eq_true in Hd. by apply Hd, list_elem_of_In.
Qed.

(** The accesses of a race are accesses of the programs, with no lock in common. *)
Lemma race_conflict ss c x :
  locks_inv ss c -> race c x ->
  exists i j s s' a a', i <> j /\ ss !! i = Some s /\ ss !! j = Some s' /\
    a ∈ accesses [] s /\ a' ∈ accesses [] s' /\ conflict x a a' = true.
Proof.
  intros [Hx Ht] (i & j & ti & tj & w & w' & Hij & Hi & Hj & Hai & Haj & Hw).
  assert (Hacc : forall t w, next_access t = Some (w, x) ->
    (w, x, t_held t) ∈ todo_accesses (t_held t) (t_todo t)).
  { intros [held [|s k]] w0; unfold next_access; cbn [t_todo t_held]; [done|].
    destruct s; try done. intros [= -> ->]. cbn. set_solver. }
  destruct (Ht i ti Hi) as (_ & s & Hs & Hsub & _). destruct (Ht j tj Hj) as (_ & s' & Hs' & Hsub' & _).
  exists i, j, s, s', (w, x, t_held ti), (w', x, t_held tj).
  split_and!; [done|done|done|by apply Hsub, Hacc|by apply Hsub', Hacc|].
  unfold conflict. rewrite !bool_decide_eq_true_2 by done. rewrite Hw. cbn [andb].
  rewrite forallb_forall. intros l Hl. rewrite bool_decide_eq_true. intros Hl'.
  apply list_elem_of_In in Hl. by eapply (Hx i j).
Qed.

Lemma no_race ss c x :
  may_race x ss = false -> locks_inv ss c -> ~ race c x.
Proof.
  intros Hm Hc Hr. destruct (race_conflict ss c x Hc Hr) as
    (i & j & s & s' & a & a' & Hij & Hs & Hs' & Ha & Ha' & Hcf).
  assert (Hgo : forall i j s s' a a', (i < j)%nat -> ss !! i = Some s -> ss !! j = Some s' ->
    a ∈ accesses [] s -> a' ∈ accesses [] s' -> conflict x a a' = true -> may_race x ss = true).
  { clear. intros i j s s' a a' Hij Hs Hs' Ha Ha' Hcf. unfold may_race.
    eapply (pairwise_spec _ _ i j); [done|by rewrite list_lookup_fmap, Hs|by rewrite list_lookup_fmap, Hs'|].
    apply existsb_exists. exists a. split; [by apply list_elem_of_In|].
    apply existsb_exists. exists a'. split; [by apply list_elem_of_In|done]. }
  destruct (decide (i < j)%nat) as [Hlt|Hge].
  - by rewrite (Hgo i j s s' a a') in Hm by done.
  - rewrite (Hgo j i s' s a' a) in Hm; [done|lia|done..|]. by apply conflict_sym.
Qed.

(** ** Races that are found are there *)

Lemma drive_reaches fuel i x bs c c' : drive fuel i x bs c = Some c' -> reaches c c'.
Proof.
  revert bs c. induction fuel as [|fuel IH]; intros bs c; [done|]. cbn [drive].
  destruct (c !! i) as [t|] eqn:Hi; [|done].
  assert (Hstep : forall b bs', (t' ← thread_step c t b; drive fuel i x bs' (<[i := t']> c)) = Some c' ->
    reaches c c').
  { intros b bs' Hd. destruct (thread_step c t b) as [t'|] eqn:Hs; [|done].
    eapply rtc_l; [|by eapply IH]. by exists i, b, t, t'. }
  destruct bs as [|b bs]; [|by apply Hstep]. destruct (next_access t) as [[w y]|]; [|by apply Hstep].
  case_decide; [by intros [= <-]|by apply Hstep].
Qed.

Lemma run_out_reaches fuel i c : reaches c (run_out fuel i c).
Proof.
  revert c. induction fuel as [|fuel IH]; intros c; [done|]. cbn [run_out].
  destruct (c !! i) as [t|] eqn:Hi; [|done]. destruct (thread_step c t false) as [t'|] eqn:Hs; [|done].
  eapply rtc_l; [|apply IH]. by exists i, false, t, t'.
Qed.

Lemma run_outs_reaches fuel js c : reaches c (foldl (fun c j => run_out fuel j c) c js).
Proof.
  revert c. induction js as [|j js IH]; intros c; [done|]. cbn [foldl].
  etrans; [apply run_out_reaches|apply IH].
Qed.

(** The configuration a drive ends in, or the one it starts from. *)
Definition driven fuel i x bs (c : config) : config := default c (drive fuel i x bs c).

Lemma driven_reaches fuel i x bs c : reaches c (driven fuel i x bs c).
Proof.
  unfold driven. destruct (drive fuel i x bs c) as [c'|] eqn:Hd; [|done]. by eapply drive_reaches.
Qed.

Lemma raceb_race x i j c : raceb x i j c = true -> race c x.
Proof.
  unfold raceb. destruct (c !! i) as [ti|] eqn:Hi; [|done]. destruct (c !! j) as [tj|] eqn:Hj; cbn;
    [|by destruct (next_access ti) as [[]|]].
  destruct (next_access ti) as [[w y]|] eqn:Hai; [|done].
  destruct (next_access tj) as [[w' y']|] eqn:Haj; [|done].
  rewrite andb_true_iff, bool_decide_eq_true. intros [(Hij & -> & ->) Hw].
  by exists i, j, ti, tj, w, w'.
Qed.

Lemma find_race_reaches fuel js x ss :
  find_race fuel js x ss = true -> exists c, reaches (start <$> ss) c /\ race c x.
Proof.
  unfold find_race. intros Hf.
  apply existsb_exists in Hf as (i & _ & Hf). apply existsb_exists in Hf as (j & _ & Hf).
  apply existsb_exists in Hf as (w & _ & Hf). apply existsb_exists in Hf as (bs & _ & Hf).
  apply existsb_exists in Hf as (bs' & _ & Hf).
  set (c0 := foldl _ _ js) in Hf. destruct (drive fuel i x bs c0) as [c1|] eqn:H1; [|done]. cbn in Hf.
  destruct (drive fuel j x bs' c1) as [c2|] eqn:H2; [|done]. exists c2. split; [|by eapply raceb_race].
  etrans; [apply (run_outs_reaches fuel js)|]. etrans; by eapply drive_reaches.
Qed.
End locks.
Arguments stmt : clear implicits.
Arguments thread : clear implicits.
