(* ===== verification/Threads.v ===== *)
(** * The locks and the shared members of the multiplexer

    Every function of the program that runs while the main loop does, reduced to
    the locks it takes, the condition variables it waits on and the members it
    reads and writes that more than one thread could touch; its branches are left
    open.  Put together into the six threads of the process, this gives what
    [Locks] needs: the mutexes cannot deadlock, and exactly which members have a
    data race.

    The period is that from one start of the threads ([serial_mux.cpp:183]) to the
    next: [io_service.run()], the joins, the deletion of the components, the test of
    [muxRunning] and the creation of the next ones.  [serial_mux_stop] and the log's
    thread run through all of it.  The creation of the first components is the same
    code.  The client is any one client; members written
    once, before another thread can reach their object ([m_name], the listener's
    [m_protocolVersion], the options), are left out, and so are the members that
    constructors and destructors access.
    Only the accesses and their locks count here, not their values; an exception
    is taken at the end of its [try] block. *)

From Stdlib Require Import Lia.
From stdpp Require Import base list.
From S2P Require Import Prelude Locks.

(** ** Locks and members *)

Inductive mutex :=
  | MClientMgr       (* CBoostClientManager::m_lock *)
  | MInProgress      (* CBoostClientManager::m_inProgressMutex *)
  | MCommands        (* m_lock of the queue m_commands *)
  | MConnect         (* CBasePicardIO::m_connectMutex *)
  | MRead            (* CPicardBoost_Serial::m_readLock *)
  | MMuxLoop         (* gMuxLoopMutex *)
  | MLog             (* CBoostLog::m_lock *)
  | MMsgQueue.       (* m_lock of the queue m_msgQueue *)

Inductive member :=
  (* CBoostClientManager, its queue of commands *)
  | Clients | CurrentCommand | FilterUnion | PrevFilter | MgrRunning | Commands
  (* a client, its subscriber *)
  | Socket | State | Parser (* with m_input *) | AuthTimer | Params | NewParams | InTransaction
  (* CBasePicardIO *)
  | PicardRunning | Connected | ProtocolVersion | SeqNo | MgrSeqNo | Callback | Hdlc
  (* CPicardBoost_Serial, CPicardBoost_UDP *)
  | Device | ReadComplete | ReadLen | Endpoint
  (* CBoostClientListener *)
  | IsListening | Acceptor
  (* serial_mux.cpp *)
  | GPicardIO | GClientMgr | GListener | MuxRunning
  (* CBoostLog, its queue of lines *)
  | LogLevel | LogRunning | LogFile | MsgQueue.

#[export] Instance mutex_eq_dec : EqDecision mutex.
Proof. solve_decision. Defined.
#[export] Instance member_eq_dec : EqDecision member.
Proof. solve_decision. Defined.

Abbreviation code := (stmt mutex member).

Definition rd : member -> code := Access false.
Definition wr : member -> code := Access true.
Definition block : list code -> code := foldr Seq Skip.
Definition opt (s : code) : code := Choice s Skip.

(** ** The queue and the log *)

Definition push_sync (l : mutex) (q : member) : code := Locked l (block [rd q; wr q]).
Definition clear_sync (l : mutex) (q : member) : code := Locked l (block [rd q; wr q]).
Definition empty_sync (l : mutex) (q : member) : code := Locked l (rd q).
Definition timedPop_sync (l : mutex) (q : member) : code :=
  Locked l (block [rd q; opt (WaitOn l); rd q; opt (wr q)]).

(** [log], [logDump]: [CBoostLog::logMsg] *)
Definition log_sync : code :=
  Locked MLog (block [rd LogLevel; opt (push_sync MMsgQueue MsgQueue)]).

(** The file and what belongs to it: [m_log], [m_filename], [m_maxLogSize]. *)
Definition writeMsg_sync : code := block [rd LogFile; wr LogFile].

Definition logFromQueue_sync : code :=
  block [Loop (block [rd LogRunning; timedPop_sync MMsgQueue MsgQueue; opt writeMsg_sync]);
         rd LogRunning;
         Loop (block [empty_sync MMsgQueue MsgQueue; timedPop_sync MMsgQueue MsgQueue; writeMsg_sync]);
         empty_sync MMsgQueue MsgQueue].

(** ** A client *)

Definition client_close_sync : code :=
  block [wr AuthTimer; rd Socket; opt (wr Socket); wr State].

Definition client_write_sync : code := block [log_sync; wr Socket].

Definition setSubscription_sync : code := block [wr InTransaction; wr NewParams].
Definition resetFilter_sync : code := block [rd Params; wr NewParams; wr InTransaction].
Definition commitFilter_sync : code := block [rd NewParams; wr Params; wr InTransaction].

(** [removeClient], [addClient] and [addCommand] of the manager *)
Definition addCommand_sync : code := push_sync MCommands Commands.
Definition addClient_sync : code := Locked MClientMgr (wr Clients).

Definition recomputeSubscribeFilter_sync : code :=
  block [rd Clients; Loop (block [rd NewParams; rd Clients]); rd FilterUnion; wr PrevFilter;
         wr FilterUnion; opt log_sync].

Definition removeClient_sync : code :=
  block [rd CurrentCommand; opt (block [log_sync; wr CurrentCommand]);
         Locked MClientMgr
           (block [rd Clients;
                   opt (block [wr Clients; recomputeSubscribeFilter_sync;
                               opt (block [rd FilterUnion; addCommand_sync])])])].

Definition handleCommand_sync : code :=
  block [rd State;
         Choice addCommand_sync
           (block [rd State;
                   opt (block [client_write_sync; wr AuthTimer;
                               Choice (block [wr State; addClient_sync])
                                      (block [wr State; wr Socket; log_sync])])])].

(** [asyncRead], [handle_read], [handleAuthTimeout], [start] *)
Definition asyncRead_sync : code := wr Socket.

Definition handle_read_sync : code :=
  block [opt (block [log_sync; Loop (block [wr Parser; opt handleCommand_sync]); wr Parser;
                     rd State; opt asyncRead_sync]);
         opt (block [rd State; opt removeClient_sync; log_sync])].

Definition handleAuthTimeout_sync : code := opt (block [log_sync; wr State; client_close_sync]).

Definition start_sync : code := block [log_sync; wr AuthTimer; asyncRead_sync].

(** ** The manager and the listener *)

Definition closeClients_sync : code :=
  Locked MClientMgr (block [rd Clients; Loop (block [client_close_sync; rd Clients]); wr Clients]).

Definition mgr_stop_sync : code := block [wr MgrRunning; clear_sync MCommands Commands].

Definition sendResponse_sync : code := block [log_sync; client_write_sync].

Definition listener_stop_sync : code := block [wr IsListening; wr Acceptor; opt log_sync].

Definition asyncListen_sync : code := block [log_sync; wr Acceptor].

Definition handleAccept_sync : code := opt (block [start_sync; asyncListen_sync]).

(** [resetConnection] *)
Definition resetConnection_sync : code :=
  block [log_sync;
         rd GPicardIO; opt (block [log_sync; wr PicardRunning]);
         rd GClientMgr; opt (block [log_sync; closeClients_sync]);
         rd GListener; opt (block [log_sync; listener_stop_sync])].

Definition commandTimeout_sync : code := block [log_sync; sendResponse_sync; resetConnection_sync].

Definition commandComplete_sync : code :=
  block [rd CurrentCommand;
         Choice log_sync
           (block [log_sync; opt (block [rd PrevFilter; wr FilterUnion]);
                   Locked MInProgress
                     (block [wr CurrentCommand; rd CurrentCommand;
                             opt (block [sendResponse_sync; opt commitFilter_sync])])])].

Definition handleNotif_sync : code :=
  block [log_sync;
         Locked MClientMgr
           (block [rd Clients;
                   Loop (block [rd Params; opt (block [log_sync; client_write_sync]); rd Clients])])].

(** ** The Picard connection *)

Section connection.
Variable udp : bool.

(** [sendRaw] of either link *)
Definition sendRaw_sync : code :=
  if udp then block [rd Endpoint; wr Device; opt log_sync; log_sync]
  else block [wr Device; opt log_sync; log_sync].

(** [sendCommand(cmd.command, m_currentCommand.seq, retransmit)] *)
Definition sendCommand_sync : code :=
  block [rd SeqNo; opt (block [rd SeqNo; log_sync]); rd SeqNo; wr CurrentCommand; sendRaw_sync; rd SeqNo].

Definition sendAck_sync : code := block [wr MgrSeqNo; sendRaw_sync].
Definition sendHello_sync : code := block [rd ProtocolVersion; rd SeqNo; sendRaw_sync].

(** [checkProtocol], and what becomes of its result *)
Definition record_protocol_sync : code := block [opt log_sync; opt (wr ProtocolVersion)].

Definition onHelloResponse_sync : code :=
  block [record_protocol_sync;
         Choice (block [wr MgrSeqNo; wr SeqNo; rd Connected; opt (Locked MConnect (wr Connected))])
                log_sync].

Definition onMgrHello_sync : code :=
  block [record_protocol_sync; rd Connected; opt resetConnection_sync].

Definition onNotification_sync : code :=
  block [opt sendAck_sync; rd Callback; rd MgrSeqNo; opt handleNotif_sync; wr MgrSeqNo].

Definition onResponse_sync : code :=
  block [wr SeqNo; rd Callback; opt commandComplete_sync].

Definition frameComplete_sync : code :=
  opt (Choice (Choice onHelloResponse_sync onMgrHello_sync)
              (Choice onNotification_sync onResponse_sync)).

(** [CPicardBoost_Serial::read_async], and the handler of its reads *)
Definition read_async_sync : code :=
  block [log_sync; wr ReadComplete; wr ReadLen; wr Device;
         Locked MRead (block [rd ReadComplete; opt (block [WaitOn MRead; wr Device])]);
         rd ReadLen; log_sync; rd ReadLen; opt (block [rd ReadLen; log_sync]);
         Loop (block [rd ReadLen; wr Hdlc; opt frameComplete_sync]); rd ReadLen;
         opt (block [log_sync; resetConnection_sync])].

Definition handleRead_sync : code :=
  Locked MRead (block [wr ReadComplete; opt (block [log_sync; wr ReadLen])]).

(** [CPicardBoost_UDP::read]: [receive_from] stores the sender in [m_endpoint]. *)
Definition udp_read_sync : code :=
  block [log_sync; wr Device; opt (block [wr Endpoint; log_sync; frameComplete_sync]); opt log_sync].

Definition threadMain_sync : code :=
  block [wr Hdlc;
         Loop (block [rd PicardRunning; rd Connected;
                      opt (block [log_sync; sendHello_sync; log_sync]);
                      if udp then udp_read_sync else read_async_sync]);
         rd PicardRunning; opt log_sync].

Definition waitForHello_sync : code :=
  block [rd Connected; opt (Locked MConnect (WaitOn MConnect)); rd Connected].

(** ** The threads *)

Definition commandLoop_sync : code :=
  block [wr MgrRunning;
    Loop (block [rd MgrRunning; timedPop_sync MCommands Commands;
      opt (block [rd Clients;
        opt (block [opt log_sync;
          Choice sendResponse_sync
            (block [
              opt (block [setSubscription_sync; recomputeSubscribeFilter_sync; rd FilterUnion]);
              wr CurrentCommand;
              Loop (block [sendCommand_sync; Locked MInProgress (block [WaitOn MInProgress; rd CurrentCommand])]);
              opt (block [opt (block [rd PrevFilter; wr FilterUnion; resetFilter_sync]);
                          commandTimeout_sync]);
              wr CurrentCommand])])])]);
    rd MgrRunning].

Definition listen_thread_sync : code :=
  block [log_sync; rd GPicardIO; waitForHello_sync; rd GPicardIO; rd ProtocolVersion; log_sync;
         rd GListener; asyncListen_sync].

Definition serial_mux_stop_sync : code :=
  block [wr MuxRunning; resetConnection_sync; opt (block [log_sync; log_sync]);
         Locked MMuxLoop (WaitOn MMuxLoop)].

(** [io_service.run()]: the handlers it runs. *)
Definition io_service_run_sync : code :=
  Loop (Choice (Choice handle_read_sync handleAuthTimeout_sync)
               (Choice handleAccept_sync (if udp then Skip else handleRead_sync))).

(** [serial_mux_loop]: the rest of the start and [io_service.run()]; the stop of the
    components, whose threads are joined (2 the command thread, 3 [listen_thread],
    1 the Picard thread: positions in [mux_threads]); *)
Definition stop_components_sync : code :=
  block [log_sync; rd GPicardIO; wr Callback; rd GClientMgr; mgr_stop_sync; JoinOn 2%nat; JoinOn 3%nat;
         rd GPicardIO; wr PicardRunning; JoinOn 1%nat].

(** their deletion; *)
Definition delete_components_sync : code :=
  block [log_sync; rd GClientMgr; wr GClientMgr; rd GListener; wr GListener; rd GPicardIO; wr GPicardIO].

(** the tests of [muxRunning], with a connection to Picard that fails or succeeds, and
    the next manager and [gPicardIO->start()]. *)
Definition create_components_sync : code :=
  block [Loop (block [rd MuxRunning; wr GPicardIO; log_sync]); rd MuxRunning;
         opt (block [wr GPicardIO; opt log_sync; wr GClientMgr;
                     rd GPicardIO; rd GClientMgr; wr Callback; rd GPicardIO; wr PicardRunning])].

Definition serial_mux_loop_sync : code :=
  block [rd GPicardIO; rd GClientMgr; wr GListener; io_service_run_sync;
         stop_components_sync; delete_components_sync; create_components_sync].

Definition mux_threads : list code :=
  [serial_mux_loop_sync; threadMain_sync; commandLoop_sync; listen_thread_sync;
   serial_mux_stop_sync; logFromQueue_sync].

(** The order in which locks are taken: those a thread holds while it takes
    another have the smaller rank. *)
Definition lock_rank (l : mutex) : nat :=
  match l with
  | MConnect | MMuxLoop => 0
  | MRead | MClientMgr | MInProgress => 1
  | MCommands => 2
  | MLog => 3
  | MMsgQueue => 4
  end.

Definition all_members : list member :=
  [Clients; CurrentCommand; FilterUnion; PrevFilter; MgrRunning; Commands; Socket; State; Parser;
   AuthTimer; Params; NewParams; InTransaction; PicardRunning; Connected; ProtocolVersion; SeqNo;
   MgrSeqNo; Callback; Hdlc; Device; ReadComplete; ReadLen; Endpoint; IsListening; Acceptor;
   GPicardIO; GClientMgr; GListener; MuxRunning; LogLevel; LogRunning; LogFile; MsgQueue].
End connection.

(** The members with a data race, over either link. *)
Definition racy (udp : bool) (x : member) : bool :=
  match x with
  | Clients | CurrentCommand | FilterUnion | PrevFilter | MgrRunning
  | Socket | State | AuthTimer | Params | NewParams | InTransaction
  | PicardRunning | Connected | ProtocolVersion | SeqNo | Callback | Device
  | IsListening | Acceptor | GPicardIO | GClientMgr | GListener | MuxRunning => true
  | ReadComplete | ReadLen => negb udp
  | Endpoint => udp
  | Commands | Parser | MgrSeqNo | Hdlc
  | LogLevel | LogRunning | LogFile | MsgQueue => false
  end.

(** ** Facts *)

Lemma mux_ordered udp : forallb (ordered lock_rank []) (mux_threads udp) = true.
Proof. by destruct udp; vm_compute. Qed.

Lemma rank_bound l : (lock_rank l < 5)%nat.
Proof. destruct l; cbn; lia. Qed.

Lemma mux_inv udp c :
  reaches (start <$> mux_threads udp) c -> locks_inv lock_rank (mux_threads udp) c.
Proof. apply reaches_inv, start_inv, mux_ordered. Qed.

(** A member that is not racy has no conflict in the programs. *)
Lemma not_racy_safe udp x : racy udp x = false -> may_race x (mux_threads udp) = false.
Proof. destruct udp, x; first [discriminate 1|intros _; vm_compute; reflexivity]. Qed.

Lemma mux_joins udp : joins_leaves (mux_threads udp) = true.
Proof. by destruct udp; vm_compute. Qed.

(** For one that is, a run leads to the race: while the threads run, or, for what
    only the main thread writes or tests then, after the joins. *)
Definition joined_first (x : member) : list nat :=
  match x with GPicardIO | GClientMgr | MuxRunning => [2; 3; 1]%nat | _ => [] end.

Lemma racy_found udp x : racy udp x = true -> find_race 1000 (joined_first x) x (mux_threads udp) = true.
Proof. destruct udp, x; first [discriminate 1|intros _; vm_compute; reflexivity]. Qed.

(** ** Properties *)

(** C16: the locks never stand in the way.  In whatever state the six threads have
    got to, over either link, they can all run to their ends, the joins of the main
    thread included: no set of threads waits for each other's mutexes, although the
    manager logs, queues and writes to sockets, and the reset closes every client,
    while holding some.  (A wait for a condition is taken to be woken, if only
    spuriously: whether the notification comes is not part of this.) *)
Theorem locks_never_deadlock udp c :
  reaches (start <$> mux_threads udp) c ->
  exists c', reaches c c' /\ forallb finished c' = true.
Proof.
  intros Hr. exact (all_can_finish lock_rank _ c 5 rank_bound (mux_joins udp) (mux_inv udp c Hr)).
Qed.

(** C15: the data races, exactly, from one start of the threads to the next.  The
    queues, the parser, the log, the manager's sequence number and the receiver
    are only touched by one thread or under their lock.  The client list, the
    command in flight, the filters, the sockets and states of the clients, the
    sequence number, the connection and running flags, the listener and the port
    are not, nor are the pointers to the components: two threads can be at
    an access to them at once, one of them a write.  [serial_mux_stop] is not joined:
    it can read [gPicardIO] and [gClientMgr] while the main thread deletes the
    components and sets them to NULL or to new ones.  Over UDP the address that
    commands are sent to is another, which every datagram read overwrites. *)
Theorem data_races udp x :
  (exists c, reaches (start <$> mux_threads udp) c /\ race c x) <-> racy udp x = true.
Proof.
  split.
  - intros (c & Hr & Hx). apply not_false_iff_true. intros Hs.
    by apply (no_race lock_rank _ c x (not_racy_safe udp x Hs) (mux_inv udp c Hr)).
  - intros Hx. by apply (find_race_reaches 1000 (joined_first x)), racy_found.
Qed.

(** ** Witnesses *)

(** A handler adds a client to the list, with the lock; the command thread looks
    for one in it, without. *)
Definition client_list_race : list (thread mutex member) :=
  let threads := mux_threads false in
  let adding := hd [] (paths true Clients (default Skip (threads !! 0%nat))) in
  let looking := hd [] (paths false Clients (default Skip (threads !! 2%nat))) in
  driven 1000 2 Clients looking (driven 1000 0 Clients adding (start <$> threads)).

(** [serial_mux_stop] has seen the manager and is about to look again; the main
    thread, its three threads joined, is about to set the pointer to a new one. *)
Definition pointer_race : list (thread mutex member) :=
  let threads := mux_threads false in
  let c := foldl (fun c j => run_out 1000 j c) (start <$> threads) [2; 3; 1]%nat in
  let creating := default [] (last (paths true GClientMgr (default Skip (threads !! 0%nat)))) in
  let stopping := hd [] (paths false GClientMgr (default Skip (threads !! 4%nat))) in
  driven 1000 4 GClientMgr stopping (driven 1000 0 GClientMgr creating c).

Example pointer_race_found :
  raceb GClientMgr 0 4 pointer_race = true /\
  (finished <$> [1; 2; 3]%nat ≫= fun i => option_list (pointer_race !! i)) = [true; true; true].
Proof. vm_compute. split; reflexivity. Qed.

Lemma locks_never_deadlock_witness :
  raceb Clients 0 2 client_list_race = true /\
  t_held <$> client_list_race !! 0%nat = Some [MClientMgr] /\
  exists c', reaches client_list_race c' /\ forallb finished c' = true.
Proof.
  split; [vm_compute; reflexivity|]. split; [vm_compute; reflexivity|].
  apply (locks_never_deadlock false). unfold client_list_race.
  etrans; apply driven_reaches.
Defined.
