(* ===== verification/ClrUtils.v ===== *)
(** * Managed code ([serial_mux/CLRUtils.h], [CLRUtils.cpp], [ISocket] of
    [Common.h])

    The C++/CLI classes of the source run beside managed objects, whose
    operations raise exceptions.  [clr] is the monad of such code; the arrays of
    the runtime are bounds-checked; [CLRSocket] puts the interface [ISocket] on a
    socket of the runtime, which is the parameter [NetSocket]. *)

From Stdlib Require Import ZArith Lia.
From stdpp Require Import base list list_numbers strings pretty.
From S2P Require Import Prelude.
#[local] Open Scope Z_scope.

(** ** Exceptions *)

Inductive clr_exception :=
  | TimeoutException | SocketException | ObjectDisposedException
  | IndexOutOfRangeException | SemaphoreFullException | OtherException.

#[export] Instance clr_exception_eq_dec : EqDecision clr_exception.
Proof. solve_decision. Defined.

(** A computation returns, raises an exception, or is undefined. *)
Inductive clr (A : Type) :=
  | Returns (a : A)
  | Raises (e : clr_exception)
  | Faults (why : ub_kind).
Arguments Returns {A} a.
Arguments Raises {A} e.
Arguments Faults {A} why.

#[export] Instance clr_ret : MRet clr := @Returns.
#[export] Instance clr_bind : MBind clr := fun A B f m =>
  match m with
  | Returns a => f a
  | Raises e => Raises e
  | Faults why => Faults why
  end.

(** Native code called from managed code. *)
Definition native {A} (m : outcome A) : clr A :=
  match m with Ok a => Returns a | Undefined why => Faults why end.

Fixpoint clr_fold {A S} (f : S -> A -> clr S) (s : S) (l : list A) : clr S :=
  match l with
  | [] => Returns s
  | x :: l => s ← f s x; clr_fold f s l
  end.

(** ** Arrays *)

Definition ary_get (ary : list Z) (i : Z) : clr Z :=
  if 0 <=? i
  then match ary !! Z.to_nat i with
       | Some b => Returns b | None => Raises IndexOutOfRangeException end
  else Raises IndexOutOfRangeException.

Definition ary_set (ary : list Z) (i b : Z) : clr (list Z) :=
  if (0 <=? i) && (i <? Z.of_nat (length ary))
  then Returns (<[Z.to_nat i := b]> ary) else Raises IndexOutOfRangeException.

(** [for (int i = 0; i < dataLength; i++)] *)
Definition convertArrayToVector (ary : list Z) (offset dataLength : Z) : clr (list Z) :=
  clr_fold (fun data i => b ← ary_get ary (offset + i); Returns (push_back data b))
    [] (seqZ 0 dataLength).

Definition convertVectorToArray (vec : list Z) : clr (list Z) :=
  clr_fold (fun ary i => match vec !! Z.to_nat i with
                         | Some b => ary_set ary i b
                         | None => Faults OutOfBounds
                         end)
    (replicate (length vec) 0) (seqZ 0 (Z.of_nat (length vec))).

Lemma ary_get_Returns ary i b : ary !! i = Some b -> ary_get ary (Z.of_nat i) = Returns b.
Proof.
  intros Hb. unfold ary_get. rewrite (proj2 (Z.leb_le 0 _)) by lia. by rewrite Nat2Z.id, Hb.
Qed.

Lemma ary_set_mid pre x l b :
  ary_set (pre ++ x :: l) (Z.of_nat (length pre)) b = Returns (pre ++ b :: l).
Proof.
  unfold ary_set. rewrite (proj2 (Z.leb_le 0 _)) by lia.
  rewrite (proj2 (Z.ltb_lt _ _)) by (rewrite length_app; cbn; lia).
  cbn [andb]. by rewrite Nat2Z.id, insert_app_r_alt, Nat.sub_diag by lia.
Qed.

Lemma seqZ_of_nat (n : nat) : seqZ 0 (Z.of_nat n) = Z.of_nat <$> seq 0 n.
Proof. unfold seqZ. rewrite Nat2Z.id. apply list_fmap_ext. intros i x _. lia. Qed.

(** A loop over the indices of a part of an array, as a fold over its elements. *)
Lemma clr_fold_slice {S} (f : S -> Z -> clr S) ary o k n s :
  (o + k + n <= length ary)%nat ->
  clr_fold (fun s i => b ← ary_get ary (Z.of_nat o + i); f s b) s (Z.of_nat <$> seq k n)
  = clr_fold f s (take n (drop (o + k) ary)).
Proof.
  revert k s. induction n as [|n IH]; intros k s Hn; [done|].
  destruct (lookup_lt_is_Some_2 ary (o + k) ltac:(lia)) as [b Hb].
  rewrite (drop_S _ b) by done. cbn [seq fmap list_fmap take clr_fold].
  rewrite <- Nat2Z.inj_add, (ary_get_Returns _ _ _ Hb). cbn [mbind clr_bind].
  destruct (f s b) as [s'| |]; [|done|done].
  replace (Datatypes.S (o + k)) with (o + Datatypes.S k)%nat by lia. apply IH. lia.
Qed.

Lemma clr_fold_push (l v : list Z) :
  clr_fold (fun data b => Returns (push_back data b)) v l = Returns (v ++ l).
Proof.
  revert v. induction l as [|b l IH]; intros v; [by rewrite app_nil_r|].
  cbn. rewrite IH. unfold push_back. by rewrite <- app_assoc.
Qed.

(** A part inside the array is copied; a negative length gives nothing. *)
Lemma convertArrayToVector_spec ary o n :
  (o + n <= length ary)%nat ->
  convertArrayToVector ary (Z.of_nat o) (Z.of_nat n) = Returns (take n (drop o ary)).
Proof.
  intros Hn. unfold convertArrayToVector. rewrite seqZ_of_nat.
  rewrite (clr_fold_slice (fun data b => Returns (push_back data b)) ary o 0) by lia.
  rewrite Nat.add_0_r. apply clr_fold_push.
Qed.

Lemma convertArrayToVector_neg ary o n : n <= 0 -> convertArrayToVector ary o n = Returns [].
Proof. intros Hn. unfold convertArrayToVector. by rewrite seqZ_nil. Qed.

Lemma convertVectorToArray_id vec : convertVectorToArray vec = Returns vec.
Proof.
  unfold convertVectorToArray. rewrite seqZ_of_nat.
  enough (forall pre todo : list Z, vec = pre ++ todo ->
    clr_fold (fun ary i => match vec !! Z.to_nat i with
                           | Some b => ary_set ary i b | None => Faults OutOfBounds end)
      (pre ++ replicate (length todo) 0) (Z.of_nat <$> seq (length pre) (length todo))
    = Returns vec) as Hgen by exact (Hgen [] vec eq_refl).
  intros pre todo. revert pre. induction todo as [|b todo IH]; intros pre Hv.
  - cbn. by rewrite Hv, !app_nil_r.
  - cbn [length seq fmap list_fmap clr_fold replicate]. rewrite Nat2Z.id, Hv.
    rewrite list_lookup_middle, ary_set_mid by done.
    cbn [mbind clr_bind].
    specialize (IH (pre ++ [b])). rewrite <- !app_assoc, length_app, Nat.add_1_r in IH.
    cbn [app] in IH. rewrite <- Hv in IH |- *. by apply IH.
Qed.

(** ** [ISocket] and [CLRSocket] *)

Class ISocket (K : Type) := {
  isock_close : K -> clr K;
  isock_setTimeout : K -> Z -> clr K;
  isock_isConnected : K -> clr bool;
  (* the vector to fill and its capacity *)
  isock_receive : K -> list Z -> nat -> clr (Z * list Z * K);
  isock_send : K -> list Z -> clr (Z * K);
  isock_getRemotePeer : K -> clr string;
}.

(** [System::Net::Sockets::Socket]: [Receive] fills at most the given number of
    bytes and returns those it filled. *)
Class NetSocket (N : Type) := {
  net_Close : N -> clr N;
  net_ReceiveTimeout : N -> Z -> clr N;
  net_Connected : N -> bool;
  net_Receive : N -> nat -> clr (list Z * N);
  net_Send : N -> list Z -> clr (Z * N);
  net_RemoteEndPoint : N -> clr (string * Z);
}.

Record CLRSocket (N : Type) := { m_sock : N }.
Arguments m_sock {N} _.
Arguments Build_CLRSocket {N} _.

(** [buffer] is passed for its capacity: its contents are replaced. *)
Definition clrsocket_receive {N} `{NetSocket N} (k : CLRSocket N) (buffer : list Z) (capacity : nat)
  : clr (Z * list Z * CLRSocket N) :=
  '(bytes, s) ← net_Receive (m_sock k) capacity;
  let readLen := Z.of_nat (length bytes) in
  let clrBuffer := bytes ++ replicate (capacity - length bytes) 0 in
  buffer ← convertArrayToVector clrBuffer 0 readLen;
  Returns (readLen, buffer, {| m_sock := s |}).

Definition clrsocket_send {N} `{NetSocket N} (k : CLRSocket N) (buffer : list Z)
  : clr (Z * CLRSocket N) :=
  clrBuffer ← convertVectorToArray buffer;
  '(sentLen, s) ← net_Send (m_sock k) clrBuffer;
  Returns (sentLen, {| m_sock := s |}).

Definition getRemotePeer {N} `{NetSocket N} (k : CLRSocket N) : clr string :=
  '(address, port) ← net_RemoteEndPoint (m_sock k);
  Returns (address +:+ ":" +:+ pretty port).

#[export] Instance CLRSocket_ISocket {N} `{NetSocket N} : ISocket (CLRSocket N) := {
  isock_close k := s ← net_Close (m_sock k); Returns {| m_sock := s |};
  isock_setTimeout k millisecs := s ← net_ReceiveTimeout (m_sock k) millisecs; Returns {| m_sock := s |};
  isock_isConnected k := Returns (net_Connected (m_sock k));
  isock_receive := clrsocket_receive;
  isock_send := clrsocket_send;
  isock_getRemotePeer := getRemotePeer;
}.

(** What a socket of the runtime gives and takes passes unchanged. *)
Lemma clrsocket_receive_spec {N} `{NetSocket N} k buffer capacity bytes s :
  net_Receive (m_sock k) capacity = Returns (bytes, s) -> (length bytes <= capacity)%nat ->
  clrsocket_receive k buffer capacity = Returns (Z.of_nat (length bytes), bytes, {| m_sock := s |}).
Proof.
  intros Hr Hl. unfold clrsocket_receive. rewrite Hr. cbn [mbind clr_bind].
  rewrite (convertArrayToVector_spec _ 0) by (rewrite length_app; lia).
  cbn [mbind clr_bind]. by rewrite drop_0, take_app_length.
Qed.

Lemma clrsocket_send_spec {N} `{NetSocket N} k buffer :
  clrsocket_send k buffer
  = ('(n, s) ← net_Send (m_sock k) buffer; Returns (n, {| m_sock := s |})).
Proof. unfold clrsocket_send. by rewrite convertVectorToArray_id. Qed.
