(* ===== verification/PicardClr.v ===== *)
(** * The managed links to Picard ([serial_mux/PicardCLR.h], [PicardCLR.cpp],
    [connectSerial] of [serial_mux.cpp])

    [CPicardCLR_Serial] and [CPicardCLR_UDP] take the place of the links of
    [PicardLink] when the program is built with [USE_PICARD_CLR].  The serial link
    has a hardware flow control: it raises RTS, polls DSR until it is set or the
    time is over, writes, and lowers RTS.  What the port answers, and the clock at
    each poll, are the input of a call. *)

From Stdlib Require Import ZArith Lia.
From stdpp Require Import base list list_numbers strings.
From S2P Require Import Prelude Hdlc Common MuxMessage BasePicard PicardLink Options ClrUtils.
Import Receiver Encoder Delivery.
#[local] Open Scope Z_scope.

(** ** [System::IO::Ports::SerialPort] *)

(** What the source sets, and the buffers written. *)
Record clr_port := {
  PortName : string;
  BaudRate : Z;
  ReadTimeout : Z;       (* milliseconds *)
  WriteTimeout : Z;
  IsOpen : bool;
  DtrEnable : bool;
  RtsEnable : bool;
  port_written : list (list Z);
}.

(** [gcnew SerialPort()] *)
Definition new_clr_port : clr_port :=
  {| PortName := "COM1"; BaudRate := 9600; ReadTimeout := -1; WriteTimeout := -1;
     IsOpen := false; DtrEnable := false; RtsEnable := false; port_written := [] |}.

Definition set_rts (b : bool) (p : clr_port) : clr_port :=
  {| PortName := PortName p; BaudRate := BaudRate p; ReadTimeout := ReadTimeout p;
     WriteTimeout := WriteTimeout p; IsOpen := IsOpen p; DtrEnable := DtrEnable p;
     RtsEnable := b; port_written := port_written p |}.
Definition set_dtr (b : bool) (p : clr_port) : clr_port :=
  {| PortName := PortName p; BaudRate := BaudRate p; ReadTimeout := ReadTimeout p;
     WriteTimeout := WriteTimeout p; IsOpen := IsOpen p; DtrEnable := b;
     RtsEnable := RtsEnable p; port_written := port_written p |}.
Definition set_IsOpen (b : bool) (p : clr_port) : clr_port :=
  {| PortName := PortName p; BaudRate := BaudRate p; ReadTimeout := ReadTimeout p;
     WriteTimeout := WriteTimeout p; IsOpen := b; DtrEnable := DtrEnable p;
     RtsEnable := RtsEnable p; port_written := port_written p |}.
Definition set_ReadTimeout (ms : Z) (p : clr_port) : clr_port :=
  {| PortName := PortName p; BaudRate := BaudRate p; ReadTimeout := ms;
     WriteTimeout := WriteTimeout p; IsOpen := IsOpen p; DtrEnable := DtrEnable p;
     RtsEnable := RtsEnable p; port_written := port_written p |}.

#[export] Instance clr_port_write : SerialPort clr_port := fun p bytes =>
  {| PortName := PortName p; BaudRate := BaudRate p; ReadTimeout := ReadTimeout p;
     WriteTimeout := WriteTimeout p; IsOpen := IsOpen p; DtrEnable := DtrEnable p;
     RtsEnable := RtsEnable p; port_written := push_back (port_written p) bytes |}.

(** What [connectSerial] gets from the port it creates: the exceptions of setting
    [PortName], of [Open], and of setting [DtrEnable] and [RtsEnable], if any. *)
Record connect_answers := {
  ca_name : option clr_exception;
  ca_open : option clr_exception;
  ca_dtr : option clr_exception;
  ca_rts : option clr_exception;
}.

(** [connectSerial]: the port as it is left, and the exception that ended it. *)
Definition connectSerial (port : string) (a : connect_answers) : clr_port * option clr_exception :=
  let sp := new_clr_port in
  match ca_name a with
  | Some e => (sp, Some e)
  | None =>
      let sp := {| PortName := port; BaudRate := DEFAULT_BAUD_RATE; ReadTimeout := 500;
                   WriteTimeout := 500; IsOpen := false; DtrEnable := DtrEnable sp;
                   RtsEnable := RtsEnable sp; port_written := port_written sp |} in
      match ca_open a with
      | Some e => (sp, Some e)
      | None =>
          let sp := set_IsOpen true sp in
          match ca_dtr a with
          | Some e => (sp, Some e)
          | None =>
              let sp := set_dtr true sp in
              match ca_rts a with
              | Some e => (sp, Some e)
              | None => (set_rts false sp, None)
              end
          end
      end
  end.

(** ** The serial link *)

Record CPicardCLR_Serial := {
  m_rtsDelay : Z;
  m_hwFlowControl : bool;
  m_readTimeout : Z;
}.

(** What the link uses of the rest of the program: its port, [resetConnection],
    and [m_hdlc->addByte], in which a managed exception may pass. *)
Class ClrHost (S : Type) := {
  host_port : S -> clr_port;
  host_set_port : clr_port -> S -> S;
  host_reset : S -> S;
  host_addByte : S -> Z -> outcome (S * option clr_exception);
}.

(** The answers to one [sendRaw]: raising RTS; the clock before the polls; DSR
    and the clock, or an exception, at each poll; the write; lowering RTS. *)
Record send_answers := {
  sa_raise : option clr_exception;
  sa_start : Z;                                  (* microseconds *)
  sa_polls : list ((clr_exception + bool) * Z);
  sa_write : option clr_exception;
  sa_lower : option clr_exception;
}.

(** A call returns, is still polling after all answers, or is left by an
    exception. *)
Inductive send_result (S : Type) := SendDone (s : S) | SendPolling (s : S) | SendEscapes (e : clr_exception) (s : S).
Arguments SendDone {S} s. Arguments SendPolling {S} s. Arguments SendEscapes {S} e s.

(** [while (m_serial->DsrHolding == 0)]: whether DSR was set in time. *)
Fixpoint wait_dsr (timeout : Z) (polls : list ((clr_exception + bool) * Z))
  : option (clr_exception + bool) :=
  match polls with
  | [] => None
  | (inl e, _) :: _ => Some (inl e)
  | (inr true, _) :: _ => Some (inr true)
  | (inr false, now) :: polls => if timeout <? now then Some (inr false) else wait_dsr timeout polls
  end.

Section link.
Context {S : Type} `{ClrHost S} (cfg : CPicardCLR_Serial).
Implicit Types s : S.

(** The [try] block of [sendRaw] and what follows it. *)
Definition clr_write (a : send_answers) (encodeddata : list Z) s : S :=
  match sa_write a with
  | Some _ => host_reset s
  | None =>
      let s := host_set_port (serial_write (host_port s) encodeddata) s in
      if m_hwFlowControl cfg then
        match sa_lower a with
        | Some _ => host_reset s
        | None => host_set_port (set_rts false (host_port s)) s
        end
      else s
  end.

(** [CPicardCLR_Serial::sendRaw] *)
Definition clr_serial_sendRaw (a : send_answers) s (data : list Z) : send_result S :=
  let encodedvec := encodeHDLC data in
  match convertVectorToArray encodedvec with
  | Returns encodeddata =>
      if m_hwFlowControl cfg then
        match sa_raise a with
        | Some e => SendEscapes e s
        | None =>
            let s := host_set_port (set_rts true (host_port s)) s in
            match wait_dsr (sa_start a + 1000 * WriteTimeout (host_port s)) (sa_polls a) with
            | None => SendPolling s
            | Some (inl e) => SendEscapes e s
            | Some (inr false) => SendDone s
            | Some (inr true) => SendDone (clr_write a encodeddata s)
            end
        end
      else SendDone (clr_write a encodeddata s)
  | Raises e => SendEscapes e s
  | Faults _ => SendPolling s   (* the copy cannot fail: convertVectorToArray_id *)
  end.

(** The loop [m_hdlc->addByte(input[i])]: the state, and the exception that ended
    it. *)
Fixpoint clr_deliver (input : list Z) s (l : list Z) : outcome (S * option clr_exception) :=
  match l with
  | [] => Ok (s, None)
  | i :: l =>
      match ary_get input i with
      | Returns b =>
          '(s, raised) ← host_addByte s b;
          match raised with Some e => Ok (s, Some e) | None => clr_deliver input s l end
      | Raises e => Ok (s, Some e)
      | Faults why => Undefined why
      end
  end.

(** [CPicardCLR_Serial::read]; [Read] fills at most [INPUT_BUFFER_LEN] bytes. *)
Definition clr_serial_read (timeout : Z) (read : clr_exception + list Z) s : outcome S :=
  let s := host_set_port (set_ReadTimeout timeout (host_port s)) s in
  '(s, raised) ←
    match read with
    | inl e => Ok (s, Some e)
    | inr bytes =>
        let input := bytes ++ replicate (INPUT_BUFFER_LEN - length bytes) 0 in
        clr_deliver input s (seqZ 0 (Z.of_nat (length bytes)))
    end;
  Ok (match raised with
      | None | Some TimeoutException => s
      | Some _ => host_reset s
      end).
End link.

(** ** The UDP link *)

Section udp.
Context {P M : Type} `{UdpSocket P} `{IPicardCallback M} `{IConnectionReset M}.

(** [CPicardCLR_UDP::sendRaw]; [fails] says whether [Send] raises, which the source
    catches. *)
Definition clr_udp_sendRaw (fails : bool) (w : udp_world P M) (data : list Z) : clr (udp_world P M) :=
  let length := Z.of_nat (length data) in
  buf ← clr_fold (fun buf i => match data !! Z.to_nat i with
                               | Some b => ary_set buf (i + 1) b
                               | None => Faults OutOfBounds
                               end)
          (replicate (Z.to_nat (length + 1)) 0) (seqZ 0 length);
  Returns (if fails then w else {| s_port := send_to (s_port w) buf; s_mux := s_mux w |}).

End udp.

(** [CPicardCLR_UDP::read]: every exception is caught. *)
Definition clr_udp_read {E} `{IPicardCallback E} `{IPicardLink E} `{IConnectionReset E}
  (s : CBasePicardIO * E) (i : device_input) : outcome (CBasePicardIO * E) :=
  match i with
  | DeviceException => Ok s
  | DeviceBytes buf =>
      match convertArrayToVector buf 1 (Z.of_nat (length buf) - 1) with
      | Returns data => picard_frameComplete s data
      | Raises _ => Ok s
      | Faults why => Undefined why
      end
  end.

(** ** Facts *)

Section polling.
Implicit Types polls : list ((clr_exception + bool) * Z).

(** A poll that leaves the loop going. *)
Definition still_low (timeout : Z) (p : (clr_exception + bool) * Z) : Prop :=
  p.1 = inr false /\ p.2 <= timeout.

Lemma wait_dsr_app timeout before polls :
  Forall (still_low timeout) before ->
  wait_dsr timeout (before ++ polls) = wait_dsr timeout polls.
Proof.
  intros Hb. induction Hb as [|[x n] b [Hx Hn] _ IH]; [done|].
  cbn in Hx, Hn. subst x. cbn [app wait_dsr]. by rewrite (proj2 (Z.ltb_ge _ _)) by lia.
Qed.

(** With a clock that advances by a millisecond from poll to poll the polling is
    over after the write timeout. *)
Lemma wait_dsr_ends start ms polls :
  0 <= ms -> Z.of_nat (length polls) > ms + 1 ->
  (forall i p, polls !! i = Some p -> start + 1000 * Z.of_nat i <= p.2) ->
  wait_dsr (start + 1000 * ms) polls <> None.
Proof.
  intros Hms Hlen Hclock Hw.
  enough (forall k, (k <= length polls)%nat -> wait_dsr (start + 1000 * ms) (drop k polls) = None) as Hall.
  { destruct (lookup_lt_is_Some_2 polls (Z.to_nat (ms + 1)) ltac:(lia)) as [[x now] Hx].
    specialize (Hall (Z.to_nat (ms + 1)) ltac:(lia)). rewrite (drop_S _ _ _ Hx) in Hall.
    specialize (Hclock _ _ Hx). cbn [snd] in Hclock. cbn [wait_dsr] in Hall.
    destruct x as [|[]]; [done..|]. rewrite (proj2 (Z.ltb_lt _ _)) in Hall by lia. done. }
  intros k. induction k as [|k IH]; intros Hk; [exact Hw|].
  destruct (lookup_lt_is_Some_2 polls k ltac:(lia)) as [[x now] Hx].
  specialize (IH ltac:(lia)). rewrite (drop_S _ _ _ Hx) in IH. cbn [wait_dsr] in IH.
  destruct x as [|[]]; [done..|]. by destruct (_ <? _).
Qed.
End polling.

(** ** The host of [BasePicard] and [PicardLink] *)

Section host.
Context {M : Type} `{IPicardCallback M} `{IConnectionReset M}.
Abbreviation state := (CBasePicardIO * serial_world clr_port M)%type.
Implicit Types (s : state).

#[export] Instance picard_clr_host : ClrHost state := {
  host_port s := s_port s.2;
  host_set_port p s := (s.1, {| s_port := p; s_mux := s_mux s.2 |});
  host_reset s := resetConnection s.1 s.2;
  host_addByte s b :=
    match m_hdlc s.1 with
    | None => Undefined NullDeref
    | Some hdlc =>
        '(hdlc, (io, w)) ← addByte (hdlc, s) b;
        Ok ((set_hdlc (Some hdlc) io, w), None)
    end;
}.

Lemma host_addByte_read s b :
  host_addByte s b = (s ← serial_read s (DeviceBytes [b]); Ok (s, None)).
Proof.
  destruct s as [io w]. cbn [host_addByte picard_clr_host fst snd serial_read].
  destruct (m_hdlc io) as [hdlc|]; [|done]. cbn [foldM].
  by destruct (addByte _ b) as [[h [io1 w1]]|].
Qed.

Lemma clr_deliver_reads input k n s :
  (k + n <= length input)%nat ->
  clr_deliver input s (Z.of_nat <$> seq k n)
  = (s ← foldM serial_read s (DeviceBytes <$> ((fun b => [b]) <$> take n (drop k input)));
     Ok (s, None)).
Proof.
  revert k s. induction n as [|n IH]; intros k s Hn; [done|].
  destruct (lookup_lt_is_Some_2 input k ltac:(lia)) as [b Hb].
  rewrite (drop_S _ b) by done. cbn [seq fmap list_fmap clr_deliver take foldM].
  rewrite (ary_get_Returns _ _ _ Hb), host_addByte_read, !bind_assoc.
  destruct (serial_read s _) as [s1|]; [|done]. step_bind. apply IH. lia.
Qed.

(** One read is the reads of its bytes. *)
Lemma serial_read_bytes s bytes :
  m_hdlc s.1 <> None ->
  foldM serial_read s (DeviceBytes <$> ((fun b => [b]) <$> bytes))
  = serial_read s (DeviceBytes bytes).
Proof.
  destruct s as [io w]. intros Hh. cbn [fst] in Hh.
  destruct (m_hdlc io) as [hdlc|] eqn:He; [|done].
  rewrite (serial_reads io w hdlc) by done. cbn [serial_read]. rewrite He.
  replace (concat ((fun b => [b]) <$> bytes)) with bytes; [done|].
  induction bytes as [|b bytes IH]; [done|]. cbn. by f_equal.
Qed.

Lemma serial_read_nothing s : serial_read s (DeviceBytes []) = Ok s.
Proof.
  destruct s as [io w]. cbn. destruct (m_hdlc io) eqn:Hh; [|done].
  by rewrite (set_hdlc_same io) by done.
Qed.

Lemma clr_read_bytes timeout bytes s :
  (length bytes <= INPUT_BUFFER_LEN)%nat ->
  clr_serial_read timeout (inr bytes) s
  = serial_read (host_set_port (set_ReadTimeout timeout (s_port s.2)) s) (DeviceBytes bytes).
Proof.
  intros Hlen. unfold clr_serial_read. set (s1 := host_set_port _ s).
  rewrite seqZ_of_nat, clr_deliver_reads by (rewrite length_app; lia).
  rewrite drop_0, take_app_length. destruct (m_hdlc s1.1) as [hdlc|] eqn:Hh.
  - rewrite serial_read_bytes by congruence. by destruct (serial_read s1 _).
  - destruct s1 as [io w]. cbn [fst] in Hh. destruct bytes as [|b bytes]; cbn; by rewrite Hh.
Qed.
End host.

(** ** The UDP buffers *)

Section udp_facts.
Context {E : Type} `{IPicardCallback E} `{IPicardLink E} `{IConnectionReset E}.
Implicit Types (u : CBasePicardIO * E).

Lemma clr_udp_read_spec u datagram :
  clr_udp_read u (DeviceBytes datagram) = picard_frameComplete u (drop 1 datagram).
Proof.
  unfold clr_udp_read. destruct datagram as [|d frame]; [by rewrite convertArrayToVector_neg|].
  cbn [length]. replace (Z.of_nat (Datatypes.S (length frame)) - 1) with (Z.of_nat (length frame)) by lia.
  rewrite (convertArrayToVector_spec _ 1) by (cbn; lia). cbn [drop].
  by rewrite drop_0, firstn_all.
Qed.

Lemma udp_read_short u datagram :
  (1 <= length datagram <= INPUT_BUFFER_LEN)%nat ->
  udp_read u (DeviceBytes datagram) = picard_frameComplete u (drop 1 datagram).
Proof.
  intros Hlen. rewrite udp_read_datagram. destruct datagram as [|d frame]; [cbn in Hlen; lia|].
  rewrite take_ge; [done|]. cbn [length] in Hlen. lia.
Qed.

End udp_facts.

Lemma clr_udp_buffer (data : list Z) :
  clr_fold (fun buf i => match data !! Z.to_nat i with
                         | Some b => ary_set buf (i + 1) b | None => Faults OutOfBounds end)
    (replicate (Z.to_nat (Z.of_nat (length data) + 1)) 0) (seqZ 0 (Z.of_nat (length data)))
  = Returns (0 :: data).
Proof.
  rewrite seqZ_of_nat. rewrite Z2Nat.inj_add, Nat2Z.id, Nat.add_1_r by lia. cbn [replicate].
  enough (forall pre todo : list Z, data = pre ++ todo ->
    clr_fold (fun buf i => match data !! Z.to_nat i with
                           | Some b => ary_set buf (i + 1) b | None => Faults OutOfBounds end)
      (0 :: pre ++ replicate (length todo) 0) (Z.of_nat <$> seq (length pre) (length todo))
    = Returns (0 :: data)) as Hgen by exact (Hgen [] data eq_refl).
  intros pre todo. revert pre. induction todo as [|b todo IH]; intros pre Hd.
  - cbn. by rewrite Hd, !app_nil_r.
  - cbn [length seq fmap list_fmap clr_fold replicate]. rewrite Nat2Z.id, Hd, list_lookup_middle by done.
    replace (Z.of_nat (length pre) + 1) with (Z.of_nat (length (0 :: pre))) by (cbn; lia).
    rewrite !app_comm_cons, ary_set_mid. cbn [mbind clr_bind].
    specialize (IH (pre ++ [b])). rewrite <- !app_assoc, length_app, Nat.add_1_r in IH.
    cbn [app] in IH |- *. rewrite <- Hd in IH |- *. by apply IH.
Qed.

(** ** Properties *)

(** C37: the managed links do what the links of [PicardLink] do.  Without flow
    control, a write that succeeds puts the same bytes on the port, and a read of
    bytes, a timeout and a failure have the same effect, a null receiver
    included.  On UDP, both send the same datagrams, and a datagram of 1 to
    [INPUT_BUFFER_LEN] bytes is read as the same frame.  They differ where the
    Boost link goes wrong: an empty datagram is an empty frame instead of an
    undefined range, and a long one is not cut. *)
Theorem clr_links_equivalent {M N} `{IPicardCallback M} `{IConnectionReset M} `{UdpSocket N}
  cfg a (s : CBasePicardIO * serial_world clr_port M) (u : CBasePicardIO * udp_world N M)
  data timeout :
  m_hwFlowControl cfg = false -> sa_write a = None ->
  let s1 := host_set_port (set_ReadTimeout timeout (s_port s.2)) s in
  (clr_serial_sendRaw cfg a s data = SendDone (s.1, serial_sendRaw s.2 data) /\
   (forall bytes, (length bytes <= INPUT_BUFFER_LEN)%nat ->
      clr_serial_read timeout (inr bytes) s = serial_read s1 (DeviceBytes bytes)) /\
   clr_serial_read timeout (inl TimeoutException) s = serial_read s1 (DeviceBytes []) /\
   (forall e, e <> TimeoutException ->
      clr_serial_read timeout (inl e) s = serial_read s1 DeviceException)) /\
  (clr_udp_sendRaw false u.2 data = Returns (udp_sendRaw u.2 data) /\
   (forall datagram, clr_udp_read u (DeviceBytes datagram) = picard_frameComplete u (drop 1 datagram)) /\
   (forall datagram, (1 <= length datagram <= INPUT_BUFFER_LEN)%nat ->
      clr_udp_read u (DeviceBytes datagram) = udp_read u (DeviceBytes datagram)) /\
   clr_udp_read u (DeviceBytes []) = Ok u /\ udp_read u (DeviceBytes []) = Undefined BadRange).
Proof.
  intros Hhw Hwr s1. split; [split_and!|].
  - unfold clr_serial_sendRaw, clr_write. by rewrite convertVectorToArray_id, Hhw, Hwr.
  - intros bytes Hlen. by apply clr_read_bytes.
  - symmetry. apply serial_read_nothing.
  - intros e He. unfold clr_serial_read, s1. by destruct s as [io w], e.
  - split_and!.
    + unfold clr_udp_sendRaw. by rewrite clr_udp_buffer.
    + intros datagram. apply clr_udp_read_spec.
    + intros datagram Hlen. rewrite clr_udp_read_spec. symmetry. by apply udp_read_short.
    + by destruct u.
    + by destruct u.
Qed.

(** Hardware flow control.  A frame is written exactly if DSR is set at a poll
    before the write timeout, and RTS is lowered after it; when DSR does not come
    nothing is written and RTS stays raised; a write that fails resets the
    connection.  The polling ends: with polls at least a millisecond apart it
    takes at most [WriteTimeout + 2] of them. *)
Lemma clr_flow_control {M} `{IPicardCallback M} `{IConnectionReset M}
  cfg a (s : CBasePicardIO * serial_world clr_port M) data before x now after :
  m_hwFlowControl cfg = true -> sa_raise a = None -> 0 <= WriteTimeout (s_port s.2) ->
  let raised := host_set_port (set_rts true (s_port s.2)) s in
  let timeout := sa_start a + 1000 * WriteTimeout (s_port s.2) in
  let result := clr_serial_sendRaw cfg a s data in
  (sa_polls a = before ++ (x, now) :: after -> Forall (still_low timeout) before ->
   (x = inr true -> sa_write a = None -> sa_lower a = None ->
      result = SendDone (host_set_port
        (set_rts false (serial_write (set_rts true (s_port s.2)) (encodeHDLC data))) s)) /\
   (x = inr true -> sa_write a <> None -> result = SendDone (host_reset raised)) /\
   (x = inr false -> timeout < now -> result = SendDone raised)) /\
  (Z.of_nat (length (sa_polls a)) >= WriteTimeout (s_port s.2) + 2 ->
   (forall i p, sa_polls a !! i = Some p -> sa_start a + 1000 * Z.of_nat i <= p.2) ->
   forall s', result <> SendPolling s').
Proof.
  intros Hhw Hr Hw raised timeout result. unfold result, clr_serial_sendRaw.
  rewrite convertVectorToArray_id, Hhw, Hr.
  change (WriteTimeout (host_port _)) with (WriteTimeout (s_port s.2)). fold timeout. split.
  - intros Hp Hb. rewrite Hp, wait_dsr_app by done. cbn [wait_dsr]. unfold clr_write.
    split_and!.
    + intros -> -> ->. by rewrite Hhw.
    + intros -> Hf. by destruct (sa_write a).
    + intros -> Hn. by rewrite (proj2 (Z.ltb_lt _ _)) by lia.
  - intros Hlen Hclock s'. pose proof (wait_dsr_ends _ _ (sa_polls a) Hw ltac:(lia) Hclock) as He.
    fold timeout in He. by destruct (wait_dsr timeout (sa_polls a)) as [[e|[]]|].
Qed.

(** ** Witnesses *)

Definition no_exception : connect_answers :=
  {| ca_name := None; ca_open := None; ca_dtr := None; ca_rts := None |}.
Definition sample_port : clr_port := (connectSerial "COM3" no_exception).1.
Definition sample_state : CBasePicardIO * serial_world clr_port picard_log :=
  (thread_io, {| s_port := sample_port; s_mux := [] |}).
Definition sample_udp : CBasePicardIO * udp_world datagram_log picard_log :=
  (thread_io, {| s_port := []; s_mux := [] |}).

(** A notification read from the managed serial link is acknowledged on its port. *)
Lemma clr_links_equivalent_witness :
  let cfg := {| m_rtsDelay := 5; m_hwFlowControl := false; m_readTimeout := 1000 |} in
  let a := {| sa_raise := None; sa_start := 0; sa_polls := []; sa_write := None; sa_lower := None |} in
  let bytes := encodeHDLC (picard_frame 2 NOTIFICATION 8 [1; 0x7E]) in
  exists io w, clr_serial_read 1000 (inr bytes) sample_state = Ok (io, w) /\
    port_written (s_port w) = [encodeHDLC [3; NOTIFICATION; 8; 1; 0]] /\
    s_mux w = [Notified 1 [0x7E]] /\ ReadTimeout (s_port w) = 1000 /\
    clr_serial_sendRaw cfg a sample_state [1; 2] = SendDone (thread_io, serial_sendRaw sample_state.2 [1; 2]).
Proof.
  intros cfg a bytes.
  destruct (clr_links_equivalent cfg a sample_state sample_udp [1; 2] 1000) as ((Hs & Hr & _) & _);
    [reflexivity..|].
  eexists _, _. split; [|split_and!; [..|exact Hs]].
  - rewrite Hr by vm_decide. vm_compute. reflexivity.
  - vm_compute. reflexivity.
  - reflexivity.
  - reflexivity.
Defined.

(** DSR is set at the third poll. *)
Lemma clr_flow_control_witness :
  let cfg := {| m_rtsDelay := 5; m_hwFlowControl := true; m_readTimeout := 1000 |} in
  let a := {| sa_raise := None; sa_start := 100; sa_write := None; sa_lower := None;
              sa_polls := [(inr false, 100); (inr false, 1200); (inr true, 2300)] |} in
  clr_serial_sendRaw cfg a sample_state [1; 2]
  = SendDone (host_set_port
      (set_rts false (serial_write (set_rts true sample_port) (encodeHDLC [1; 2]))) sample_state).
Proof.
  intros cfg a.
  apply (clr_flow_control cfg a sample_state [1; 2] [(inr false, 100); (inr false, 1200)]
           (inr true) 2300 []); try reflexivity.
  - cbn. lia.
  - repeat constructor; cbn; lia.
Defined.
