(* ===== verification/ClrClients.v ===== *)
(** * The managed listener and client manager ([serial_mux/ClientListener.h],
    [ClientListener.cpp], [ClientManager.h], [ClientManager.cpp])

    The predecessors of [CBoostClientListener] and [CBoostClientManager].  The
    listener reads a client's hello itself, in one read; [CClients] keeps the
    clients, queues their commands and runs them on the thread that reads from
    the clients, waiting for each response on a semaphore.

    [ClientIO.h], which declares the client ([IMuxClient], [CMuxClient]), and the
    constants [SERIAL_API_PROTOCOL_VERSION] and [SUBSCRIBE_FILTER_LENGTH] are not in
    the repository: they are parameters.  The operations on clients may raise. *)

From Stdlib Require Import ZArith Lia.
From stdpp Require Import base list gmap.
From S2P Require Import Prelude Common Subscriber MuxMessage BoostClient ClientManager ClrUtils.
#[local] Open Scope Z_scope.

(** ** The listener *)

Definition MAX_AUTH_INPUT_LEN : nat := 256.
Definition CLR_EXPECTED_HELLO_LEN : Z := 18.

Section listener.
Variable SERIAL_API_PROTOCOL_VERSION : Z.

(** [CClientListener::parseHello] *)
Definition clr_parseHello (expectedAuth data : list Z) (length : Z) : clr Z :=
  type ← (if length =? CLR_EXPECTED_HELLO_LEN then ary_get data 8 else Returns NULL_COMMAND);
  if (length =? CLR_EXPECTED_HELLO_LEN) && (type =? MUX_HELLO) then
    protoVersion ← ary_get data 9;
    let result := if protoVersion =? SERIAL_API_PROTOCOL_VERSION then ERR_OK
                  else ERR_UNSUPPORTED_VERSION in
    clr_fold (fun result i =>
      expected ← native (vat expectedAuth i);
      got ← ary_get data (10 + Z.of_nat i);
      Returns (if expected =? got then result else ERR_INVALID_AUTH))
      result (List.seq 0 AUTHENTICATION_LEN)
  else Returns ERR_INVALID_CMD.

(** [CClientListener::buildHelloResponse] *)
Definition clr_buildHelloResponse (result : Z) : clr (list Z) :=
  convertVectorToArray
    (serialize_output (new_CMuxOutput HELLO 0 result [SERIAL_API_PROTOCOL_VERSION])).

(** What becomes of an accepted socket: handed to the client list, closed, left
    open, or the listener's thread is left by an exception. *)
Inductive accept_result := AddedToClients | SocketClosed | SocketLeft | ThreadLeft (e : clr_exception).

Definition clr_catch (e : clr_exception) : accept_result :=
  match e with
  | SocketException => SocketClosed
  | ObjectDisposedException => SocketLeft
  | e => ThreadLeft e
  end.

(** The body of the accept loop for one socket: what [Receive] and [Send] give; the
    buffers sent, and what becomes of the socket. *)
Definition clr_authenticate (expectedAuth : list Z) (receive : clr_exception + list Z)
  (send : option clr_exception) : outcome (list (list Z) * accept_result) :=
  match receive with
  | inl e => Ok ([], clr_catch e)
  | inr bytes =>
      let authBuffer := bytes ++ replicate (MAX_AUTH_INPUT_LEN - length bytes) 0 in
      match (result ← clr_parseHello expectedAuth authBuffer (Z.of_nat (length bytes));
             resp ← clr_buildHelloResponse result; Returns (result, resp)) with
      | Returns (result, resp) =>
          match send with
          | Some e => Ok ([], clr_catch e)
          | None => Ok ([resp], if result =? ERR_OK then AddedToClients else SocketClosed)
          end
      | Raises e => Ok ([], clr_catch e)
      | Faults why => Undefined why
      end
  end.

(** [CClientListener::threadMain]: in the loop that starts the listener, at the
    test of the accept loop, in it, or past it. *)
Inductive clr_listen_pc := ClStarting | ClLoop | ClAccepting | ClFinished | ClLeft (e : clr_exception).

Record CClientListener := {
  cl_expectedAuth : list Z;
  cl_isListening : bool;
  cl_listener : bool;              (* a started TcpListener *)
  cl_pc : clr_listen_pc;
}.

Definition new_CClientListener (authToken : list Z) : CClientListener :=
  {| cl_expectedAuth := take AUTHENTICATION_LEN authToken; cl_isListening := false;
     cl_listener := false; cl_pc := ClStarting |}.

Definition cl_set (listening listener : bool) (pc : clr_listen_pc) (l : CClientListener)
  : CClientListener :=
  {| cl_expectedAuth := cl_expectedAuth l; cl_isListening := listening; cl_listener := listener;
     cl_pc := pc |}.

(** [CClientListener::stop] *)
Definition clr_listener_stop (l : CClientListener) : CClientListener :=
  cl_set false false (cl_pc l) l.

(** What the thread meets: the result of starting the listener; of [AcceptSocket],
    with that of the hello on the accepted socket. *)
Inductive clr_listen_input :=
  | StartResult (e : option clr_exception)
  | AcceptRaises (e : clr_exception)
  | AcceptSocket (receive : clr_exception + list Z) (send : option clr_exception).

(** One iteration of the loop the thread is in: the listener, the buffers sent and
    whether the client is added. *)
Definition clr_listen_step (l : CClientListener) (i : clr_listen_input)
  : outcome (CClientListener * list (list Z) * bool) :=
  match cl_pc l, i with
  | ClStarting, StartResult r =>
      if cl_isListening l then Ok (cl_set (cl_isListening l) (cl_listener l) ClLoop l, [], false)
      else
        match r with
        | None => Ok (cl_set true true ClLoop l, [], false)
        | Some SocketException => Ok (l, [], false)
        | Some e => Ok (cl_set (cl_isListening l) (cl_listener l) (ClLeft e) l, [], false)
        end
  | ClLoop, _ =>
      Ok (if cl_isListening l then cl_set true (cl_listener l) ClAccepting l
          else cl_set false false ClFinished l, [], false)
  | ClAccepting, AcceptRaises SocketException =>
      Ok (cl_set (cl_isListening l) (cl_listener l) ClLoop l, [], false)
  | ClAccepting, AcceptRaises e =>
      Ok (cl_set (cl_isListening l) (cl_listener l) (ClLeft e) l, [], false)
  | ClAccepting, AcceptSocket receive send =>
      '(sent, r) ← clr_authenticate (cl_expectedAuth l) receive send;
      let pc := match r with ThreadLeft e => ClLeft e | _ => ClLoop end in
      Ok (cl_set (cl_isListening l) (cl_listener l) pc l, sent,
          match r with AddedToClients => true | _ => false end)
  | _, _ => Ok (l, [], false)
  end.
End listener.

(** ** Clients and commands *)

(** [IMuxClient] and [CMuxClient] of the missing header: the socket's identity, its
    [Connected], its [RemoteEndPoint] (which can raise), [read] with the commands
    it reports to [handleCommand], and [write]. *)
Class IMuxClient (C I : Type) `{ISubscriber C} := {
  new_CMuxClient : nat -> C;
  mux_getSocket : C -> nat;
  mux_Connected : C -> bool;
  mux_RemoteEndPoint : C -> option clr_exception;
  mux_read : C -> I -> clr_exception + C * Z * list CMuxMessage;
  mux_write : C -> list Z -> clr_exception + C;
}.

Record client_command := {
  cc_client : option nat;
  cc_command : CMuxMessage;
  cc_seq : Z;
}.

(** [SClientCommand::clear] *)
Definition cleared_command : client_command :=
  {| cc_client := None; cc_command := empty_message; cc_seq := 0 |}.

(** Who can hold [m_lock]: the thread that reads from the clients and sends their
    commands, the Picard thread, the listener's. *)
Inductive clr_thread := InputThread | PicardThread | ListenThread.

#[export] Instance clr_thread_eq_dec : EqDecision clr_thread.
Proof. solve_decision. Defined.

Record CClients (C : Type) := {
  cc_heap : gmap nat C;            (* the clients that have not been deleted *)
  cc_clients : list nat;
  cc_commands : list client_command;
  cc_filterUnion : Z;
  cc_prevfilter : option Z;        (* the constructor does not set it *)
  cc_activeClient : option nat;
  cc_current : client_command;
  cc_retries : Z;
  cc_inProgress : Z;               (* the count of the semaphore, at most 1 *)
  cc_lock : option clr_thread;     (* between events: whoever left it by an exception *)
}.
Arguments cc_heap {C} _. Arguments cc_clients {C} _. Arguments cc_commands {C} _.
Arguments cc_filterUnion {C} _. Arguments cc_prevfilter {C} _. Arguments cc_activeClient {C} _.
Arguments cc_current {C} _. Arguments cc_retries {C} _. Arguments cc_inProgress {C} _.
Arguments cc_lock {C} _.

Section cclients.
Context {C I : Type} `{IMuxClient C I}.
Variable SUBSCRIBE_FILTER_LENGTH : nat.
Implicit Types (g : CClients C).

Definition new_CClients (retries : Z) : CClients C :=
  {| cc_heap := ∅; cc_clients := []; cc_commands := []; cc_filterUnion := 0;
     cc_prevfilter := None; cc_activeClient := None; cc_current := cleared_command;
     cc_retries := retries; cc_inProgress := 0; cc_lock := None |}.

Definition cc_set_clients (heap : gmap nat C) (clients : list nat) g : CClients C :=
  {| cc_heap := heap; cc_clients := clients; cc_commands := cc_commands g;
     cc_filterUnion := cc_filterUnion g; cc_prevfilter := cc_prevfilter g;
     cc_activeClient := cc_activeClient g; cc_current := cc_current g;
     cc_retries := cc_retries g; cc_inProgress := cc_inProgress g; cc_lock := cc_lock g |}.
Definition cc_set_commands (commands : list client_command) g : CClients C :=
  {| cc_heap := cc_heap g; cc_clients := cc_clients g; cc_commands := commands;
     cc_filterUnion := cc_filterUnion g; cc_prevfilter := cc_prevfilter g;
     cc_activeClient := cc_activeClient g; cc_current := cc_current g;
     cc_retries := cc_retries g; cc_inProgress := cc_inProgress g; cc_lock := cc_lock g |}.
Definition cc_set_filters (union : Z) (prev : option Z) g : CClients C :=
  {| cc_heap := cc_heap g; cc_clients := cc_clients g; cc_commands := cc_commands g;
     cc_filterUnion := union; cc_prevfilter := prev;
     cc_activeClient := cc_activeClient g; cc_current := cc_current g;
     cc_retries := cc_retries g; cc_inProgress := cc_inProgress g; cc_lock := cc_lock g |}.
Definition cc_set_active (active : option nat) g : CClients C :=
  {| cc_heap := cc_heap g; cc_clients := cc_clients g; cc_commands := cc_commands g;
     cc_filterUnion := cc_filterUnion g; cc_prevfilter := cc_prevfilter g;
     cc_activeClient := active; cc_current := cc_current g;
     cc_retries := cc_retries g; cc_inProgress := cc_inProgress g; cc_lock := cc_lock g |}.
Definition cc_set_current (current : client_command) g : CClients C :=
  {| cc_heap := cc_heap g; cc_clients := cc_clients g; cc_commands := cc_commands g;
     cc_filterUnion := cc_filterUnion g; cc_prevfilter := cc_prevfilter g;
     cc_activeClient := cc_activeClient g; cc_current := current;
     cc_retries := cc_retries g; cc_inProgress := cc_inProgress g; cc_lock := cc_lock g |}.
Definition cc_set_sync (inProgress : Z) (lock : option clr_thread) g : CClients C :=
  {| cc_heap := cc_heap g; cc_clients := cc_clients g; cc_commands := cc_commands g;
     cc_filterUnion := cc_filterUnion g; cc_prevfilter := cc_prevfilter g;
     cc_activeClient := cc_activeClient g; cc_current := cc_current g;
     cc_retries := cc_retries g; cc_inProgress := inProgress; cc_lock := lock |}.

(** ** Code that changes the state and can raise *)

Definition cc_m (A : Type) : Type := CClients C -> outcome (CClients C * (clr_exception + A)).

#[export] Instance cc_ret : MRet cc_m := fun A a g => Ok (g, inr a).
#[export] Instance cc_bind : MBind cc_m := fun A B f m g =>
  match m g with
  | Ok (g, inr a) => f a g
  | Ok (g, inl e) => Ok (g, inl e)
  | Undefined why => Undefined why
  end.

Definition cc_get : cc_m (CClients C) := fun g => Ok (g, inr g).
Definition cc_modify (f : CClients C -> CClients C) : cc_m unit := fun g => Ok (f g, inr tt).
Definition cc_raise {A} (e : clr_exception) : cc_m A := fun g => Ok (g, inl e).
Definition cc_lift {A} (m : outcome A) : cc_m A := fun g =>
  match m with Ok a => Ok (g, inr a) | Undefined why => Undefined why end.
Fixpoint cc_for {A} (f : A -> cc_m unit) (l : list A) : cc_m unit :=
  match l with
  | [] => mret tt
  | x :: l => _ ← f x; cc_for f l
  end.

(** [m_lock->WaitOne()] ... [m_lock->ReleaseMutex()]: an exception in between leaves
    the lock taken.  The lock can be taken again by its holder. *)
Definition cc_can_lock (t : clr_thread) g : bool :=
  match cc_lock g with None => true | Some holder => bool_decide (holder = t) end.
Definition cc_locked {A} (t : clr_thread) (body : cc_m A) : cc_m A := fun g =>
  match body (cc_set_sync (cc_inProgress g) (Some t) g) with
  | Ok (g', inr a) => Ok (cc_set_sync (cc_inProgress g') (cc_lock g) g', inr a)
  | r => r
  end.

(** A client through a pointer. *)
Definition cc_deref (client : nat) : cc_m C := fun g =>
  match cc_heap g !! client with Some c => Ok (g, inr c) | None => Undefined UseAfterFree end.
Definition cc_update (client : nat) (f : C -> C) : cc_m unit :=
  c ← cc_deref client;
  cc_modify (fun g => cc_set_clients (<[client := f c]> (cc_heap g)) (cc_clients g) g).
Definition cc_write (client : nat) (msg : list Z) : cc_m unit :=
  c ← cc_deref client;
  match mux_write c msg with
  | inl e => cc_raise e
  | inr c => cc_update client (fun _ => c)
  end.
(** [getSocket()->RemoteEndPoint], for a log line. *)
Definition cc_remoteName (client : nat) : cc_m unit :=
  c ← cc_deref client;
  match mux_RemoteEndPoint c with Some e => cc_raise e | None => mret tt end.

(** ** Operations *)

Fixpoint sockets_of (l : list nat) : cc_m (list nat) :=
  match l with
  | [] => mret []
  | client :: l =>
      c ← cc_deref client; socks ← sockets_of l; mret (mux_getSocket c :: socks)
  end.
Definition getSockets : cc_m (list nat) := g ← cc_get; sockets_of (cc_clients g).

Fixpoint find_socket (sock : nat) (l : list nat) : cc_m (option nat) :=
  match l with
  | [] => mret None
  | client :: l =>
      c ← cc_deref client;
      if decide (sock = mux_getSocket c) then mret (Some client) else find_socket sock l
  end.
Definition findClientBySocket (sock : nat) : cc_m (option nat) :=
  g ← cc_get; find_socket sock (cc_clients g).

(** [addClient]; the new client's address is an argument. *)
Definition cc_addClient (t : clr_thread) (client sock : nat) : cc_m unit :=
  _ ← cc_modify (fun g =>
        cc_set_clients (<[client := new_CMuxClient sock]> (cc_heap g)) (cc_clients g) g);
  cc_locked t (cc_modify (fun g => cc_set_clients (cc_heap g) (push_back (cc_clients g) client) g)).

Definition cc_push (client : option nat) (command : CMuxMessage) : cc_m unit :=
  cc_modify (fun g => cc_set_commands
    (push_back (cc_commands g) {| cc_client := client; cc_command := command; cc_seq := 0 |}) g).

(** [CClients::handleCommand] *)
Definition cc_handleCommand (command : CMuxMessage) : cc_m unit :=
  g ← cc_get; cc_push (cc_activeClient g) command.

Definition cc_sendResponse (client : option nat) (resp : CMuxOutput) : cc_m unit :=
  match client with
  | None => mret tt
  | Some client =>
      c ← cc_deref client;
      if mux_Connected c
      then _ ← cc_remoteName client; cc_write client (serialize_output resp)
      else mret tt
  end.

(** [CClients::recomputeSubscribeFilter] *)
Fixpoint cc_union (filterUnion : Z) (l : list nat) : cc_m Z :=
  match l with
  | [] => mret filterUnion
  | client :: l => c ← cc_deref client; cc_union (Z.lor filterUnion (getSubscription c)) l
  end.
Definition cc_recompute : cc_m bool :=
  g ← cc_get;
  filterUnion ← cc_union 0 (cc_clients g);
  _ ← cc_modify (cc_set_filters filterUnion (Some (cc_filterUnion g)));
  mret (negb (filterUnion =? cc_filterUnion g)).

Definition removeClientCommands (client : nat) : cc_m unit :=
  cc_modify (fun g => cc_set_commands
    (base.filter (fun cmd => cc_client cmd <> Some client) (cc_commands g)) g).

(** [CClients::commandTimeout] *)
Definition cc_commandTimeout (client : nat) (cmdType respCode : Z) : cc_m unit :=
  cc_locked InputThread (cc_sendResponse (Some client) (new_CMuxOutput cmdType 0 respCode [])).

(** [CClients::removeClient] *)
Definition cc_removeClient (client : nat) : cc_m unit :=
  cc_locked InputThread (
    g ← cc_get;
    if decide (client ∈ cc_clients g) then
      _ ← removeClientCommands client;
      _ ← cc_modify (fun g => cc_set_clients (cc_heap g) (erase client (cc_clients g)) g);
      changed ← cc_recompute;
      _ ← (if (changed : bool) then
             g ← cc_get;
             payload ← cc_lift (filterToVector {| filter := cc_filterUnion g; unreliable := 0 |}
                                  (replicate SUBSCRIBE_FILTER_LENGTH 0));
             cc_push None (typed_message SUBSCRIBE payload)
           else mret tt);
      cc_modify (fun g => cc_set_clients (delete client (cc_heap g)) (cc_clients g) g)
    else mret tt).

(** [CClients::readMuxMessage] up to the removal: the client to remove, if the
    peer has closed. *)
Definition readMuxMessage (sock : nat) (input : I) : cc_m (option nat) :=
  client ← findClientBySocket sock;
  match client with
  | None => mret None
  | Some client =>
      _ ← cc_modify (cc_set_active (Some client));
      c ← cc_deref client;
      match mux_read c input with
      | inl e => cc_raise e
      | inr (c, len, commands) =>
          _ ← cc_update client (fun _ => c);
          _ ← cc_for cc_handleCommand commands;
          if len =? 0 then mret (Some client)
          else _ ← cc_modify (cc_set_active None); mret None
      end
  end.

(** [CClients::close] *)
Definition cc_close : cc_m unit := cc_modify (cc_set_commands []).

(** [CClients::commandComplete] up to the lock, and under it. *)
Definition cc_response_matches g (cmdType seqNo : Z) : bool :=
  (cmdType =? m_type (cc_command (cc_current g))) && (seqNo =? cc_seq (cc_current g)).
Definition cc_restore_filter : cc_m unit :=
  g ← cc_get;
  prev ← cc_lift (match cc_prevfilter g with Some f => Ok f | None => Undefined Uninitialised end);
  cc_modify (cc_set_filters prev (cc_prevfilter g)).
Definition cc_release : cc_m unit :=
  g ← cc_get;
  if cc_inProgress g =? 1 then cc_raise SemaphoreFullException
  else cc_modify (fun g => cc_set_sync (cc_inProgress g + 1) (cc_lock g) g).
Definition cc_commandComplete (cmdType seqNo respCode : Z) (response : list Z) : cc_m unit :=
  g ← cc_get;
  if cc_response_matches g cmdType seqNo then
    _ ← (if (cmdType =? SUBSCRIBE) && negb (respCode =? ERR_OK) then cc_restore_filter else mret tt);
    if cc_can_lock PicardThread g then
      cc_locked PicardThread (
        _ ← (match cc_client (cc_current g) with
             | Some client =>
                 _ ← cc_sendResponse (Some client) (new_CMuxOutput cmdType 0 respCode response);
                 if cmdType =? SUBSCRIBE then cc_update client commitFilter else mret tt
             | None => mret tt
             end);
        cc_release)
    else mret tt   (* blocked *)
  else mret tt.

(** [CClients::handleNotif] *)
Definition cc_handleNotif (notifType : Z) (payload : list Z) : cc_m unit :=
  g ← cc_get;
  if cc_can_lock PicardThread g then
    cc_locked PicardThread (
      cc_for (fun client =>
        c ← cc_deref client;
        subscribed ← cc_lift (isSubscribed c notifType);
        if (subscribed : bool) then
          _ ← cc_remoteName client;
          cc_write client (serialize_output (new_CMuxOutput NOTIFICATION 0 notifType payload))
        else mret tt) (cc_clients g))
  else mret tt.   (* blocked *)

(** ** [sendCommands] *)

(** From the pop to the [for] loop: the command to send, or [None] for a
    [continue]. *)
Definition cc_dispatch (cmd : client_command) : cc_m (option client_command) :=
  let type := m_type (cc_command cmd) in
  _ ← (match cc_client cmd with Some client => cc_remoteName client | None => mret tt end);
  if type <=? NOTIFICATION then
    _ ← cc_sendResponse (cc_client cmd) (new_CMuxOutput type 0 ERR_INVALID_CMD []);
    mret None
  else
    cmd ←
      (match cc_client cmd with
       | Some client =>
           if type =? SUBSCRIBE then
             params ← cc_lift (vectorToFilter (m_data (cc_command cmd)));
             _ ← cc_update client (setSubscription params);
             _ ← cc_recompute;
             g ← cc_get;
             data ← cc_lift (filterToVector {| filter := cc_filterUnion g; unreliable := 0 |}
                               (m_data (cc_command cmd)));
             mret {| cc_client := cc_client cmd;
                     cc_command := set_data data (cc_command cmd); cc_seq := cc_seq cmd |}
           else mret cmd
       | None => mret cmd
       end);
    _ ← cc_modify (cc_set_current cmd);
    mret (Some cmd).
End cclients.

(** The thread that reads from the clients: outside these functions, about to
    remove a client, at the head of the loop of [sendCommands], about to send for
    the [i]th time, in [WaitOne], past the loop, about to report a timeout, or in
    the handler of an exception that left them.  That handler is in the caller, which
    is not in the repository: it may come back to these functions or not. *)
Inductive input_pc :=
  | CcIdle
  | CcRemoving (client : nat)
  | CcHead
  | CcSend (cmd : client_command) (i : Z)
  | CcWait (cmd : client_command) (i : Z)
  | CcDone (cmd : client_command) (result : bool)
  | CcTimeout (cmd : client_command) (client : nat)
  | CcRaised (e : clr_exception).

Record clr_world (C P : Type) := {
  cw_clients : CClients C;
  cw_picard : P;
  cw_pc : input_pc;
}.
Arguments cw_clients {C P} _. Arguments cw_picard {C P} _. Arguments cw_pc {C P} _.

Inductive clr_event (I : Type) :=
  | CcAdd (client sock : nat)            (* the listener adds a client *)
  | CcReadable (sock : nat) (input : I)  (* the input thread in readMuxMessage *)
  | CcSendCommands                       (* the input thread calls sendCommands *)
  | CcStep                               (* the input thread goes on *)
  | CcExpired                            (* WaitOne times out *)
  | CcResume                             (* the handler of an exception goes on *)
  | CcResponse (cmdType seqNo respCode : Z) (response : list Z)
  | CcNotif (notifType : Z) (payload : list Z).
Arguments CcAdd {I} _ _. Arguments CcReadable {I} _ _. Arguments CcSendCommands {I}.
Arguments CcStep {I}. Arguments CcExpired {I}. Arguments CcResume {I}. Arguments CcResponse {I} _ _ _ _.
Arguments CcNotif {I} _ _.

Section clr_world.
Context {C I P : Type} `{IMuxClient C I} `{IPicardIO P}.
Variable SUBSCRIBE_FILTER_LENGTH : nat.
Implicit Types (w : clr_world C P).

Definition new_clr_world (retries : Z) (p : P) : clr_world C P :=
  {| cw_clients := new_CClients retries; cw_picard := p; cw_pc := CcIdle |}.

Definition with_clients (g : CClients C) (pc : input_pc) w : clr_world C P :=
  {| cw_clients := g; cw_picard := cw_picard w; cw_pc := pc |}.

(** The input thread runs [m] and goes on at [k]. *)
Definition input_runs {A} (m : cc_m A) (k : A -> input_pc) w : outcome (clr_world C P) :=
  '(g, r) ← m (cw_clients w);
  Ok (with_clients g (match r with inl e => CcRaised e | inr a => k a end) w).
(** Another thread runs [m]; its exceptions are caught elsewhere. *)
Definition other_runs {A} (m : cc_m A) w : outcome (clr_world C P) :=
  '(g, _) ← m (cw_clients w); Ok (with_clients g (cw_pc w) w).

(** [sendCommands] up to its next blocking point. *)
Definition send_step w : outcome (clr_world C P) :=
  let g := cw_clients w in
  match cw_pc w with
  | CcHead =>
      match cc_commands g with
      | [] => Ok (with_clients g CcIdle w)
      | cmd :: rest =>
          input_runs (_ ← cc_modify (cc_set_commands rest); cc_dispatch cmd)
            (fun next => match next with Some cmd => CcSend cmd 0 | None => CcHead end) w
      end
  | CcSend cmd i =>
      if i <? cc_retries g then
        let '(p, seq) := picard_sendCommand (cw_picard w) (cc_command cmd) (negb (i =? 0)) in
        let current := {| cc_client := cc_client (cc_current g);
                          cc_command := cc_command (cc_current g); cc_seq := seq |} in
        Ok {| cw_clients := cc_set_current current g; cw_picard := p; cw_pc := CcWait cmd i |}
      else Ok (with_clients g (CcDone cmd false) w)
  | CcWait cmd i =>
      if cc_inProgress g =? 1
      then Ok (with_clients (cc_set_sync 0 (cc_lock g) g) (CcDone cmd true) w)
      else Ok w
  | CcDone cmd result =>
      match cc_client cmd with
      | Some client =>
          if result then Ok (with_clients (cc_set_current cleared_command g) CcHead w)
          else
            input_runs
              (if m_type (cc_command cmd) =? SUBSCRIBE
               then _ ← cc_restore_filter; cc_update client resetFilter
               else mret tt)
              (fun _ => CcTimeout cmd client) w
      | None => Ok (with_clients (cc_set_current cleared_command g) CcHead w)
      end
  | CcTimeout cmd client =>
      if cc_can_lock InputThread g then
        input_runs
          (_ ← cc_commandTimeout client (m_type (cc_command cmd)) ERR_COMMAND_TIMEOUT;
           cc_modify (cc_set_current cleared_command))
          (fun _ => CcHead) w
      else Ok w
  | CcRemoving client =>
      if cc_can_lock InputThread g then
        input_runs (_ ← cc_removeClient SUBSCRIBE_FILTER_LENGTH client;
                    cc_modify (cc_set_active None)) (fun _ => CcIdle) w
      else Ok w
  | CcIdle | CcRaised _ => Ok w
  end.

Definition clr_exec w (e : clr_event I) : outcome (clr_world C P) :=
  match e with
  | CcAdd client sock =>
      if bool_decide (cc_heap (cw_clients w) !! client = None) && cc_can_lock ListenThread (cw_clients w)
      then other_runs (cc_addClient ListenThread client sock) w else Ok w
  | CcReadable sock input =>
      match cw_pc w with
      | CcIdle =>
          input_runs (readMuxMessage sock input)
            (fun r => match r with Some client => CcRemoving client | None => CcIdle end) w
      | _ => Ok w
      end
  | CcSendCommands =>
      match cw_pc w with CcIdle => Ok (with_clients (cw_clients w) CcHead w) | _ => Ok w end
  | CcStep => send_step w
  | CcExpired =>
      match cw_pc w with
      | CcWait cmd i => Ok (with_clients (cw_clients w) (CcSend cmd (i + 1)) w)
      | _ => Ok w
      end
  | CcResume =>
      match cw_pc w with CcRaised _ => Ok (with_clients (cw_clients w) CcIdle w) | _ => Ok w end
  | CcResponse t q rc payload => other_runs (cc_commandComplete t q rc payload) w
  | CcNotif t payload => other_runs (cc_handleNotif t payload) w
  end.

Definition clr_run w (es : list (clr_event I)) : outcome (clr_world C P) := foldM clr_exec w es.
End clr_world.

(** ** What a step can do to the clients *)

Section safety.
Context {C I P : Type} `{IMuxClient C I} `{IPicardIO P}.
Variable SUBSCRIBE_FILTER_LENGTH : nat.
Hypothesis isSubscribed_ub : forall (c : C) t why, isSubscribed c t = Undefined why -> why = BadShift.
Implicit Types (g : CClients C) (w : clr_world C P).

(** A command's client is registered; one without a client comes after a change
    of the union. *)
Definition cmd_live g (cmd : client_command) : Prop :=
  match cc_client cmd with
  | Some client => client ∈ cc_clients g
  | None => is_Some (cc_prevfilter g)
  end.

(** The command in flight: its client is registered, unless the input thread has
    left [m_lock] taken, after which no other thread looks at it. *)
Definition current_live g : Prop :=
  forall client, cc_client (cc_current g) = Some client ->
  client ∈ cc_clients g \/ cc_lock g = Some InputThread.

Record cc_ok g : Prop := {
  ok_nodup : NoDup (cc_clients g);
  ok_live client : client ∈ cc_clients g -> is_Some (cc_heap g !! client);
  ok_commands : Forall (cmd_live g) (cc_commands g);
  ok_current : current_live g;
  ok_subscribe : m_type (cc_command (cc_current g)) = SUBSCRIBE -> is_Some (cc_prevfilter g);
}.

Notation input_lock g g' :=
  (cc_lock g = Some InputThread -> cc_lock g' = Some InputThread) (only parsing).

(** Nothing is in flight, as far as the other threads can see. *)
Definition settled_current g : Prop :=
  cc_client (cc_current g) = None \/ cc_lock g = Some InputThread.

Lemma settled_keeps g g' :
  cc_current g' = cc_current g -> input_lock g g' -> settled_current g -> settled_current g'.
Proof. unfold settled_current. intros -> Hk [|?%Hk]; auto. Qed.

(** A change that keeps every registered client and all pointers to them. *)
Record frame g g' : Prop := {
  fr_clients : cc_clients g' = cc_clients g;
  fr_heap client : is_Some (cc_heap g !! client) -> is_Some (cc_heap g' !! client);
  fr_commands : cc_commands g' = cc_commands g;
  fr_current : cc_current g' = cc_current g;
  fr_active : cc_activeClient g' = cc_activeClient g;
  fr_prev : is_Some (cc_prevfilter g) -> is_Some (cc_prevfilter g');
  fr_lock : cc_lock g = Some InputThread -> cc_lock g' = Some InputThread;
}.

Lemma frame_refl g : frame g g.
Proof. by split. Qed.

Lemma frame_trans g1 g2 g3 : frame g1 g2 -> frame g2 g3 -> frame g1 g3.
Proof. intros [] []. split; try congruence; eauto. Qed.

Lemma frame_ok g g' : frame g g' -> cc_ok g -> cc_ok g'.
Proof.
  intros [Hc Hh Hm Hu _ Hp Hk] [Hn Hl Hf Hcu Hs]. split; rewrite ?Hc, ?Hm, ?Hu; eauto.
  - eapply Forall_impl; [exact Hf|]. unfold cmd_live. intros cmd. rewrite Hc.
    destruct (cc_client cmd); eauto.
  - intros client. rewrite Hu, Hc. intros [?|?]%Hcu; eauto.
Qed.

(** [m] run in [g] is undefined only as [allowed], and otherwise ends in [Q]. *)
Variable allowed : ub_kind -> Prop.
Definition wp {A} (m : cc_m A) g (Q : CClients C -> clr_exception + A -> Prop) : Prop :=
  match m g with Ok (g', r) => Q g' r | Undefined why => allowed why end.

Lemma wp_ret {A} (a : A) g Q : Q g (inr a) -> wp (mret a) g Q.
Proof. done. Qed.

Lemma wp_get {A} (f : CClients C -> cc_m A) g Q : wp (f g) g Q -> wp (cc_get ≫= f) g Q.
Proof. done. Qed.

Lemma wp_lift {A} (m : outcome A) g Q :
  (forall a, m = Ok a -> Q g (inr a)) -> (forall why, m = Undefined why -> allowed why) ->
  wp (cc_lift m) g Q.
Proof. unfold wp, cc_lift. destruct m; eauto. Qed.

Lemma wp_mono {A} (m : cc_m A) g (Q Q' : CClients C -> clr_exception + A -> Prop) :
  wp m g Q -> (forall g' r, Q g' r -> Q' g' r) -> wp m g Q'.
Proof. unfold wp. destruct (m g) as [[g' r]|]; eauto. Qed.

Lemma wp_bind {A B} (m : cc_m A) (f : A -> cc_m B) g Q :
  wp m g (fun g' r => match r with inr a => wp (f a) g' Q | inl e => Q g' (inl e) end) ->
  wp (m ≫= f) g Q.
Proof. unfold wp, mbind, cc_bind. by destruct (m g) as [[g' [e|a]]|]. Qed.

(** The same for a frame: the frames of the parts compose. *)
Lemma wp_frame_bind {A B} (m : cc_m A) (f : A -> cc_m B) g :
  wp m g (fun g' _ => frame g g') ->
  (forall a g', frame g g' -> wp (f a) g' (fun g'' _ => frame g' g'')) ->
  wp (m ≫= f) g (fun g' _ => frame g g').
Proof.
  intros Hm Hf. apply wp_bind. eapply wp_mono; [exact Hm|]. intros g' [e|a] Hfr; [done|].
  eapply wp_mono; [by apply Hf|]. intros g'' r Hfr'. by eapply frame_trans.
Qed.

Lemma wp_deref client g Q :
  is_Some (cc_heap g !! client) ->
  (forall c, cc_heap g !! client = Some c -> Q g (inr c)) -> wp (cc_deref client) g Q.
Proof. intros [c Hc] HQ. unfold wp, cc_deref. rewrite Hc. by apply HQ. Qed.

Lemma update_frame client f g :
  is_Some (cc_heap g !! client) -> wp (cc_update client f) g (fun g' _ => frame g g').
Proof.
  intros Hl. apply wp_bind, wp_deref; [done|]. intros c Hc. split; try done.
  intros client' Hl'. cbn. destruct (decide (client' = client)) as [->|].
  - rewrite lookup_insert_eq. eauto.
  - by rewrite lookup_insert_ne.
Qed.

Lemma write_frame client msg g :
  is_Some (cc_heap g !! client) -> wp (cc_write client msg) g (fun g' _ => frame g g').
Proof.
  intros Hl. apply wp_bind, wp_deref; [done|]. intros c Hc.
  destruct (mux_write c msg) as [e|c']; [apply frame_refl|by apply update_frame].
Qed.

Lemma remote_frame client g :
  is_Some (cc_heap g !! client) -> wp (cc_remoteName client) g (fun g' _ => g' = g).
Proof.
  intros Hl. apply wp_bind, wp_deref; [done|]. intros c Hc. by destruct (mux_RemoteEndPoint c).
Qed.

Lemma respond_frame client resp g :
  (forall c, client = Some c -> is_Some (cc_heap g !! c)) ->
  wp (cc_sendResponse client resp) g (fun g' _ => frame g g').
Proof.
  intros Hl. destruct client as [client|]; [|apply frame_refl]. specialize (Hl _ eq_refl).
  apply wp_bind, wp_deref; [done|]. intros c Hc. destruct (mux_Connected c); [|apply frame_refl].
  apply wp_bind. eapply wp_mono; [by apply remote_frame|].
  intros g' [e|[]] ->; [apply frame_refl|by apply write_frame].
Qed.

Lemma union_frame acc l g :
  (forall client, client ∈ l -> is_Some (cc_heap g !! client)) ->
  wp (cc_union acc l) g (fun g' r => g' = g /\ exists u, r = inr u).
Proof.
  revert acc. induction l as [|client l IH]; intros acc Hl; [by split; [|eexists]|].
  apply wp_bind, wp_deref; [apply Hl; left|]. intros c _. apply IH. intros c' Hc'. apply Hl. by right.
Qed.

Lemma recompute_frame g :
  (forall client, client ∈ cc_clients g -> is_Some (cc_heap g !! client)) ->
  wp cc_recompute g (fun g' r =>
    frame g g' /\ is_Some (cc_prevfilter g') /\ exists b, r = inr b).
Proof.
  intros Hl. apply wp_bind. cbn. apply wp_bind. eapply wp_mono; [by apply union_frame|].
  intros g' r [-> [u ->]]. cbn. split_and!; [by split; cbn; eauto|by eexists|by eexists].
Qed.

Lemma restore_frame g :
  is_Some (cc_prevfilter g) ->
  wp cc_restore_filter g (fun g' _ => frame g g' /\ cc_lock g' = cc_lock g).
Proof.
  intros [f Hf]. unfold wp, cc_restore_filter, mbind, cc_bind, cc_get, cc_lift. rewrite Hf.
  split; [|done]. split; cbn; eauto.
Qed.

Lemma roll_back_frame client f g :
  is_Some (cc_prevfilter g) -> is_Some (cc_heap g !! client) ->
  wp (_ ← cc_restore_filter; cc_update client f) g (fun g' r => frame g g' /\ r = inr tt).
Proof.
  intros [u Hu] [c Hc]. unfold wp, cc_restore_filter, cc_update, cc_deref, mbind, cc_bind, cc_get, cc_lift.
  rewrite Hu. cbn. rewrite Hc. split; [|done]. split; cbn; eauto.
  intros client' Hl. destruct (decide (client' = client)) as [->|];
    [rewrite lookup_insert_eq; eauto|by rewrite lookup_insert_ne].
Qed.

Lemma locked_frame {A} t (body : cc_m A) g :
  cc_can_lock t g = true ->
  wp body (cc_set_sync (cc_inProgress g) (Some t) g)
    (fun g' _ => frame (cc_set_sync (cc_inProgress g) (Some t) g) g') ->
  wp (cc_locked t body) g (fun g' _ => frame g g').
Proof.
  intros Ht. unfold wp, cc_locked.
  destruct (body _) as [[g' [e|a]]|]; [intros []; split; cbn in *; try done|intros []; by split|done].
  intros Hl. unfold cc_can_lock in Ht. rewrite Hl in Ht. apply bool_decide_eq_true in Ht as <-. eauto.
Qed.

(** If the input thread leaves the lock by an exception, it keeps it. *)
Lemma locked_input_frame {A} (body : cc_m A) g :
  cc_can_lock InputThread g = true ->
  wp body (cc_set_sync (cc_inProgress g) (Some InputThread) g)
    (fun g' _ => frame (cc_set_sync (cc_inProgress g) (Some InputThread) g) g') ->
  wp (cc_locked InputThread body) g (fun g' r =>
    frame g g' /\ match r with inr _ => True | inl _ => settled_current g' end).
Proof.
  intros Hcan Hb. pose proof (locked_frame _ _ _ Hcan Hb) as Hf. unfold wp, cc_locked in *.
  destruct (body _) as [[g' [e|a]]|]; [|done|done]. split; [done|]. right. by apply (fr_lock _ _ Hb).
Qed.

Lemma release_frame g : wp cc_release g (fun g' _ => frame g g').
Proof.
  unfold wp, cc_release, mbind, cc_bind, cc_get.
  destruct (cc_inProgress g =? 1); [apply frame_refl|by split].
Qed.

Lemma commandComplete_frame t q rc payload g :
  cc_ok g -> wp (cc_commandComplete t q rc payload) g (fun g' _ => frame g g').
Proof.
  intros Hok. apply wp_get. destruct (cc_response_matches g t q) eqn:Hm; [|apply frame_refl].
  apply andb_true_iff in Hm as [Ht%Z.eqb_eq _]. apply wp_bind.
  eapply wp_mono with (Q := fun g' _ => frame g g' /\ cc_lock g' = cc_lock g).
  { destruct (Z.eqb_spec t SUBSCRIBE) as [Hs|_]; [|by split; [apply frame_refl|]].
    destruct (negb _); [|by split; [apply frame_refl|]].
    apply restore_frame, (ok_subscribe _ Hok). congruence. }
  intros g1 r [Hf1 Hk1]. destruct r as [e|[]]; [done|].
  eapply wp_mono; [|intros g2 r Hf2; exact (frame_trans _ _ _ Hf1 Hf2)]. destruct (cc_can_lock PicardThread g) eqn:Hcan; [|apply frame_refl].
  apply locked_frame; [unfold cc_can_lock; by rewrite Hk1|].
  apply wp_frame_bind; [|intros _ g2 _; apply release_frame].
  destruct (cc_client (cc_current g)) as [client|] eqn:Hc; [|apply frame_refl].
  assert (Hl : is_Some (cc_heap g1 !! client)).
  { apply (fr_heap _ _ Hf1), (ok_live _ Hok). destruct (ok_current _ Hok client Hc) as [|Hk]; [done|].
    unfold cc_can_lock in Hcan. by rewrite Hk in Hcan. }
  apply wp_frame_bind; [apply respond_frame; intros c [= ->]; exact Hl|].
  intros _ g2 Hf2. destruct (t =? SUBSCRIBE); [|apply frame_refl].
  apply update_frame. by apply (fr_heap _ _ Hf2).
Qed.

Lemma for_frame {A} (f : A -> cc_m unit) l g :
  (forall x g', x ∈ l -> frame g g' -> wp (f x) g' (fun g'' _ => frame g' g'')) ->
  wp (cc_for f l) g (fun g' _ => frame g g').
Proof.
  intros Hf. enough (forall g', frame g g' -> wp (cc_for f l) g' (fun g'' _ => frame g' g'')) as He.
  { apply He, frame_refl. }
  induction l as [|x l IH]; intros g' Hg; [apply frame_refl|].
  apply wp_frame_bind; [apply Hf; [left|done]|].
  intros _ g'' Hg''. apply IH; [|by eapply frame_trans].
  intros y g3 Hy. apply Hf. by right.
Qed.

Lemma handleNotif_frame t payload g :
  allowed BadShift -> cc_ok g -> wp (cc_handleNotif t payload) g (fun g' _ => frame g g').
Proof.
  intros Ha Hok. apply wp_get. destruct (cc_can_lock PicardThread g) eqn:Hcan; [|apply frame_refl].
  apply locked_frame; [done|]. apply for_frame. intros client g1 Hc Hf.
  assert (Hl : is_Some (cc_heap g1 !! client)) by (apply (fr_heap _ _ Hf), (ok_live _ Hok _ Hc)).
  apply wp_bind, wp_deref; [done|]. intros c _. apply wp_bind, wp_lift.
  - intros [] _; [|apply frame_refl]. apply wp_bind. eapply wp_mono; [by apply remote_frame|].
    intros g2 [e|[]] ->; [apply frame_refl|by apply write_frame].
  - intros why Hw. by rewrite (isSubscribed_ub _ _ _ Hw).
Qed.

(** ** Adding, reading and removing *)

Lemma addClient_ok client sock g :
  cc_ok g -> cc_heap g !! client = None ->
  wp (cc_addClient ListenThread client sock) g (fun g' _ =>
    cc_ok g' /\ cc_clients g' = cc_clients g ++ [client] /\ cc_prevfilter g' = cc_prevfilter g /\
    cc_current g' = cc_current g /\ cc_lock g' = cc_lock g).
Proof.
  intros [Hn Hl Hf Hcu Hs] Hnone.
  assert (Hnew : client ∉ cc_clients g) by (intros Hc; apply Hl in Hc; rewrite Hnone in Hc; by destruct Hc).
  unfold wp. cbn. split_and!; [|done..]. unfold push_back. split; cbn.
  - apply NoDup_app. split_and!; [done| |apply NoDup_singleton].
    intros x Hx ->%list_elem_of_singleton. done.
  - intros x [Hx| ->%list_elem_of_singleton]%elem_of_app; [|rewrite lookup_insert_eq; eauto].
    rewrite lookup_insert_ne by congruence. by apply Hl.
  - eapply Forall_impl; [exact Hf|]. unfold cmd_live. intros cmd.
    destruct (cc_client cmd); [|done]. intros. apply elem_of_app. by left.
  - intros x [Hx|Hx]%Hcu; [|by right]. left. apply elem_of_app. by left.
  - done.
Qed.

Lemma push_ok client command g :
  cc_ok g -> match client with Some c => c ∈ cc_clients g | None => is_Some (cc_prevfilter g) end ->
  wp (cc_push client command) g (fun g' _ =>
    cc_ok g' /\ cc_clients g' = cc_clients g /\ cc_current g' = cc_current g /\
    cc_activeClient g' = cc_activeClient g /\ cc_lock g' = cc_lock g).
Proof.
  intros [] Hc. unfold wp. cbn. split_and!; [|done..]. split; cbn; [done..| |done|done].
  unfold push_back. apply Forall_app. split; [done|]. by apply Forall_singleton.
Qed.

Lemma commands_ok client commands g :
  cc_ok g -> cc_activeClient g = Some client -> client ∈ cc_clients g ->
  wp (cc_for cc_handleCommand commands) g (fun g' _ =>
    cc_ok g' /\ cc_clients g' = cc_clients g /\ cc_current g' = cc_current g /\
    cc_activeClient g' = cc_activeClient g /\ cc_lock g' = cc_lock g).
Proof.
  revert g. induction commands as [|m commands IH]; intros g Hok Ha Hc; [done|].
  apply wp_bind. eapply wp_mono.
  { apply wp_get. apply push_ok; [done|]. by rewrite Ha. }
  intros g1 r (Hok1 & Hl1 & Hc1 & Ha1 & Hk1). destruct r as [e|[]]; [by split_and!|].
  eapply wp_mono; [apply IH; congruence|]. intros g2 r2 (? & ? & ? & ? & ?).
  split_and!; [done|congruence..].
Qed.

Lemma find_socket_found sock l g :
  (forall client, client ∈ l -> is_Some (cc_heap g !! client)) ->
  wp (find_socket sock l) g (fun g' r => g' = g /\
    match r with inr (Some client) => client ∈ l | _ => True end).
Proof.
  induction l as [|client l IH]; intros Hl; [done|].
  apply wp_bind, wp_deref; [apply Hl; left|]. intros c _. destruct (decide _); [split; [done|left]|].
  eapply wp_mono; [apply IH; intros c' Hc'; apply Hl; by right|].
  intros g' [e|[client'|]] [-> ?]; split_and!; try done. by right.
Qed.

Lemma frame_active a g : cc_ok g -> cc_ok (cc_set_active a g).
Proof. intros []. by split. Qed.

Lemma read_ok sock input g :
  cc_ok g ->
  wp (readMuxMessage sock input) g (fun g' _ =>
    cc_ok g' /\ cc_current g' = cc_current g /\ input_lock g g').
Proof.
  intros Hok. apply wp_bind, wp_get. eapply wp_mono; [apply find_socket_found, (ok_live _ Hok)|].
  intros g' [e|[client|]] [-> Hc]; [by split_and!| |by split_and!].
  apply wp_bind. cbn. set (g1 := cc_set_active (Some client) g).
  assert (Hok1 : cc_ok g1) by by apply frame_active.
  assert (Hl : is_Some (cc_heap g1 !! client)) by by apply (ok_live _ Hok1).
  apply wp_bind, wp_deref; [done|]. intros c _.
  destruct (mux_read c input) as [e|[[c' len] commands]]; [by split_and!|].
  apply wp_bind. eapply wp_mono; [by apply update_frame|]. intros g2 r Hf2.
  pose proof (frame_ok _ _ Hf2 Hok1) as Hok2. pose proof (fr_current _ _ Hf2 : _ = cc_current g) as Hcu2.
  pose proof (fr_lock _ _ Hf2 : input_lock g g2) as Hk2.
  destruct r as [e|[]]; [by split_and!|].
  apply wp_bind. eapply wp_mono; [apply (commands_ok client); [done| |]|].
  { by rewrite (fr_active _ _ Hf2). }
  { by rewrite (fr_clients _ _ Hf2). }
  intros g3 r (Hok3 & Hl3 & Hcu3 & Ha3 & Hk3).
  assert (cc_current g3 = cc_current g /\ input_lock g g3) as [Hcu Hk].
  { split; [congruence|]. intros Hk%Hk2. congruence. }
  destruct r as [e|[]]; [done|]. destruct (len =? 0); [done|].
  split_and!; [by apply frame_active|exact Hcu|exact Hk].
Qed.

(** Without its commands, a client can be taken off the list. *)
Lemma erase_ok client g :
  cc_ok g -> settled_current g ->
  cc_ok (cc_set_clients (cc_heap g) (erase client (cc_clients g))
    (cc_set_commands (base.filter (fun cmd => cc_client cmd <> Some client) (cc_commands g)) g)).
Proof.
  intros [Hn Hl Hf Hcu Hs] Hno. split; cbn; [by apply NoDup_erase| | | |done].
  - intros c Hc. apply elem_of_erase in Hc as [Hc _]; [|done]. by apply Hl.
  - apply Forall_forall. intros cmd [Hne Hcmd]%list_elem_of_filter.
    rewrite Forall_forall in Hf. specialize (Hf _ Hcmd). unfold cmd_live in *. cbn.
    destruct (cc_client cmd) as [c|]; [|done]. apply elem_of_erase; [done|]. split; congruence.
  - intros c. cbn. destruct Hno as [Hno|Hno]; [congruence|by right].
Qed.

Lemma delete_ok client g :
  cc_ok g -> client ∉ cc_clients g ->
  cc_ok (cc_set_clients (delete client (cc_heap g)) (cc_clients g) g).
Proof.
  intros [] Hc. split; cbn; try done. intros c Hc'. rewrite lookup_delete_ne by congruence. eauto.
Qed.

(** Under the lock the input thread does as it likes with the command in flight. *)
Lemma locked_ok {A} (body : cc_m A) g :
  cc_ok g -> settled_current g ->
  (forall g1, cc_ok g1 -> cc_lock g1 = Some InputThread -> cc_current g1 = cc_current g ->
     wp body g1 (fun g' _ => cc_ok g' /\ cc_current g' = cc_current g /\
       cc_lock g' = Some InputThread)) ->
  wp (cc_locked InputThread body) g (fun g' _ => cc_ok g' /\ settled_current g').
Proof.
  intros Hok Hset Hb. set (g1 := cc_set_sync (cc_inProgress g) (Some InputThread) g).
  assert (Hok1 : cc_ok g1) by (destruct Hok; split; try done; intros c Hc; by right).
  specialize (Hb g1 Hok1 eq_refl eq_refl). unfold wp, cc_locked in *. fold g1.
  destruct (body g1) as [[g' [e|a]]|]; [split; [apply Hb|right; apply Hb]| |done].
  destruct Hb as ([] & Hcu & _). unfold settled_current in *. cbn. rewrite Hcu.
  split; [|done]. split; try done. intros c. cbn. rewrite Hcu.
  destruct Hset as [Hset|Hset]; [congruence|by right].
Qed.

Lemma remove_ok client g :
  ((SUBSCRIBE_FILTER_LENGTH < 8)%nat -> allowed OutOfBounds) ->
  cc_ok g -> settled_current g ->
  wp (cc_removeClient SUBSCRIBE_FILTER_LENGTH client) g (fun g' _ =>
    cc_ok g' /\ settled_current g').
Proof.
  intros Ha Hok Hset. apply locked_ok; [done..|]. clear Hset. intros g1 Hok1 Hlk Hcu1. apply wp_get.
  destruct (decide _) as [Hc|]; [|by split]. rewrite <- Hcu1. clear Hcu1.
  assert (Hno : settled_current g1) by by right.
  apply wp_bind. cbn. apply wp_bind. cbn.
  pose proof (erase_ok client _ Hok1 Hno) as Hok2.
  assert (Hout : client ∉ erase client (cc_clients g1)).
  { intros He. apply elem_of_erase in He as [_ He]; [done|apply Hok1]. }
  match type of Hok2 with cc_ok ?g => set (g2 := g) in * end.
  change (client ∉ cc_clients g2) in Hout. change (cc_current g1) with (cc_current g2).
  change (cc_lock g2 = Some InputThread) in Hlk.
  clearbody g2. apply wp_bind. eapply wp_mono; [apply recompute_frame, (ok_live _ Hok2)|].
  intros g3 r (Hf3 & Hp3 & [changed ->]). pose proof (frame_ok _ _ Hf3 Hok2) as Hok3.
  pose proof (fr_lock _ _ Hf3 Hlk) as Hlk3. apply wp_bind.
  assert (Hend : forall g4, cc_ok g4 -> cc_clients g4 = cc_clients g3 -> cc_current g4 = cc_current g3 ->
    cc_lock g4 = cc_lock g3 ->
    wp (cc_modify (fun g => cc_set_clients (delete client (cc_heap g)) (cc_clients g) g)) g4
      (fun g' _ => cc_ok g' /\ cc_current g' = cc_current g2 /\ cc_lock g' = Some InputThread)).
  { intros g4 Hok4 Hl4 Hcu4 Hlk4. split_and!; [apply delete_ok; [done|]| |cbn; congruence].
    - by rewrite Hl4, (fr_clients _ _ Hf3).
    - cbn. by rewrite Hcu4, (fr_current _ _ Hf3). }
  destruct changed; [|by apply Hend]. apply wp_get, wp_bind, wp_lift.
  - intros payload _. eapply wp_mono; [by apply push_ok|]. intros g4 r (Hok4 & Hl4 & Hcu4 & _ & Hlk4).
    destruct r as [e|[]]; [|by apply Hend].
    split_and!; [done|by rewrite Hcu4, (fr_current _ _ Hf3)|congruence].
  - intros why Hw. destruct (decide (SUBSCRIBE_FILTER_LENGTH < 8)%nat) as [Hs|Hs].
    + rewrite filterToVector_short in Hw by by rewrite length_replicate. injection Hw as <-. by apply Ha.
    + by rewrite filterToVector_long in Hw by (rewrite length_replicate; lia).
Qed.

(** ** Dispatching *)

Lemma vectorToFilter_undefined data why :
  vectorToFilter data = Undefined why -> (length data < 8)%nat /\ why = OutOfBounds.
Proof.
  intros Hv. assert (Hd : defined (vectorToFilter data) = false) by by rewrite Hv.
  rewrite vectorToFilter_defined in Hd. apply Nat.leb_gt in Hd. split; [lia|].
  do 4 (destruct data as [|? data]; [by injection Hv as <-|]). cbn in Hd. lia.
Qed.

Lemma filterToVector_undefined p data why :
  filterToVector p data = Undefined why -> (length data < 8)%nat /\ why = OutOfBounds.
Proof.
  destruct (decide (length data < 8)%nat) as [Hs|Hs].
  - rewrite filterToVector_short by done. by intros [= <-].
  - by rewrite filterToVector_long by lia.
Qed.

(** The command about to be sent. *)
Definition ready g (cmd : client_command) : Prop :=
  cmd_live g cmd /\ (m_type (cc_command cmd) = SUBSCRIBE -> is_Some (cc_prevfilter g)).

Definition cc_dispatched g g' (r : clr_exception + option client_command) : Prop :=
  cc_ok g' /\
  match r with
  | inr (Some cmd) => ready g' cmd
  | _ => cc_current g' = cc_current g /\ input_lock g g'
  end.

Lemma set_current_ok cmd g g1 :
  cc_ok g1 -> ready g1 cmd ->
  wp (_ ← cc_modify (cc_set_current cmd); mret (Some cmd)) g1 (cc_dispatched g).
Proof.
  intros [] [Hl Hs]. split_and!; try done. split; cbn; try done.
  intros c Hc. left. unfold cmd_live in Hl. cbn in Hc. by rewrite Hc in Hl.
Qed.

Lemma dispatch_ok cmd g :
  (m_type (cc_command cmd) = SUBSCRIBE -> (length (m_data (cc_command cmd)) < 8)%nat ->
   allowed OutOfBounds) ->
  cc_ok g -> cmd_live g cmd -> wp (cc_dispatch cmd) g (cc_dispatched g).
Proof.
  intros Ha Hok Hlive. apply wp_bind.
  assert (Hl : forall c, cc_client cmd = Some c -> is_Some (cc_heap g !! c)).
  { intros c Hc. unfold cmd_live in Hlive. rewrite Hc in Hlive. by apply (ok_live _ Hok). }
  eapply wp_mono with (Q := fun g' _ => g' = g).
  { destruct (cc_client cmd) as [c|]; [|done]. by apply remote_frame, Hl. }
  intros g' r ->. destruct r as [e|[]]; [done|].
  destruct (m_type (cc_command cmd) <=? NOTIFICATION).
  { apply wp_bind. eapply wp_mono; [by apply respond_frame|]. intros g1 r Hf.
    pose proof (frame_ok _ _ Hf Hok) as Hok1. destruct Hf. by destruct r as [e|[]]. }
  apply wp_bind. destruct (cc_client cmd) as [client|] eqn:Hc.
  2: { apply set_current_ok; [done|]. split; [done|]. unfold cmd_live in Hlive. by rewrite Hc in Hlive. }
  destruct (Z.eqb_spec (m_type (cc_command cmd)) SUBSCRIBE) as [Hs|Hs].
  2: { by apply set_current_ok. }
  specialize (Hl _ eq_refl).
  apply wp_bind, wp_lift; [|intros why [Hsh ->]%vectorToFilter_undefined; by apply Ha].
  intros params _. apply wp_bind. eapply wp_mono; [by apply update_frame|].
  intros g1 r Hf1. pose proof (frame_ok _ _ Hf1 Hok) as Hok1.
  destruct r as [e|[]]; [by destruct Hf1|]. apply wp_bind.
  eapply wp_mono; [apply recompute_frame, (ok_live _ Hok1)|].
  intros g2 r (Hf2 & Hp2 & [b ->]). pose proof (frame_ok _ _ Hf2 Hok1) as Hok2.
  pose proof (frame_trans _ _ _ Hf1 Hf2) as Hf. apply wp_get, wp_bind, wp_lift.
  - intros data _. apply set_current_ok; [done|]. split; [|done].
    unfold cmd_live in *. cbn. rewrite (fr_clients _ _ Hf), Hc in *. done.
  - intros why [Hsh ->]%filterToVector_undefined. by apply Ha.
Qed.

(** ** Every step *)

Definition pc_live g (pc : input_pc) : Prop :=
  match pc with
  | CcIdle | CcHead | CcRemoving _ => settled_current g
  | CcSend cmd _ | CcWait cmd _ | CcDone cmd _ => ready g cmd
  | CcTimeout cmd client => client ∈ cc_clients g
  | CcRaised _ => settled_current g
  end.

Definition clr_inv w : Prop := cc_ok (cw_clients w) /\ pc_live (cw_clients w) (cw_pc w).

Lemma frame_pc_live g g' pc : frame g g' -> pc_live g pc -> pc_live g' pc.
Proof.
  intros [Hc _ _ Hcu _ Hp Hk]. destruct pc; cbn; unfold ready, cmd_live; rewrite ?Hc; try done.
  all: try by apply settled_keeps.
  all: destruct (cc_client cmd); intros [? ?]; eauto.
Qed.

Lemma input_step {A} (m : cc_m A) k w (Q : CClients C -> clr_exception + A -> Prop) :
  wp m (cw_clients w) Q ->
  (forall g r, Q g r ->
     cc_ok g /\ match r with inr a => pc_live g (k a) | inl _ => settled_current g end) ->
  match input_runs m k w with Ok w' => clr_inv w' | Undefined why => allowed why end.
Proof.
  unfold wp, input_runs. destruct (m (cw_clients w)) as [[g r]|]; [|done].
  intros HQ Hk. step_bind. apply Hk in HQ as [Hok Hr]. split; [done|]. cbn. by destruct r.
Qed.

Lemma other_step {A} (m : cc_m A) w (Q : CClients C -> clr_exception + A -> Prop) :
  wp m (cw_clients w) Q ->
  (forall g r, Q g r -> cc_ok g /\ pc_live g (cw_pc w)) ->
  match other_runs m w with Ok w' => clr_inv w' | Undefined why => allowed why end.
Proof.
  unfold wp, other_runs. destruct (m (cw_clients w)) as [[g r]|]; [|done].
  intros HQ Hk. step_bind. by apply (Hk _ _ HQ).
Qed.

Lemma cleared_ok g : cc_ok g -> cc_ok (cc_set_current cleared_command g).
Proof. intros []. by split. Qed.

Lemma timeout_ok cmd client g :
  cc_ok g -> client ∈ cc_clients g -> cc_can_lock InputThread g = true ->
  wp (_ ← cc_commandTimeout client (m_type (cc_command cmd)) ERR_COMMAND_TIMEOUT;
      cc_modify (cc_set_current cleared_command)) g
    (fun g' _ => cc_ok g' /\ settled_current g').
Proof.
  intros Hok Hc Hcan. apply wp_bind. eapply wp_mono.
  - apply locked_input_frame; [done|]. apply respond_frame. intros c [= ->]. by apply (ok_live _ Hok).
  - intros g1 r [Hf Hr]. pose proof (frame_ok _ _ Hf Hok) as Hok1.
    destruct r as [e|[]]; [done|]. split; [by apply cleared_ok|by left].
Qed.

Lemma send_step_ok w :
  (forall client, cw_pc w = CcRemoving client -> (SUBSCRIBE_FILTER_LENGTH < 8)%nat ->
     allowed OutOfBounds) ->
  (forall cmd rest, cw_pc w = CcHead -> cc_commands (cw_clients w) = cmd :: rest ->
     m_type (cc_command cmd) = SUBSCRIBE -> (length (m_data (cc_command cmd)) < 8)%nat ->
     allowed OutOfBounds) ->
  clr_inv w ->
  match send_step SUBSCRIBE_FILTER_LENGTH w with Ok w' => clr_inv w' | Undefined why => allowed why end.
Proof.
  intros Hrem Hhead [Hok Hpc]. unfold send_step.
  destruct (cw_pc w) as [|client| |cmd i|cmd i|cmd result|cmd client|e] eqn:Hw; cbn in Hpc.
  - split; [done|by rewrite Hw].
  - destruct (cc_can_lock InputThread _); [|split; [done|by rewrite Hw]].
    eapply input_step with (Q := fun g _ => cc_ok g /\ settled_current g).
    + apply wp_bind. eapply wp_mono; [apply remove_ok; [by eapply Hrem|done..]|].
      intros g [e|[]] [Hok1 Hset]; [done|]. by split; [apply frame_active|].
    + by intros g [e|[]].
  - destruct (cc_commands (cw_clients w)) as [|cmd rest] eqn:Hq; [by split|].
    eapply input_step; [apply wp_bind; cbn; apply dispatch_ok|].
    + by eapply Hhead.
    + destruct Hok as [? ? Hf ? ?]. rewrite Hq in Hf. apply Forall_cons in Hf as [_ Hf]. by split.
    + pose proof (ok_commands _ Hok) as Hf. rewrite Hq in Hf. by apply Forall_cons in Hf as [Hf _].
    + intros g r [Hok1 Hr]. split; [done|].
      destruct r as [e|[cmd1|]]; [|done|]; destruct Hr; by eapply settled_keeps.
  - destruct (i <? cc_retries _); [|by split].
    destruct (picard_sendCommand _ _ _) as [p seq]. split; [|done]. cbn. by destruct Hok.
  - destruct (cc_inProgress _ =? 1); [|split; [done|by rewrite Hw]].
    split; [|done]. cbn. by destruct Hok.
  - destruct Hpc as [Hl Hs]. unfold cmd_live in Hl.
    destruct (cc_client cmd) as [client|]; [|split; [by apply cleared_ok|by left]].
    destruct result; [split; [by apply cleared_ok|by left]|].
    eapply input_step with (Q := fun g r => frame (cw_clients w) g /\ r = inr tt).
    + destruct (Z.eqb_spec (m_type (cc_command cmd)) SUBSCRIBE) as [Hsub|];
        [|by split; [apply frame_refl|]].
      apply roll_back_frame; [by apply Hs|by apply (ok_live _ Hok)].
    + intros g r [Hf ->]. split; [by eapply frame_ok|]. cbn. by rewrite (fr_clients _ _ Hf).
  - destruct (cc_can_lock InputThread _) eqn:Hcan; [|split; [done|by rewrite Hw]].
    eapply input_step; [by apply timeout_ok|]. by intros g [e|[]].
  - split; [done|by rewrite Hw].
Qed.

(** The inputs whose effect the language does not define. *)
Definition clr_hazard w (e : clr_event I) (why : ub_kind) : Prop :=
  match why with
  | BadShift => exists t payload, e = CcNotif t payload
  | OutOfBounds =>
      e = CcStep /\
      ((exists client, cw_pc w = CcRemoving client /\ (SUBSCRIBE_FILTER_LENGTH < 8)%nat) \/
       (exists cmd rest, cw_pc w = CcHead /\ cc_commands (cw_clients w) = cmd :: rest /\
          m_type (cc_command cmd) = SUBSCRIBE /\ (length (m_data (cc_command cmd)) < 8)%nat))
  | _ => False
  end.
End safety.

Section steps.
Context {C I P : Type} `{IMuxClient C I} `{IPicardIO P}.
Variable SUBSCRIBE_FILTER_LENGTH : nat.
Hypothesis isSubscribed_ub : forall (c : C) t why, isSubscribed c t = Undefined why -> why = BadShift.
Implicit Types (g : CClients C) (w : clr_world C P).

Lemma clr_exec_ok w e :
  clr_inv w ->
  match clr_exec SUBSCRIBE_FILTER_LENGTH w e with
  | Ok w' => clr_inv w'
  | Undefined why => clr_hazard SUBSCRIBE_FILTER_LENGTH w e why
  end.
Proof.
  intros Hw. destruct e as [client sock|sock input| | | | |t q rc payload|t payload]; cbn [clr_exec].
  - destruct (bool_decide _) eqn:Hn; cbn [andb]; [|done]. destruct (cc_can_lock _ _); [|done].
    apply bool_decide_eq_true in Hn. destruct Hw as [Hok Hpc].
    eapply (other_step (clr_hazard _ w _)); [by apply addClient_ok|].
    intros g r (Hok1 & Hl & Hp & Hcu & Hk). split; [done|]. destruct (cw_pc w); cbn in *.
    all: unfold settled_current, ready, cmd_live in *; rewrite ?Hl, ?Hcu, ?Hk, ?Hp; try done.
    all: try (destruct Hpc as [Hlive ?]; split; [|done];
      destruct (cc_client cmd); [apply elem_of_app; by left|done]).
    apply elem_of_app. by left.
  - destruct (cw_pc w) eqn:Hpc; try done. destruct Hw as [Hok Hlive]. rewrite Hpc in Hlive.
    eapply (input_step (clr_hazard _ w _)); [by apply read_ok|].
    intros g r (Hok1 & Hcu & Hk). split; [done|].
    destruct r as [e|[client|]]; by apply (settled_keeps (cw_clients w)).
  - destruct (cw_pc w) eqn:Hpc; try done. destruct Hw as [Hok Hlive]. rewrite Hpc in Hlive. by split.
  - apply send_step_ok; [| |done].
    + intros client Hpc Hlen. split; [done|]. left. by exists client.
    + intros cmd rest Hpc Hq Hs Hlen. split; [done|]. right. by exists cmd, rest.
  - destruct (cw_pc w) eqn:Hpc; try done. destruct Hw as [Hok Hlive]. rewrite Hpc in Hlive. by split.
  - destruct (cw_pc w) eqn:Hpc; try done. destruct Hw as [Hok Hlive]. rewrite Hpc in Hlive. by split.
  - destruct Hw as [Hok Hpc]. eapply (other_step (clr_hazard _ w _)); [apply commandComplete_frame; exact Hok|].
    intros g r Hf. split; [exact (frame_ok _ _ Hf Hok)|exact (frame_pc_live _ _ _ Hf Hpc)].
  - destruct Hw as [Hok Hpc].
    eapply (other_step (clr_hazard _ w _)); [apply handleNotif_frame; [done|by do 2 eexists|done]|].
    intros g r Hf. split; [exact (frame_ok _ _ Hf Hok)|exact (frame_pc_live _ _ _ Hf Hpc)].
Qed.

Lemma new_clr_inv retries p : clr_inv (new_clr_world retries p : clr_world C P).
Proof.
  split; [|by left]. split; cbn; try done; [apply NoDup_nil_2|].
  intros client Hc. by apply not_elem_of_nil in Hc.
Qed.

Lemma clr_run_ok es w :
  clr_inv w ->
  match clr_run SUBSCRIBE_FILTER_LENGTH w es with Ok w' => clr_inv w' | Undefined _ => True end.
Proof.
  revert w. induction es as [|e es IH]; intros w Hw; [done|]. unfold clr_run. cbn [foldM].
  pose proof (clr_exec_ok w e Hw) as He. destruct (clr_exec _ w e) as [w1|]; [|done].
  step_bind. by apply IH.
Qed.

(** ** A lock that is never given back *)

(** [m_lock] is held by the Picard thread, the clients are [l], and the count of
    the semaphore is [n] if that is given. *)
Record lock_lost (n : option Z) (l : list nat) g : Prop := {
  ll_lock : cc_lock g = Some PicardThread;
  ll_clients : cc_clients g = l;
  ll_count k : n = Some k -> cc_inProgress g = k;
}.
Definition keeps {A} (Q : CClients C -> Prop) (m : cc_m A) : Prop :=
  forall g g' r, Q g -> m g = Ok (g', r) -> Q g'.

Lemma keeps_bind {A B} Q (m : cc_m A) (f : A -> cc_m B) :
  keeps Q m -> (forall a, keeps Q (f a)) -> keeps Q (m ≫= f).
Proof.
  unfold keeps, mbind, cc_bind. intros Hm Hf g g' r HQ.
  destruct (m g) as [[g1 [e|a]]|] eqn:Hg; [|eauto|done]. intros [= <- <-]. eauto.
Qed.

Lemma keeps_modify Q f : (forall g, Q g -> Q (f g)) -> keeps Q (cc_modify f).
Proof. intros Hf g g' r HQ [= <- <-]. by apply Hf. Qed.

Lemma keeps_same {A} Q (m : cc_m A) : (forall g g' r, m g = Ok (g', r) -> g' = g) -> keeps Q m.
Proof. intros Hm g g' r HQ Hg. by apply Hm in Hg as ->. Qed.

Lemma keeps_ret {A} Q (a : A) : keeps Q (mret a).
Proof. intros g g' r HQ [= <- <-]. done. Qed.
Lemma keeps_get Q : keeps Q cc_get.
Proof. intros g g' r HQ [= <- <-]. done. Qed.
Lemma keeps_raise {A} Q e : keeps Q (cc_raise e : cc_m A).
Proof. intros g g' r HQ [= <- <-]. done. Qed.
Lemma keeps_lift {A} Q (m : outcome A) : keeps Q (cc_lift m).
Proof. intros g g' r HQ. unfold cc_lift. by destruct m as [a|]; [intros [= <- <-]|]. Qed.
Lemma keeps_deref Q client : keeps Q (cc_deref client).
Proof.
  intros g g' r HQ. unfold cc_deref. by destruct (cc_heap g !! client); [intros [= <- <-]|].
Qed.

Lemma keeps_for {A} Q (f : A -> cc_m unit) l : (forall x, keeps Q (f x)) -> keeps Q (cc_for f l).
Proof.
  intros Hf. induction l as [|x l IH]; [apply keeps_ret|]. apply keeps_bind; [apply Hf|]. by intros [].
Qed.

Lemma keeps_locked {A} n l (body : cc_m A) :
  keeps (lock_lost n l) body -> keeps (lock_lost n l) (cc_locked PicardThread body).
Proof.
  intros Hb g g' r [Hlk Hl Hn]. unfold cc_locked.
  destruct (body _) as [[g1 [e|a]]|] eqn:Hg; [| |done].
  - intros [= <- <-]. eapply Hb; [|exact Hg]. by split.
  - intros [= <- <-]. eassert (lock_lost n l g1) as []; [|by split]. eapply Hb; [|exact Hg]. by split.
Qed.
End steps.

Create HintDb keeps.
#[local] Hint Resolve keeps_ret keeps_get keeps_raise keeps_lift keeps_deref : keeps.
Ltac keep :=
  repeat first
    [ apply keeps_bind | progress intros | apply keeps_locked | apply keeps_for
    | solve [auto with keeps]
    | apply keeps_modify; solve [intros ? []; by split]
    | match goal with
      | |- keeps _ (match ?x with _ => _ end) => destruct x
      end ].

Section lost_lock.
Context {C I P : Type} `{IMuxClient C I} `{IPicardIO P}.
Variable SUBSCRIBE_FILTER_LENGTH : nat.
Implicit Types (g : CClients C) (w : clr_world C P) (l : list nat).

Lemma keeps_update n l client (f : C -> C) : keeps (lock_lost n l) (cc_update client f).
Proof. unfold cc_update. keep. Qed.
#[local] Hint Resolve keeps_update : keeps.
Lemma keeps_write n l client msg : keeps (lock_lost n l) (cc_write (C := C) client msg).
Proof. unfold cc_write. keep. Qed.
Lemma keeps_remote n l client : keeps (lock_lost n l) (cc_remoteName (C := C) client).
Proof. unfold cc_remoteName. keep. Qed.
#[local] Hint Resolve keeps_write keeps_remote : keeps.
Lemma keeps_respond n l client resp : keeps (lock_lost n l) (cc_sendResponse (C := C) client resp).
Proof. unfold cc_sendResponse. keep. Qed.
Lemma keeps_union n l acc clients : keeps (lock_lost n l) (cc_union (C := C) acc clients).
Proof. revert acc. induction clients as [|c clients IH]; intros acc; cbn [cc_union]; keep. Qed.
#[local] Hint Resolve keeps_respond keeps_union : keeps.
Lemma keeps_recompute n l : keeps (lock_lost n l) (cc_recompute (C := C)).
Proof. unfold cc_recompute. keep. Qed.
Lemma keeps_restore n l : keeps (lock_lost n l) (cc_restore_filter (C := C)).
Proof. unfold cc_restore_filter. keep. Qed.
Lemma keeps_release l : keeps (lock_lost None l) (cc_release (C := C)).
Proof. unfold cc_release. keep. Qed.
Lemma keeps_push n l client command : keeps (lock_lost n l) (cc_push (C := C) client command).
Proof. unfold cc_push. keep. Qed.
#[local] Hint Resolve keeps_recompute keeps_restore keeps_release keeps_push : keeps.
Lemma keeps_find n l sock clients : keeps (lock_lost n l) (find_socket (C := C) sock clients).
Proof. induction clients as [|c clients IH]; cbn [find_socket]; keep. Qed.
#[local] Hint Resolve keeps_find : keeps.
Lemma keeps_read n l sock (input : I) : keeps (lock_lost n l) (readMuxMessage (C := C) sock input).
Proof. unfold readMuxMessage, findClientBySocket, cc_handleCommand. keep. Qed.
Lemma keeps_complete l t q rc payload :
  keeps (lock_lost None l) (cc_commandComplete (C := C) t q rc payload).
Proof. unfold cc_commandComplete. keep. Qed.
Lemma keeps_notif n l t payload : keeps (lock_lost n l) (cc_handleNotif (C := C) t payload).
Proof. unfold cc_handleNotif. keep. Qed.
Lemma keeps_dispatch n l cmd : keeps (lock_lost n l) (cc_dispatch (C := C) cmd).
Proof. unfold cc_dispatch. keep. Qed.
#[local] Hint Resolve keeps_read keeps_complete keeps_notif keeps_dispatch : keeps.

Lemma lock_lost_exec l w e w' :
  lock_lost None l (cw_clients w) -> clr_exec (I := I) SUBSCRIBE_FILTER_LENGTH w e = Ok w' ->
  lock_lost None l (cw_clients w').
Proof.
  intros Hl. assert (Hrun : forall A (m : cc_m A) k, keeps (lock_lost None l) m ->
    input_runs m k w = Ok w' -> lock_lost None l (cw_clients w')).
  { intros A m k Hm Hr. unfold input_runs in Hr. destruct (m _) as [[g r]|] eqn:Hg; [|done].
    injection Hr as <-. by eapply Hm. }
  assert (Hother : forall A (m : cc_m A), keeps (lock_lost None l) m ->
    other_runs m w = Ok w' -> lock_lost None l (cw_clients w')).
  { intros A m Hm Hr. unfold other_runs in Hr. destruct (m _) as [[g r]|] eqn:Hg; [|done].
    injection Hr as <-. by eapply Hm. }
  assert (Hno : forall t, t <> PicardThread -> cc_can_lock t (cw_clients w) = false).
  { intros t Ht. unfold cc_can_lock. rewrite (ll_lock _ _ _ Hl). by apply bool_decide_eq_false. }
  destruct e as [client sock|sock input| | | | |t q rc payload|t payload]; cbn [clr_exec].
  - rewrite Hno, andb_false_r by done. by intros [= <-].
  - destruct (cw_pc w); try (intros [= <-]; exact Hl). apply Hrun. auto with keeps.
  - by destruct (cw_pc w); intros [= <-].
  - unfold send_step. destruct (cw_pc w) as [|client| |cmd i|cmd i|cmd result|cmd client|e].
    all: rewrite ?Hno by done; try (intros [= <-]; exact Hl).
    + destruct (cc_commands _); [by intros [= <-]|]. apply Hrun. keep.
    + destruct (i <? _); [|by intros [= <-]].
      destruct (picard_sendCommand _ _ _) as [p seq]. intros [= <-]. by destruct Hl.
    + destruct (_ =? 1); intros [= <-]; [by destruct Hl|exact Hl].
    + destruct (cc_client cmd); [|intros [= <-]; by destruct Hl].
      destruct result; [intros [= <-]; by destruct Hl|]. apply Hrun. keep.
  - by destruct (cw_pc w); intros [= <-].
  - by destruct (cw_pc w); intros [= <-].
  - apply Hother. auto with keeps.
  - apply Hother. auto with keeps.
Qed.

Lemma lock_lost_run l es w w' :
  lock_lost None l (cw_clients w) -> clr_run (I := I) SUBSCRIBE_FILTER_LENGTH w es = Ok w' ->
  lock_lost None l (cw_clients w').
Proof.
  revert w. induction es as [|e es IH]; intros w Hl Hr; [by injection Hr as <-|].
  unfold clr_run in Hr. cbn [foldM] in Hr. apply bind_Ok_inv in Hr as (w1 & He & Hr).
  eapply IH; [|exact Hr]. by eapply lock_lost_exec.
Qed.

(** A release of the full semaphore raises, with the lock taken. *)
Lemma locked_full (m : cc_m unit) g g' r :
  keeps (lock_lost (Some 1) (cc_clients g)) m -> cc_inProgress g = 1 ->
  cc_locked PicardThread (_ ← m; cc_release) g = Ok (g', r) ->
  lock_lost None (cc_clients g) g'.
Proof.
  intros Hm Hn. unfold cc_locked. unfold mbind at 1, cc_bind at 1.
  destruct (m _) as [[g1 x]|] eqn:Hg; [|done]. apply Hm in Hg as [Hlk Hl Hc]; [|split; [done|done|by intros ? [= <-]]].
  specialize (Hc 1 eq_refl). destruct x as [e|[]]; [by intros [= <- <-]|].
  unfold cc_release, mbind, cc_bind, cc_get. rewrite Hc. by intros [= <- <-].
Qed.

Lemma full_release_loses_lock t q rc payload g g' r :
  cc_lock g = None -> cc_inProgress g = 1 -> cc_response_matches g t q = true ->
  cc_commandComplete t q rc payload g = Ok (g', r) -> lock_lost None (cc_clients g) g'.
Proof.
  intros Hlk Hn Hm Hr. unfold cc_commandComplete in Hr. unfold mbind at 1, cc_bind at 1, cc_get at 1 in Hr.
  rewrite Hm in Hr. unfold cc_can_lock in Hr. rewrite Hlk in Hr.
  unfold mbind at 1, cc_bind at 1 in Hr.
  assert (Hbody : keeps (lock_lost (Some 1) (cc_clients g))
    (match cc_client (cc_current g) with
     | Some client =>
         _ ← cc_sendResponse (Some client) (new_CMuxOutput t 0 rc payload);
         if t =? SUBSCRIBE then cc_update client commitFilter else mret tt
     | None => mret tt
     end)) by keep.
  destruct ((t =? SUBSCRIBE) && negb (rc =? ERR_OK)); cbv iota in Hr.
  - unfold cc_restore_filter in Hr. destruct (cc_prevfilter g) as [f|] eqn:Hf.
    + change (cc_clients g) with (cc_clients (cc_set_filters f (Some f) g)) in Hbody |- *.
      eapply locked_full; [exact Hbody|exact Hn|].
      unfold mbind at 1, cc_bind at 1, cc_get at 1 in Hr. unfold mbind at 1, cc_bind at 1 in Hr.
      rewrite Hf in Hr. exact Hr.
    + unfold mbind at 1, cc_bind at 1, cc_get at 1 in Hr. unfold mbind at 1, cc_bind at 1 in Hr.
      by rewrite Hf in Hr.
  - by eapply locked_full.
Qed.
End lost_lock.

(** ** The hello *)

Lemma clr_fold_native {A S} (f : S -> A -> clr S) (f' : S -> A -> outcome S) s l :
  (forall s x, x ∈ l -> f s x = native (f' s x)) -> clr_fold f s l = native (foldM f' s l).
Proof.
  revert s. induction l as [|x l IH]; intros s Hf; [done|]. cbn [clr_fold foldM].
  rewrite Hf by left. destruct (f' s x); [|done]. step_bind. cbn [native mbind clr_bind].
  apply IH. intros s' y Hy. apply Hf. by right.
Qed.

Lemma clr_parseHello_length version auth data len :
  len <> CLR_EXPECTED_HELLO_LEN -> clr_parseHello version auth data len = Returns ERR_INVALID_CMD.
Proof. intros Hl. unfold clr_parseHello. by rewrite (proj2 (Z.eqb_neq _ _)). Qed.

Lemma clr_parseHello_spec version auth hdr type data pad :
  length hdr = 8%nat -> length auth = AUTHENTICATION_LEN ->
  clr_parseHello version auth (hdr ++ type :: data ++ pad) (Z.of_nat (9 + length data))
  = Returns (if type =? MUX_HELLO then hello_code version auth data else ERR_INVALID_CMD).
Proof.
  intros Hh Ha. destruct (decide (length data = 9%nat)) as [Hd|Hd].
  2: { rewrite clr_parseHello_length by (unfold CLR_EXPECTED_HELLO_LEN; lia).
       destruct (type =? MUX_HELLO); [|done]. unfold hello_code.
       destruct data as [|v token]; [done|]. rewrite decide_False; [done|].
       cbn in Hd. unfold AUTHENTICATION_LEN. lia. }
  rewrite Hd. unfold clr_parseHello. cbn [Nat.add]. set (ary := hdr ++ _).
  change (Z.of_nat 18 =? CLR_EXPECTED_HELLO_LEN) with true. cbv iota. change 8 with (Z.of_nat 8).
  rewrite (ary_get_Returns ary 8 type) by (unfold ary; by rewrite lookup_app_r, Hh by lia).
  cbn [mbind clr_bind andb]. destruct (type =? MUX_HELLO); [|done].
  destruct data as [|v token]; [done|]. injection Hd as Hd. change 9 with (Z.of_nat 9).
  rewrite (ary_get_Returns ary 9 v) by (unfold ary; by rewrite lookup_app_r, Hh by lia).
  cbn [mbind clr_bind].
  rewrite (clr_fold_native _ (fun result i =>
      expected ← vat auth i; got ← vat token i;
      Ok (if expected =? got then result else ERR_INVALID_AUTH))).
  - rewrite auth_loop, seq_lookup_eq by (done || (apply Forall_forall; intros i Hi;
      apply elem_of_seq in Hi; unfold AUTHENTICATION_LEN in *; lia)).
    unfold hello_code, AUTHENTICATION_LEN. rewrite decide_True by done. cbn [native]. f_equal.
    by repeat case_decide || case_bool_decide.
  - intros result i Hi. apply elem_of_seq in Hi. unfold AUTHENTICATION_LEN in Hi.
    destruct (vat auth i); [|done]. cbn [native mbind clr_bind outcome_bind].
    replace (10 + Z.of_nat i) with (Z.of_nat (10 + i)) by lia.
    destruct (lookup_lt_is_Some_2 token i ltac:(lia)) as [b Hb].
    rewrite (ary_get_Returns ary (10 + i) b).
    2: { unfold ary. rewrite lookup_app_r, Hh by lia.
         replace (10 + i - 8)%nat with (S (S i)) by lia. cbn. by apply lookup_app_l_Some. }
    by rewrite (vat_Ok _ _ _ Hb).
Qed.

(** ** Properties *)

(** The managed listener accepts the clients the connection of [BoostClient]
    accepts.  A first message that comes in one read is answered with the same
    bytes, and the socket is handed on exactly when the hello is accepted;
    whatever else is in the first read, a message cut by the network or two at
    once, is answered with an error and the socket closed, where the parser of
    [BoostClient] waits for the rest. *)
Lemma clr_hello_agrees {L} `{ISimpleClientList L} this (c : client_core) (l : L) m bytes :
  m_initState c = WAITING -> length (m_expectedAuth c) = AUTHENTICATION_LEN ->
  m_open c = true -> message_ok m -> m_type m = MUX_HELLO ->
  (length bytes <= MAX_AUTH_INPUT_LEN)%nat ->
  let listener := clr_authenticate (m_version c) (m_expectedAuth c) in
  (bytes = serialize_message m ->
   exists c' l' code, client_handleCommand this (c, l) m = Ok (c', l') /\
     m_sent c' = m_sent c ++ [buildHelloResponse c code] /\
     (m_initState c' = AUTHENTICATED <-> code = ERR_OK) /\
     listener (inr bytes) None
     = Ok ([buildHelloResponse c code],
           if decide (m_initState c' = AUTHENTICATED) then AddedToClients else SocketClosed)) /\
  (length bytes <> 18%nat ->
   listener (inr bytes) None = Ok ([buildHelloResponse c ERR_INVALID_CMD], SocketClosed)).
Proof.
  intros Hw Ha Hop [Hid Hlen] Ht Hmax listener. unfold listener, clr_authenticate. split.
  - intros ->. rewrite (message_waiting this c l m Hw Ha Hlen), Ht, Z.eqb_refl. cbn zeta.
    set (code := hello_code _ _ _).
    assert (Hp : clr_parseHello (m_version c) (m_expectedAuth c)
      (serialize_message m ++ replicate (MAX_AUTH_INPUT_LEN - length (serialize_message m)) 0)
      (Z.of_nat (length (serialize_message m))) = Returns code).
    { set (pad := replicate _ 0).
      pose proof (clr_parseHello_spec (m_version c) (m_expectedAuth c) (take 8 (serialize_message m))
        (m_type m) (m_data m) pad eq_refl Ha) as Hs.
      rewrite (proj2 (Z.eqb_eq _ _) Ht) in Hs. exact Hs. }
    rewrite Hp. cbn [mbind clr_bind]. unfold clr_buildHelloResponse.
    rewrite convertVectorToArray_id. cbn [mbind clr_bind].
    destruct (Z.eqb_spec code ERR_OK) as [Hok|Hok].
    + eexists _, _, code. split; [done|]. cbn. rewrite Hop, decide_True by done. by split_and!.
    + eexists _, _, code. split; [done|]. cbn. rewrite Hop, decide_False by done. by split_and!.
  - intros Hl. rewrite clr_parseHello_length by (unfold CLR_EXPECTED_HELLO_LEN; lia).
    cbn [mbind clr_bind]. unfold clr_buildHelloResponse. by rewrite convertVectorToArray_id.
Qed.


(** A second response locks the managed client manager for good.  If a
    response that matches the command in flight arrives again before the waiting
    thread has taken the first (as after a retransmission), the release of the
    semaphore raises and [m_lock] is never given back: from then on no client is
    added or removed, and a thread that has to remove a client or to report a
    timeout stays where it is. *)
Lemma clr_lock_lost {C I P} `{IMuxClient C I} `{IPicardIO P} len
  (w : clr_world C P) t q rc payload es w1 w2 :
  cc_lock (cw_clients w) = None -> cc_inProgress (cw_clients w) = 1 ->
  cc_response_matches (cw_clients w) t q = true ->
  clr_exec len w (CcResponse t q rc payload) = Ok w1 -> clr_run len w1 es = Ok w2 ->
  cc_lock (cw_clients w2) = Some PicardThread /\
  cc_clients (cw_clients w2) = cc_clients (cw_clients w) /\
  (forall client cmd e w3,
     cw_pc w2 = CcRemoving client \/ cw_pc w2 = CcTimeout cmd client ->
     clr_exec len w2 e = Ok w3 -> cw_pc w3 = cw_pc w2).
Proof.
  intros Hlk Hn Hm He Hr.
  assert (Hl : lock_lost None (cc_clients (cw_clients w)) (cw_clients w1)).
  { unfold clr_exec, other_runs in He. destruct (cc_commandComplete _ _ _ _ _) as [[g r]|] eqn:Hg; [|done].
    injection He as <-. by eapply full_release_loses_lock. }
  eapply lock_lost_run in Hr; [|exact Hl]. split_and!; [apply Hr|apply Hr|].
  intros client cmd e w3 Hpc Hx.
  assert (Hno : cc_can_lock InputThread (cw_clients w2) = false).
  { unfold cc_can_lock. by rewrite (ll_lock _ _ _ Hr). }
  assert (Hother : forall A (m : cc_m A), other_runs m w2 = Ok w3 -> cw_pc w3 = cw_pc w2).
  { intros A m Ho. unfold other_runs in Ho. destruct (m _) as [[g r]|]; [|done]. by injection Ho as <-. }
  destruct e as [c sock|sock input| | | | |t' q' rc' p'|t' p']; cbn [clr_exec] in Hx.
  - destruct (bool_decide _ && _); [by eapply Hother|by injection Hx as <-].
  - destruct Hpc as [Hpc|Hpc]; rewrite Hpc in Hx |- *; by injection Hx as <-.
  - destruct Hpc as [Hpc|Hpc]; rewrite Hpc in Hx |- *; by injection Hx as <-.
  - unfold send_step in Hx.
    destruct Hpc as [Hpc|Hpc]; rewrite Hpc, Hno in Hx; rewrite Hpc; by injection Hx as <-.
  - destruct Hpc as [Hpc|Hpc]; rewrite Hpc in Hx |- *; by injection Hx as <-.
  - destruct Hpc as [Hpc|Hpc]; rewrite Hpc in Hx |- *; by injection Hx as <-.
  - by eapply Hother.
  - by eapply Hother.
Qed.

(** ** Witnesses: clients that record what they are sent *)

Record sample_client := {
  sm_socket : nat;
  sm_subscriber : CSubscriber;
  sm_sent : list (list Z);
}.

Definition on_sub (f : CSubscriber -> CSubscriber) (c : sample_client) : sample_client :=
  {| sm_socket := sm_socket c; sm_subscriber := f (sm_subscriber c); sm_sent := sm_sent c |}.

#[local] Instance sample_ISubscriber : ISubscriber sample_client := {
  getSubscription c := getSubscription (sm_subscriber c);
  getUnreliable c := getUnreliable (sm_subscriber c);
  setSubscription p := on_sub (setSubscription p);
  isSubscribed c := isSubscribed (sm_subscriber c);
  resetFilter := on_sub resetFilter;
  commitFilter := on_sub commitFilter;
}.

(** The input of a read: the messages parsed from it; none, if the peer closed.
    The peer of socket 99 is gone: its address raises. *)
#[local] Instance sample_mux_client : IMuxClient sample_client (list CMuxMessage) := {
  new_CMuxClient sock := {| sm_socket := sock; sm_subscriber := new_CSubscriber; sm_sent := [] |};
  mux_getSocket := sm_socket;
  mux_Connected c := true;
  mux_RemoteEndPoint c :=
    if decide (sm_socket c = 99%nat) then Some ObjectDisposedException else None;
  mux_read c ms := inr (c, Z.of_nat (length ms), ms);
  mux_write c msg := inr {| sm_socket := sm_socket c; sm_subscriber := sm_subscriber c;
                            sm_sent := sm_sent c ++ [msg] |};
}.

(** Sequence numbers are given out one after the other. *)
#[local] Instance sample_picard : IPicardIO Z := {
  picard_sendCommand q _ _ := (q + 1, q);
  reset_rest q := q;
}.

Lemma sample_isSubscribed (c : sample_client) t why :
  isSubscribed c t = Undefined why -> why = BadShift.
Proof.
  change (isSubscribed (sm_subscriber c) t = Undefined why -> why = BadShift).
  cbn. unfold CSubscriber_isSubscribed, subscribeFilterMatch. destruct (_ && _); [done|]. by intros [= <-].
Qed.

Definition clr_after (es : list (clr_event (list CMuxMessage))) : clr_world sample_client Z :=
  match clr_run 8 (new_clr_world 2 7) es with Ok w => w | Undefined _ => new_clr_world 2 7 end.

(** Two clients; one sends two commands, and the first is sent to Picard. *)
Definition clr_waiting : list (clr_event (list CMuxMessage)) :=
  [CcAdd 0 10; CcAdd 1 11; CcReadable 10 [power_message; power_message]; CcSendCommands;
   CcStep; CcStep].
Definition power_response : clr_event (list CMuxMessage) := CcResponse (m_type power_message) 7 0 [1].

Lemma clr_hello_agrees_witness :
  let c := m_core (create sample_auth 4) in
  clr_authenticate 4 sample_auth (inr (serialize_message sample_hello)) None
  = Ok ([buildHelloResponse c ERR_OK], AddedToClients) /\
  clr_authenticate 4 sample_auth (inr (take 10 (serialize_message sample_hello))) None
  = Ok ([buildHelloResponse c ERR_INVALID_CMD], SocketClosed).
Proof.
  intros c. split.
  - destruct (clr_hello_agrees 3 c ([] : client_log) sample_hello (serialize_message sample_hello))
      as [(c' & l' & code & Hc & _ & _ & Hl) _]; [reflexivity..| | |vm_decide|reflexivity|].
    + by split; [|apply (bool_decide_unpack _)].
    + reflexivity.
    + etransitivity; [exact Hl|]. vm_compute in Hc. injection Hc as <- _.
      rewrite <- Hl. vm_compute. reflexivity.
  - apply (clr_hello_agrees 3 c ([] : client_log) sample_hello (take 10 (serialize_message sample_hello)));
      [reflexivity..| | |vm_decide|by vm_compute].
    + by split; [|apply (bool_decide_unpack _)].
    + reflexivity.
Defined.

(** The first command of one client is answered, its second waits; the command of
    another raises, and after that the client is removed. *)
Definition clr_resumed : list (clr_event (list CMuxMessage)) :=
  [CcAdd 2 99; CcReadable 99 [power_message]; CcSendCommands; CcStep; CcResume; CcReadable 99 []; CcStep].


(** The response comes twice; then the other client leaves. *)
Lemma clr_lock_lost_witness :
  let w := clr_after (clr_waiting ++ [power_response]) in
  let w2 := clr_after (clr_waiting ++ [power_response; power_response; CcStep; CcStep; CcStep; CcStep;
              CcExpired; CcStep; CcExpired; CcStep; CcStep; CcStep; CcAdd 2 12]) in
  cc_clients (cw_clients w2) = [0; 1]%nat /\ cc_lock (cw_clients w2) = Some PicardThread.
Proof.
  intros w w2.
  destruct (clr_lock_lost 8 w (m_type power_message) 7 0 [1]
    [CcStep; CcStep; CcStep; CcStep; CcExpired; CcStep; CcExpired; CcStep; CcStep; CcStep; CcAdd 2 12]
    (clr_after (clr_waiting ++ [power_response; power_response])) w2) as (Hl & Hc & _).
  1-5: vm_compute; reflexivity.
  split; [exact Hc|exact Hl].
Defined.

(** A late response: it arrives after the last wait for it has timed out and before
    the thread clears the command.  Its client is sent the response and a timeout;
    the wait for the next command is over at once, so that command's response is
    dropped and its client told nothing. *)
Lemma clr_late_response :
  let w := clr_after (clr_waiting ++
    [CcExpired; CcStep; CcExpired; power_response;   (* seq 8 is in flight: no match *)
     CcResponse (m_type power_message) 8 0 [1]; CcStep; CcStep; CcStep; CcStep; CcStep; CcStep; CcStep;
     CcResponse (m_type power_message) 9 0 [2]]) in
  (sm_sent <$> cc_heap (cw_clients w) !! 0%nat)
  = Some [serialize_output (new_CMuxOutput (m_type power_message) 0 0 [1]);
          serialize_output (new_CMuxOutput (m_type power_message) 0 ERR_COMMAND_TIMEOUT [])] /\
  cc_commands (cw_clients w) = [] /\ cw_pc w = CcHead.
Proof. split_and!; vm_compute; reflexivity. Qed.
