(* ===== verification/ClrMain.v ===== *)
(** * The managed build of the main loop ([serial_mux.cpp] with [USE_PICARD_CLR])

    With [USE_PICARD_CLR] [serial_mux_loop] opens the connection to Picard itself, as
    a port [sp] or a socket [picardSim], gives it to a link of [PicardClr], and closes
    it after the components are deleted.  The rest of the loop is that of [Main],
    and so is its model: [managed_process] adds the connection that is to be closed
    and counts the connections opened and closed.

    This file is about the loop, whatever the threads and handlers of the components
    do over the managed links (with flow control, failing writes, which reset the
    connection, and exceptions): an event [MgOthers] puts the components into any
    state at all.  What the links do is [PicardClr]. *)

From Stdlib Require Import ZArith Lia.
From stdpp Require Import base list gmap strings.
From S2P Require Import Prelude Hdlc Common Subscriber SyncQueue MuxMessage BasePicard PicardLink.
From S2P Require Import BoostClient Options ClientManager ManagerSpec SerialMux Main ClrUtils PicardClr.
#[local] Open Scope Z_scope.

(** ** The loop of [Main] among arbitrary threads *)

Section loop.
Context {A B : Type} `{SerialPort A} `{UdpSocket B} (opts : SerialMuxOptions).
Implicit Types (x p : process A B).

(** The main thread, [serial_mux_stop], and what all other threads and handlers
    make of the components and of the clients left from deleted ones. *)
Inductive loop_event :=
  | LMain (sr : surroundings A B)
  | LStop (spurious : bool)
  | LOthers (y : system (picard_device A B)) (stale : list CBoostClient).

Definition others_step (y : system (picard_device A B)) (stale : list CBoostClient) x : process A B :=
  match pr_sys x with
  | Some _ => with_stale stale (with_sys (Some y) x)
  | None => x
  end.

Definition loop_exec x (e : loop_event) : outcome (process A B) :=
  match e with
  | LMain sr => Ok (main_step opts sr x)
  | LStop spurious => stop_step spurious x
  | LOthers y stale => Ok (others_step y stale x)
  end.

Definition loop_run x (es : list loop_event) : outcome (process A B) := foldM loop_exec x es.

(** The steps of [Main] are among these. *)
Lemma loop_covers x e x' :
  process_exec opts x e = Ok x' -> exists es, loop_run x es = Ok x'.
Proof.
  destruct e as [sr|spurious|e|i e]; cbn [process_exec].
  - intros [= <-]. by exists [LMain sr].
  - intros Hx. exists [LStop spurious]. unfold loop_run. cbn. by rewrite Hx.
  - destruct (pr_sys x) as [y|] eqn:Hy; [|intros [= <-]; by exists []].
    destruct (thread_enabled _ _); [|intros [= <-]; by exists []].
    intros Hx. apply bind_Ok_inv in Hx as (y' & _ & [= <-]). exists [LOthers y' (pr_stale x)].
    unfold loop_run. cbn. unfold others_step. by rewrite Hy.
  - destruct (pr_main x), (pr_sys x) as [y|] eqn:Hy, (pr_stale x !! i);
      try (intros [= <-]; by exists []).
    destruct (x_stopped _); [intros [= <-]; by exists []|].
    intros Hx. apply bind_Ok_inv in Hx as (cl & _ & [= <-]). exists [LOthers y (<[i:=cl]> (pr_stale x))].
    unfold loop_run. cbn. unfold others_step. rewrite Hy. unfold with_sys. by rewrite <- Hy.
Qed.
End loop.
Arguments loop_event : clear implicits.

(** ** The managed loop *)

Section managed.
Context {B : Type} `{UdpSocket B} (opts : SerialMuxOptions).
#[local] Abbreviation P := (picard_device clr_port B).

(** What the surroundings give the main thread: the answers of [connectSerial];
    what [gcnew UdpClient] and its [Connect] do; the time, and whether the listener's
    address can be bound; what [Close] raises. *)
Record managed_surroundings := {
  ms_serial : connect_answers;
  ms_client : clr_exception + B;
  ms_connect : option clr_exception;
  ms_time : Z;
  ms_bind : bool;
  ms_close : option clr_exception;
}.

(** The [try] block: a connection, or an exception and what it leaves open.  The
    handler of the exception does not close it, and the variables that refer to it
    go out of scope. *)
Inductive connect_outcome := Connected (device : P) | Failed (left_open : bool).

Definition managed_connect (sr : managed_surroundings) : connect_outcome :=
  if useSerial opts then
    match connectSerial (serialPort opts) (ms_serial sr) with
    | (sp, None) => Connected (SerialDevice sp)
    | (sp, Some _) => Failed (IsOpen sp)
    end
  else
    match ms_client sr with
    | inl _ => Failed false
    | inr picardSim =>
        match ms_connect sr with
        | None => Connected (UdpDevice picardSim)
        | Some _ => Failed true
        end
    end.

(** The same for [main_step]. *)
Definition connected_as (sr : managed_surroundings) : surroundings clr_port B :=
  {| sr_serial := match managed_connect sr with
                  | Connected (SerialDevice sp) => Some (sp, ms_time sr) | _ => None end;
     sr_socket := match managed_connect sr with
                  | Connected (UdpDevice picardSim) => Some (picardSim, ms_time sr) | _ => None end;
     sr_bind := ms_bind sr |}.

Record managed_process := {
  mp_process : process clr_port B;
  mp_closing : option P;     (* sp or picardSim, its link deleted, to be closed *)
  mp_opened : nat;           (* connections opened *)
  mp_closed : nat;           (* ... and closed *)
  mp_left : nat;             (* ... and left open by an exception *)
}.

Definition new_managed_process : managed_process :=
  {| mp_process := new_process; mp_closing := None; mp_opened := 0; mp_closed := 0; mp_left := 0 |}.

Definition with_process (p : process clr_port B) (x : managed_process) : managed_process :=
  {| mp_process := p; mp_closing := mp_closing x; mp_opened := mp_opened x;
     mp_closed := mp_closed x; mp_left := mp_left x |}.

(** [sp->Close()] or [picardSim->Close()].  An exception leaves
    [serial_mux_loop]. *)
Definition close_connection (raised : option clr_exception) (x : managed_process) : managed_process :=
  match raised with
  | None => {| mp_process := mp_process x; mp_closing := None; mp_opened := mp_opened x;
               mp_closed := S (mp_closed x); mp_left := mp_left x |}
  | Some _ => {| mp_process := goto MThrown (mp_process x); mp_closing := None;
                 mp_opened := mp_opened x; mp_closed := mp_closed x; mp_left := S (mp_left x) |}
  end.

(** [serial_mux_loop] up to the next blocking point. *)
Definition managed_main_step (sr : managed_surroundings) (x : managed_process) : managed_process :=
  match mp_closing x with
  | Some _ => close_connection (ms_close sr) x
  | None =>
      let p := mp_process x in
      let p' := main_step opts (connected_as sr) p in
      match pr_main p, pr_sys p with
      | MConnect, _ =>
          match managed_connect sr with
          | Connected _ =>
              {| mp_process := p'; mp_closing := None; mp_opened := S (mp_opened x);
                 mp_closed := mp_closed x; mp_left := mp_left x |}
          | Failed left_open =>
              let n := if left_open then 1%nat else 0%nat in
              {| mp_process := p'; mp_closing := None; mp_opened := n + mp_opened x;
                 mp_closed := mp_closed x; mp_left := n + mp_left x |}
          end
      | MDeletePicard, Some y =>
          {| mp_process := p'; mp_closing := Some (s_port (y_env y)); mp_opened := mp_opened x;
             mp_closed := mp_closed x; mp_left := mp_left x |}
      | _, _ => with_process p' x
      end
  end.

Inductive managed_event :=
  | MgMain (sr : managed_surroundings)
  | MgStop (spurious : bool)
  | MgOthers (y : system P) (stale : list CBoostClient).

Definition managed_exec (x : managed_process) (e : managed_event) : outcome managed_process :=
  match e with
  | MgMain sr => Ok (managed_main_step sr x)
  | MgStop spurious => p ← stop_step spurious (mp_process x); Ok (with_process p x)
  | MgOthers y stale => Ok (with_process (others_step y stale (mp_process x)) x)
  end.

Definition managed_run (x : managed_process) (es : list managed_event) : outcome managed_process :=
  foldM managed_exec x es.
End managed.
Arguments managed_surroundings : clear implicits.
Arguments managed_process : clear implicits.
Arguments managed_event : clear implicits.

(** ** Facts *)

Section facts.
Context {B : Type} `{UdpSocket B} (opts : SerialMuxOptions).
Implicit Types (x : managed_process B) (p : process clr_port B) (sr : managed_surroundings B).

(** The connections in use: that of the components, or the one to be closed. *)
Definition in_use x : nat :=
  match mp_closing x, pr_sys (mp_process x) with None, None => 0 | _, _ => 1 end.

(** There are components exactly where the main thread is between their creation
    and deletion. *)
Definition placed p : Prop :=
  has_components (pr_main p) = match pr_sys p with Some _ => true | None => false end.

(** The process of [Main] beside it.  It stands still while the connection is
    closed, and for good where [Close] raises an exception. *)
Definition beside x p : Prop :=
  mp_process x = p \/ (closed p /\ mp_process x = goto MThrown p).

Record managed_inv x p : Prop := {
  mg_placed : placed p;
  mg_beside : beside x p;
  mg_closing : mp_closing x <> None -> mp_process x = p /\ closed p;
  mg_count : mp_opened x = (mp_closed x + mp_left x + in_use x)%nat;
}.

Lemma connect_same sr :
  connect_picard opts (connected_as opts sr)
  = match managed_connect opts sr with Connected d => Some (d, ms_time sr) | Failed _ => None end.
Proof.
  unfold connect_picard, connected_as, managed_connect. cbn [sr_serial sr_socket].
  destruct (useSerial opts).
  - by destruct (connectSerial _ _) as [sp [e|]].
  - by destruct (ms_client sr), (ms_connect sr).
Qed.

(** What a step of the main thread does to the components. *)
Lemma main_step_sys s p :
  placed p ->
  let p' := main_step opts s p in
  placed p' /\
  match pr_main p, pr_sys p with
  | MConnect, _ => (pr_sys p' = None <-> connect_picard opts s = None)
  | MDeletePicard, Some _ => closed p'
  | _, _ => (pr_sys p' = None <-> pr_sys p = None)
  end.
Proof.
  unfold placed, main_step. intros Hp.
  destruct (pr_sys p) as [y|] eqn:Hy, (pr_main p) eqn:Hm; try done; cbn; rewrite ?Hy, ?Hm; try done.
  all: try (by destruct (muxRunning p); cbn; rewrite ?Hy; repeat split).
  all: try (by destruct (sr_bind s); cbn; rewrite ?Hy).
  all: try (by destruct (x_stopped _); cbn; rewrite ?Hy, ?Hm).
  all: try (by case_decide; cbn; rewrite ?Hy, ?Hm).
  all: try (by destruct (m_isRunning _); cbn; rewrite ?Hy, ?Hm).
  destruct (connect_picard opts s) as [[d t0]|]; cbn; [done|by rewrite Hy].
Qed.

Lemma stop_step_sys spurious p p' :
  stop_step spurious p = Ok p' -> pr_main p' = pr_main p /\ (pr_sys p' = None <-> pr_sys p = None).
Proof.
  unfold stop_step. destruct (pr_stop p); try by intros [= <-].
  - intros Hx. apply bind_Ok_inv in Hx as (p1 & H1 & [= <-]). cbn. unfold mux_resetConnection in H1.
    destruct (pr_sys p) as [y|] eqn:Hy; [|injection H1 as <-; cbn; by rewrite Hy].
    destruct (pr_main p) eqn:Hm; try (injection H1 as <-; cbn; by rewrite Hm).
    all: apply bind_Ok_inv in H1 as (y' & _ & [= <-]); cbn; by rewrite Hm.
  - intros [= <-]. by destruct spurious.
Qed.

(** After [Close] has raised an exception [serial_mux_stop] goes on as if the main
    thread stood still. *)
Lemma stop_step_thrown spurious p :
  closed p ->
  stop_step spurious (goto MThrown p) = (p ← stop_step spurious p; Ok (goto MThrown p)).
Proof.
  intros [Hm Hs]. unfold stop_step. cbn [pr_stop goto]. destruct (pr_stop p) eqn:Hst; try done.
  - unfold mux_resetConnection. cbn [pr_sys goto with_sys]. by rewrite Hs.
  - by destruct spurious.
Qed.

Lemma placed_same p p' :
  placed p -> pr_main p' = pr_main p -> (pr_sys p' = None <-> pr_sys p = None) -> placed p'.
Proof.
  unfold placed. intros Hp Hm Hs. rewrite Hm, Hp.
  destruct (pr_sys p) as [y|], (pr_sys p') as [y'|]; try done; exfalso; naive_solver.
Qed.

Lemma count_in_use x p' :
  (pr_sys p' = None <-> pr_sys (mp_process x) = None) -> in_use (with_process p' x) = in_use x.
Proof.
  intros Hs. unfold in_use. cbn. destruct (mp_closing x); [done|].
  destruct (pr_sys p') as [y|], (pr_sys (mp_process x)) as [y'|]; try done; exfalso; naive_solver.
Qed.

(** Nothing but the main thread creates or deletes components. *)
Lemma managed_inv_same x p p1 p' :
  managed_inv x p -> (pr_main p' = pr_main p) -> (pr_sys p' = None <-> pr_sys p = None) ->
  (mp_process x = p /\ p1 = p' \/ closed p /\ mp_process x = goto MThrown p /\ p1 = goto MThrown p') ->
  managed_inv (with_process p1 x) p'.
Proof.
  intros [Hi Hb Hc Hn] Hm Hs Hp1.
  assert (Hcl : closed p -> closed p') by (unfold closed; rewrite Hm, Hs; done).
  assert (Hsys : pr_sys p1 = None <-> pr_sys (mp_process x) = None)
    by (destruct Hp1 as [[-> ->]|(_ & -> & ->)]; done).
  split.
  - by eapply placed_same.
  - destruct Hp1 as [[_ ->]|(Hcp & _ & ->)]; [by left|right]. split; [by apply Hcl|done].
  - cbn. intros Hne. destruct (Hc Hne) as [Heq Hcp]. split; [|by apply Hcl].
    destruct Hp1 as [[_ ->]|(_ & Ht & _)]; [done|]. rewrite Heq in Ht. destruct Hcp as [Hh _].
    apply (f_equal pr_main) in Ht. cbn in Ht. congruence.
  - cbn. by rewrite count_in_use.
Qed.

Lemma main_step_managed sr x p :
  managed_inv x p ->
  exists es p', loop_run opts p es = Ok p' /\ managed_inv (managed_main_step opts sr x) p'.
Proof.
  intros [Hi Hb Hc Hn]. unfold managed_main_step. destruct (mp_closing x) as [d|] eqn:Hd.
  - destruct (Hc ltac:(done)) as [Hp [Hm Hs]]. exists [], p. split; [done|].
    unfold in_use in Hn. rewrite Hd in Hn.
    destruct (ms_close sr) as [e|]; (split; [done| |by destruct 1|]); unfold in_use; cbn.
    + right. by rewrite Hp.
    + rewrite Hp, Hs. lia.
    + by left.
    + rewrite Hp, Hs. lia.
  - destruct Hb as [Hp|[[Hm Hs] Hp]].
    + rewrite Hp. exists [LMain (connected_as opts sr)], (main_step opts (connected_as opts sr) p).
      split; [done|].
      destruct (main_step_sys (connected_as opts sr) p Hi) as [Hi' Hsys].
      rewrite connect_same in Hsys. unfold in_use in Hn. rewrite Hd, Hp in Hn.
      assert (Hplain : (pr_sys (main_step opts (connected_as opts sr) p) = None <-> pr_sys p = None) ->
        managed_inv (with_process (main_step opts (connected_as opts sr) p) x)
          (main_step opts (connected_as opts sr) p)).
      { intros Hiff. split; [done|by left|cbn; by rewrite Hd|]. cbn. rewrite count_in_use by (rewrite ?Hp; done).
        unfold in_use. by rewrite Hd, Hp. }
      destruct (pr_main p) eqn:Hm; try (by destruct (pr_sys p); apply Hplain).
      * destruct (pr_sys p) as [y|] eqn:Hy.
        { exfalso. unfold placed in Hi. by rewrite Hm, Hy in Hi. }
        destruct (managed_connect opts sr) as [dev|[|]]; (split; [done|by left|by destruct 1|]); cbn; unfold in_use; cbn;
          destruct (pr_sys (main_step _ _ _)) as [y|]; try lia;
          destruct Hsys as [Hs1 Hs2]; first [discriminate (Hs1 eq_refl)|discriminate (Hs2 eq_refl)].
      * destruct (pr_sys p) as [y|] eqn:Hy; [|by apply Hplain]. split; [done|by left|done|].
        cbn. unfold in_use. cbn. lia.
    + exists [], p. split; [done|]. rewrite Hp.
      unfold main_step. cbn [pr_main pr_sys goto].
      split; [done|by right|cbn; by rewrite Hd|]. cbn. unfold in_use. cbn. rewrite Hd, Hs.
      unfold in_use in Hn. rewrite Hd, Hp in Hn. cbn [pr_sys goto] in Hn. by rewrite Hs in Hn.
Qed.

Lemma managed_exec_beside x p e :
  managed_inv x p ->
  exists es, match managed_exec opts x e with
  | Ok x' => exists p', loop_run opts p es = Ok p' /\ managed_inv x' p'
  | Undefined why => loop_run opts p es = Undefined why
  end.
Proof.
  intros Hi. pose proof (mg_beside _ _ Hi) as Hb. destruct e as [sr|spurious|y stale]; cbn [managed_exec].
  - destruct (main_step_managed sr x p Hi) as (es & p' & Hr & Hx). exists es. by exists p'.
  - exists [LStop spurious]. unfold loop_run. cbn [foldM loop_exec].
    assert (Hx : stop_step spurious (mp_process x) = stop_step spurious p /\ mp_process x = p \/
      closed p /\ mp_process x = goto MThrown p /\
      stop_step spurious (mp_process x) = (p ← stop_step spurious p; Ok (goto MThrown p))).
    { destruct Hb as [->|[Hcl ->]]; [by left|right]. split_and!; [done..|by apply stop_step_thrown]. }
    destruct Hx as [[-> Hp]|(Hcl & Hp & ->)]; destruct (stop_step spurious p) as [p'|why] eqn:Hs; step_bind;
      try done; destruct (stop_step_sys _ _ _ Hs) as [Hm Hsys]; exists p'; (split; [done|]);
      apply (managed_inv_same x p); auto.
  - exists [LOthers y stale]. unfold loop_run. cbn [foldM loop_exec]. step_bind. eexists. split; [done|].
    apply (managed_inv_same x p); [done|unfold others_step; by destruct (pr_sys p)
      |unfold others_step; by destruct (pr_sys p) eqn:Hy; cbn; rewrite ?Hy|].
    destruct Hb as [->|[Hcl ->]]; [by left|right]. split_and!; [done..|].
    unfold others_step. cbn [pr_sys goto]. by destruct (pr_sys p).
Qed.

Lemma managed_run_beside es x p :
  managed_inv x p ->
  exists es', match managed_run opts x es with
  | Ok x' => exists p', loop_run opts p es' = Ok p' /\ managed_inv x' p'
  | Undefined why => loop_run opts p es' = Undefined why
  end.
Proof.
  revert x p. induction es as [|e es IH]; intros x p Hi.
  - exists []. by exists p.
  - destruct (managed_exec_beside x p e Hi) as (es1 & Hx). unfold managed_run. cbn [foldM].
    destruct (managed_exec opts x e) as [x1|why]; step_bind.
    + destruct Hx as (p1 & Hp1 & Hi1). destruct (IH x1 p1 Hi1) as (es2 & Hx2).
      exists (es1 ++ es2). unfold loop_run, managed_run in *. rewrite foldM_app, Hp1. exact Hx2.
    + by exists es1.
Qed.

Lemma new_managed_inv : managed_inv new_managed_process new_process.
Proof. split; [done|by left|by destruct 1|done]. Qed.

(** An event in which no wait ends spuriously. *)
Definition managed_no_wake (e : managed_event B) : bool :=
  match e with MgStop spurious => negb spurious | _ => true end.

(** Once [Close] has raised an exception the main thread is gone, and a caller of
    [serial_mux_stop] is never woken. *)
Lemma thrown_for_good es x x' :
  pr_main (mp_process x) = MThrown -> pr_sys (mp_process x) = None -> mp_closing x = None ->
  pr_stop (mp_process x) <> SReturned -> forallb managed_no_wake es = true ->
  managed_run opts x es = Ok x' ->
  pr_main (mp_process x') = MThrown /\ pr_stop (mp_process x') <> SReturned.
Proof.
  intros Hm Hs Hd Hp Hes. revert x Hm Hs Hd Hp. unfold managed_run.
  induction es as [|e es IH]; intros x Hm Hs Hd Hp; [by intros [= <-]|].
  cbn [forallb] in Hes. apply andb_true_iff in Hes as [He Hes]. cbn [foldM]. intros Hx.
  apply bind_Ok_inv in Hx as (x1 & H1 & Hx).
  enough (pr_main (mp_process x1) = MThrown /\ pr_sys (mp_process x1) = None /\ mp_closing x1 = None /\
    pr_stop (mp_process x1) <> SReturned) as (? & ? & ? & ?) by (by eapply IH).
  destruct e as [sr|[|]|y stale]; [| done| |]; cbn [managed_exec] in H1.
  - injection H1 as <-. unfold managed_main_step, main_step. by rewrite Hd, Hm.
  - unfold stop_step, mux_resetConnection in H1. rewrite Hs in H1.
    destruct (pr_stop (mp_process x)) eqn:Hst; [..|done]; injection H1 as <-; cbn; by rewrite ?Hst.
  - injection H1 as <-. unfold others_step. rewrite Hs. by split_and!.
Qed.

(** The end of a cycle: the link is deleted, then the connection is closed, and the
    loop starts again or ends; unless [Close] raises an exception. *)
Lemma managed_close x y sr es x' :
  mp_closing x = None -> pr_main (mp_process x) = MDeletePicard -> pr_sys (mp_process x) = Some y ->
  pr_stop (mp_process x) <> SReturned -> forallb managed_no_wake es = true ->
  let x1 := managed_main_step opts sr (managed_main_step opts sr x) in
  (ms_close sr = None -> closed (mp_process x1) /\ mp_closing x1 = None /\ mp_closed x1 = S (mp_closed x)) /\
  (ms_close sr <> None -> managed_run opts x1 es = Ok x' ->
   pr_main (mp_process x') = MThrown /\ pr_stop (mp_process x') <> SReturned).
Proof.
  intros Hd Hm Hy Hst Hes. unfold managed_main_step at 2. rewrite Hd, Hm, Hy. unfold managed_main_step.
  cbn [mp_closing]. unfold main_step. rewrite Hm, Hy. split.
  - intros ->. by split_and!.
  - destruct (ms_close sr) as [e|]; [|done]. intros _. by apply thrown_for_good.
Qed.
End facts.

(** ** Property *)


(** ** A run: the emulator is not there at first, then a whole cycle over UDP *)

Definition emulator_opts : SerialMuxOptions :=
  let o := new_SerialMuxOptions in
  {| configFile := configFile o; useSerial := false; serialPort := serialPort o;
     baudRate := baudRate o; useFlowControl := useFlowControl o; rtsDelay := rtsDelay o;
     emulatorPort := 60000; listenerPort := listenerPort o; acceptAnyhost := acceptAnyhost o;
     authToken := authToken o; picardTimeout := picardTimeout o; picardRetries := picardRetries o;
     readTimeout := readTimeout o; runAsDaemon := runAsDaemon o; serviceName := serviceName o;
     logLevel := logLevel o; logFile := logFile o; numLogBackups := numLogBackups o;
     maxLogSize := maxLogSize o |}.

Definition emulator (connect close : option clr_exception) : managed_surroundings datagram_log :=
  {| ms_serial := no_exception; ms_client := inr []; ms_connect := connect; ms_time := 100;
     ms_bind := true; ms_close := close |}.

(** What the threads make of new components: reset, each thread at its end. *)
Definition threads_done (y : system (picard_device clr_port datagram_log)) :
  system (picard_device clr_port datagram_log) :=
  let m := y_parts y in
  let y := with_parts (picard_stop (y_io y))
    {| x_mgr := x_mgr m; x_listener := x_listener m; x_stopped := true |} y in
  {| y_loop := y_loop y; y_pc := Exited; y_listen := LFinished |}.

Definition all_done : system (picard_device clr_port datagram_log) :=
  threads_done (new_system 2 100 (UdpDevice []) 9900 false sample_auth).

(** [Connect] fails once; then a cycle, in which the threads end at once, and the next
    start: three connections, one closed, one left open and one in use.  When
    [Close] raises an exception instead, two are left open and none is in use. *)
Definition emulator_cycle (close : option clr_exception) : list (managed_event datagram_log) :=
  let main := MgMain (emulator None close) in
  [main; main; MgMain (emulator (Some SocketException) None)] ++ replicate 4 main ++
  [MgOthers all_done []] ++ replicate 14 main.

Definition managed_after (es : list (managed_event datagram_log)) : managed_process datagram_log :=
  match managed_run emulator_opts new_managed_process es with Ok x => x | Undefined _ => new_managed_process end.

Definition connections (x : managed_process datagram_log) : nat * nat * nat * nat :=
  (mp_opened x, mp_closed x, mp_left x, in_use x).

Example emulator_cycles :
  (pr_main (mp_process (managed_after (emulator_cycle None))),
   connections (managed_after (emulator_cycle None))) = (MRun, (3, 1, 1, 1)%nat) /\
  (pr_main (mp_process (managed_after (emulator_cycle (Some SocketException)))),
   connections (managed_after (emulator_cycle (Some SocketException)))) = (MThrown, (2, 0, 2, 0)%nat).
Proof. vm_compute. split; reflexivity. Qed.
